(* ===== verification/_CoqProject ===== *)
-Q . S2P
Prelude.v
GoStrings.v
GoMaps.v
GoFmt.v
Utf8.v
Sha256.v
Contract.v
V1alpha1.v
Conditions.v
Observer.v
Images.v
Validator.v
Credentials.v
Prober.v
Metrics.v
Loader.v
LoaderConc.v
Overrides.v
Kube.v
Cluster.v
Readiness.v
Status.v
Verdict.v
Revisions.v
Reconcile.v
Isolation.v
Schema.v
Names.v
LevelTriggered.v
System.v
Gate.v
Interference.v
EventHandler.v
Queue.v
DashConfig.v
DashResources.v
Dashboard.v
Registration.v
Main.v
DeepCopy.v
