(* ===== verification/Prelude.v ===== *)
(** * pacto-operator: a verification development

    The operator watches [Pacto] objects. A Pacto names a contract (inline YAML or an
    image in an OCI registry) and the Service and workload that should honour it. Each
    reconcile loads the contract, applies configuration overrides, records an immutable
    [PactoRevision] per contract version, observes the target, probes its endpoints,
    decides how far the target complies and writes conditions, status, metrics and events.
    A second, independent loop keeps a dashboard deployed. This library models the Go code
    of both loops and of everything they call, and proves what it promises.

    ** Files and sources

    Sources are under [src/]; [controller/] stands for [internal/controller/].

    - [Prelude]: Go errors, fallible results, the state monad with panics ([M]), [int32]
      wrap-around, generic list lemmas, notations, the hint databases and tactics.
    - [GoStrings], [GoMaps], [GoFmt], [Sha256]: the parts of Go's library the code calls,
      on byte strings: searching, splitting, trimming, [strconv.Quote], base64, URL
      unescaping, SHA-256; maps with an unspecified iteration order (class [GoMaps]).
      [Utf8]: which strings are text, for [encoding/json].
    - [Contract]: the types of the pacto contract library and, as class [PactoLib], the
      functions of it the operator calls. [V1alpha1]: [api/v1alpha1/*_types.go] and
      [conditions.go]. [Conditions]: the condition helpers of the Kubernetes library.
    - [Observer] ([internal/observer/runtime.go]): what exists in the cluster.
    - [Images], [Validator] ([internal/validator/]): the checks and their verdict.
    - [Credentials] ([internal/credentials/resolve.go]): pull secrets.
    - [Prober] ([internal/prober/prober.go]), [Metrics] ([internal/metrics/metrics.go]).
    - [Loader], [LoaderConc] ([internal/loader/]): the contract loader and its caches, used
      by one caller and by many at once.
    - [Overrides], [Status], [Verdict], [Revisions], [Reconcile]
      ([controller/pacto_controller.go]): configuration overrides; the status derived from
      a contract; compliance; revisions; the handler [Reconcile] that composes them.
      [Readiness] is [controller/readiness.go], [EventHandler] is
      [controller/event_handler.go] with the watches of [SetupWithManager].
    - [Schema], [Names]: what the API server accepts as a status (the markers of
      [api/v1alpha1/*_types.go]) and as a revision, against what the operator writes.
    - [LevelTriggered]: a relational logic for the handlers; runs from different statuses.
    - [System]: the reconciler over time, as a transition system with changes by others;
      [Queue] composes it with the watches of [EventHandler] and the work queue.
      [Interference]: the same with others acting during a reconcile, between its calls.
      [Gate]: what the recorded events say about the readiness gate of one Pacto.
    - [Isolation]: a relational logic for runs on two loaders; contracts with credentials.
    - [Kube] is the interface of the reconciler to the API server, the loader, the event
      recorder and the metrics; [Cluster] is an implementation of it in memory.
    - [DashConfig], [DashResources], [Dashboard] ([internal/dashboard/config.go],
      [resources.go] and [apply.go], [reconciler.go]): the configuration, the objects and the
      reconciler of the dashboard. [Main] ([cmd/main.go]): start-up. [Registration]: the
      [init] functions before it, with [groupversion_info.go].
    - [DeepCopy] ([api/v1alpha1/zz_generated.deepcopy.go]): the generated copy functions, on
      a heap.

    ** How the code is represented

    A Go function without effects is a function; one that may fail returns [result]; a
    handler is a computation in [M S], which passes the state [S] on and ends with [Ret] or
    with [Panic]. The state of the reconciler ([RState] of [Kube]) is the world behind the
    API, the loader with its caches, and the traces of events and metric samples. API calls
    and network requests are operations of a type class on an arbitrary world; the classes
    ending in [Laws] state the documented behaviour the proofs use. Each such class has
    a concrete instance, on which the witnesses run. An API write may fail in any state, so the
    theorems about handlers cover every partial failure. Concurrency appears where the
    code shares state: loads as interleaved atomic regions ([LoaderConc.step]), the cached
    contract as a heap of maps and slices reached through references ([Overrides], second
    part), a reconcile among other workers and users ([Interference.SharedLaws]: each call
    that writes or takes time is preceded by steps of others), the dashboard's ticks with
    arbitrary changes by others in between.

    ** What is proved

    - The reconcile as a whole: whatever fails, the status it writes is well formed (a known
      contract status, one condition per type, the generation it observed); load, override
      and validation errors are reported in the status; each step records what it should.
    - The operator over time: with arbitrary changes by others between reconciles, what is
      stored refines a machine whose every step carries the request it handles and its
      result, and publishes a well-formed status of that Pacto exactly when it succeeds; a
      status that claims the present generation is well formed for the present spec in every
      reachable state; a worker settles every Pacto whose request succeeds. With watches and
      queue, a Pacto that is not waiting has a status computed from the present objects,
      unless a change came while the Pactos could not be listed or read (the code drops the
      event then); and every reconcile enqueues its own Pacto again.
    - Concurrency: with others acting between any two calls of a reconcile, it publishes at
      most one status, in one step, for the object that is stored at that moment; the
      invariants of the stored objects hold throughout.
    - Independence of the past: what a reconcile writes and answers is the same whatever the
      stored status was.
    - Acceptance: every status written conforms to the schema; a revision is accepted exactly
      when its Pacto's name is short and the version is a lower-case label.
    - Compliance: the final status as a function of the checks; each check on every
      branch; the observer against a description of the objects; the probes.
    - The contract in the status: independent of map orders; its numbers fit their 32-bit
      fields, and are the declared ones when those fit.
    - Image matching and pull secrets against specifications on structured references and
      on the list of credentials; encodings read back what was written.
    - The loader: answers are what an uncached load at a recent time would have been;
      an answer in the cache is given until it expires, whatever is loaded meanwhile;
      private credentials neither read from nor write to the shared cache, also under
      concurrency. A whole reconcile
      uses the credentials of its own Pacto only, and with a pull secret it depends on no
      cache and leaves nothing in one.
    - Overrides: the result by configuration name, and that the heap program computes it
      and writes to no object that existed before.
    - Start-up registers every gauge that is recorded and every kind that is read or written.
    - Revisions: names of at most 253 bytes, no revision is changed or removed, a second
      reconcile does nothing; one input on which the code panics.
    - Deep copies: each generated function fits its type, so that a copy is equal to the
      original and independent of it.
    - The readiness events of a Pacto alternate as long as its requests succeed and publish
      the gate's condition, whatever happens to others in between. Watches: an object that
      enqueues no Pacto cannot have changed what its reconcile observes.
    - Dashboard: the objects fit together; a reconcile deploys all of them or names the step
      that failed; the clean-up deletes only what carries the management labels when it is
      read; after a first reconcile that succeeded the loop ends with its context only; a
      configuration that passes start-up never makes the reconciler panic.

    The theorems whose comment starts with a number C1, C2, ... are the main ones.

    ** Recursion and bounds

    Most recursion is structural. Where it is on a string that shrinks by a decoded
    character the bound is the length in bytes, which is enough as every step removes at
    least one: [trim_front], [quote_loop]; [chunks] of [Sha256] likewise on a list. Loops over
    Go slices are folds, those of the ticker and of interleaved loads take the
    sequence of signals or steps. [int32] counters wrap as in Go ([int32]).

    ** Not modelled

    - [test/utils] (shells out for tests).
    - Parsing the command line, loggers and log lines, the manager and leader election:
      library code, of which the model keeps the calls whose results matter. The work queue
      is modelled by what it promises (the set of pending requests); together with it
      ([Queue]), a change by others that falls into a reconcile is one before or after it.
      In [Interference] too, two reads with no write, load or probe in between see the same
      objects.
    - The contract library, the registry client, HTTP, JSON and quantity parsing: code
      outside the repository, parameters here (of JSON the laws are those of text: a string
      that is not UTF-8 does not survive encoding). Contexts and time-outs are left to these. *)

From stdpp Require Export base gmap sets list strings pretty sorting.
From stdpp Require Import options.
From Stdlib Require Export Ascii.

#[global] Set Default Goal Selector "1".
Open Scope Z_scope.

(** ** Errors and fallible computations *)

(** The classes of Kubernetes API errors the code distinguishes
    ([apierrors.IsNotFound], [apierrors.IsAlreadyExists]); every other error is
    [KOther]. *)
Inductive error_kind : Type := KNotFound | KAlreadyExists | KOther.

#[export] Instance error_kind_eq_dec : EqDecision error_kind.
Proof. solve_decision. Defined.

(** A non-nil Go [error]: the status reason [errors.As] finds in it and the text
    [Error()] returns. *)
Record error : Type := mkError { err_kind : error_kind; err_text : string }.

#[export] Instance error_eq_dec : EqDecision error.
Proof. solve_decision. Defined.

(** [fmt.Errorf(s)] without an operand to wrap. *)
Definition Errorf (s : string) : error := mkError KOther s.

(** [fmt.Errorf(prefix + "%w", err)]: the text is prefixed, and the wrapped
    error's reason is still found by [errors.As]. *)
Definition Wrap (prefix : string) (e : error) : error :=
  mkError (err_kind e) (prefix +:+ err_text e).

(** [apierrors.IsNotFound(err)]. *)
Definition IsNotFound (e : error) : bool := bool_decide (err_kind e = KNotFound).

(** [apierrors.IsAlreadyExists(err)]. *)
Definition IsAlreadyExists (e : error) : bool :=
  bool_decide (err_kind e = KAlreadyExists).

(** A Go result [(value, err)] of which exactly one component is meaningful. *)
Inductive result (A : Type) : Type :=
| Ok (a : A)
| Err (e : error).
Arguments Ok {A} _.
Arguments Err {A} _.

#[export] Instance result_eq_dec {A} `{EqDecision A} : EqDecision (result A).
Proof. solve_decision. Defined.

#[export] Instance result_ret : MRet result := @Ok.
#[export] Instance result_bind : MBind result := λ _ _ f r,
  match r with Ok a => f a | Err e => Err e end.
#[export] Instance result_fmap : FMap result := λ _ _ f r,
  match r with Ok a => Ok (f a) | Err e => Err e end.

Definition is_ok {A} (r : result A) : bool :=
  match r with Ok _ => true | Err _ => false end.

(** [if err != nil { return fmt.Errorf(prefix + "%w", err) }]. *)
Definition map_err {A} (f : error → error) (r : result A) : result A :=
  match r with Ok a => Ok a | Err e => Err (f e) end.

(** ** Machine integers

    Go's [int] is 64 bits wide on the platforms the operator is built for; the
    conversions [int32(x)] and [int64(x)] wrap around in two's complement. *)

Definition wrap (w x : Z) : Z := (x + 2 ^ (w - 1)) mod 2 ^ w - 2 ^ (w - 1).
Abbreviation int32 := (wrap 32).
Abbreviation int64 := (wrap 64).

(** The range of a [w]-bit signed integer. *)
Definition in_range (w x : Z) : Prop := - 2 ^ (w - 1) ≤ x < 2 ^ (w - 1).

Lemma wrap_in_range w x : 0 < w → in_range w (wrap w x).
Proof.
  intros Hw. unfold in_range, wrap.
  assert (2 ^ w = 2 * 2 ^ (w - 1)) as Hpow.
  { rewrite <- Z.pow_succ_r by lia. f_equal. lia. }
  pose proof (Z.mod_pos_bound (x + 2 ^ (w - 1)) (2 ^ w) ltac:(lia)). lia.
Qed.

Lemma wrap_id w x : 0 < w → in_range w x → wrap w x = x.
Proof.
  intros Hw [Hlo Hhi]. unfold wrap.
  assert (2 ^ w = 2 * 2 ^ (w - 1)) as Hpow.
  { rewrite <- Z.pow_succ_r by lia. f_equal. lia. }
  rewrite Z.mod_small by lia. lia.
Qed.

Lemma int32_id x : in_range 32 x → int32 x = x.
Proof. apply wrap_id. lia. Qed.

Lemma int32_small x : 0 ≤ x < 2147483648 → int32 x = x.
Proof. intros ?. apply int32_id. unfold in_range. lia. Qed.

(** ** Effects

    Code that calls out of the process or writes shared state is a function of the
    state it acts on. [M S A] returns a value or the message of a run-time panic,
    together with the state reached. *)

Inductive outcome (A : Type) : Type :=
| Ret (a : A)
| Panic (msg : string).
Arguments Ret {A} _.
Arguments Panic {A} _.

Definition M (S A : Type) : Type := S → outcome A * S.

#[export] Instance M_ret {S} : MRet (M S) := λ _ a s, (Ret a, s).
#[export] Instance M_bind {S} : MBind (M S) := λ _ _ f m s,
  match m s with
  | (Ret a, s') => f a s'
  | (Panic p, s') => (Panic p, s')
  end.

(** A slice expression or an index out of range. *)
Definition panic {S A} (msg : string) : M S A := λ s, (Panic msg, s).

Definition get_state {S} : M S S := λ s, (Ret s, s).
Definition put_state {S} (s : S) : M S unit := λ _, (Ret tt, s).
Definition modify {S} (f : S → S) : M S unit := λ s, (Ret tt, f s).
Definition gets {S A} (f : S → A) : M S A := λ s, (Ret (f s), s).

(** An external operation given as a state transformer that does not panic. *)
Definition lift_op {S A} (f : S → A * S) : M S A := λ s, (Ret (f s).1, (f s).2).

Lemma M_bind_ret_l {S A B} (a : A) (f : A → M S B) s : (mret a ≫= f) s = f a s.
Proof. reflexivity. Qed.

Lemma M_bind_unfold {S A B} (m : M S A) (f : A → M S B) s :
  (m ≫= f) s = match m s with
               | (Ret a, s') => f a s'
               | (Panic p, s') => (Panic p, s')
               end.
Proof. reflexivity. Qed.

Lemma M_bind_Ret {S A B} (m : M S A) (f : A → M S B) s a s' :
  m s = (Ret a, s') → (m ≫= f) s = f a s'.
Proof. intros H. by rewrite M_bind_unfold, H. Qed.

(** A computation on one part of the state. *)
Definition zoom {S T A} (get : S → T) (set : T → S → S) (m : M T A) : M S A := λ s,
  let '(r, t) := m (get s) in (r, set t s).

(** [time.Now()]: the clock is part of the world. *)
Class Clock (W : Type) := now : W → Z.

(** ** Slices *)

(** [for _, x := range xs { f(x) }]. *)
Definition for_range {S A} (f : A → M S unit) : list A → M S unit :=
  fix go xs := match xs with
               | [] => mret tt
               | x :: xs' => f x ≫= λ _, go xs'
               end.

(** A boolean fold that never goes back to [false] once it has seen a hit. *)
Lemma existsb_elem {A} (f : A → bool) (l : list A) :
  existsb f l = true ↔ ∃ x, x ∈ l ∧ f x = true.
Proof.
  rewrite existsb_exists. split; intros (x & ? & ?); exists x;
    by rewrite ?list_elem_of_In, <- ?list_elem_of_In in *.
Qed.

Lemma existsb_false_elem {A} (f : A → bool) (l : list A) :
  existsb f l = false ↔ ∀ x, x ∈ l → f x = false.
Proof.
  rewrite <- not_true_iff_false, existsb_elem. split.
  - intros Hno x Hx. destruct (f x) eqn:E; [|done]. destruct Hno. by exists x.
  - intros Hall (x & Hx & E). rewrite Hall in E; done.
Qed.

Lemma forallb_elem {A} (f : A → bool) (l : list A) :
  forallb f l = true ↔ ∀ x, x ∈ l → f x = true.
Proof.
  rewrite forallb_forall. by setoid_rewrite list_elem_of_In.
Qed.

Lemma filter_nil_iff {A} (P : A → Prop) `{!∀ x, Decision (P x)} (l : list A) :
  filter P l = [] ↔ ∀ x, x ∈ l → ¬ P x.
Proof.
  split.
  - intros Hnil x Hx HP.
    assert (x ∈ filter P l) as Hin by (by apply list_elem_of_filter).
    rewrite Hnil in Hin. inversion Hin.
  - intros Hall. induction l as [|x l IH]; [done|].
    rewrite filter_cons, decide_False by (apply Hall; left). apply IH.
    intros y Hy. apply Hall. by right.
Qed.

(** ** Tactics and hints *)

(** Split every conjunction, match and [if] in sight, then close by computation. *)
Ltac case_all :=
  repeat (case_match || case_bool_decide); simplify_eq/=; try done.

(** Rewrite with the boolean reflections the model's guards use. *)
Ltac reflect_bools :=
  repeat match goal with
  | H : bool_decide _ = true |- _ => apply bool_decide_eq_true_1 in H
  | H : bool_decide _ = false |- _ => apply bool_decide_eq_false_1 in H
  | H : _ && _ = true |- _ => apply andb_true_iff in H as [? ?]
  | H : _ || _ = false |- _ => apply orb_false_iff in H as [? ?]
  | H : negb _ = true |- _ => apply negb_true_iff in H
  | H : negb _ = false |- _ => apply negb_false_iff in H
  end.

(** Resolve the decisions on conjunctions of boolean equations that compute. *)
Ltac solve_decides :=
  repeat match goal with
  | |- context [@decide ?P _] =>
      first [ rewrite (decide_True (P := P)) by (repeat split; reflexivity)
            | rewrite (decide_False (P := P)) by (intros ?; destruct_and?; discriminate) ]
  end.

(** A setter of one record field: [eta] is the eta-expansion of the record and
    [proj] the projection; the field is abstracted out of the expansion. *)
Ltac set_field eta proj :=
  let r := constr:(fun v s => ltac:(
    let t := eval cbv beta delta [eta] in (eta s) in
    let p := eval pattern (proj s) in t in
    match p with
    | ?f _ => let b := eval cbv beta in (f v) in exact b
    end)) in
  exact r.

Create HintDb pacto discriminated.
#[export] Hint Resolve int32_small : pacto.
