(* ===== verification/GoStrings.v ===== *)
(** * Go strings

    The functions of Go's [strings], [fmt], [strconv] and [sort] packages that the
    operator calls, on Go strings: a Go string is a sequence of bytes and is
    represented by [string], whose [ascii] characters are bytes. Slicing and
    searching are by byte position, as in Go. *)

From S2P Require Import Prelude.
From stdpp Require Import options.

(** ** Slicing *)

(** [len(s)]. *)
Abbreviation len := String.length.

(** [s[:n]] for [n <= len(s)]. *)
Fixpoint str_take (n : nat) (s : string) : string :=
  match n, s with
  | S n, String c s => String c (str_take n s)
  | _, _ => ""
  end.

(** [s[n:]] for [n <= len(s)]. *)
Fixpoint str_drop (n : nat) (s : string) : string :=
  match n, s with
  | S n, String _ s => str_drop n s
  | _, _ => s
  end.

(** [s[:n]] with the bounds check of the language: [None] is the run-time panic
    "slice bounds out of range". *)
Definition slice_to (n : nat) (s : string) : option string :=
  if bool_decide (n ≤ len s)%nat then Some (str_take n s) else None.

(** ** Searching *)

(** [strings.HasPrefix(s, p)]. *)
Definition HasPrefix (s p : string) : bool := String.prefix p s.

(** First and last byte position at which [sub] occurs in [s]. *)
Fixpoint find_first (sub s : string) : option nat :=
  if String.prefix sub s then Some 0%nat
  else match s with
       | "" => None
       | String _ s' => S <$> find_first sub s'
       end.

Fixpoint find_last (sub s : string) : option nat :=
  match s with
  | "" => if String.prefix sub "" then Some 0%nat else None
  | String _ s' =>
      match find_last sub s' with
      | Some i => Some (S i)
      | None => if String.prefix sub s then Some 0%nat else None
      end
  end.

(** The [-1] convention of [strings.Index] and [strings.LastIndex]. *)
Definition or_minus_one (o : option nat) : Z := from_option Z.of_nat (-1) o.

(** [strings.Index(s, sub)]. *)
Definition Index (s sub : string) : Z := or_minus_one (find_first sub s).

(** [strings.LastIndex(s, sub)]. *)
Definition LastIndex (s sub : string) : Z := or_minus_one (find_last sub s).

(** [strings.Contains(s, sub)]: [Index(s, sub) >= 0]. *)
Definition Contains (s sub : string) : bool := bool_decide (0 ≤ Index s sub).

(** Does the byte [c] occur in [s]? *)
Fixpoint has_byte (c : ascii) (s : string) : bool :=
  match s with
  | "" => false
  | String d s' => Ascii.eqb c d || has_byte c s'
  end.

(** [strings.ContainsAny(s, chars)] for ASCII [chars]. *)
Definition ContainsAny (s chars : string) : bool :=
  existsb (λ c, has_byte c s) (String.list_ascii_of_string chars).

(** [strings.TrimPrefix(s, p)]. *)
Definition TrimPrefix (s p : string) : string :=
  if HasPrefix s p then str_drop (len p) s else s.

(** [strings.Cut(s, sep)]: the text before and after the first [sep], and
    whether [sep] was found. *)
Definition Cut (s sep : string) : string * string * bool :=
  match find_first sep s with
  | Some i => (str_take i s, str_drop (i + len sep) s, true)
  | None => (s, "", false)
  end.

(** [strings.SplitN(s, sep, 2)] for a non-empty [sep]. *)
Definition SplitN2 (s sep : string) : list string :=
  match find_first sep s with
  | Some i => [str_take i s; str_drop (i + len sep) s]
  | None => [s]
  end.

(** [strings.Split(s, sep)] for a one-byte separator: the (never empty) list of
    the substrings between separators. *)
Fixpoint Split (s : string) (sep : ascii) : list string :=
  match s with
  | "" => [""]
  | String c s' =>
      if Ascii.eqb c sep then "" :: Split s' sep
      else match Split s' sep with
           | [] => [String c ""]
           | w :: ws => String c w :: ws
           end
  end.

(** [strings.Split(s, sep)[0]]. *)
Definition first_segment (s : string) (sep : ascii) : string :=
  default "" (head (Split s sep)).

(** [strings.Join(elems, sep)]. *)
Fixpoint Join (elems : list string) (sep : string) : string :=
  match elems with
  | [] => ""
  | [x] => x
  | x :: xs => x +:+ sep +:+ Join xs sep
  end.

(** [strings.ReplaceAll(s, old, new)] for one-byte [old] and [new]. *)
Fixpoint ReplaceAll (s : string) (old new : ascii) : string :=
  match s with
  | "" => ""
  | String c s' => String (if Ascii.eqb c old then new else c) (ReplaceAll s' old new)
  end.

(** Reversal, used to describe trimming at the end of a string. *)
Definition str_rev (s : string) : string :=
  String.string_of_list_ascii (reverse (String.list_ascii_of_string s)).

(** [strings.TrimLeft(s, string(c))] and [strings.TrimRight(s, string(c))]. *)
Fixpoint TrimLeft (s : string) (c : ascii) : string :=
  match s with
  | "" => ""
  | String d s' => if Ascii.eqb c d then TrimLeft s' c else s
  end.

Definition TrimRight (s : string) (c : ascii) : string :=
  str_rev (TrimLeft (str_rev s) c).

(** The UTF-8 encodings of the code points [unicode.IsSpace] accepts. *)
Definition utf8 (bs : list nat) : string :=
  String.string_of_list_ascii (ascii_of_nat <$> bs).

Definition space_encodings : list string :=
  utf8 <$>
  [[9]; [10]; [11]; [12]; [13]; [32];          (* \t \n \v \f \r and space *)
   [194; 133]; [194; 160];                     (* U+0085, U+00A0 *)
   [225; 154; 128];                            (* U+1680 *)
   [226; 128; 128]; [226; 128; 129]; [226; 128; 130]; [226; 128; 131];
   [226; 128; 132]; [226; 128; 133]; [226; 128; 134]; [226; 128; 135];
   [226; 128; 136]; [226; 128; 137]; [226; 128; 138]; (* U+2000 .. U+200A *)
   [226; 128; 168]; [226; 128; 169]; [226; 128; 175]; (* U+2028 U+2029 U+202F *)
   [226; 129; 159]; [227; 128; 128]]%nat.      (* U+205F, U+3000 *)

(** Remove encodings in [encs] from the front of [s], [fuel] times at most. *)
Fixpoint trim_front (fuel : nat) (encs : list string) (s : string) : string :=
  match fuel with
  | O => s
  | S fuel =>
      match list_find (λ e, HasPrefix s e = true) encs with
      | Some (_, e) => trim_front fuel encs (str_drop (len e) s)
      | None => s
      end
  end.

(** [strings.TrimSpace(s)]. Every removal drops at least one byte, so [len s]
    rounds reach the first non-space code point; UTF-8 is self-synchronising, so
    the end of the string is trimmed by the reversed encodings. *)
Definition TrimSpace (s : string) : string :=
  let front := trim_front (len s) space_encodings s in
  str_rev (trim_front (len front) (str_rev <$> space_encodings) (str_rev front)).

(** ** Lemmas *)

(** The one-byte string. *)
Abbreviation byte c := (String c "").

Lemma len_app a b : len (a +:+ b) = (len a + len b)%nat.
Proof.
  induction a as [|c a IH]; [done|].
  change (S (len (a +:+ b)) = S (len a + len b)). lia.
Qed.

Lemma app_cons c a b : String c a +:+ b = String c (a +:+ b).
Proof. reflexivity. Qed.

Lemma app_empty_l a : "" +:+ a = a.
Proof. reflexivity. Qed.

Lemma app_byte c a : byte c +:+ a = String c a.
Proof. reflexivity. Qed.

Lemma app_empty_r a : a +:+ "" = a.
Proof. induction a as [|c a IH]; [done|]. by rewrite app_cons, IH. Qed.

Lemma app_assoc_str a b c : (a +:+ b) +:+ c = a +:+ (b +:+ c).
Proof. induction a as [|x a IH]; [done|]. by rewrite !app_cons, IH. Qed.

Lemma app_inj_l a b c : a +:+ b = a +:+ c → b = c.
Proof.
  induction a as [|x a IH]; [done|]. rewrite !app_cons. intros [= H]. by apply IH.
Qed.

(** Two concatenations with equally long left parts. *)
Lemma app_inj_len a1 a2 b1 b2 :
  len a1 = len a2 → a1 +:+ b1 = a2 +:+ b2 → a1 = a2 ∧ b1 = b2.
Proof.
  revert a2. induction a1 as [|x a1 IH]; intros [|y a2] Hlen; cbn in Hlen; try done.
  rewrite !app_cons. intros [= -> Heq]. injection Hlen as Hlen.
  destruct (IH a2 Hlen Heq) as [-> ->]. done.
Qed.

Lemma app_inj_r a1 a2 b : a1 +:+ b = a2 +:+ b → a1 = a2.
Proof.
  intros H. apply (f_equal len) in H as Hlen. rewrite !len_app in Hlen.
  apply app_inj_len in H as [? _]; [done|lia].
Qed.

Lemma str_take_app a b : str_take (len a) (a +:+ b) = a.
Proof.
  induction a as [|x a IH]; [by destruct b|]. rewrite app_cons. cbn. by rewrite IH.
Qed.

Lemma str_drop_app a b : str_drop (len a) (a +:+ b) = b.
Proof. induction a as [|x a IH]; [done|]. rewrite app_cons. cbn. by rewrite IH. Qed.

Lemma str_take_drop n s : str_take n s +:+ str_drop n s = s.
Proof.
  revert s. induction n as [|n IH]; intros s; [by destruct s|].
  destruct s as [|c s]; [done|]. cbn. by rewrite app_cons, IH.
Qed.

Lemma str_take_length n s : (n ≤ len s)%nat → len (str_take n s) = n.
Proof.
  revert s. induction n as [|n IH]; intros [|c s] H; cbn in *; try done; try lia.
  f_equal. apply IH. lia.
Qed.

Lemma str_take_all n s : (len s ≤ n)%nat → str_take n s = s.
Proof.
  revert s. induction n as [|n IH]; intros [|c s] H; cbn in *; try done; try lia.
  f_equal. apply IH. lia.
Qed.

Lemma slice_to_Some n s : (n ≤ len s)%nat → slice_to n s = Some (str_take n s).
Proof. intros H. unfold slice_to. by rewrite bool_decide_eq_true_2. Qed.

Lemma slice_to_None n s : (len s < n)%nat → slice_to n s = None.
Proof. intros H. unfold slice_to. rewrite bool_decide_eq_false_2; [done|lia]. Qed.

(** *** Prefixes *)

Lemma slice_to_None_inv n s : slice_to n s = None → (len s < n)%nat.
Proof.
  intros H. destruct (decide (len s < n)%nat); [done|].
  by rewrite slice_to_Some in H by lia.
Qed.

Lemma HasPrefix_app p s : HasPrefix (p +:+ s) p = true.
Proof.
  unfold HasPrefix. induction p as [|c p IH]; [by destruct s|].
  rewrite app_cons. cbn. by destruct (ascii_dec c c).
Qed.

Lemma HasPrefix_spec s p : HasPrefix s p = true ↔ ∃ r, s = p +:+ r.
Proof.
  split; [|intros [r ->]; apply HasPrefix_app].
  unfold HasPrefix. revert s. induction p as [|c p IH]; intros s H; [by exists s|].
  destruct s as [|d s]; [done|]. cbn in H.
  destruct (ascii_dec c d) as [<-|]; [|done].
  destruct (IH s H) as [r ->]. by exists r.
Qed.

Lemma TrimPrefix_app p s : TrimPrefix (p +:+ s) p = s.
Proof. unfold TrimPrefix. by rewrite HasPrefix_app, str_drop_app. Qed.

Lemma TrimPrefix_id p s : HasPrefix s p = false → TrimPrefix s p = s.
Proof. unfold TrimPrefix. by intros ->. Qed.

(** *** Bytes *)

Lemma has_byte_app c a b : has_byte c (a +:+ b) = has_byte c a || has_byte c b.
Proof.
  induction a as [|d a IH]; [done|]. rewrite app_cons. cbn. by rewrite IH, orb_assoc.
Qed.

Lemma has_byte_split c s :
  has_byte c s = true → ∃ a b, s = a +:+ String c b ∧ has_byte c a = false.
Proof.
  induction s as [|d s IH]; [done|]. cbn.
  destruct (Ascii.eqb_spec c d) as [<-|Hne]; cbn.
  - intros _. by exists "", s.
  - intros H. destruct (IH H) as (a & b & -> & Ha).
    exists (String d a), b. split; [done|]. cbn.
    by destruct (Ascii.eqb_spec c d).
Qed.

Lemma has_byte_split_last c s :
  has_byte c s = true → ∃ a b, s = a +:+ String c b ∧ has_byte c b = false.
Proof.
  induction s as [|d s IH]; [done|]. cbn.
  destruct (has_byte c s) eqn:E.
  - intros _. destruct (IH eq_refl) as (a & b & -> & Hb). by exists (String d a), b.
  - rewrite orb_false_r. destruct (Ascii.eqb_spec c d) as [<-|]; [|done].
    intros _. by exists "", s.
Qed.

(** *** Positions of a byte *)

Lemma prefix_byte c d s : String.prefix (byte c) (String d s) = Ascii.eqb c d.
Proof.
  cbn. destruct (ascii_dec c d) as [<-|Hne]; [by rewrite Ascii.eqb_refl; destruct s|].
  by destruct (Ascii.eqb_spec c d).
Qed.

Lemma find_first_byte c d s :
  find_first (byte c) (String d s) =
  if Ascii.eqb c d then Some 0%nat else S <$> find_first (byte c) s.
Proof. cbn [find_first]. by rewrite prefix_byte. Qed.

Lemma find_last_byte c d s :
  find_last (byte c) (String d s) =
  match find_last (byte c) s with
  | Some i => Some (S i)
  | None => if Ascii.eqb c d then Some 0%nat else None
  end.
Proof. cbn [find_last]. by rewrite prefix_byte. Qed.

Lemma find_first_none c s : has_byte c s = false → find_first (byte c) s = None.
Proof.
  induction s as [|d s IH]; [done|]. cbn [has_byte]. intros [E H]%orb_false_iff.
  by rewrite find_first_byte, E, IH.
Qed.

Lemma find_last_none c s : has_byte c s = false → find_last (byte c) s = None.
Proof.
  induction s as [|d s IH]; [done|]. cbn [has_byte]. intros [E H]%orb_false_iff.
  by rewrite find_last_byte, E, IH.
Qed.

Lemma find_first_app c a b :
  has_byte c a = false → find_first (byte c) (a +:+ String c b) = Some (len a).
Proof.
  induction a as [|d a IH]; cbn [has_byte]; rewrite ?app_cons, ?app_empty_l.
  - intros _. by rewrite find_first_byte, Ascii.eqb_refl.
  - intros [E H]%orb_false_iff. by rewrite find_first_byte, E, IH.
Qed.

Lemma find_last_app c a b :
  has_byte c b = false → find_last (byte c) (a +:+ String c b) = Some (len a).
Proof.
  intros Hb. induction a as [|d a IH]; rewrite ?app_cons, ?app_empty_l, find_last_byte.
  - by rewrite find_last_none, Ascii.eqb_refl.
  - by rewrite IH.
Qed.

(** The split of a string at its last, or first, separator is unique. *)
Lemma split_last_inj c a b a' b' :
  has_byte c b = false → has_byte c b' = false →
  a +:+ String c b = a' +:+ String c b' → a = a' ∧ b = b'.
Proof.
  intros Hb Hb' Heq. pose proof (find_last_app c a b Hb) as H1.
  rewrite Heq, find_last_app in H1 by done. injection H1 as Hlen.
  apply app_inj_len in Heq as [-> [= ->]]; done.
Qed.

Lemma split_first_inj c a b a' b' :
  has_byte c a = false → has_byte c a' = false →
  a +:+ String c b = a' +:+ String c b' → a = a' ∧ b = b'.
Proof.
  intros Ha Ha' Heq. pose proof (find_first_app c a b Ha) as H1.
  rewrite Heq, find_first_app in H1 by done. injection H1 as Hlen.
  apply app_inj_len in Heq as [-> [= ->]]; done.
Qed.

Lemma Index_none c s : has_byte c s = false → Index s (byte c) = -1.
Proof. intros H. unfold Index. by rewrite find_first_none. Qed.

Lemma Index_app c a b :
  has_byte c a = false → Index (a +:+ String c b) (byte c) = Z.of_nat (len a).
Proof. intros H. unfold Index. by rewrite find_first_app. Qed.

Lemma LastIndex_none c s : has_byte c s = false → LastIndex s (byte c) = -1.
Proof. intros H. unfold LastIndex. by rewrite find_last_none. Qed.

Lemma LastIndex_app c a b :
  has_byte c b = false → LastIndex (a +:+ String c b) (byte c) = Z.of_nat (len a).
Proof. intros H. unfold LastIndex. by rewrite find_last_app. Qed.

Lemma Contains_byte c s : Contains s (byte c) = has_byte c s.
Proof.
  unfold Contains. destruct (has_byte c s) eqn:E.
  - apply has_byte_split in E as (a & b & -> & Ha).
    rewrite Index_app by done. apply bool_decide_eq_true_2. lia.
  - rewrite Index_none by done. apply bool_decide_eq_false_2. lia.
Qed.

Lemma ContainsAny_two c d s :
  ContainsAny s (String c (byte d)) = has_byte c s || has_byte d s.
Proof. unfold ContainsAny. cbn. by rewrite orb_false_r. Qed.

Lemma Split_not_nil s c : Split s c ≠ [].
Proof. destruct s as [|d s]; cbn; [done|]. destruct (Ascii.eqb d c), (Split s c); done. Qed.

Lemma Split_app sep a b :
  has_byte sep a = false → Split (a +:+ String sep b) sep = a :: Split b sep.
Proof.
  induction a as [|c a IH]; cbn [has_byte]; intros Ha.
  - rewrite app_empty_l. cbn [Split]. by rewrite Ascii.eqb_refl.
  - apply orb_false_iff in Ha as [Hc Ha]. rewrite app_cons. cbn [Split].
    by rewrite Ascii.eqb_sym, Hc, IH.
Qed.

Lemma Split_none sep a : has_byte sep a = false → Split a sep = [a].
Proof.
  induction a as [|c a IH]; cbn [has_byte]; intros Ha; [done|].
  apply orb_false_iff in Ha as [Hc Ha]. cbn [Split]. by rewrite Ascii.eqb_sym, Hc, IH.
Qed.

Lemma first_segment_cons d s c :
  first_segment (String d s) c = if Ascii.eqb d c then "" else String d (first_segment s c).
Proof.
  unfold first_segment. cbn. destruct (Ascii.eqb d c); [done|].
  pose proof (Split_not_nil s c). by destruct (Split s c).
Qed.

(** The first segment ends at the first separator. *)
Lemma first_segment_app a b c :
  has_byte c a = false → first_segment (a +:+ String c b) c = a.
Proof.
  induction a as [|d a IH]; cbn [has_byte]; rewrite ?app_cons, ?app_empty_l, first_segment_cons.
  - by rewrite Ascii.eqb_refl.
  - intros [E H]%orb_false_iff. rewrite Ascii.eqb_sym, E. by rewrite IH.
Qed.

Lemma first_segment_none s c : has_byte c s = false → first_segment s c = s.
Proof.
  induction s as [|d s IH]; [done|]. cbn [has_byte]. intros [E H]%orb_false_iff.
  rewrite first_segment_cons, Ascii.eqb_sym, E. by rewrite IH.
Qed.

Lemma Cut_app a b c :
  has_byte c a = false → Cut (a +:+ String c b) (byte c) = (a, b, true).
Proof.
  intros H. unfold Cut. rewrite find_first_app by done. rewrite str_take_app.
  replace (a +:+ String c b) with ((a +:+ byte c) +:+ b) by (by rewrite app_assoc_str).
  replace (len a + len (byte c))%nat with (len (a +:+ byte c)) by (by rewrite len_app).
  by rewrite str_drop_app.
Qed.

Lemma Cut_none s c : has_byte c s = false → Cut s (byte c) = (s, "", false).
Proof. intros H. unfold Cut. by rewrite find_first_none. Qed.

Lemma SplitN2_app a b c :
  has_byte c a = false → SplitN2 (a +:+ String c b) (byte c) = [a; b].
Proof.
  intros H. pose proof (Cut_app a b c H) as HC. unfold Cut in HC. unfold SplitN2.
  rewrite find_first_app in HC |- * by done. injection HC as H1 H2.
  rewrite H1. cbn in *. by rewrite H2.
Qed.

Lemma SplitN2_none s c : has_byte c s = false → SplitN2 s (byte c) = [s].
Proof. intros H. unfold SplitN2. by rewrite find_first_none. Qed.

(** Cutting at the first [c] leaves no [c]. *)
Lemma find_first_take c s i :
  find_first (byte c) s = Some i → has_byte c (str_take i s) = false.
Proof.
  revert i. induction s as [|d s IH]; intros i; [done|].
  rewrite find_first_byte. destruct (Ascii.eqb c d) eqn:E.
  - intros [= <-]. done.
  - destruct (find_first (byte c) s) as [j|]; [|done]. intros [= <-].
    cbn [str_take has_byte]. by rewrite E, IH.
Qed.

Lemma find_first_none_iff c s :
  find_first (byte c) s = None ↔ has_byte c s = false.
Proof.
  split; [|apply find_first_none]. induction s as [|d s IH]; [done|].
  rewrite find_first_byte. cbn [has_byte]. destruct (Ascii.eqb c d); [done|].
  destruct (find_first (byte c) s); [done|]. auto.
Qed.

(** A separator that contains [c] does not occur in a string without [c]. *)
Lemma find_first_needs c sub s :
  has_byte c sub = true → has_byte c s = false → find_first sub s = None.
Proof.
  intros Hsub. induction s as [|d s IH]; cbn [find_first].
  - by destruct sub.
  - cbn [has_byte]. intros [E H]%orb_false_iff.
    destruct (String.prefix sub (String d s)) eqn:Hp.
    + apply HasPrefix_spec in Hp as [r Hr].
      assert (has_byte c (String d s) = true) as Hc by (by rewrite Hr, has_byte_app, Hsub).
      cbn [has_byte] in Hc. by rewrite E, H in Hc.
    + by rewrite IH.
Qed.

Lemma str_rev_involutive s : str_rev (str_rev s) = s.
Proof.
  unfold str_rev. rewrite String.list_ascii_of_string_of_list_ascii, reverse_involutive.
  apply String.string_of_list_ascii_of_string.
Qed.

Lemma has_byte_list c s : has_byte c s = bool_decide (c ∈ String.list_ascii_of_string s).
Proof.
  induction s as [|d s IH]; [done|]. cbn. rewrite IH.
  destruct (Ascii.eqb_spec c d) as [->|Hne]; cbn.
  - symmetry. apply bool_decide_eq_true_2. by left.
  - apply bool_decide_ext. rewrite elem_of_cons. naive_solver.
Qed.

Lemma has_byte_rev c s : has_byte c (str_rev s) = has_byte c s.
Proof.
  rewrite !has_byte_list. apply bool_decide_ext. unfold str_rev.
  by rewrite String.list_ascii_of_string_of_list_ascii, elem_of_reverse.
Qed.

Lemma TrimLeft_id s c : has_byte c s = false → TrimLeft s c = s.
Proof. destruct s as [|d s]; [done|]. cbn. by intros [-> _]%orb_false_iff. Qed.

Lemma TrimRight_id s c : has_byte c s = false → TrimRight s c = s.
Proof.
  intros H. unfold TrimRight. rewrite TrimLeft_id by (by rewrite has_byte_rev).
  apply str_rev_involutive.
Qed.

Lemma find_first_skip c a b :
  has_byte c a = false →
  find_first (byte c) (a +:+ b) = (λ j, len a + j)%nat <$> find_first (byte c) b.
Proof.
  induction a as [|d a IH]; cbn [has_byte]; rewrite ?app_cons, ?app_empty_l.
  - intros _. by destruct (find_first _ b).
  - intros [E H]%orb_false_iff. rewrite find_first_byte, E, IH by done.
    by destruct (find_first _ b).
Qed.

Lemma str_take_skip a b j : str_take (len a + j) (a +:+ b) = a +:+ str_take j b.
Proof.
  induction a as [|d a IH]; rewrite ?app_cons, ?app_empty_l; [done|].
  cbn. by rewrite IH.
Qed.

Lemma find_last_skip c a b :
  find_last (byte c) (a +:+ b) =
  match find_last (byte c) b with
  | Some j => Some (len a + j)%nat
  | None => find_last (byte c) a
  end.
Proof.
  induction a as [|d a IH]; rewrite ?app_cons, ?app_empty_l.
  - cbn [len Nat.add]. by destruct (find_last _ b).
  - rewrite !find_last_byte, IH. by destruct (find_last _ b).
Qed.

Create Rewrite HintDb strs.
#[export] Hint Rewrite app_cons app_empty_l app_empty_r app_assoc_str : strs.
#[export] Hint Resolve HasPrefix_app find_first_app find_last_app : pacto.
