(* ===== verification/GoMaps.v ===== *)
(** * Go maps and sorting

    A Go map is a [gmap]. [for k, v := range m] visits the entries in an order the
    language leaves open: [GoMaps] gives one order per map, and a definition that
    ranges over a map takes the order from there, so that a theorem about it holds
    for every order the runtime may choose. [sort.Strings] is [sort_Strings]. *)

From S2P Require Import Prelude GoStrings.
From stdpp Require Import options.

Class GoMaps := {
  range : ∀ {V : Type}, gmap string V → list (string * V);
  range_perm : ∀ {V : Type} (m : gmap string V), range m ≡ₚ map_to_list m
}.

(** One admissible order, for examples. *)
#[local] Program Instance canonical_order : GoMaps := {| range := λ V m, map_to_list m |}.
Next Obligation. done. Qed.

(** The order that visits the key [k] first, when the map has it. *)
Definition visit_first {V} (k : string) (m : gmap string V) : list (string * V) :=
  match m !! k with
  | Some v => (k, v) :: map_to_list (delete k m)
  | None => map_to_list m
  end.

Lemma visit_first_perm {V} k (m : gmap string V) : visit_first k m ≡ₚ map_to_list m.
Proof.
  unfold visit_first. destruct (m !! k) as [v|] eqn:E; [|done].
  by apply map_to_list_delete.
Qed.

Definition order_from (k : string) : GoMaps :=
  {| range := λ V, visit_first k; range_perm := λ V, visit_first_perm k |}.

(** [sort.Strings(xs)]: ascending byte order; strings are totally ordered by it, so
    every sorting algorithm gives the same list. *)
Definition sort_Strings (xs : list string) : list string := merge_sort String.le xs.

Section facts.
Lemma sort_Strings_perm xs : sort_Strings xs ≡ₚ xs.
Proof. apply merge_sort_Permutation. Qed.

Lemma sort_Strings_sorted xs : StronglySorted String.le (sort_Strings xs).
Proof. apply StronglySorted_merge_sort; apply _. Qed.

Lemma sort_Strings_unique xs ys : xs ≡ₚ ys → sort_Strings xs = sort_Strings ys.
Proof.
  intros Hp. apply (StronglySorted_unique String.le); try apply sort_Strings_sorted.
  by rewrite !sort_Strings_perm.
Qed.

Lemma elem_of_sort_Strings x xs : x ∈ sort_Strings xs ↔ x ∈ xs.
Proof. by rewrite sort_Strings_perm. Qed.

Context `{GoMaps}.

Lemma elem_of_range {V} (m : gmap string V) k v : (k, v) ∈ range m ↔ m !! k = Some v.
Proof. by rewrite range_perm, elem_of_map_to_list. Qed.

Lemma range_keys_NoDup {V} (m : gmap string V) : NoDup (range m).*1.
Proof. rewrite range_perm. apply NoDup_fst_map_to_list. Qed.

Lemma range_empty {V} : range (∅ : gmap string V) = [].
Proof. apply Permutation_nil_r. by rewrite range_perm, map_to_list_empty. Qed.

Lemma range_keys_perm {V} (m : gmap string V) : (range m).*1 ≡ₚ elements (dom m).
Proof.
  apply NoDup_Permutation; [apply range_keys_NoDup|apply NoDup_elements|].
  intros k. rewrite elem_of_elements, elem_of_dom, list_elem_of_fmap. split.
  - intros ([k' v] & -> & Hkv%elem_of_range). by exists v.
  - intros [v Hv%elem_of_range]. by exists (k, v).
Qed.

(** The sorted keys of a map do not depend on the order of the iteration. *)
Lemma sorted_keys {V} (m : gmap string V) :
  sort_Strings (range m).*1 = sort_Strings (elements (dom m)).
Proof. apply sort_Strings_unique, range_keys_perm. Qed.
End facts.
