(* ===== verification/GoFmt.v ===== *)
(** * Formatting and encodings

    The verbs of [fmt.Sprintf] the operator uses ([%d], [%s], [%q], [%x], [%v] on
    [[]int32]), [encoding/base64.StdEncoding] and [net/url.QueryUnescape], on byte
    strings. *)

From S2P Require Import Prelude GoStrings.
From stdpp Require Import options.

(** ** Bytes *)

Definition byte_of (c : ascii) : Z := Z.of_N (N_of_ascii c).

(** Classes of characters. *)
Definition is_digit (c : ascii) : bool := (48 <=? byte_of c) && (byte_of c <=? 57).
Definition is_lower (c : ascii) : bool := (97 <=? byte_of c) && (byte_of c <=? 122).
Definition is_upper (c : ascii) : bool := (65 <=? byte_of c) && (byte_of c <=? 90).
Definition is_letter (c : ascii) : bool := is_lower c || is_upper c.
Definition is_alnum (c : ascii) : bool := is_letter c || is_digit c.
Definition of_byte (z : Z) : ascii := ascii_of_N (Z.to_N (z mod 256)).

Definition bytes_of (s : string) : list Z := byte_of <$> String.list_ascii_of_string s.
Definition of_bytes (bs : list Z) : string := String.string_of_list_ascii (of_byte <$> bs).

Definition lowerhex (d : Z) : ascii :=
  default "?"%char (String.get (Z.to_nat d) "0123456789abcdef").

(** The [n] low hexadecimal digits of [z], most significant first. *)
Fixpoint hex_digits (n : nat) (z : Z) : string :=
  match n with
  | O => ""
  | S n => hex_digits n (z ≫ 4) +:+ String (lowerhex (Z.land z 15)) ""
  end.

(** [fmt.Sprintf("%x", bs)] on a byte slice. *)
Definition fmt_x (bs : list Z) : string :=
  foldr (λ b acc, hex_digits 2 b +:+ acc) "" bs.

(** [%d]. *)
Definition fmt_d (z : Z) : string := pretty z.

(** [%v] on a slice of integers: [[80 443]]. *)
Definition fmt_v_ints (zs : list Z) : string :=
  "[" +:+ Join (fmt_d <$> zs) " " +:+ "]".

(** ** Quoting *)

(** [strconv.IsPrint] on code points above U+00FF is a lookup in the tables of the
    Unicode version the Go release ships; the tables are a parameter. *)
Class UnicodeTables := { is_print_table : Z → bool }.

(** [utf8.DecodeRuneInString] on a non-empty string: the code point and its width,
    [None] for an invalid encoding (Go: [RuneError] with width 1). *)
Definition in_byte_range (lo hi b : Z) : bool := (lo <=? b) && (b <=? hi).

Definition decode_rune (bs : list Z) : option (Z * nat) :=
  let cont b := in_byte_range 128 191 b in
  let low6 b := Z.land b 63 in
  match bs with
  | [] => None
  | b0 :: rest =>
      if b0 <? 128 then Some (b0, 1%nat)
      else if in_byte_range 194 223 b0 then
        match rest with
        | b1 :: _ => if cont b1 then Some (Z.land b0 31 ≪ 6 + low6 b1, 2%nat) else None
        | _ => None
        end
      else if in_byte_range 224 239 b0 then
        let lo := if b0 =? 224 then 160 else 128 in
        let hi := if b0 =? 237 then 159 else 191 in
        match rest with
        | b1 :: b2 :: _ =>
            if in_byte_range lo hi b1 && cont b2
            then Some (Z.land b0 15 ≪ 12 + low6 b1 ≪ 6 + low6 b2, 3%nat) else None
        | _ => None
        end
      else if in_byte_range 240 244 b0 then
        let lo := if b0 =? 240 then 144 else 128 in
        let hi := if b0 =? 244 then 143 else 191 in
        match rest with
        | b1 :: b2 :: b3 :: _ =>
            if in_byte_range lo hi b1 && cont b2 && cont b3
            then Some (Z.land b0 7 ≪ 18 + low6 b1 ≪ 12 + low6 b2 ≪ 6 + low6 b3, 4%nat)
            else None
        | _ => None
        end
      else None
  end.

(** One-byte strings that cannot be written as literals. *)
Definition dquote : string := String "034" "".
Definition backslash : string := String "092" "".

Section quote.
Context `{UnicodeTables}.

(** [strconv.IsPrint]. *)
Definition IsPrint (r : Z) : bool :=
  if r <=? 255 then
    in_byte_range 32 126 r || (in_byte_range 161 255 r && negb (r =? 173))
  else is_print_table r.

(** [strconv.appendEscapedRune] for the double quote: [raw] is the UTF-8
    encoding of [r]. *)
Definition escape_rune (r : Z) (raw : string) : string :=
  if (r =? 34) || (r =? 92) then backslash +:+ raw
  else if IsPrint r then raw
  else if r =? 7 then backslash +:+ "a"
  else if r =? 8 then backslash +:+ "b"
  else if r =? 12 then backslash +:+ "f"
  else if r =? 10 then backslash +:+ "n"
  else if r =? 13 then backslash +:+ "r"
  else if r =? 9 then backslash +:+ "t"
  else if r =? 11 then backslash +:+ "v"
  else if (r <? 32) || (r =? 127) then backslash +:+ "x" +:+ hex_digits 2 r
  else if r <? 65536 then backslash +:+ "u" +:+ hex_digits 4 r
  else backslash +:+ "U" +:+ hex_digits 8 r.

(** The loop of [strconv.appendQuotedWith]; every round consumes at least one
    byte, so [len s] rounds are enough. *)
Fixpoint quote_loop (fuel : nat) (s : string) : string :=
  match fuel, s with
  | S fuel, String c s' =>
      match decode_rune (bytes_of s) with
      | Some (r, w) => escape_rune r (str_take w s) +:+ quote_loop fuel (str_drop w s)
      | None => backslash +:+ "x" +:+ hex_digits 2 (byte_of c) +:+ quote_loop fuel s'
      end
  | _, _ => ""
  end.

(** [%q] on a string: [strconv.Quote(s)]. *)
Definition Quote (s : string) : string := dquote +:+ quote_loop (len s) s +:+ dquote.
End quote.

(** A table for examples: nothing above U+00FF is printable. *)
Definition latin1_tables : UnicodeTables := {| is_print_table := λ _, false |}.

(** ** [url.QueryUnescape] *)

(** [unhex]; [None] when the byte is not a hexadecimal digit. *)
Definition unhex (c : ascii) : option Z :=
  let b := byte_of c in
  if in_byte_range 48 57 b then Some (b - 48)
  else if in_byte_range 97 102 b then Some (b - 97 + 10)
  else if in_byte_range 65 70 b then Some (b - 65 + 10)
  else None.

(** [url.QueryUnescape(s)]: [None] is the [EscapeError]. *)
Fixpoint QueryUnescape (s : string) : option string :=
  match s with
  | "" => Some ""
  | String c s1 =>
      if Ascii.eqb c "%" then
        match s1 with
        | String a (String b s2) =>
            match unhex a, unhex b with
            | Some x, Some y => String (of_byte (16 * x + y)) <$> QueryUnescape s2
            | _, _ => None
            end
        | _ => None
        end
      else String (if Ascii.eqb c "+" then " "%char else c) <$> QueryUnescape s1
  end.

(** ** [base64.StdEncoding] *)

Definition base64_alphabet : string :=
  "ABCDEFGHIJKLMNOPQRSTUVWXYZabcdefghijklmnopqrstuvwxyz0123456789+/".

Definition enc6 (v : Z) : ascii :=
  default "="%char (String.get (Z.to_nat v) base64_alphabet).

(** The value of an alphabet character ([decodeMap]). *)
Definition dec6 (c : ascii) : option Z :=
  let b := byte_of c in
  if in_byte_range 65 90 b then Some (b - 65)
  else if in_byte_range 97 122 b then Some (b - 97 + 26)
  else if in_byte_range 48 57 b then Some (b - 48 + 52)
  else if b =? 43 then Some 62
  else if b =? 47 then Some 63
  else None.

(** [StdEncoding.EncodeToString(bs)]. *)
Fixpoint base64_encode (bs : list Z) : string :=
  match bs with
  | [] => ""
  | [a] =>
      String (enc6 (a / 4)) (String (enc6 (a mod 4 * 16)) "==")
  | [a; b] =>
      String (enc6 (a / 4)) (String (enc6 (a mod 4 * 16 + b / 16))
        (String (enc6 (b mod 16 * 4)) "="))
  | a :: b :: c :: rest =>
      String (enc6 (a / 4)) (String (enc6 (a mod 4 * 16 + b / 16))
        (String (enc6 (b mod 16 * 4 + c / 64)) (String (enc6 (c mod 64))
          (base64_encode rest))))
  end.

(** The newlines the decoder skips wherever they stand. *)
Definition is_newline (c : ascii) : bool := (byte_of c =? 10) || (byte_of c =? 13).

(** Drop leading newlines; [si] is the position in the whole input. *)
Fixpoint skip_newlines (s : string) (si : Z) : string * Z :=
  match s with
  | "" => ("", si)
  | String c s' => if is_newline c then skip_newlines s' (si + 1) else (s, si)
  end.

(** [base64.CorruptInputError]. *)
Definition CorruptInputError (si : Z) : error :=
  Errorf ("illegal base64 data at input byte " +:+ fmt_d si).

(** After the padding only newlines may follow. *)
Definition after_padding (s : string) (si : Z) (out : list Z) : result (list Z) :=
  match skip_newlines s si with
  | ("", _) => Ok out
  | (_, si) => Err (CorruptInputError si)
  end.

(** [Encoding.decodeQuantum] iterated: [q] holds the sextets of the quantum read so
    far, at most three. The trailing bits of a padded quantum are ignored. *)
Fixpoint decode_quanta (s : string) (si : Z) (q : list Z) : result (list Z) :=
  match s with
  | "" =>
      match q with
      | [] => Ok []
      | _ => Err (CorruptInputError (si - Z.of_nat (length q)))
      end
  | String c s' =>
      match dec6 c with
      | Some v =>
          match q with
          | [v0; v1; v2] =>
              tl ← decode_quanta s' (si + 1) [];
              Ok (v0 * 4 + v1 / 16 :: v1 mod 16 * 16 + v2 / 4 :: v2 mod 4 * 64 + v :: tl)
          | _ => decode_quanta s' (si + 1) (q ++ [v])
          end
      | None =>
          if is_newline c then decode_quanta s' (si + 1) q
          else if negb (Ascii.eqb c "=") then Err (CorruptInputError si)
          else match q with
               | [v0; v1] =>
                   match skip_newlines s' (si + 1) with
                   | ("", si) => Err (CorruptInputError si)
                   | (String d s'', si) =>
                       if Ascii.eqb d "="
                       then after_padding s'' (si + 1) [v0 * 4 + v1 / 16]
                       else Err (CorruptInputError (si - 1))
                   end
               | [v0; v1; v2] =>
                   after_padding s' (si + 1) [v0 * 4 + v1 / 16; v1 mod 16 * 16 + v2 / 4]
               | _ => Err (CorruptInputError si)
               end
      end
  end.

(** [StdEncoding.DecodeString(s)]. *)
Definition base64_decode (s : string) : result (list Z) := decode_quanta s 0 [].

Example quote_ex : @Quote latin1_tables ("a" +:+ dquote +:+ "b") =
  dquote +:+ "a" +:+ backslash +:+ dquote +:+ "b" +:+ dquote.
Proof. reflexivity. Qed.
Example quote_ex2 : @Quote latin1_tables (utf8 [10; 195; 169; 200]%nat) =
  dquote +:+ backslash +:+ "n" +:+ utf8 [195; 169]%nat +:+ backslash +:+ "xc8" +:+ dquote.
Proof. reflexivity. Qed.
Example base64_ex : base64_encode (bytes_of "user:pass") = "dXNlcjpwYXNz".
Proof. reflexivity. Qed.
Example base64_ex2 : base64_decode "X3Rva2VuOmE=" = Ok (bytes_of "_token:a").
Proof. reflexivity. Qed.
Example unescape_ex : QueryUnescape "oci%3A%2F%2Fghcr.io/a" = Some "oci://ghcr.io/a".
Proof. reflexivity. Qed.
Example fmt_x_ex : fmt_x [0; 171; 255] = "00abff".
Proof. reflexivity. Qed.
Example fmt_v_ex : fmt_v_ints [80; -1] = "[80 -1]".
Proof. reflexivity. Qed.

(** ** Lemmas *)

Lemma byte_of_range c : 0 ≤ byte_of c < 256.
Proof. unfold byte_of. pose proof (N_ascii_bounded c). lia. Qed.

Lemma of_byte_of c : of_byte (byte_of c) = c.
Proof.
  unfold of_byte. rewrite Z.mod_small by apply byte_of_range.
  unfold byte_of. rewrite N2Z.id. apply ascii_N_embedding.
Qed.

Lemma of_bytes_of s : of_bytes (bytes_of s) = s.
Proof.
  induction s as [|c s IH]; [done|].
  change (String (of_byte (byte_of c)) (of_bytes (bytes_of s)) = String c s).
  by rewrite of_byte_of, IH.
Qed.

Lemma bytes_of_range s : Forall (λ b, 0 ≤ b < 256) (bytes_of s).
Proof. apply Forall_fmap, Forall_true. intros c. apply byte_of_range. Qed.

(** The alphabet: 64 characters, decoded back to their position. *)
Lemma dec6_enc6 v : 0 ≤ v < 64 → dec6 (enc6 v) = Some v.
Proof.
  intros Hv. assert (v ∈ Z.of_nat <$> seq 0 64) as Hin.
  { apply list_elem_of_fmap. exists (Z.to_nat v). rewrite elem_of_seq. lia. }
  assert (Forall (λ v, dec6 (enc6 v) = Some v) (Z.of_nat <$> seq 0 64)) as Hall
    by (apply (bool_decide_unpack _); by vm_compute).
  by eapply Forall_forall in Hall.
Qed.

(** Decoding undoes encoding. *)
Lemma base64_roundtrip_quanta n bs si :
  (length bs ≤ n)%nat → Forall (λ b, 0 ≤ b < 256) bs →
  decode_quanta (base64_encode bs) si [] = Ok bs.
Proof.
  assert (∀ x y z : Z, 0 < y → 0 ≤ x < y * z → 0 ≤ x / y < z) as Hdiv.
  { intros x y z Hy [H1 H2]. split; [by apply Z.div_pos|by apply Z.div_lt_upper_bound]. }
  revert bs si. induction n as [|n IH]; intros bs si Hlen Hbs.
  { by destruct bs; cbn in Hlen; [|lia]. }
  destruct bs as [|a [|b [|c rest]]]; [done|..]; decompose_Forall_hyps;
    cbn [base64_encode decode_quanta app];
    repeat (rewrite dec6_enc6 by (Z.to_euclidean_division_equations; lia);
            cbn [decode_quanta app]).
  - cbn. do 2 f_equal. Z.to_euclidean_division_equations; lia.
  - cbn. f_equal. f_equal; [|f_equal]; Z.to_euclidean_division_equations; lia.
  - rewrite IH by (try done; cbn in Hlen; lia). cbn [mbind result_bind].
    do 2 f_equal; [|f_equal; [|f_equal]]; Z.to_euclidean_division_equations; lia.
Qed.

Lemma base64_decode_encode bs :
  Forall (λ b, 0 ≤ b < 256) bs → base64_decode (base64_encode bs) = Ok bs.
Proof. by apply (base64_roundtrip_quanta (length bs)). Qed.

Lemma base64_encode_empty s : base64_encode (bytes_of s) = "" → s = "".
Proof.
  intros He. pose proof (base64_decode_encode _ (bytes_of_range s)) as Hd.
  rewrite He in Hd. injection Hd as Hd. by rewrite <- (of_bytes_of s), <- Hd.
Qed.

(** A positive number as its bits, least significant first: the carrier of the example
    codecs that witness hypotheses on [encoding/json]. *)
Fixpoint bits_string (p : positive) : string :=
  match p with
  | xH => ""
  | xO p => String "0" (bits_string p)
  | xI p => String "1" (bits_string p)
  end.

Fixpoint bits_parse (s : string) : positive :=
  match s with
  | "" => xH
  | String c s => if Ascii.eqb c "0" then xO (bits_parse s) else xI (bits_parse s)
  end.

Lemma bits_parse_string p : bits_parse (bits_string p) = p.
Proof. induction p as [p IH|p IH|]; cbn; by rewrite ?IH. Qed.

(** A printed number consists of digits and a minus sign. *)
Lemma pretty_N_go_byte c x s :
  (∀ d, pretty_N_char d ≠ c) → has_byte c (pretty_N_go x s) = has_byte c s.
Proof.
  intros Hc. revert s. induction (N.lt_wf_0 x) as [x _ IH]. intros s.
  assert (x = 0 ∨ 0 < x)%N as [->|Hx] by lia; [by rewrite pretty_N_go_0|].
  rewrite pretty_N_go_step by done. rewrite IH by (apply N.div_lt; lia).
  cbn [has_byte]. destruct (Ascii.eqb_spec c (pretty_N_char (x `mod` 10))) as [->|]; [|done].
  by destruct (Hc (x `mod` 10)%N).
Qed.

Lemma fmt_d_no_slash z : has_byte "/" (fmt_d z) = false.
Proof.
  assert (∀ d, pretty_N_char d ≠ "/"%char) as Hc.
  { intros d. unfold pretty_N_char. by repeat case_match. }
  assert (∀ x : N, has_byte "/" (pretty x) = false) as HN.
  { intros x. unfold pretty, pretty_N. case_decide; [done|].
    by rewrite pretty_N_go_byte. }
  destruct z as [|x|x]; [done|apply (HN (N.pos x))|].
  change (has_byte "/" ("-" +:+ pretty (N.pos x)) = false). by rewrite has_byte_app, HN.
Qed.

(** ** Hexadecimal is injective *)

Lemma hex_digits_2 b :
  0 ≤ b < 256 →
  match hex_digits 2 b with
  | String c (String d "") => (x ← unhex c; y ← unhex d; Some (16 * x + y)) = Some b
  | _ => False
  end.
Proof.
  intros Hb. assert (b ∈ Z.of_nat <$> seq 0 256) as Hin.
  { apply list_elem_of_fmap. exists (Z.to_nat b). rewrite elem_of_seq. lia. }
  assert (Forall (λ b, bool_decide (match hex_digits 2 b with
    | String c (String d "") => (x ← unhex c; y ← unhex d; Some (16 * x + y))
    | _ => None end = Some b) = true) (Z.of_nat <$> seq 0 256)) as Hall
    by (apply (bool_decide_unpack _); by vm_compute).
  eapply Forall_forall in Hall; [|done]. apply bool_decide_eq_true_1 in Hall.
  by repeat case_match.
Qed.

Lemma hex_digits_inj a b :
  0 ≤ a < 256 → 0 ≤ b < 256 → hex_digits 2 a = hex_digits 2 b → a = b.
Proof.
  intros Ha%hex_digits_2 Hb%hex_digits_2 E. rewrite E in Ha.
  destruct (hex_digits 2 b) as [|c [|d []]]; try done. congruence.
Qed.

Lemma fmt_x_inj xs ys :
  Forall (λ b, 0 ≤ b < 256) xs → Forall (λ b, 0 ≤ b < 256) ys →
  fmt_x xs = fmt_x ys → xs = ys.
Proof.
  unfold fmt_x. intros Hx. revert ys. induction Hx as [|x xs Hx Hxs IH]; intros ys Hys;
    destruct Hys as [|y ys Hy Hys]; cbn [foldr]; [done|..].
  - intros E. cbn in E. done.
  - intros E. cbn in E. done.
  - intros [E1 E2]%app_inj_len; [|reflexivity]. f_equal; [by apply hex_digits_inj|by apply IH].
Qed.
