(* ===== verification/Utf8.v ===== *)
(** * UTF-8

    [unicode/utf8.ValidString], which says which Go strings are text. [encoding/json] only
    carries text: the bytes of a string that is not valid UTF-8 are replaced. *)

From S2P Require Import Prelude GoStrings GoFmt.
From stdpp Require Import options.

Module Utf8.

(** The ranges of the continuation bytes that may follow a first byte (table 3-7 of the
    Unicode standard); [None] when no sequence starts with it. *)
Definition lead_byte (b : Z) : option (list (Z * Z)) :=
  let cont := (128, 191) in
  if b <? 128 then Some []
  else if in_byte_range 194 223 b then Some [cont]
  else if b =? 224 then Some [(160, 191); cont]
  else if b =? 237 then Some [(128, 159); cont]
  else if in_byte_range 225 239 b then Some [cont; cont]
  else if b =? 240 then Some [(144, 191); cont; cont]
  else if b =? 244 then Some [(128, 143); cont; cont]
  else if in_byte_range 241 243 b then Some [cont; cont; cont]
  else None.

(** The rest of a text in which the continuation bytes [pending] are due. *)
Fixpoint valid_from (pending : list (Z * Z)) (s : string) : bool :=
  match s, pending with
  | "", [] => true
  | "", _ => false
  | String c s, (lo, hi) :: pending => in_byte_range lo hi (byte_of c) && valid_from pending s
  | String c s, [] =>
      match lead_byte (byte_of c) with
      | Some pending => valid_from pending s
      | None => false
      end
  end.

(** [utf8.ValidString]. *)
Definition ValidString (s : string) : bool := valid_from [] s.

Example valid_ex :
  ValidString (utf8 [99; 97; 102; 195; 169; 226; 130; 172; 240; 159; 152; 128]%nat) = true.
Proof. reflexivity. Qed.
Example valid_ex2 :
  (ValidString ∘ utf8 <$> [[233]; [192; 128]; [237; 160; 128]; [195]; [195; 97]]%nat) =
    [false; false; false; false; false].
Proof. reflexivity. Qed.

(** ** ASCII *)

Definition is_ascii (c : ascii) : bool := byte_of c <? 128.
Definition ascii_only (s : string) : bool := forallb is_ascii (String.list_ascii_of_string s).

Lemma lead_byte_ascii c : is_ascii c = true → lead_byte (byte_of c) = Some [].
Proof. unfold is_ascii, lead_byte. by intros ->. Qed.

Lemma ascii_only_valid s : ascii_only s = true → ValidString s = true.
Proof.
  unfold ValidString. induction s as [|c s IH]; [done|].
  cbn. intros [Hc Hs]%andb_true_iff. rewrite lead_byte_ascii by done. by apply IH.
Qed.

(** All continuation bytes have the top bit set. *)
Definition conts (pending : list (Z * Z)) : Prop := Forall (λ r, 128 ≤ r.1) pending.

Lemma lead_byte_conts b pending : lead_byte b = Some pending → conts pending.
Proof.
  unfold lead_byte, conts. cbv zeta. intros Hb. repeat case_match; simplify_eq.
  all: repeat constructor; cbn; lia.
Qed.

(** A text may be cut before an ASCII byte. *)
Lemma valid_from_split pending a c b :
  conts pending → is_ascii c = true → valid_from pending (a +:+ String c b) = true →
  valid_from pending a = true ∧ ValidString b = true.
Proof.
  intros Hp Hc. revert pending Hp. induction a as [|d a IH]; intros pending Hp.
  - rewrite app_empty_l. cbn. destruct pending as [|[lo hi] pending].
    + by rewrite lead_byte_ascii.
    + unfold is_ascii in Hc. inversion Hp as [|? ? Hlo]. cbn in Hlo.
      unfold in_byte_range. intros [[? _]%andb_true_iff _]%andb_true_iff. lia.
  - rewrite app_cons. cbn. destruct pending as [|[lo hi] pending].
    + destruct (lead_byte (byte_of d)) as [pending|] eqn:Hd; [|done].
      apply IH. by eapply lead_byte_conts.
    + inversion Hp as [|? ? Hlo Hrest]. intros [Hd Hv]%andb_true_iff.
      destruct (IH pending Hrest Hv) as [Ha Hb]. by rewrite Hd, Ha.
Qed.

Lemma ValidString_split a c b :
  is_ascii c = true → ValidString (a +:+ String c b) = true →
  ValidString a = true ∧ ValidString b = true.
Proof. apply valid_from_split. constructor. Qed.

(** Up to and after the first occurrence of an ASCII separator. *)
Lemma find_first_at sub s i :
  find_first sub s = Some i → s = str_take i s +:+ sub +:+ str_drop (i + len sub) s.
Proof.
  assert (∀ t, String.prefix sub t = true → t = sub +:+ str_drop (len sub) t) as Hpre.
  { intros t [r ->]%HasPrefix_spec. by rewrite str_drop_app. }
  revert i. induction s as [|c s IH]; intros i; cbn [find_first].
  - destruct (String.prefix sub "") eqn:Hp; [|done]. intros [= <-]. by apply Hpre.
  - destruct (String.prefix sub (String c s)) eqn:Hp; [intros [= <-]; by apply Hpre|].
    destruct (find_first sub s) as [j|] eqn:Hj; [|done]. intros [= <-].
    cbn [str_take str_drop plus]. rewrite app_cons. f_equal. by apply IH.
Qed.

Lemma ValidString_around sep c sub s i :
  sep = String c sub → ascii_only sep = true → find_first sep s = Some i →
  ValidString s = true →
  ValidString (str_take i s) = true ∧ ValidString (str_drop (i + len sep) s) = true.
Proof.
  intros Hsep Ha Hi%find_first_at Hs. rewrite Hi in Hs. subst sep.
  cbn in Ha. apply andb_true_iff in Ha as [Hc Hsub].
  revert Hs. generalize (str_drop (i + len (String c sub)) s). intros rest.
  rewrite app_cons. intros [Ht Hr]%ValidString_split; [|done]. split; [done|].
  clear Hi Ht. induction sub as [|d sub IH]; [done|].
  cbn in Hsub. apply andb_true_iff in Hsub as [Hd Hsub]. apply IH; [done|].
  rewrite app_cons in Hr. by apply (ValidString_split "" d).
Qed.

(** ** Base64 is ASCII *)

Lemma get_ascii n s c : ascii_only s = true → String.get n s = Some c → is_ascii c = true.
Proof.
  revert n. induction s as [|d s IH]; intros n; [by destruct n|].
  cbn. intros [Hd Hs]%andb_true_iff. destruct n as [|n]; [by intros [= <-]|by apply IH].
Qed.

Lemma enc6_ascii v : is_ascii (enc6 v) = true.
Proof.
  unfold enc6. destruct (String.get _ _) as [c|] eqn:Hc; [|done].
  eapply get_ascii, Hc. reflexivity.
Qed.

Lemma base64_encode_ascii bs : ascii_only (base64_encode bs) = true.
Proof.
  remember (length bs) as n eqn:Hn. assert (length bs ≤ n)%nat as Hle by lia. clear Hn.
  revert bs Hle. induction n as [|n IH]; intros bs Hle; [by destruct bs; cbn in Hle; [|lia]|].
  assert (∀ d s, ascii_only (String d s) = is_ascii d && ascii_only s) as Hcons by done.
  destruct bs as [|a [|b [|c rest]]]; [done|..]; cbn [base64_encode];
    rewrite !Hcons, !enc6_ascii; [done..|].
  apply IH. cbn in Hle. lia.
Qed.

End Utf8.
