(* ===== verification/Sha256.v ===== *)
(** * [crypto/sha256]

    [sha256.Sum256] as FIPS 180-4 defines it, on byte lists and 32-bit words held in
    [Z]. The operator uses it to name cache entries and contract revisions. *)

From S2P Require Import Prelude GoStrings GoFmt.
From stdpp Require Import options.

Module Sha256.

Definition w32 (x : Z) : Z := x mod 2 ^ 32.
Definition rotr (n x : Z) : Z := Z.lor (x ≫ n) (w32 (x ≪ (32 - n))).
Definition compl (x : Z) : Z := Z.lxor x (2 ^ 32 - 1).

Definition Ch (x y z : Z) : Z := Z.lxor (Z.land x y) (Z.land (compl x) z).
Definition Maj (x y z : Z) : Z := Z.lxor (Z.lxor (Z.land x y) (Z.land x z)) (Z.land y z).
Definition Sigma0 (x : Z) : Z := Z.lxor (Z.lxor (rotr 2 x) (rotr 13 x)) (rotr 22 x).
Definition Sigma1 (x : Z) : Z := Z.lxor (Z.lxor (rotr 6 x) (rotr 11 x)) (rotr 25 x).
Definition sigma0 (x : Z) : Z := Z.lxor (Z.lxor (rotr 7 x) (rotr 18 x)) (x ≫ 3).
Definition sigma1 (x : Z) : Z := Z.lxor (Z.lxor (rotr 17 x) (rotr 19 x)) (x ≫ 10).

(** The eight 32-bit words of a 256-bit number, the most significant first. *)
Definition words_of (x : Z) : list Z :=
  (λ i, w32 (x ≫ (32 * Z.of_nat (7 - i)))) <$> seq 0 8.

(** The round constants, eight to a number. *)
Definition K : list Z := mjoin (words_of <$> [
  0x428a2f9871374491b5c0fbcfe9b5dba53956c25b59f111f1923f82a4ab1c5ed5;
  0xd807aa9812835b01243185be550c7dc372be5d7480deb1fe9bdc06a7c19bf174;
  0xe49b69c1efbe47860fc19dc6240ca1cc2de92c6f4a7484aa5cb0a9dc76f988da;
  0x983e5152a831c66db00327c8bf597fc7c6e00bf3d5a7914706ca635114292967;
  0x27b70a852e1b21384d2c6dfc53380d13650a7354766a0abb81c2c92e92722c85;
  0xa2bfe8a1a81a664bc24b8b70c76c51a3d192e819d6990624f40e3585106aa070;
  0x19a4c1161e376c082748774c34b0bcb5391c0cb34ed8aa4a5b9cca4f682e6ff3;
  0x748f82ee78a5636f84c878148cc7020890befffaa4506cebbef9a3f7c67178f2
]).

(** The hash value: eight words. *)
Record st := St { ha : Z; hb : Z; hc : Z; hd : Z; he : Z; hf : Z; hg : Z; hh : Z }.

Definition H0 : st := St 0x6a09e667 0xbb67ae85 0x3c6ef372 0xa54ff53a
                         0x510e527f 0x9b05688c 0x1f83d9ab 0x5be0cd19.

(** Message padding: a one bit, zeroes, and the length in bits in 64 bits. *)
Definition be_bytes (n : nat) (x : Z) : list Z :=
  (λ i, (x ≫ (8 * Z.of_nat i)) mod 256) <$> reverse (seq 0 n).

Definition pad (bs : list Z) : list Z :=
  let l := length bs in
  bs ++ [128] ++ replicate ((119 - l mod 64) mod 64) 0 ++ be_bytes 8 (8 * Z.of_nat l).

Definition word (b : list Z) : Z := foldl (λ acc x, 256 * acc + x) 0 b.

Fixpoint chunks (fuel n : nat) (bs : list Z) : list (list Z) :=
  match fuel, bs with
  | S fuel, _ :: _ => take n bs :: chunks fuel n (drop n bs)
  | _, _ => []
  end.

(** The message schedule, most recent word first. *)
Fixpoint schedule (n : nat) (ws : list Z) : list Z :=
  match n with
  | O => ws
  | S n =>
      let w i := nth i ws 0 in
      schedule n (w32 (sigma1 (w 1%nat) + w 6%nat + sigma0 (w 14%nat) + w 15%nat) :: ws)
  end.

Definition round (s : st) (kw : Z * Z) : st :=
  let t1 := w32 (hh s + Sigma1 (he s) + Ch (he s) (hf s) (hg s) + kw.1 + kw.2) in
  let t2 := w32 (Sigma0 (ha s) + Maj (ha s) (hb s) (hc s)) in
  St (w32 (t1 + t2)) (ha s) (hb s) (hc s) (w32 (hd s + t1)) (he s) (hf s) (hg s).

Definition compress (s : st) (block : list Z) : st :=
  let w16 := word <$> chunks 16 4 block in
  let ws := reverse (schedule 48 (reverse w16)) in
  let r := foldl round s (zip K ws) in
  St (w32 (ha s + ha r)) (w32 (hb s + hb r)) (w32 (hc s + hc r)) (w32 (hd s + hd r))
     (w32 (he s + he r)) (w32 (hf s + hf r)) (w32 (hg s + hg r)) (w32 (hh s + hh r)).

(** [sha256.Sum256(bs)]: 32 bytes. *)
Definition Sum256 (bs : list Z) : list Z :=
  let p := pad bs in
  let s := foldl compress H0 (chunks (length p) 64 p) in
  mjoin (be_bytes 4 <$> [ha s; hb s; hc s; hd s; he s; hf s; hg s; hh s]).

(** The two test vectors of the standard. *)
Example Sum256_abc : fmt_x (Sum256 (bytes_of "abc")) =
  "ba7816bf8f01cfea414140de5dae2223b00361a396177a9cb410ff61f20015ad".
Proof. vm_compute. reflexivity. Qed.
Example Sum256_two_blocks :
  fmt_x (Sum256 (bytes_of "abcdbcdecdefdefgefghfghighijhijkijkljklmklmnlmnomnopnopq")) =
  "248d6a61d20638b8e5c026930c3e6039a33ce45964ff2167f6ecedd419db06c1".
Proof. vm_compute. reflexivity. Qed.

Lemma Sum256_length bs : length (Sum256 bs) = 32%nat.
Proof. reflexivity. Qed.

Lemma be_bytes_range n x : Forall (λ b, 0 ≤ b < 256) (be_bytes n x).
Proof.
  apply Forall_fmap, Forall_true. intros i. cbn. by apply Z.mod_pos_bound.
Qed.

Lemma Sum256_range bs : Forall (λ b, 0 ≤ b < 256) (Sum256 bs).
Proof.
  unfold Sum256. cbv zeta. apply Forall_join, Forall_fmap.
  apply Forall_true. intros x. apply be_bytes_range.
Qed.

End Sha256.

Export Sha256(Sum256, Sum256_length, Sum256_range).

Lemma hex_digits_length n z : len (hex_digits n z) = n.
Proof.
  revert z. induction n as [|n IH]; intros z; [done|].
  cbn [hex_digits]. rewrite len_app, IH. cbn. lia.
Qed.

Lemma fmt_x_length bs : len (fmt_x bs) = (2 * length bs)%nat.
Proof.
  induction bs as [|b bs IH]; [done|].
  unfold fmt_x in *. cbn [foldr]. rewrite len_app, hex_digits_length, IH.
  cbn. lia.
Qed.

(** The hexadecimal digest is 64 characters long. *)
Lemma hex_Sum256_length bs : len (fmt_x (Sum256 bs)) = 64%nat.
Proof. by rewrite fmt_x_length, Sum256_length. Qed.
