(* ===== verification/Contract.v ===== *)
(** * The pacto contract library, as the operator sees it

    The operator is a client of [github.com/trianalab/pacto/v2]: the types below
    list the fields of its structs that the operator reads, and [PactoLib] names
    the library functions it calls. The library is not part of this repository, so
    its functions are parameters of every definition that calls them. *)

From S2P Require Import Prelude GoStrings.
From stdpp Require Import options.

(** A point in time, in nanoseconds. *)
Abbreviation Time := Z (only parsing).

(** A value of type [any] decoded from YAML. The operator asks whether a value is a
    string, copies it, and prints it with [%v]; a value of another dynamic type
    (float, slice, map) is carried as the text [%v] prints for it. *)
Inductive any : Type :=
| AnyNil
| AnyString (s : string)
| AnyBool (b : bool)
| AnyInt (z : Z)
| AnyOther (printed : string).

#[export] Instance any_eq_dec : EqDecision any.
Proof. solve_decision. Defined.

(** [fmt.Sprintf("%v", v)]. *)
Definition fmt_v_any (v : any) : string :=
  match v with
  | AnyNil => "<nil>"
  | AnyString s => s
  | AnyBool b => if b then "true" else "false"
  | AnyInt z => pretty z
  | AnyOther p => p
  end.

(** ** [contract] *)

Record contract_OwnerContact := {
  oc_Type : string; oc_Value : string; oc_Purpose : string }.

Record Owner := {
  o_Team : string; o_DRI : string; o_Contacts : list contract_OwnerContact }.

Record Image := { img_Ref : string }.

Record ServiceIdentity := {
  si_Name : string; si_Version : string; si_Owner : Owner; si_Image : option Image }.

Record Interface := {
  if_Name : string; if_Type : string; if_Port : option Z; if_Visibility : string;
  if_Contract : string }.

(** A configuration scope, parametric in how its [Values] map is held: [V] is the
    map itself in the value-level model, and a heap reference where aliasing
    matters. *)
Record ConfigurationSource (V : Type) := mkConfigurationSource {
  cs_Name : string; cs_Schema : string; cs_Ref : string; cs_Values : V }.
Arguments mkConfigurationSource {V}.
Arguments cs_Name {V}. Arguments cs_Schema {V}.
Arguments cs_Ref {V}. Arguments cs_Values {V}.

Record Dependency := {
  dep_Name : string; dep_Ref : string; dep_Required : bool; dep_Compatibility : string }.

Record PolicySource := { pol_Name : string; pol_Schema : string; pol_Ref : string }.

Record Persistence := { per_Scope : string; per_Durability : string }.

Record State := {
  sta_Type : string; sta_Persistence : Persistence; sta_DataCriticality : string }.

Record Lifecycle := {
  lc_UpgradeStrategy : string; lc_GracefulShutdownSeconds : option Z }.

Record Health := {
  h_Interface : string; h_Path : string; h_InitialDelaySeconds : option Z }.

Record Metrics := { m_Interface : string; m_Path : string }.

Record Runtime := {
  rt_Workload : string; rt_State : State; rt_Lifecycle : option Lifecycle;
  rt_Health : option Health; rt_Metrics : option Metrics }.

Record Scaling := { sc_Replicas : option Z; sc_Min : Z; sc_Max : Z }.

Record ReadinessRevision := {
  rr_Date : string; rr_Version : string; rr_Author : string; rr_Description : string }.

Record ReadinessCheck := {
  rc_ID : string; rc_Type : string; rc_Category : string; rc_Status : string;
  rc_Evidence : string; rc_Description : string; rc_Weight : Z }.

Record Readiness := {
  rd_Expires : string; rd_MinScore : option Z; rd_Checks : list ReadinessCheck;
  rd_History : list ReadinessRevision }.

Record ContractOf (V : Type) := mkContract {
  c_Service : ServiceIdentity;
  c_Interfaces : list Interface;
  c_Configurations : list (ConfigurationSource V);
  c_Dependencies : list Dependency;
  c_Policies : list PolicySource;
  c_Runtime : option Runtime;
  c_Scaling : option Scaling;
  c_Metadata : gmap string any;
  c_Readiness : option Readiness }.
Arguments mkContract {V}.
Arguments c_Service {V}. Arguments c_Interfaces {V}. Arguments c_Configurations {V}.
Arguments c_Dependencies {V}. Arguments c_Policies {V}. Arguments c_Runtime {V}.
Arguments c_Scaling {V}. Arguments c_Metadata {V}. Arguments c_Readiness {V}.

(** A Go map value: [None] is the nil map. *)
Abbreviation gomap V := (option (gmap string V)).

(** [contract.Contract] at the value level. *)
Abbreviation Contract := (ContractOf (gomap any)).

(** [contract.ValidationError] and [validation.ValidationResult]. *)
Record ValidationError := { ve_Code : string; ve_Path : string; ve_Message : string }.
Record validation_ValidationResult := {
  vr_Errors : list ValidationError; vr_Warnings : list ValidationError }.

(** [readiness.Result] and its per-check entries. *)
Record CheckResult := {
  cr_ID : string; cr_Type : string; cr_Category : string; cr_Status : string;
  cr_Evidence : string; cr_Description : string; cr_Weight : Z;
  cr_EarnedWeight : Z; cr_Excluded : bool }.

Record ReadinessResult := {
  res_Score : Z; res_MinScore : Z; res_Passing : bool; res_TotalWeight : Z;
  res_EarnedWeight : Z; res_Expires : string; res_Expired : bool;
  res_DaysRemaining : option Z; res_DoneCount : Z; res_PartialCount : Z;
  res_NotDoneCount : Z; res_DeferredCount : Z; res_Checks : list CheckResult }.

(** [schemax.Property]. *)
Record Property_ := { pr_Key : string; pr_Value : string; pr_Type : string }.

(** A bundle file system ([fs.FS]): what [fs.ReadFile] returns for a path. *)
Definition FS : Type := string → result string.

(** ** The library functions *)

Class PactoLib := {
  (** [Owner.IsEmpty()] and [Owner.DisplayString()]. *)
  Owner_IsEmpty : Owner → bool;
  Owner_DisplayString : Owner → string;
  (** [contract.Parse(strings.NewReader(yaml))]. *)
  contract_Parse : string → result Contract;
  (** [validation.Validate(c, rawYAML, bundleFS)]. *)
  validation_Validate : Contract → string → option FS → validation_ValidationResult;
  (** [readiness.Evaluate(decl, now)]. *)
  readiness_Evaluate : option Readiness → Time → option ReadinessResult;
  (** [schemax.Values], [schemax.Properties] and [schemax.Meta]. *)
  schemax_Values : gmap string any → list Property_;
  schemax_Properties : string → string → list Property_;
  schemax_Meta : string → string → string * string;
  (** [oci.HasExplicitTag] and [oci.FilterSemverTags]. *)
  oci_HasExplicitTag : string → bool;
  oci_FilterSemverTags : list string → list string
}.

(** ** A small library, for examples

    Every inline document parses to a contract that only has the document as its service
    name, everything is valid, and nothing declares readiness. *)
Definition example_identity (name : string) : ServiceIdentity :=
  {| si_Name := name; si_Version := "1.0.0";
     si_Owner := {| o_Team := ""; o_DRI := ""; o_Contacts := [] |}; si_Image := None |}.

Definition example_contract (name : string) : Contract :=
  mkContract (example_identity name) [] [] [] [] None None ∅ None.

Definition example_lib : PactoLib := {|
  Owner_IsEmpty o := bool_decide (o_Team o = "");
  Owner_DisplayString o := o_Team o;
  contract_Parse yaml := Ok (example_contract yaml);
  validation_Validate _ _ _ := {| vr_Errors := []; vr_Warnings := [] |};
  readiness_Evaluate _ _ := None;
  schemax_Values _ := [];
  schemax_Properties _ _ := [];
  schemax_Meta _ _ := ("", "");
  oci_HasExplicitTag ref := LastIndex ref "/" <? LastIndex ref ":";
  oci_FilterSemverTags tags := tags |}.
