(* ===== verification/V1alpha1.v ===== *)
(** * The [v1alpha1] API

    [api/v1alpha1]: the constants of [conditions.go], the resource types of
    [pacto_types.go] and [pactorevision_types.go], and the two methods on [Pacto].
    An optional pointer field is an [option], an [int32] or [int64] field a [Z], a
    slice a list. *)

From S2P Require Import Prelude GoStrings Contract.
From stdpp Require Import options.

(** ** Constants ([conditions.go]) *)

Definition LabelPactoName := "pacto.trianalab.io/pacto".
Definition LabelRevisionVersion := "pacto.trianalab.io/version".

(** Condition types. *)
Definition ConditionContractValid := "ContractValid".
Definition ConditionServiceExists := "ServiceExists".
Definition ConditionWorkloadExists := "WorkloadExists".
Definition ConditionPortsValid := "PortsValid".
Definition ConditionHealthEndpointValid := "HealthEndpointValid".
Definition ConditionMetricsEndpointValid := "MetricsEndpointValid".
Definition ConditionWorkloadTypeMatch := "WorkloadTypeMatch".
Definition ConditionStateModelMatch := "StateModelMatch".
Definition ConditionUpgradeStrategyMatch := "UpgradeStrategyMatch".
Definition ConditionGracefulShutdownMatch := "GracefulShutdownMatch".
Definition ConditionImageMatch := "ImageMatch".
Definition ConditionHealthTimingMatch := "HealthTimingMatch".
Definition ConditionReadinessSatisfied := "ReadinessSatisfied".
Definition ConditionRuntimeObserved := "RuntimeObserved".

(** Condition reasons. *)
Definition ReasonContractParsed := "Parsed".
Definition ReasonContractInvalid := "Invalid".
Definition ReasonFound := "Found".
Definition ReasonNotFound := "NotFound".
Definition ReasonPortsMatch := "AllPortsMatch".
Definition ReasonMissingPorts := "MissingPorts".
Definition ReasonReferenceOnly := "ReferenceOnly".
Definition ReasonEndpointOK := "OK".
Definition ReasonEndpointConnectionError := "ConnectionFailed".
Definition ReasonEndpointInvalidStatus := "InvalidStatusCode".
Definition ReasonEndpointEmptyResponse := "EmptyResponse".
Definition ReasonEndpointNoPort := "InterfaceHasNoPort".
Definition ReasonEndpointInterfaceMissing := "InterfaceNotFound".
Definition ReasonMatch := "Match".
Definition ReasonMismatch := "Mismatch".
Definition ReasonMissing := "Missing".
Definition ReasonSkipped := "Skipped".
Definition ReasonObservationFailed := "ObservationFailed".
Definition ReasonReadinessSatisfied := "Satisfied".
Definition ReasonReadinessBelowMinScore := "BelowMinScore".
Definition ReasonReadinessExpired := "Expired".

(** Event reasons. *)
Definition EventReadinessGateUnmet := "ReadinessGateUnmet".
Definition EventReadinessRecovered := "ReadinessRecovered".

(** Severities, contract statuses and resolution policies. *)
Definition SeverityError := "error".
Definition SeverityWarning := "warning".
Definition ContractStatusCompliant := "Compliant".
Definition ContractStatusWarning := "Warning".
Definition ContractStatusNonCompliant := "NonCompliant".
Definition ContractStatusReference := "Reference".
Definition ContractStatusUnknown := "Unknown".
Definition ResolutionPolicyLatest := "Latest".
Definition ResolutionPolicyPinnedTag := "PinnedTag".
Definition ResolutionPolicyPinnedDigest := "PinnedDigest".

(** [metav1.ConditionTrue] and [metav1.ConditionFalse]. *)
Definition ConditionTrue := "True".
Definition ConditionFalse := "False".

(** ** Spec types *)

Record ContractRef := { OCI : string; Inline : string; PullSecretRef : string }.

Record WorkloadRef := { wr_Name : string; wr_Kind : string }.

Record TargetRef := { tr_ServiceName : string; tr_WorkloadRef : option WorkloadRef }.

Record ConfigurationOverride := { ov_Name : string; ov_Values : gmap string string }.

Record ContractOverrides := { ovs_Configurations : list ConfigurationOverride }.

Record PactoSpec := {
  sp_ContractRef : ContractRef;
  sp_Target : TargetRef;
  sp_Overrides : option ContractOverrides;
  sp_CheckIntervalSeconds : Z }.

(** ** Status types *)

Record ResourceStatus := { rs_Name : string; rs_Kind : string; rs_Exists : bool }.

Record PortStatus := {
  ps_Expected : list Z; ps_Observed : list Z; ps_Missing : list Z;
  ps_Unexpected : list Z }.

Record CheckSummary := { Total : Z; Passed : Z; Failed : Z }.

Record ReadinessRevisionStatus := {
  rrs_Date : string; rrs_Version : string; rrs_Author : string;
  rrs_Description : string }.

Record ReadinessCheckStatus := {
  rcs_ID : string; rcs_Type : string; rcs_Category : string; rcs_Status : string;
  rcs_Evidence : string; rcs_Description : string; rcs_Weight : Z;
  rcs_EarnedWeight : Z; rcs_Excluded : bool }.

Record ReadinessStatus := {
  rds_Score : Z; rds_MinScore : Z; rds_Passing : bool; rds_TotalWeight : Z;
  rds_EarnedWeight : Z; rds_Expires : string; rds_Expired : bool;
  rds_DaysRemaining : option Z; rds_DoneCount : Z; rds_PartialCount : Z;
  rds_NotDoneCount : Z; rds_DeferredCount : Z;
  rds_Revisions : list ReadinessRevisionStatus;
  rds_Checks : list ReadinessCheckStatus }.

Record ResourcesStatus := {
  rss_Service : option ResourceStatus; rss_Workload : option ResourceStatus }.

Record OwnerContact := { ct_Type : string; ct_Value : string; ct_Purpose : string }.

Record OwnerInfo := {
  oi_Team : string; oi_DRI : string; oi_Contacts : list OwnerContact }.

Record ContractInfo := {
  ci_ServiceName : string; ci_Version : string; ci_Owner : option OwnerInfo;
  ci_OwnerDisplay : string; ci_ImageRef : string; ci_ResolvedRef : string }.

Record InterfaceInfo := {
  ii_Name : string; ii_Type : string; ii_Port : option Z; ii_Visibility : string;
  ii_HasContractFile : bool }.

Record SchemaProperty := { sp_Key : string; sp_Value : string; sp_Type : string }.

Record ConfigurationInfo := {
  cfi_Name : string; cfi_HasSchema : bool; cfi_Ref : string;
  cfi_ValueKeys : list string; cfi_SecretKeys : list string;
  cfi_OverriddenKeys : list string; cfi_Properties : list SchemaProperty }.

Record DependencyInfo := {
  di_Name : string; di_Ref : string; di_Required : bool; di_Compatibility : string }.

Record PolicyInfo := {
  pi_Name : string; pi_HasSchema : bool; pi_Schema : string; pi_Ref : string;
  pi_Title : string; pi_Description : string; pi_Properties : list SchemaProperty }.

Record RuntimeInfo := {
  ri_Workload : string; ri_StateType : string; ri_PersistenceScope : string;
  ri_PersistenceDurability : string; ri_DataCriticality : string;
  ri_UpgradeStrategy : string; ri_GracefulShutdownSeconds : option Z;
  ri_HealthInterface : string; ri_HealthPath : string;
  ri_MetricsInterface : string; ri_MetricsPath : string;
  ri_HealthInitialDelaySeconds : option Z }.

Record ObservedRuntime := {
  or_WorkloadKind : string; or_DeploymentStrategy : string;
  or_PodManagementPolicy : string; or_TerminationGracePeriodSeconds : option Z;
  or_ContainerImages : list string; or_HasPVC : bool; or_HasEmptyDir : bool;
  or_HealthProbeInitialDelaySeconds : option Z }.

Record ScalingInfo := {
  sci_Replicas : option Z; sci_Min : option Z; sci_Max : option Z }.

Record EndpointCheckResult := {
  ep_URL : string; ep_Reachable : bool; ep_StatusCode : Z; ep_LatencyMs : Z;
  ep_Error : string }.

Record EndpointsStatus := {
  es_Health : option EndpointCheckResult; es_Metrics : option EndpointCheckResult }.

Record ValidationIssue := { vi_Code : string; vi_Path : string; vi_Message : string }.

Record ValidationResult := {
  Valid : bool; Errors : list ValidationIssue; Warnings : list ValidationIssue }.

(** [metav1.Condition], less [LastTransitionTime], which the operator neither sets
    nor reads. *)
Record Condition := {
  cond_Type : string; cond_Status : string; cond_ObservedGeneration : Z;
  cond_Reason : string; cond_Message : string }.

#[export] Instance Condition_eq_dec : EqDecision Condition.
Proof. solve_decision. Defined.

Record PactoStatus := mkPactoStatus {
  ContractStatus : string;
  ResolutionPolicy : string;
  Summary : option CheckSummary;
  ContractVersion : string;
  Contract_ : option ContractInfo;
  Validation : option ValidationResult;
  Resources : option ResourcesStatus;
  Ports : option PortStatus;
  Endpoints : option EndpointsStatus;
  Interfaces : list InterfaceInfo;
  Configurations : list ConfigurationInfo;
  Dependencies : list DependencyInfo;
  Policies : list PolicyInfo;
  Runtime_ : option RuntimeInfo;
  ObservedRuntime_ : option ObservedRuntime;
  Scaling_ : option ScalingInfo;
  Readiness_ : option ReadinessStatus;
  Metadata : gmap string string;
  Conditions : list Condition;
  CurrentRevision : string;
  LastReconciledAt : option Time;
  ObservedGeneration : Z }.

(** The parts of [metav1.ObjectMeta] the operator uses, then spec and status. *)
Record Pacto := mkPacto {
  p_Name : string; p_Namespace : string; p_Generation : Z;
  p_Spec : PactoSpec; p_Status : PactoStatus }.

(** ** Revision types ([pactorevision_types.go]) *)

Record RevisionSource := { src_OCI : string; src_Digest : string; src_Inline : bool }.

Record PactoRevisionSpec := {
  rev_Version : string; rev_Source : RevisionSource; rev_PactoRef : string;
  rev_ServiceName : string }.

Record PactoRevisionStatus := {
  rev_Resolved : bool; rev_ContractHash : string; rev_CreatedAt : option Time;
  rev_Conditions : list Condition }.

(** [Owner] is the controller owner reference: the name of the owning Pacto. *)
Record PactoRevision := {
  rev_Name : string; rev_Namespace : string; rev_Labels : gmap string string;
  rev_Owner : option string;
  rev_Spec : PactoRevisionSpec; rev_Status : PactoRevisionStatus }.

(** ** Methods *)

(** [Pacto.IsReference]. *)
Definition IsReference (p : Pacto) : bool :=
  bool_decide (tr_ServiceName (sp_Target (p_Spec p)) = "") &&
  bool_decide (tr_WorkloadRef (sp_Target (p_Spec p)) = None).

(** [Pacto.ResolvedWorkload]. *)
Definition ResolvedWorkload (p : Pacto) : string * string :=
  match tr_WorkloadRef (sp_Target (p_Spec p)) with
  | Some wr =>
      let kind := wr_Kind wr in
      let kind := if bool_decide (kind = "") then "Deployment" else kind in
      (wr_Name wr, kind)
  | None =>
      if bool_decide (tr_ServiceName (sp_Target (p_Spec p)) ≠ "")
      then (tr_ServiceName (sp_Target (p_Spec p)), "Deployment")
      else ("", "")
  end.

(** ** Assignments to status fields

    [pacto.Status.F = v] is [set_F v (p_Status pacto)]. *)

Definition PactoStatus_eta (s : PactoStatus) : PactoStatus :=
  mkPactoStatus
    (ContractStatus s) (ResolutionPolicy s) (Summary s) (ContractVersion s)
    (Contract_ s) (Validation s) (Resources s) (Ports s) (Endpoints s)
    (Interfaces s) (Configurations s) (Dependencies s) (Policies s)
    (Runtime_ s) (ObservedRuntime_ s) (Scaling_ s) (Readiness_ s) (Metadata s)
    (Conditions s) (CurrentRevision s) (LastReconciledAt s)
    (ObservedGeneration s).

Definition set_ContractStatus : string → PactoStatus → PactoStatus :=
  ltac:(set_field PactoStatus_eta ContractStatus).
Definition set_ResolutionPolicy : string → PactoStatus → PactoStatus :=
  ltac:(set_field PactoStatus_eta ResolutionPolicy).
Definition set_Summary : option CheckSummary → PactoStatus → PactoStatus :=
  ltac:(set_field PactoStatus_eta Summary).
Definition set_ContractVersion : string → PactoStatus → PactoStatus :=
  ltac:(set_field PactoStatus_eta ContractVersion).
Definition set_Contract_ : option ContractInfo → PactoStatus → PactoStatus :=
  ltac:(set_field PactoStatus_eta Contract_).
Definition set_Validation : option ValidationResult → PactoStatus → PactoStatus :=
  ltac:(set_field PactoStatus_eta Validation).
Definition set_Resources : option ResourcesStatus → PactoStatus → PactoStatus :=
  ltac:(set_field PactoStatus_eta Resources).
Definition set_Ports : option PortStatus → PactoStatus → PactoStatus :=
  ltac:(set_field PactoStatus_eta Ports).
Definition set_Endpoints : option EndpointsStatus → PactoStatus → PactoStatus :=
  ltac:(set_field PactoStatus_eta Endpoints).
Definition set_Interfaces : list InterfaceInfo → PactoStatus → PactoStatus :=
  ltac:(set_field PactoStatus_eta Interfaces).
Definition set_Configurations : list ConfigurationInfo → PactoStatus → PactoStatus :=
  ltac:(set_field PactoStatus_eta Configurations).
Definition set_Dependencies : list DependencyInfo → PactoStatus → PactoStatus :=
  ltac:(set_field PactoStatus_eta Dependencies).
Definition set_Policies : list PolicyInfo → PactoStatus → PactoStatus :=
  ltac:(set_field PactoStatus_eta Policies).
Definition set_Runtime_ : option RuntimeInfo → PactoStatus → PactoStatus :=
  ltac:(set_field PactoStatus_eta Runtime_).
Definition set_ObservedRuntime_ : option ObservedRuntime → PactoStatus → PactoStatus :=
  ltac:(set_field PactoStatus_eta ObservedRuntime_).
Definition set_Scaling_ : option ScalingInfo → PactoStatus → PactoStatus :=
  ltac:(set_field PactoStatus_eta Scaling_).
Definition set_Readiness_ : option ReadinessStatus → PactoStatus → PactoStatus :=
  ltac:(set_field PactoStatus_eta Readiness_).
Definition set_Metadata : gmap string string → PactoStatus → PactoStatus :=
  ltac:(set_field PactoStatus_eta Metadata).
Definition set_Conditions : list Condition → PactoStatus → PactoStatus :=
  ltac:(set_field PactoStatus_eta Conditions).
Definition set_CurrentRevision : string → PactoStatus → PactoStatus :=
  ltac:(set_field PactoStatus_eta CurrentRevision).
Definition set_LastReconciledAt : option Time → PactoStatus → PactoStatus :=
  ltac:(set_field PactoStatus_eta LastReconciledAt).
Definition set_ObservedGeneration : Z → PactoStatus → PactoStatus :=
  ltac:(set_field PactoStatus_eta ObservedGeneration).

(** [pacto.Status = f(pacto.Status)]. *)
Definition with_status (f : PactoStatus → PactoStatus) (p : Pacto) : Pacto :=
  mkPacto (p_Name p) (p_Namespace p) (p_Generation p) (p_Spec p) (f (p_Status p)).

(** A zero-valued status. *)
Definition empty_status : PactoStatus :=
  mkPactoStatus "" "" None "" None None None None None [] [] [] [] None None None
    None ∅ [] "" None 0.

(** A Pacto that follows an OCI reference and targets one service, for examples. *)
Definition example_pacto : Pacto :=
  mkPacto "api" "prod" 1
    {| sp_ContractRef := {| OCI := "oci://r/a:1"; Inline := ""; PullSecretRef := "" |};
       sp_Target := {| tr_ServiceName := "api"; tr_WorkloadRef := None |};
       sp_Overrides := None; sp_CheckIntervalSeconds := 0 |} empty_status.

(** ** Contract statuses *)

(** The five values [ContractStatus] may take ([+kubebuilder:validation:Enum]). *)
Definition is_contract_status (s : string) : Prop :=
  s ∈ [ContractStatusCompliant; ContractStatusWarning; ContractStatusNonCompliant;
       ContractStatusReference; ContractStatusUnknown].

(** A resolved workload always has a kind when it has a name. *)
Lemma ResolvedWorkload_kind p :
  (ResolvedWorkload p).2 = "" ↔ IsReference p = true.
Proof.
  unfold ResolvedWorkload, IsReference. case_match; cbn.
  - rewrite andb_comm. case_bool_decide; cbn; split; try done.
    all: by case_bool_decide.
  - repeat case_bool_decide; done.
Qed.
