(* ===== verification/Conditions.v ===== *)
(** * Status conditions

    The operator keeps its conditions through [k8s.io/apimachinery/pkg/api/meta],
    which is not part of this repository. [ConditionStore] is the interface to it:
    two operations, and the documented behaviour the proofs rely on. [list_store] is
    an implementation of the interface, so that concrete runs can be evaluated. *)

From S2P Require Import Prelude GoStrings Contract V1alpha1.
From stdpp Require Import options.
#[local] Set Default Proof Using "Type*".

(** One condition per type: [+listMapKey=type]. *)
Definition unique_types (cs : list Condition) : Prop := NoDup (cond_Type <$> cs).

Class ConditionStore := {
  SetStatusCondition : list Condition → Condition → list Condition;
  FindStatusCondition : list Condition → string → option Condition
}.

(** [SetStatusCondition] sets the condition of its type to the new condition and
    keeps the others; [FindStatusCondition] finds the condition of a type. *)
Class ConditionStoreLaws `{ConditionStore} := {
  find_condition_spec cs t c :
    unique_types cs →
    FindStatusCondition cs t = Some c ↔ c ∈ cs ∧ cond_Type c = t;
  set_condition_elem cs c d :
    unique_types cs →
    d ∈ SetStatusCondition cs c ↔ d = c ∨ (d ∈ cs ∧ cond_Type d ≠ cond_Type c);
  set_condition_unique cs c :
    unique_types cs → unique_types (SetStatusCondition cs c)
}.
#[global] Hint Mode ConditionStoreLaws - : typeclass_instances.

Section laws.
Context `{ConditionStoreLaws}.

Lemma find_set_eq cs c :
  unique_types cs → FindStatusCondition (SetStatusCondition cs c) (cond_Type c) = Some c.
Proof.
  intros Hu. apply find_condition_spec; [by apply set_condition_unique|].
  split; [|done]. apply set_condition_elem; auto.
Qed.

Lemma find_condition_None cs t :
  unique_types cs →
  FindStatusCondition cs t = None ↔ ∀ c, c ∈ cs → cond_Type c ≠ t.
Proof.
  intros Hu. rewrite eq_None_not_Some. split.
  - intros Hn c Hc <-. destruct Hn. exists c. by apply find_condition_spec.
  - intros Hall [c [Hc Ht]%find_condition_spec]; [|done]. by apply (Hall c).
Qed.

Lemma find_set_ne cs c t :
  unique_types cs → t ≠ cond_Type c →
  FindStatusCondition (SetStatusCondition cs c) t = FindStatusCondition cs t.
Proof.
  intros Hu Hne. destruct (FindStatusCondition cs t) as [d|] eqn:E.
  - apply find_condition_spec in E as [Hd Ht]; [|done].
    apply find_condition_spec; [by apply set_condition_unique|].
    split; [|done]. apply set_condition_elem; [done|]. right. by rewrite Ht.
  - apply find_condition_None; [by apply set_condition_unique|].
    intros d [->|[Hd _]]%set_condition_elem; [done| |done].
    by eapply find_condition_None in E.
Qed.

(** Setting a condition never empties the list of its type. *)
Lemma set_condition_in cs c : unique_types cs → c ∈ SetStatusCondition cs c.
Proof. intros. apply set_condition_elem; auto. Qed.
End laws.

(** ** The list implementation *)

Section list_store.
Definition list_find_condition (cs : list Condition) (t : string) : option Condition :=
  snd <$> list_find (λ c, cond_Type c = t) cs.

(** Replace the condition of the same type, or append. *)
Fixpoint list_set_condition (cs : list Condition) (c : Condition) : list Condition :=
  match cs with
  | [] => [c]
  | d :: cs => if decide (cond_Type d = cond_Type c) then c :: cs
               else d :: list_set_condition cs c
  end.

Lemma list_set_condition_elem cs c d :
  unique_types cs →
  d ∈ list_set_condition cs c ↔ d = c ∨ (d ∈ cs ∧ cond_Type d ≠ cond_Type c).
Proof.
  unfold unique_types. induction cs as [|e cs IH]; cbn; [set_solver|].
  intros [Hnot Hu]%NoDup_cons. case_decide as He; rewrite !elem_of_cons.
  - assert (∀ x, x ∈ cs → cond_Type x ≠ cond_Type c) as Hne.
    { intros x Hx Heq. destruct Hnot. rewrite He, <- Heq. by apply list_elem_of_fmap_2. }
    naive_solver.
  - rewrite IH by done. naive_solver.
Qed.

Lemma list_set_condition_types cs c :
  cond_Type <$> list_set_condition cs c =
  if decide (cond_Type c ∈ cond_Type <$> cs) then cond_Type <$> cs
  else (cond_Type <$> cs) ++ [cond_Type c].
Proof.
  induction cs as [|e cs IH]; cbn; [done|].
  destruct (decide (cond_Type e = cond_Type c)) as [->|Hne]; cbn.
  - rewrite decide_True by (by left). done.
  - rewrite IH. destruct (decide (cond_Type c ∈ cond_Type <$> cs)) as [Hin|Hnin].
    + rewrite decide_True by (by right). done.
    + rewrite decide_False by (rewrite elem_of_cons; naive_solver). done.
Qed.

#[local] Instance list_store : ConditionStore := {|
  SetStatusCondition := list_set_condition;
  FindStatusCondition := list_find_condition |}.

#[local] Instance list_store_laws : ConditionStoreLaws.
Proof.
  constructor; cbn.
  - intros cs t c Hu. unfold list_find_condition. rewrite fmap_Some. split.
    + intros ([i d] & (Hi & Ht & _)%list_find_Some & ->). cbn.
      split; [by eapply list_elem_of_lookup_2|done].
    + intros [Hc Ht].
      destruct (list_find_elem_of (λ c, cond_Type c = t) cs c Hc Ht) as [[i d] Hd].
      exists (i, d). split; [done|]. cbn.
      apply list_find_Some in Hd as (Hi & Hdt & _).
      apply list_elem_of_lookup_1 in Hc as [j Hj].
      assert (i = j) as ->; [|naive_solver].
      eapply (NoDup_lookup (cond_Type <$> cs)); [done| |];
        rewrite list_lookup_fmap; [by rewrite Hi|]. by rewrite Hj; cbn; rewrite Ht, Hdt.
  - apply list_set_condition_elem.
  - intros cs c Hu. unfold unique_types. rewrite list_set_condition_types.
    case_decide; [done|]. apply NoDup_app. split_and!; [done| |apply NoDup_singleton].
    intros x Hx ->%list_elem_of_singleton. done.
Qed.
End list_store.
