(* ===== verification/Observer.v ===== *)
(** * The observer

    [internal/observer/runtime.go]: reads the target Service and workload and
    records what exists in a [RuntimeSnapshot]. *)

From S2P Require Import Prelude GoStrings Contract V1alpha1.
From stdpp Require Import options.

Module Observer.

(** ** What the observer reads

    The parts of the Kubernetes objects the observer inspects. A pointer the code
    only compares with nil is a boolean. *)

Record Container := {
  k_Image : string; k_ReadinessProbe : option Z; k_LivenessProbe : option Z }.

Record Volume := { v_PersistentVolumeClaim : bool; v_EmptyDir : bool }.

Record PodSpec := {
  pod_TerminationGracePeriodSeconds : option Z;
  pod_Containers : list Container;
  pod_Volumes : list Volume }.

Record Deployment := { d_StrategyType : string; d_PodSpec : PodSpec }.

Record StatefulSet := {
  ss_PodManagementPolicy : string; ss_VolumeClaimTemplates : nat;
  ss_PodSpec : PodSpec }.

(** [client.Client.Get] for the kinds the observer asks for: namespace and name to
    the object, or an API error. A Service is its list of ports. *)
Record KubeReader := {
  GetService : string → string → result (list Z);
  GetDeployment : string → string → result Deployment;
  GetStatefulSet : string → string → result StatefulSet;
  GetReplicaSet : string → string → result PodSpec;
  GetJob : string → string → result PodSpec;
  GetCronJob : string → string → result PodSpec }.

(** ** The snapshot *)

Record RuntimeSnapshot := mkSnapshot {
  ServiceExists : bool;
  WorkloadExists : bool;
  WorkloadKind : string;
  ServicePorts : list Z;
  DeploymentStrategy : string;
  PodManagementPolicy : string;
  TerminationGracePeriod : option Z;
  ContainerImages : list string;
  HasPVC : bool;
  HasEmptyDir : bool;
  HealthProbeInitialDelay : option Z }.

Definition snapshot_eta (s : RuntimeSnapshot) : RuntimeSnapshot :=
  mkSnapshot (ServiceExists s) (WorkloadExists s) (WorkloadKind s) (ServicePorts s)
    (DeploymentStrategy s) (PodManagementPolicy s) (TerminationGracePeriod s)
    (ContainerImages s) (HasPVC s) (HasEmptyDir s) (HealthProbeInitialDelay s).

Definition set_ServiceExists : bool → RuntimeSnapshot → RuntimeSnapshot :=
  ltac:(set_field snapshot_eta ServiceExists).
Definition set_WorkloadExists : bool → RuntimeSnapshot → RuntimeSnapshot :=
  ltac:(set_field snapshot_eta WorkloadExists).
Definition set_ServicePorts : list Z → RuntimeSnapshot → RuntimeSnapshot :=
  ltac:(set_field snapshot_eta ServicePorts).
Definition set_DeploymentStrategy : string → RuntimeSnapshot → RuntimeSnapshot :=
  ltac:(set_field snapshot_eta DeploymentStrategy).
Definition set_PodManagementPolicy : string → RuntimeSnapshot → RuntimeSnapshot :=
  ltac:(set_field snapshot_eta PodManagementPolicy).
Definition set_TerminationGracePeriod : option Z → RuntimeSnapshot → RuntimeSnapshot :=
  ltac:(set_field snapshot_eta TerminationGracePeriod).
Definition set_ContainerImages : list string → RuntimeSnapshot → RuntimeSnapshot :=
  ltac:(set_field snapshot_eta ContainerImages).
Definition set_HasPVC : bool → RuntimeSnapshot → RuntimeSnapshot :=
  ltac:(set_field snapshot_eta HasPVC).
Definition set_HasEmptyDir : bool → RuntimeSnapshot → RuntimeSnapshot :=
  ltac:(set_field snapshot_eta HasEmptyDir).
Definition set_HealthProbeInitialDelay : option Z → RuntimeSnapshot → RuntimeSnapshot :=
  ltac:(set_field snapshot_eta HealthProbeInitialDelay).

(** The zero snapshot with a kind: [&RuntimeSnapshot{WorkloadKind: kind}]. *)
Definition new_snapshot (kind : string) : RuntimeSnapshot :=
  mkSnapshot false false kind [] "" "" None [] false false None.

(** ** Operations *)

(** [Observer.extractPodTemplateInfo]. *)
Definition extractPodTemplateInfo (podSpec : PodSpec) (snap : RuntimeSnapshot)
    : RuntimeSnapshot :=
  let snap := set_TerminationGracePeriod (pod_TerminationGracePeriodSeconds podSpec) snap in
  let snap := foldl (λ snap c,
      set_ContainerImages (ContainerImages snap ++ [k_Image c]) snap)
    snap (pod_Containers podSpec) in
  let snap :=
    match pod_Containers podSpec with
    | [] => snap
    | c :: _ =>
        match k_ReadinessProbe c with
        | Some delay => set_HealthProbeInitialDelay (Some delay) snap
        | None =>
            match k_LivenessProbe c with
            | Some delay => set_HealthProbeInitialDelay (Some delay) snap
            | None => snap
            end
        end
    end in
  foldl (λ snap vol,
      let snap := if v_PersistentVolumeClaim vol then set_HasPVC true snap else snap in
      if v_EmptyDir vol then set_HasEmptyDir true snap else snap)
    snap (pod_Volumes podSpec).

(** The shape the five [observe] methods share: a missing object leaves the snapshot
    alone, any other error is wrapped, a found object is recorded by [found]. *)
Definition observe_kind {A} (label name : string) (got : result A)
    (found : A → RuntimeSnapshot → RuntimeSnapshot) (snap : RuntimeSnapshot)
    : result RuntimeSnapshot :=
  match got with
  | Err e =>
      if IsNotFound e then Ok snap
      else Err (Wrap ("failed to get " +:+ label +:+ " " +:+ name +:+ ": ") e)
  | Ok a => Ok (found a (set_WorkloadExists true snap))
  end.

(** [Observer.observeDeployment]. *)
Definition observeDeployment (o : KubeReader) (ns name : string) :=
  observe_kind "Deployment" name (GetDeployment o ns name) (λ dep snap,
    let snap := if bool_decide (d_StrategyType dep ≠ "")
                then set_DeploymentStrategy (d_StrategyType dep) snap else snap in
    extractPodTemplateInfo (d_PodSpec dep) snap).

(** [Observer.observeStatefulSet]. *)
Definition observeStatefulSet (o : KubeReader) (ns name : string) :=
  observe_kind "StatefulSet" name (GetStatefulSet o ns name) (λ sts snap,
    let snap := set_PodManagementPolicy (ss_PodManagementPolicy sts) snap in
    let snap := if bool_decide (0 < ss_VolumeClaimTemplates sts)%nat
                then set_HasPVC true snap else snap in
    extractPodTemplateInfo (ss_PodSpec sts) snap).

(** [Observer.observeReplicaSet], [observeJob] and [observeCronJob]. *)
Definition observeReplicaSet (o : KubeReader) (ns name : string) :=
  observe_kind "ReplicaSet" name (GetReplicaSet o ns name) extractPodTemplateInfo.
Definition observeJob (o : KubeReader) (ns name : string) :=
  observe_kind "Job" name (GetJob o ns name) extractPodTemplateInfo.
Definition observeCronJob (o : KubeReader) (ns name : string) :=
  observe_kind "CronJob" name (GetCronJob o ns name) extractPodTemplateInfo.

(** [Observer.observeWorkload]: an unknown kind is observed as a Deployment. *)
Definition observeWorkload (o : KubeReader) (ns name kind : string)
    (snap : RuntimeSnapshot) : result RuntimeSnapshot :=
  if bool_decide (kind = "Deployment") then observeDeployment o ns name snap
  else if bool_decide (kind = "StatefulSet") then observeStatefulSet o ns name snap
  else if bool_decide (kind = "ReplicaSet") then observeReplicaSet o ns name snap
  else if bool_decide (kind = "Job") then observeJob o ns name snap
  else if bool_decide (kind = "CronJob") then observeCronJob o ns name snap
  else observeDeployment o ns name snap.

(** [Observer.Observe]. *)
Definition Observe (o : KubeReader) (namespace serviceName workloadName workloadKind : string)
    : result RuntimeSnapshot :=
  let snapshot := new_snapshot workloadKind in
  snapshot ←
    (if bool_decide (serviceName ≠ "") then
       match GetService o namespace serviceName with
       | Err e =>
           if IsNotFound e then Ok snapshot
           else Err (Wrap ("failed to get service " +:+ serviceName +:+ ": ") e)
       | Ok ports =>
           let snapshot := set_ServiceExists true snapshot in
           Ok (foldl (λ s p, set_ServicePorts (ServicePorts s ++ [p]) s) snapshot ports)
       end
     else Ok snapshot);
  if bool_decide (workloadName ≠ "")
  then observeWorkload o namespace workloadName workloadKind snapshot
  else Ok snapshot.

(** ** Specification

    What a snapshot means, without the order in which the code fills it in. *)

(** The facts a found workload of any kind contributes. *)
Record WorkloadFacts := {
  wf_Strategy : string; wf_Policy : string; wf_Claims : bool; wf_Pod : PodSpec }.

Definition pod_facts (pod : PodSpec) : WorkloadFacts :=
  {| wf_Strategy := ""; wf_Policy := ""; wf_Claims := false; wf_Pod := pod |}.

(** The kinds the observer knows; an unknown kind name means Deployment. *)
Inductive Kind := KDeployment | KStatefulSet | KReplicaSet | KJob | KCronJob.

Definition parse_kind (s : string) : Kind :=
  if decide (s = "StatefulSet") then KStatefulSet
  else if decide (s = "ReplicaSet") then KReplicaSet
  else if decide (s = "Job") then KJob
  else if decide (s = "CronJob") then KCronJob
  else KDeployment.

Definition kind_name (k : Kind) : string :=
  match k with
  | KDeployment => "Deployment" | KStatefulSet => "StatefulSet"
  | KReplicaSet => "ReplicaSet" | KJob => "Job" | KCronJob => "CronJob"
  end.

Definition workload_facts (o : KubeReader) (ns name : string) (k : Kind)
    : result WorkloadFacts :=
  match k with
  | KDeployment =>
      (λ d, {| wf_Strategy := d_StrategyType d; wf_Policy := ""; wf_Claims := false;
               wf_Pod := d_PodSpec d |}) <$> GetDeployment o ns name
  | KStatefulSet =>
      (λ s, {| wf_Strategy := ""; wf_Policy := ss_PodManagementPolicy s;
               wf_Claims := bool_decide (0 < ss_VolumeClaimTemplates s)%nat;
               wf_Pod := ss_PodSpec s |}) <$> GetStatefulSet o ns name
  | KReplicaSet => pod_facts <$> GetReplicaSet o ns name
  | KJob => pod_facts <$> GetJob o ns name
  | KCronJob => pod_facts <$> GetCronJob o ns name
  end.

(** A named object: [Ok None] when no name is given or the object does not exist. *)
Definition lookup_object {A} (what name : string) (got : result A) : result (option A) :=
  if decide (name = "") then Ok None
  else match got with
       | Ok a => Ok (Some a)
       | Err e => if IsNotFound e then Ok None
                  else Err (Wrap ("failed to get " +:+ what +:+ " " +:+ name +:+ ": ") e)
       end.

(** The delay of a container's readiness probe, or else of its liveness probe. *)
Definition probe_delay (c : Container) : option Z :=
  match k_ReadinessProbe c with Some d => Some d | None => k_LivenessProbe c end.

Definition describe (svc : option (list Z)) (wl : option WorkloadFacts) (kind : string)
    : RuntimeSnapshot :=
  let pod : option PodSpec := wf_Pod <$> wl in
  let volumes := from_option pod_Volumes [] pod in
  {| ServiceExists := bool_decide (is_Some svc);
     WorkloadExists := bool_decide (is_Some wl);
     WorkloadKind := kind;
     ServicePorts := default [] svc;
     DeploymentStrategy := from_option wf_Strategy "" wl;
     PodManagementPolicy := from_option wf_Policy "" wl;
     TerminationGracePeriod := pod ≫= pod_TerminationGracePeriodSeconds;
     ContainerImages := from_option (λ p, k_Image <$> pod_Containers p) [] pod;
     HasPVC := from_option wf_Claims false wl || existsb v_PersistentVolumeClaim volumes;
     HasEmptyDir := existsb v_EmptyDir volumes;
     HealthProbeInitialDelay := c ← (p ← pod; head (pod_Containers p)); probe_delay c |}.

(** ** Proofs *)

Lemma append_images_spec cs snap :
  foldl (λ snap c, set_ContainerImages (ContainerImages snap ++ [k_Image c]) snap) snap cs
  = set_ContainerImages (ContainerImages snap ++ (k_Image <$> cs)) snap.
Proof.
  revert snap. induction cs as [|c cs IH]; intros snap; cbn [foldl fmap list_fmap].
  - rewrite app_nil_r. by destruct snap.
  - rewrite IH. destruct snap. cbn. by rewrite <- app_assoc.
Qed.

Lemma append_ports_spec ps snap :
  foldl (λ s p, set_ServicePorts (ServicePorts s ++ [p]) s) snap ps
  = set_ServicePorts (ServicePorts snap ++ ps) snap.
Proof.
  revert snap. induction ps as [|p ps IH]; intros snap; cbn [foldl].
  - rewrite app_nil_r. by destruct snap.
  - rewrite IH. destruct snap. cbn. by rewrite <- app_assoc.
Qed.

Lemma scan_volumes_spec vols snap :
  foldl (λ snap vol,
      let snap := if v_PersistentVolumeClaim vol then set_HasPVC true snap else snap in
      if v_EmptyDir vol then set_HasEmptyDir true snap else snap) snap vols
  = set_HasEmptyDir (HasEmptyDir snap || existsb v_EmptyDir vols)
      (set_HasPVC (HasPVC snap || existsb v_PersistentVolumeClaim vols) snap).
Proof.
  revert snap. induction vols as [|v vols IH]; intros snap; cbn [foldl existsb].
  - rewrite !orb_false_r. by destruct snap.
  - rewrite IH. destruct snap; cbn.
    by destruct (v_PersistentVolumeClaim v), (v_EmptyDir v); cbn;
      rewrite ?orb_true_r, ?orb_true_l, ?orb_false_l.
Qed.

(** What a found workload adds to a snapshot that recorded only a Service. *)
Lemma extract_describe svc kind facts :
  extractPodTemplateInfo (wf_Pod facts)
    (set_HasPVC (wf_Claims facts) (set_PodManagementPolicy (wf_Policy facts)
      (set_DeploymentStrategy (wf_Strategy facts) (set_WorkloadExists true
        (describe svc None kind)))))
  = describe svc (Some facts) kind.
Proof.
  unfold extractPodTemplateInfo. rewrite append_images_spec, scan_volumes_spec.
  destruct facts as [strat pol claims [grace cs vols]]; cbn.
  destruct cs as [|[img ready live] cs]; cbn; [done|].
  by destruct ready, live.
Qed.

Lemma describe_service svc kind :
  describe (Some svc) None kind =
  foldl (λ s p, set_ServicePorts (ServicePorts s ++ [p]) s)
    (set_ServiceExists true (new_snapshot kind)) svc.
Proof. by rewrite append_ports_spec. Qed.

Lemma lookup_object_named {A} what name (got : result A) :
  name ≠ "" →
  lookup_object what name got =
  match got with
  | Ok a => Ok (Some a)
  | Err e => if IsNotFound e then Ok None
             else Err (Wrap ("failed to get " +:+ what +:+ " " +:+ name +:+ ": ") e)
  end.
Proof. intros. unfold lookup_object. by rewrite decide_False. Qed.

(** The shared shape of the [observe] methods, against the specification. *)
Lemma observe_kind_describe {A} k name (got : result A) found facts svc kind :
  name ≠ "" →
  (∀ a, found a (set_WorkloadExists true (describe svc None kind)) =
        describe svc (Some (facts a)) kind) →
  observe_kind (kind_name k) name got found (describe svc None kind) =
  (λ wl, describe svc wl kind) <$> lookup_object (kind_name k) name (facts <$> got).
Proof.
  intros Hname Hfound. unfold observe_kind. rewrite lookup_object_named by done.
  destruct got as [a|e]; cbn -[describe]; [by rewrite Hfound|].
  by destruct (IsNotFound e).
Qed.

Lemma pod_found pod svc kind :
  extractPodTemplateInfo pod (set_WorkloadExists true (describe svc None kind)) =
  describe svc (Some (pod_facts pod)) kind.
Proof. apply (extract_describe svc kind (pod_facts pod)). Qed.

Lemma observeDeployment_describe o ns name kind svc :
  name ≠ "" →
  observeDeployment o ns name (describe svc None kind) =
  (λ wl, describe svc wl kind) <$>
    lookup_object "Deployment" name (workload_facts o ns name KDeployment).
Proof.
  intros Hname. apply (observe_kind_describe KDeployment); [done|].
  intros d. rewrite <- extract_describe. cbn. case_bool_decide; [done|].
  by destruct (d_StrategyType d).
Qed.

Lemma observeStatefulSet_describe o ns name kind svc :
  name ≠ "" →
  observeStatefulSet o ns name (describe svc None kind) =
  (λ wl, describe svc wl kind) <$>
    lookup_object "StatefulSet" name (workload_facts o ns name KStatefulSet).
Proof.
  intros Hname. apply (observe_kind_describe KStatefulSet); [done|].
  intros s. rewrite <- extract_describe. cbn. by case_bool_decide.
Qed.

Lemma observeWorkload_describe o ns name kind svc :
  name ≠ "" →
  observeWorkload o ns name kind (describe svc None kind) =
  (λ wl, describe svc wl kind) <$>
    lookup_object (kind_name (parse_kind kind)) name
      (workload_facts o ns name (parse_kind kind)).
Proof.
  intros Hname. unfold observeWorkload, parse_kind.
  repeat (case_bool_decide; [subst; cbn -[describe lookup_object observeDeployment
    observeStatefulSet observeReplicaSet observeJob observeCronJob]|]).
  - by apply observeDeployment_describe.
  - by apply observeStatefulSet_describe.
  - apply (observe_kind_describe KReplicaSet); auto using pod_found.
  - apply (observe_kind_describe KJob); auto using pod_found.
  - apply (observe_kind_describe KCronJob); auto using pod_found.
  - rewrite !decide_False by done. by apply observeDeployment_describe.
Qed.

(** C29 (refinement). The observer implements its specification: the Service and the
    workload are looked up by name (an unknown kind as a Deployment), "not found"
    means absent, any other API error aborts with the object named in the text, and
    the snapshot returned is exactly the description of what was found; its images are those
    of all containers of the pod, in order, and its probe delay that of the first. *)
Theorem Observe_refines_description o ns svc wl kind :
  Observe o ns svc wl kind =
  s ← lookup_object "service" svc (GetService o ns svc);
  w ← lookup_object (kind_name (parse_kind kind)) wl (workload_facts o ns wl (parse_kind kind));
  Ok (describe s w kind).
Proof.
  unfold Observe.
  assert (∀ s, (if bool_decide (wl ≠ "") then
                 observeWorkload o ns wl kind (describe s None kind)
               else Ok (describe s None kind)) =
    w ← lookup_object (kind_name (parse_kind kind)) wl (workload_facts o ns wl (parse_kind kind));
    Ok (describe s w kind)) as Hwl.
  { intros s. case_bool_decide as Hn.
    - rewrite observeWorkload_describe by done.
      by destruct (lookup_object _ _ _).
    - unfold lookup_object. by rewrite decide_True by tauto. }
  destruct (decide (svc = "")) as [->|Hsvc].
  - apply (Hwl None).
  - rewrite (bool_decide_eq_true_2 (svc ≠ "")) by done.
    rewrite (lookup_object_named "service") by done.
    destruct (GetService o ns svc) as [ports|e]; cbn -[describe lookup_object].
    + rewrite <- describe_service. apply (Hwl (Some ports)).
    + destruct (IsNotFound e); [apply (Hwl None)|done].
Qed.

End Observer.
