(* ===== verification/Images.v ===== *)
(** * Container image references

    [imageMatches] and [normalizeImageRef] of [internal/validator/runtime_checks.go],
    and what they mean on references with their parts told apart. *)

From S2P Require Import Prelude GoStrings.
From stdpp Require Import options.
#[local] Set Default Proof Using "Type*".

Module Images.

(** [normalizeImageRef]. *)
Definition normalizeImageRef (ref : string) : string :=
  if Contains ref "/" && ContainsAny (first_segment ref "/") ".:" then ref
  else if negb (Contains ref "/") then "docker.io/library/" +:+ ref
  else "docker.io/" +:+ ref.

(** [s[:i]] for an index the code has just checked to be in range. *)
Definition upto (s : string) (i : Z) : string := str_take (Z.to_nat i) s.

(** [imageMatches]. *)
Definition imageMatches (expected actual : string) : bool :=
  if bool_decide (expected = actual) then true
  else
    let expected := normalizeImageRef expected in
    let actual := normalizeImageRef actual in
    if bool_decide (expected = actual) then true
    else
      let expectedTail :=
        let i := LastIndex expected "/" in
        if bool_decide (0 ≤ i) then str_drop (Z.to_nat (i + 1)) expected else expected in
      if Contains expectedTail ":" || Contains expectedTail "@" then false
      else
        let actualRepo :=
          let idx := LastIndex actual ":" in
          if bool_decide (LastIndex actual "/" < idx) then upto actual idx else actual in
        let actualRepo :=
          let idx := Index actual "@" in
          if bool_decide (0 < idx) then upto actual idx else actualRepo in
        bool_decide (expected = actualRepo).

(** ** Structured references

    [path/name], an optional tag and an optional digest. [path] holds the registry
    host and the intermediate path segments. *)

Record ImageRef := { ir_path : string; ir_name : string;
                     ir_tag : option string; ir_digest : option string }.

Definition repo (r : ImageRef) : string := ir_path r +:+ "/" +:+ ir_name r.

Definition render (r : ImageRef) : string :=
  repo r +:+ from_option (λ t, ":" +:+ t) "" (ir_tag r)
         +:+ from_option (λ d, "@" +:+ d) "" (ir_digest r).

(** Separators occur only where the grammar of references puts them: a digest is
    [algorithm:hex]. *)
Definition plain (s : string) : Prop :=
  has_byte "/" s = false ∧ has_byte ":" s = false ∧ has_byte "@" s = false.

Record wf_ref (r : ImageRef) : Prop := {
  wf_path : has_byte "@" (ir_path r) = false;
  wf_host : has_byte "." (first_segment (ir_path r) "/") = true ∨
            has_byte ":" (first_segment (ir_path r) "/") = true;
  wf_name : plain (ir_name r);
  wf_tag : ∀ t, ir_tag r = Some t → plain t;
  wf_digest : ∀ d, ir_digest r = Some d →
    ∃ alg hex, d = alg +:+ ":" +:+ hex ∧ plain alg ∧ plain hex }.

(** What the code decides: an untagged expectation accepts any tag or any digest of
    the repository, but not a tag and a digest together. *)
Definition match_spec (e a : ImageRef) : Prop :=
  match ir_tag e, ir_digest e with
  | None, None =>
      repo e = repo a ∧ ¬ (is_Some (ir_tag a) ∧ is_Some (ir_digest a))
  | _, _ => render e = render a
  end.

(** ** Proofs *)

Lemma first_segment_prefix a b c :
  first_segment (a +:+ String c b) c = first_segment a c.
Proof.
  induction a as [|d a IH]; rewrite ?app_cons, ?app_empty_l, first_segment_cons.
  - by rewrite Ascii.eqb_refl.
  - rewrite first_segment_cons, IH. done.
Qed.

Lemma normalizeImageRef_host a b :
  has_byte "." (first_segment a "/") = true ∨ has_byte ":" (first_segment a "/") = true →
  normalizeImageRef (a +:+ String "/" b) = a +:+ String "/" b.
Proof.
  intros Hhost. unfold normalizeImageRef.
  rewrite Contains_byte, has_byte_app, ContainsAny_two, first_segment_prefix. cbn.
  rewrite orb_true_r. by destruct Hhost as [-> | ->]; rewrite ?orb_true_r.
Qed.

Lemma normalizeImageRef_idemp r :
  normalizeImageRef (normalizeImageRef r) = normalizeImageRef r.
Proof.
  unfold normalizeImageRef at 2. case_match eqn:E1; [unfold normalizeImageRef; by rewrite E1|].
  unfold normalizeImageRef at 2. rewrite E1. case_match.
  - apply (normalizeImageRef_host "docker.io" ("library/" +:+ r)). by left.
  - apply (normalizeImageRef_host "docker.io" r). by left.
Qed.

(** The part of a rendered reference after its last slash. *)
Definition render_tail (r : ImageRef) : string :=
  ir_name r +:+ from_option (λ t, ":" +:+ t) "" (ir_tag r)
            +:+ from_option (λ d, "@" +:+ d) "" (ir_digest r).

Lemma render_split r : render r = ir_path r +:+ String "/" (render_tail r).
Proof. unfold render, repo, render_tail. by rewrite !app_assoc_str. Qed.

Section wf.
Context (r : ImageRef) (Hr : wf_ref r).

Lemma render_tail_slash : has_byte "/" (render_tail r) = false.
Proof.
  destruct Hr as [_ _ [Hn _] Ht Hd]. unfold render_tail. rewrite !has_byte_app, Hn. cbn.
  destruct (ir_tag r) as [t|], (ir_digest r) as [d|]; cbn; try done.
  all: try (destruct (Ht t) as [Ht1 _]; [done|]; rewrite ?app_cons, ?app_empty_l; cbn;
            rewrite Ht1; cbn).
  all: try (destruct (Hd d) as (alg & hex & -> & [Ha _] & [Hh _]); [done|];
            rewrite ?app_cons, ?app_empty_l; cbn; rewrite !has_byte_app; cbn;
            rewrite Ha, Hh).
  all: done.
Qed.

Lemma render_normal : normalizeImageRef (render r) = render r.
Proof. rewrite render_split. apply normalizeImageRef_host, Hr. Qed.

Lemma render_last_slash : LastIndex (render r) "/" = Z.of_nat (len (ir_path r)).
Proof. rewrite render_split. apply LastIndex_app, render_tail_slash. Qed.

(** Everything after the last slash. *)
Lemma render_drop_path :
  str_drop (Z.to_nat (LastIndex (render r) "/" + 1)) (render r) = render_tail r.
Proof.
  rewrite render_last_slash, render_split.
  replace (Z.to_nat (Z.of_nat (len (ir_path r)) + 1)) with (len (ir_path r +:+ "/"))
    by (rewrite len_app; cbn; lia).
  rewrite <- (app_assoc_str _ "/" (render_tail r)). apply str_drop_app.
Qed.

Lemma render_tail_tagged :
  Contains (render_tail r) ":" || Contains (render_tail r) "@" =
  bool_decide (is_Some (ir_tag r) ∨ is_Some (ir_digest r)).
Proof.
  destruct Hr as [_ _ (_ & Hn1 & Hn2) _ _]. rewrite !Contains_byte.
  unfold render_tail. rewrite !has_byte_app, Hn1, Hn2.
  destruct (ir_tag r) as [t|], (ir_digest r) as [d|]; cbn;
    rewrite ?app_cons, ?app_empty_l; cbn; by rewrite ?orb_true_r.
Qed.

Lemma repo_at : has_byte "@" (repo r) = false.
Proof.
  destruct Hr as [Hp _ (_ & _ & Hn) _ _]. unfold repo. rewrite !has_byte_app, Hp. done.
Qed.
End wf.

(** The repository the code extracts from an actual image. *)
Definition actual_repo (actual : string) : string :=
  let actualRepo :=
    let idx := LastIndex actual ":" in
    if bool_decide (LastIndex actual "/" < idx) then upto actual idx else actual in
  let idx := Index actual "@" in
  if bool_decide (0 < idx) then upto actual idx else actualRepo.

(** A digest cuts the reference at its "@". *)
Lemma actual_repo_digest r d :
  wf_ref r → ir_digest r = Some d →
  actual_repo (render r) = repo r +:+ from_option (λ t, ":" +:+ t) "" (ir_tag r).
Proof.
  intros Hr Hd. unfold actual_repo. set (front := repo r +:+ _).
  assert (render r = front +:+ String "@" d) as Hren.
  { unfold render, front. by rewrite Hd, !app_assoc_str. }
  assert (has_byte "@" front = false) as Hfront.
  { unfold front. rewrite has_byte_app, repo_at by done.
    destruct (ir_tag r) as [t|] eqn:Et; cbn; [|done].
    by destruct (wf_tag r Hr t Et) as (_ & _ & Ht). }
  assert (0 < len front)%nat as Hlen.
  { unfold front, repo. rewrite !len_app. cbn. lia. }
  rewrite Hren, Index_app by done.
  rewrite (bool_decide_eq_true_2 (0 < Z.of_nat _)) by lia.
  unfold upto. rewrite Nat2Z.id. apply str_take_app.
Qed.

(** Without a digest a tag is cut off, and a registry port is left alone. *)
Lemma actual_repo_no_digest r :
  wf_ref r → ir_digest r = None → actual_repo (render r) = repo r.
Proof.
  intros Hr Hd. unfold actual_repo.
  assert (render r = repo r +:+ from_option (λ t, ":" +:+ t) "" (ir_tag r)) as Hren.
  { unfold render. by rewrite Hd, app_empty_r. }
  assert (has_byte "@" (render r) = false) as Hat.
  { rewrite Hren, has_byte_app, repo_at by done.
    destruct (ir_tag r) as [t|] eqn:Et; cbn; [|done].
    by destruct (wf_tag r Hr t Et) as (_ & _ & Ht). }
  rewrite (Index_none "@") by done. rewrite (bool_decide_eq_false_2 (0 < -1)) by lia.
  rewrite render_last_slash by done.
  destruct (ir_tag r) as [t|] eqn:Et; cbn in Hren.
  - destruct (wf_tag r Hr t Et) as (_ & Ht & _).
    rewrite Hren, app_byte, LastIndex_app by done.
    rewrite bool_decide_eq_true_2.
    + unfold upto. rewrite Nat2Z.id. apply str_take_app.
    + unfold repo. rewrite !len_app. cbn. lia.
  - rewrite app_empty_r in Hren. rewrite Hren.
    destruct (has_byte ":" (repo r)) eqn:Ec.
    + (* the colon is the registry port's: it stands before the last slash *)
      destruct (wf_name r Hr) as (_ & Hn & _).
      assert (has_byte ":" (ir_path r) = true) as Hp.
      { unfold repo in Ec. rewrite !has_byte_app, Hn in Ec. cbn in Ec.
        by rewrite orb_false_r in Ec. }
      apply has_byte_split_last in Hp as (a & b & Hab & Hb).
      unfold repo. rewrite Hab, app_assoc_str, app_cons, LastIndex_app.
      * rewrite bool_decide_eq_false_2; [done|]. rewrite len_app. cbn. lia.
      * rewrite !has_byte_app, Hb, Hn. done.
    + rewrite LastIndex_none by done. rewrite bool_decide_eq_false_2 by lia. done.
Qed.

(** [imageMatches] on normal references, with the repository extraction named. *)
Lemma imageMatches_normal e a :
  normalizeImageRef e = e → normalizeImageRef a = a →
  imageMatches e a =
  bool_decide (e = a) ||
  (let tail := if bool_decide (0 ≤ LastIndex e "/")
               then str_drop (Z.to_nat (LastIndex e "/" + 1)) e else e in
   negb (Contains tail ":" || Contains tail "@") && bool_decide (e = actual_repo a)).
Proof.
  intros He Ha. unfold imageMatches, actual_repo. rewrite He, Ha.
  case_bool_decide; [done|]. cbn.
  by destruct (Contains _ ":" || Contains _ "@").
Qed.

(** A repository is neither a tagged nor a digested reference. *)
Lemma repo_not_tagged e a :
  wf_ref e → wf_ref a →
  repo e = repo a +:+ from_option (λ t, ":" +:+ t) "" (ir_tag a) →
  ir_tag a = None ∧ repo e = repo a.
Proof.
  intros He Ha Heq. destruct (ir_tag a) as [t|] eqn:Et; cbn in Heq;
    [|by rewrite app_empty_r in Heq].
  destruct (wf_tag a Ha t Et) as (Ht & _ & _).
  destruct (wf_name e He) as (Hn1 & Hn2 & _), (wf_name a Ha) as (Hn3 & _ & _).
  unfold repo in Heq. rewrite !app_assoc_str, !app_cons, !app_empty_l in Heq.
  apply split_last_inj in Heq as [_ Hn]; [|done|].
  - rewrite Hn, has_byte_app in Hn2. cbn in Hn2. by rewrite orb_true_r in Hn2.
  - rewrite has_byte_app, Hn3. cbn. done.
Qed.

Lemma repo_not_digested e a :
  wf_ref e → repo e = render a → ir_digest a = None.
Proof.
  intros He Heq. pose proof (repo_at e He) as Hat. rewrite Heq in Hat.
  unfold render in Hat. destruct (ir_digest a); [|done]. exfalso.
  rewrite !has_byte_app in Hat. cbn in Hat. by rewrite !orb_true_r in Hat.
Qed.

(** C26 (refinement). On well-formed fully qualified references [imageMatches] decides
    its specification: a tagged or digested expectation must be matched exactly; an
    untagged one accepts any tag, or any digest, of the same repository, and a
    registry port is never mistaken for a tag. An image that carries both a tag and
    a digest is not accepted by an untagged expectation. *)
Theorem imageMatches_render e a :
  wf_ref e → wf_ref a → imageMatches (render e) (render a) = true ↔ match_spec e a.
Proof.
  intros He Ha. rewrite imageMatches_normal by (by apply render_normal).
  rewrite (bool_decide_eq_true_2 (0 ≤ LastIndex (render e) "/"))
    by (rewrite render_last_slash by done; lia).
  cbv zeta iota. rewrite render_drop_path, render_tail_tagged by done.
  unfold match_spec. rewrite orb_true_iff, bool_decide_eq_true.
  assert (ir_tag e = None → ir_digest e = None → render e = repo e) as Hrepo.
  { intros Ht Hd. unfold render. by rewrite Ht, Hd, !app_empty_r. }
  destruct (decide (is_Some (ir_tag e) ∨ is_Some (ir_digest e))) as [Hpin|Hfree].
  { rewrite bool_decide_eq_true_2 by done. cbn.
    destruct (ir_tag e), (ir_digest e); [..|by destruct Hpin as [[]|[]]]; naive_solver. }
  assert (ir_tag e = None ∧ ir_digest e = None) as [Ht Hd].
  { destruct (ir_tag e), (ir_digest e); naive_solver. }
  rewrite bool_decide_eq_false_2, Ht, Hd, Hrepo by done. cbn. rewrite bool_decide_eq_true.
  destruct (ir_digest a) as [da|] eqn:Da.
  - rewrite (actual_repo_digest a da) by done. split.
    + intros [Heq|Heq].
      * apply repo_not_digested in Heq; [congruence|done].
      * apply repo_not_tagged in Heq as [-> Hrepo']; [|done..].
        split; [done|]. by intros [[] _].
    + intros [Heq Hnot]. right. destruct (ir_tag a) as [ta|]; [by destruct Hnot; eauto|].
      cbn. by rewrite app_empty_r.
  - rewrite actual_repo_no_digest by done. split.
    + intros [Heq|Heq]; (split; [|by intros [_ []]]); [|done].
      unfold render in Heq. rewrite Da, app_empty_r in Heq.
      by apply repo_not_tagged in Heq as [_ ?].
    + intros [Heq _]. by right.
Qed.

(** A localhost registry with a port, and the same image tagged. *)
Definition ex_untagged := {| ir_path := "localhost:5000/team"; ir_name := "api";
                             ir_tag := None; ir_digest := None |}.
Definition ex_tagged := {| ir_path := "localhost:5000/team"; ir_name := "api";
                           ir_tag := Some "1.2.3"; ir_digest := None |}.

Lemma ex_wf t :
  plain t →
  wf_ref ex_untagged ∧
  wf_ref {| ir_path := "localhost:5000/team"; ir_name := "api"; ir_tag := Some t;
            ir_digest := None |}.
Proof.
  intros Ht. split; constructor; cbn; try done; try (by right); intros; by simplify_eq.
Qed.

Lemma imageMatches_render_witness :
  wf_ref ex_untagged ∧ wf_ref ex_tagged ∧
  (imageMatches "localhost:5000/team/api" "localhost:5000/team/api:1.2.3" = true ↔
   match_spec ex_untagged ex_tagged).
Proof.
  destruct (ex_wf "1.2.3" ltac:(done)) as [He Ha].
  split; [exact He|]. split; [exact Ha|].
  exact (imageMatches_render ex_untagged ex_tagged He Ha).
Defined.

(** Docker Hub short names are only spellings: matching does not
    change when both sides are replaced by their normalised references, and
    normalising twice is normalising once. *)
Theorem imageMatches_normalized e a :
  imageMatches (normalizeImageRef e) (normalizeImageRef a) = imageMatches e a ∧
  normalizeImageRef (normalizeImageRef e) = normalizeImageRef e.
Proof.
  split; [|apply normalizeImageRef_idemp].
  unfold imageMatches at 2.
  rewrite imageMatches_normal by apply normalizeImageRef_idemp.
  destruct (bool_decide (e = a)) eqn:E1.
  - apply bool_decide_eq_true_1 in E1 as ->. by rewrite bool_decide_eq_true_2.
  - destruct (bool_decide (normalizeImageRef e = normalizeImageRef a)); [done|].
    cbn [orb]. cbv zeta. unfold actual_repo. by destruct (_ || _).
Qed.

Example short_name_ex : imageMatches "nginx" "docker.io/library/nginx:1.25" = true.
Proof. reflexivity. Qed.
Example tag_and_digest_ex :
  imageMatches "ghcr.io/o/a" "ghcr.io/o/a:1@sha256:ab" = false.
Proof. reflexivity. Qed.

End Images.
