(* ===== verification/Validator.v ===== *)
(** * The validator

    [internal/validator]: the comparison of a contract with a runtime snapshot.
    [Validate] is a pure function; every check it runs is a definition here. *)

From S2P Require Import Prelude GoStrings GoFmt Contract V1alpha1 Observer Images.
From stdpp Require Import options.

Module Validator.
Import Observer Images.

(** [validator.Check]. *)
Record Check := mkCheck {
  Name : string; Passed : bool; Reason : string; Message : string; Severity : string }.

(** [validator.PortsResult] and [validator.Result]. *)
Record PortsResult := mkPorts {
  Expected : list Z; Observed : list Z; Missing : list Z; Unexpected : list Z }.

Record Result := { Checks : list Check; Ports : PortsResult }.

Section checks.
Context `{UnicodeTables}.

(** ** Existence and ports ([validator.go]) *)

(** [checkServiceExists]. *)
Definition checkServiceExists (snap : RuntimeSnapshot) : Check :=
  if ServiceExists snap
  then mkCheck ConditionServiceExists true ReasonFound "Service exists" ""
  else mkCheck ConditionServiceExists false ReasonNotFound "Service not found" "".

(** [checkWorkloadExists]. *)
Definition checkWorkloadExists (snap : RuntimeSnapshot) : Check :=
  if WorkloadExists snap
  then mkCheck ConditionWorkloadExists true ReasonFound
         (WorkloadKind snap +:+ " exists") ""
  else mkCheck ConditionWorkloadExists false ReasonNotFound
         (WorkloadKind snap +:+ " not found") "".

(** [contractPorts]: the declared port of every interface that has one, converted to [int32]. *)
Definition contractPorts (c : Contract) : list Z :=
  foldl (λ ports iface,
      match if_Port iface with
      | Some p => ports ++ [int32 p]
      | None => ports
      end) [] (c_Interfaces c).

(** [checkPorts]: the sets are Go maps used as [map[int32]bool]. *)
Definition checkPorts (c : Contract) (snap : RuntimeSnapshot) : Check * PortsResult :=
  let expected := contractPorts c in
  let observed := ServicePorts snap in
  let observedSet : gset Z := list_to_set observed in
  let expectedSet : gset Z := list_to_set expected in
  let missing := filter (λ p, p ∉ observedSet) expected in
  let unexpected := filter (λ p, p ∉ expectedSet) observed in
  let ports := mkPorts expected observed missing unexpected in
  if bool_decide (length missing = 0%nat)
  then (mkCheck ConditionPortsValid true ReasonPortsMatch
          "All declared ports are present on the Service" "", ports)
  else (mkCheck ConditionPortsValid false ReasonMissingPorts
          ("Missing ports: " +:+ fmt_v_ints missing) "", ports).

(** ** Runtime reconciliation checks ([runtime_checks.go]) *)

(** [checkWorkloadType]. *)
Definition checkWorkloadType (rt : Runtime) (snap : RuntimeSnapshot) : Check :=
  let expected := rt_Workload rt in
  let actual := WorkloadKind snap in
  let match_ :=
    if bool_decide (expected = "service")
    then bool_decide (actual = "Deployment") || bool_decide (actual = "StatefulSet")
    else if bool_decide (expected = "job") then bool_decide (actual = "Job")
    else if bool_decide (expected = "scheduled") then bool_decide (actual = "CronJob")
    else false in
  if match_
  then mkCheck ConditionWorkloadTypeMatch true ReasonMatch
         ("Workload type " +:+ Quote expected +:+ " matches " +:+ actual) SeverityError
  else mkCheck ConditionWorkloadTypeMatch false ReasonMismatch
         ("Contract declares workload " +:+ Quote expected +:+ " but found " +:+ actual)
         SeverityError.

(** [checkStateModel]. *)
Definition checkStateModel (rt : Runtime) (snap : RuntimeSnapshot) : Check :=
  let stateType := sta_Type (rt_State rt) in
  let durability := per_Durability (sta_Persistence (rt_State rt)) in
  let ok := mkCheck ConditionStateModelMatch true ReasonMatch
    ("State model " +:+ stateType +:+ "/" +:+ durability +:+
     " matches workload configuration") SeverityError in
  if bool_decide (stateType = "stateful") then
    if bool_decide (WorkloadKind snap ≠ "StatefulSet") then
      mkCheck ConditionStateModelMatch false ReasonMismatch
        ("Contract declares stateful service but workload is " +:+ WorkloadKind snap +:+
         " (expected StatefulSet)") SeverityError
    else if bool_decide (durability = "persistent") && negb (HasPVC snap) then
      mkCheck ConditionStateModelMatch false ReasonMissing
        "Contract declares persistent storage but no PVC found on StatefulSet"
        SeverityError
    else ok
  else if bool_decide (stateType = "stateless") then
    if HasPVC snap then
      mkCheck ConditionStateModelMatch false ReasonMismatch
        "Contract declares stateless service but PVC found on workload" SeverityWarning
    else ok
  else if bool_decide (stateType = "hybrid") then
    if bool_decide (durability = "persistent") && negb (HasPVC snap) then
      mkCheck ConditionStateModelMatch false ReasonMissing
        "Contract declares hybrid with persistent storage but no PVC found" SeverityError
    else ok
  else ok.

(** [checkUpgradeStrategy]. *)
Definition checkUpgradeStrategy (lc : Lifecycle) (snap : RuntimeSnapshot) : Check :=
  let expected := lc_UpgradeStrategy lc in
  let compare actual :=
    let match_ :=
      if bool_decide (expected = "rolling") then bool_decide (actual = "RollingUpdate")
      else if bool_decide (expected = "recreate") then bool_decide (actual = "Recreate")
      else if bool_decide (expected = "ordered") then bool_decide (actual = "OrderedReady")
      else false in
    if match_
    then mkCheck ConditionUpgradeStrategyMatch true ReasonMatch
           ("Upgrade strategy " +:+ Quote expected +:+ " matches " +:+ actual)
           SeverityWarning
    else mkCheck ConditionUpgradeStrategyMatch false ReasonMismatch
           ("Contract declares upgrade strategy " +:+ Quote expected +:+ " but found "
            +:+ actual) SeverityWarning in
  if bool_decide (DeploymentStrategy snap ≠ "") then compare (DeploymentStrategy snap)
  else if bool_decide (PodManagementPolicy snap ≠ "") then compare (PodManagementPolicy snap)
  else mkCheck ConditionUpgradeStrategyMatch true ReasonSkipped
         "No deployment strategy to validate (workload type does not support strategies)"
         SeverityWarning.

(** [checkGracefulShutdown]; [gs] is [*c.Runtime.Lifecycle.GracefulShutdownSeconds]. *)
Definition checkGracefulShutdown (gs : Z) (snap : RuntimeSnapshot) : Check :=
  let expected := int64 gs in
  match TerminationGracePeriod snap with
  | None =>
      mkCheck ConditionGracefulShutdownMatch false ReasonMissing
        ("Contract declares gracefulShutdownSeconds=" +:+ fmt_d expected +:+
         " but no terminationGracePeriodSeconds set on pod") SeverityWarning
  | Some actual =>
      if bool_decide (expected = actual)
      then mkCheck ConditionGracefulShutdownMatch true ReasonMatch
             ("Graceful shutdown period matches (" +:+ fmt_d expected +:+ "s)")
             SeverityWarning
      else mkCheck ConditionGracefulShutdownMatch false ReasonMismatch
             ("Contract declares gracefulShutdownSeconds=" +:+ fmt_d expected +:+
              " but pod has terminationGracePeriodSeconds=" +:+ fmt_d actual)
             SeverityWarning
  end.

(** [checkImage]; [expected] is [c.Service.Image.Ref]. *)
Definition checkImage (expected : string) (snap : RuntimeSnapshot) : Check :=
  match ContainerImages snap with
  | [] => mkCheck ConditionImageMatch false ReasonMissing
            "No container images found on workload" SeverityError
  | actual :: _ =>
      if imageMatches expected actual
      then mkCheck ConditionImageMatch true ReasonMatch
             ("Container image matches contract (" +:+ actual +:+ ")") SeverityError
      else mkCheck ConditionImageMatch false ReasonMismatch
             ("Contract declares image " +:+ Quote expected +:+ " but container has "
              +:+ Quote actual) SeverityError
  end.

(** [checkHealthTiming]; [ids] is [*c.Runtime.Health.InitialDelaySeconds]. *)
Definition checkHealthTiming (ids : Z) (snap : RuntimeSnapshot) : Check :=
  let expected := int32 ids in
  match HealthProbeInitialDelay snap with
  | None =>
      mkCheck ConditionHealthTimingMatch false ReasonMissing
        ("Contract declares health initialDelaySeconds=" +:+ fmt_d expected +:+
         " but no probe configured on container") SeverityWarning
  | Some actual =>
      if bool_decide (expected = actual)
      then mkCheck ConditionHealthTimingMatch true ReasonMatch
             ("Health probe initialDelaySeconds matches (" +:+ fmt_d expected +:+ "s)")
             SeverityWarning
      else mkCheck ConditionHealthTimingMatch false ReasonMismatch
             ("Contract declares health initialDelaySeconds=" +:+ fmt_d expected +:+
              " but probe has " +:+ fmt_d actual) SeverityWarning
  end.

(** ** [Validate] *)

(** The block guarded by [snap.WorkloadExists && c.Runtime != nil]. *)
Definition runtimeChecks (c : Contract) (rt : Runtime) (snap : RuntimeSnapshot)
    (checks : list Check) : list Check :=
  let checks := checks ++ [checkWorkloadType rt snap] in
  let checks := checks ++ [checkStateModel rt snap] in
  let checks :=
    match rt_Lifecycle rt with
    | Some lc =>
        let checks :=
          if bool_decide (lc_UpgradeStrategy lc ≠ "")
          then checks ++ [checkUpgradeStrategy lc snap] else checks in
        match lc_GracefulShutdownSeconds lc with
        | Some gs => checks ++ [checkGracefulShutdown gs snap]
        | None => checks
        end
    | None => checks
    end in
  let checks :=
    match si_Image (c_Service c) with
    | Some img =>
        if bool_decide (img_Ref img ≠ "")
        then checks ++ [checkImage (img_Ref img) snap] else checks
    | None => checks
    end in
  match rt_Health rt with
  | Some h =>
      match h_InitialDelaySeconds h with
      | Some ids => checks ++ [checkHealthTiming ids snap]
      | None => checks
      end
  | None => checks
  end.

(** [Validate]. *)
Definition Validate (c : Contract) (snap : RuntimeSnapshot) (hasService : bool) : Result :=
  let checks := [] in
  let ports := mkPorts [] [] [] [] in
  let checks := if hasService then checks ++ [checkServiceExists snap] else checks in
  let checks := checks ++ [checkWorkloadExists snap] in
  let '(checks, ports) :=
    if hasService && ServiceExists snap then
      let '(portsCheck, ports) := checkPorts c snap in (checks ++ [portsCheck], ports)
    else if hasService then
      (checks, mkPorts (contractPorts c) (Observed ports) (Missing ports) (Unexpected ports))
    else (checks, ports) in
  let checks :=
    match c_Runtime c with
    | Some rt => if WorkloadExists snap then runtimeChecks c rt snap checks else checks
    | None => checks
    end in
  {| Checks := checks; Ports := ports |}.

End checks.

(** [computeContractStatus]. *)
Definition is_resource_condition (name : string) : bool :=
  bool_decide (name = ConditionServiceExists) || bool_decide (name = ConditionWorkloadExists).

(** The verdict from the two flags the loop computes. *)
Definition status_of_flags (hasResourceFailure hasOtherFailure : bool) : string :=
  if hasResourceFailure then ContractStatusNonCompliant
  else if hasOtherFailure then ContractStatusWarning
  else ContractStatusCompliant.

Definition computeContractStatus (checks : list Check) : string :=
  let '(hasResourceFailure, hasOtherFailure) :=
    foldl (λ '(res, oth) c,
        if Passed c then (res, oth)
        else if is_resource_condition (Name c) then (true, oth) else (res, true))
      (false, false) checks in
  status_of_flags hasResourceFailure hasOtherFailure.

(** ** Specification *)

Section spec.
Context `{UnicodeTables}.

(** The checks in order, each present exactly when it applies. *)
Definition when (b : bool) (k : Check) : option Check := if b then Some k else None.

Definition check_table (c : Contract) (snap : RuntimeSnapshot) (hasService : bool)
    : list (option Check) :=
  let rt := if WorkloadExists snap then c_Runtime c else None in
  [ when hasService (checkServiceExists snap);
    Some (checkWorkloadExists snap);
    when (hasService && ServiceExists snap) (checkPorts c snap).1;
    r ← rt; Some (checkWorkloadType r snap);
    r ← rt; Some (checkStateModel r snap);
    r ← rt; lc ← rt_Lifecycle r;
      when (bool_decide (lc_UpgradeStrategy lc ≠ "")) (checkUpgradeStrategy lc snap);
    r ← rt; lc ← rt_Lifecycle r; gs ← lc_GracefulShutdownSeconds lc;
      Some (checkGracefulShutdown gs snap);
    r ← rt; img ← si_Image (c_Service c);
      when (bool_decide (img_Ref img ≠ "")) (checkImage (img_Ref img) snap);
    r ← rt; h ← rt_Health r; ids ← h_InitialDelaySeconds h;
      Some (checkHealthTiming ids snap) ].

(** The condition type each position of the table reports. *)
Definition table_names : list string :=
  [ ConditionServiceExists; ConditionWorkloadExists; ConditionPortsValid;
    ConditionWorkloadTypeMatch; ConditionStateModelMatch; ConditionUpgradeStrategyMatch;
    ConditionGracefulShutdownMatch; ConditionImageMatch; ConditionHealthTimingMatch ].

(** Which runtime a contract declares, in the words of the check. *)
Definition workload_agrees (workload kind : string) : Prop :=
  (workload = "service" ∧ (kind = "Deployment" ∨ kind = "StatefulSet")) ∨
  (workload = "job" ∧ kind = "Job") ∨ (workload = "scheduled" ∧ kind = "CronJob").

Definition state_agrees (st : State) (snap : RuntimeSnapshot) : Prop :=
  let persistent := per_Durability (sta_Persistence st) = "persistent" in
  (sta_Type st = "stateful" →
     WorkloadKind snap = "StatefulSet" ∧ (persistent → HasPVC snap = true)) ∧
  (sta_Type st = "stateless" → HasPVC snap = false) ∧
  (sta_Type st = "hybrid" → persistent → HasPVC snap = true).

(** The strategy the workload runs with: a Deployment's, or else a StatefulSet's pod
    management policy; [""] when the kind has neither. *)
Definition actual_strategy (snap : RuntimeSnapshot) : string :=
  if decide (DeploymentStrategy snap = "") then PodManagementPolicy snap
  else DeploymentStrategy snap.

Definition strategy_agrees (declared : string) (snap : RuntimeSnapshot) : Prop :=
  actual_strategy snap = "" ∨
  (declared = "rolling" ∧ actual_strategy snap = "RollingUpdate") ∨
  (declared = "recreate" ∧ actual_strategy snap = "Recreate") ∨
  (declared = "ordered" ∧ actual_strategy snap = "OrderedReady").

(** ** Proofs *)

Lemma contractPorts_spec c :
  contractPorts c = int32 <$> omap if_Port (c_Interfaces c).
Proof.
  unfold contractPorts.
  enough (∀ acc, foldl (λ ports iface, match if_Port iface with
      | Some p => ports ++ [int32 p] | None => ports end) acc (c_Interfaces c)
    = acc ++ (int32 <$> omap if_Port (c_Interfaces c))) as Hacc by apply (Hacc []).
  induction (c_Interfaces c) as [|i ifs IH]; intros acc; cbn; [by rewrite app_nil_r|].
  rewrite IH. destruct (if_Port i); cbn; [by rewrite <- app_assoc|done].
Qed.

Lemma runtimeChecks_app c rt snap checks :
  runtimeChecks c rt snap checks = checks ++ runtimeChecks c rt snap [].
Proof.
  unfold runtimeChecks.
  destruct (rt_Lifecycle rt) as [[us gs]|]; cbn;
    destruct (si_Image (c_Service c)) as [img|]; cbn;
    destruct (rt_Health rt) as [[hi hp ids]|]; cbn;
    try destruct ids; try destruct gs; cbn;
    repeat case_bool_decide; rewrite <- ?app_assoc; done.
Qed.

Lemma runtimeChecks_table c rt snap hs :
  c_Runtime c = Some rt → WorkloadExists snap = true →
  runtimeChecks c rt snap [] = omap id (drop 3 (check_table c snap hs)).
Proof.
  intros Hrt Hw. unfold runtimeChecks, check_table, when. rewrite Hw, Hrt.
  destruct rt as [w st [[us [gs|]]|] [[hi hp [ids|]]|] m]; cbn;
    destruct (si_Image (c_Service c)) as [img|]; cbn; repeat case_bool_decide; done.
Qed.

Lemma Validate_checks_table c snap hs :
  Checks (Validate c snap hs) = omap id (check_table c snap hs).
Proof.
  assert (∀ front, match c_Runtime c with
      | Some rt => if WorkloadExists snap then runtimeChecks c rt snap front else front
      | None => front end = front ++ omap id (drop 3 (check_table c snap hs))) as Hrt.
  { intros front. destruct (c_Runtime c) as [rt|] eqn:Erc.
    - destruct (WorkloadExists snap) eqn:Ew.
      + by rewrite runtimeChecks_app, (runtimeChecks_table c rt snap hs).
      + unfold check_table. rewrite Ew. cbn. by rewrite app_nil_r.
    - unfold check_table. rewrite Erc. destruct (WorkloadExists snap); cbn;
        by rewrite app_nil_r. }
  unfold Validate.
  destruct hs; cbn [andb app]; [destruct (ServiceExists snap) eqn:Es|];
    [destruct (checkPorts c snap) as [pc ps] eqn:Ep| |];
    cbn [Checks]; rewrite Hrt; unfold check_table, when; rewrite ?Es, ?Ep; done.
Qed.

(** Each check function reports one condition type on all of its branches. *)
Ltac name_tac :=
  intros; unfold checkServiceExists, checkWorkloadExists, checkPorts, checkWorkloadType,
    checkStateModel, checkUpgradeStrategy, checkGracefulShutdown, checkImage,
    checkHealthTiming; cbv zeta; repeat case_match; reflexivity.

Lemma checkServiceExists_name snap :
  Name (checkServiceExists snap) = ConditionServiceExists. Proof. name_tac. Qed.
Lemma checkWorkloadExists_name snap :
  Name (checkWorkloadExists snap) = ConditionWorkloadExists. Proof. name_tac. Qed.
Lemma checkPorts_name c snap :
  Name (checkPorts c snap).1 = ConditionPortsValid. Proof. name_tac. Qed.
Lemma checkWorkloadType_name rt snap :
  Name (checkWorkloadType rt snap) = ConditionWorkloadTypeMatch. Proof. name_tac. Qed.
Lemma checkStateModel_name rt snap :
  Name (checkStateModel rt snap) = ConditionStateModelMatch. Proof. name_tac. Qed.
Lemma checkUpgradeStrategy_name lc snap :
  Name (checkUpgradeStrategy lc snap) = ConditionUpgradeStrategyMatch.
Proof. name_tac. Qed.
Lemma checkGracefulShutdown_name gs snap :
  Name (checkGracefulShutdown gs snap) = ConditionGracefulShutdownMatch.
Proof. name_tac. Qed.
Lemma checkImage_name e snap :
  Name (checkImage e snap) = ConditionImageMatch. Proof. name_tac. Qed.
Lemma checkHealthTiming_name ids snap :
  Name (checkHealthTiming ids snap) = ConditionHealthTimingMatch. Proof. name_tac. Qed.

Create Rewrite HintDb check_names.
#[local] Hint Rewrite checkServiceExists_name checkWorkloadExists_name checkPorts_name
  checkWorkloadType_name checkStateModel_name checkUpgradeStrategy_name
  checkGracefulShutdown_name checkImage_name checkHealthTiming_name : check_names.

(** Every check reports under the name of its position, so names never repeat. *)
Lemma check_table_names c snap hs :
  Forall2 (λ o n, ∀ k, o = Some k → Name k = n) (check_table c snap hs) table_names.
Proof.
  unfold check_table, table_names, when. cbv zeta.
  generalize (if WorkloadExists snap then c_Runtime c else None) as rt. intros rt.
  repeat (apply Forall2_cons; split); try apply Forall2_nil; try done; intros k Hk;
    simplify_option_eq; repeat case_match; simplify_eq; by autorewrite with check_names.
Qed.

Lemma Forall2_omap_names (os : list (option Check)) ns :
  Forall2 (λ o n, ∀ k, o = Some k → Name k = n) os ns →
  sublist (Name <$> omap id os) ns.
Proof.
  induction 1 as [|o n os ns Hn _ IH]; [constructor|].
  destruct o as [k|]; cbn; [rewrite (Hn k) by done|]; by constructor.
Qed.

Lemma table_names_NoDup : NoDup table_names.
Proof. apply (bool_decide_unpack _). by vm_compute. Qed.

Lemma Validate_names_sublist c snap hs :
  sublist (Name <$> Checks (Validate c snap hs)) table_names.
Proof. rewrite Validate_checks_table. apply Forall2_omap_names, check_table_names. Qed.

Lemma Validate_names_NoDup c snap hs : NoDup (Name <$> Checks (Validate c snap hs)).
Proof.
  eapply sublist_NoDup; [apply table_names_NoDup|apply Validate_names_sublist].
Qed.

(** [Validate] runs exactly the checks that apply, in the order of
    the table: existence first, then ports when the Service exists, then the runtime
    checks when the workload exists and the contract declares the section each one
    compares; and no two checks report the same condition. *)
Theorem Validate_runs_the_table c snap hs :
  Checks (Validate c snap hs) = omap id (check_table c snap hs) ∧
  NoDup (Name <$> Checks (Validate c snap hs)) ∧
  Ports (Validate c snap hs) =
    (if hs then if ServiceExists snap then (checkPorts c snap).2
                else mkPorts (contractPorts c) [] [] []
     else mkPorts [] [] [] []).
Proof.
  split; [apply Validate_checks_table|]. split; [apply Validate_names_NoDup|].
  unfold Validate. destruct hs, (ServiceExists snap); cbn; try done.
  by destruct (checkPorts c snap).
Qed.
End spec.

(** *** Verdicts *)

(** The loop both status computations share. *)
Lemma fold_flags {A} (passed resource : A → bool) (l : list A) r o :
  foldl (λ '(res, oth) c,
      if passed c then (res, oth)
      else if resource c then (true, oth) else (res, true)) (r, o) l
  = (r || existsb (λ c, negb (passed c) && resource c) l,
     o || existsb (λ c, negb (passed c) && negb (resource c)) l).
Proof.
  revert r o. induction l as [|x l IH]; intros r o; cbn; [by rewrite !orb_false_r|].
  destruct (passed x); cbn; [apply IH|].
  destruct (resource x); cbn; rewrite IH; cbn; by rewrite ?orb_true_r.
Qed.

(** The three verdicts are exclusive and say which failures there are. *)
Definition verdict {A} (passed resource : A → bool) (l : list A) (s : string) : Prop :=
  (s = ContractStatusNonCompliant ↔ ∃ x, x ∈ l ∧ passed x = false ∧ resource x = true) ∧
  (s = ContractStatusWarning ↔
     (∀ x, x ∈ l → resource x = true → passed x = true) ∧
     ∃ x, x ∈ l ∧ passed x = false) ∧
  (s = ContractStatusCompliant ↔ ∀ x, x ∈ l → passed x = true).

Lemma verdict_of_flags {A} (passed resource : A → bool) (l : list A) :
  verdict passed resource l
    (status_of_flags (existsb (λ c, negb (passed c) && resource c) l)
                     (existsb (λ c, negb (passed c) && negb (resource c)) l)).
Proof.
  unfold verdict, status_of_flags.
  destruct (existsb (λ c, negb (passed c) && resource c) l) eqn:E1.
  { apply existsb_elem in E1 as (x & Hx & [Hp Hr]%andb_true_iff).
    apply negb_true_iff in Hp. split_and!; [split; eauto|split; [done|]..].
    - intros [Hall _]. by rewrite Hall in Hp.
    - intros Hall. by rewrite Hall in Hp. }
  assert (∀ x, x ∈ l → resource x = true → passed x = true) as Hres.
  { intros x Hx Hr. apply existsb_false_elem with (x := x) in E1; [|done].
    rewrite Hr, andb_true_r in E1. by apply negb_false_iff in E1. }
  destruct (existsb (λ c, negb (passed c) && negb (resource c)) l) eqn:E2.
  - apply existsb_elem in E2 as (x & Hx & [Hp Hr]%andb_true_iff).
    apply negb_true_iff in Hp. split_and!; [split; [done|]|split; eauto|split; [done|]].
    + intros (y & Hy & Hf & Hr'). by rewrite Hres in Hf.
    + intros Hall. by rewrite Hall in Hp.
  - assert (∀ x, x ∈ l → passed x = true) as Hall.
    { intros x Hx. apply existsb_false_elem with (x := x) in E2; [|done].
      destruct (resource x) eqn:Er; [by apply Hres|].
      rewrite andb_true_r in E2. by apply negb_false_iff in E2. }
    split_and!; [split; [done|]..|split; done].
    + intros (y & Hy & Hf & _). by rewrite Hall in Hf.
    + intros (_ & y & Hy & Hf). by rewrite Hall in Hf.
Qed.

Lemma computeContractStatus_verdict checks :
  verdict Passed (λ k, is_resource_condition (Name k)) checks (computeContractStatus checks).
Proof.
  unfold computeContractStatus.
  rewrite (fold_flags Passed (λ k, is_resource_condition (Name k))).
  apply verdict_of_flags.
Qed.

Section verdicts.
Context `{UnicodeTables}.

Lemma elem_of_table c snap hs k :
  k ∈ Checks (Validate c snap hs) ↔ Some k ∈ check_table c snap hs.
Proof.
  rewrite Validate_checks_table, list_elem_of_omap. split.
  - by intros (o & Ho & Heq); cbn in Heq; subst.
  - intros Hk. by exists (Some k).
Qed.

Lemma table_resource_checks c snap hs k :
  k ∈ Checks (Validate c snap hs) → is_resource_condition (Name k) = true →
  (hs = true ∧ k = checkServiceExists snap) ∨ k = checkWorkloadExists snap.
Proof.
  rewrite elem_of_table. intros Hk Hr.
  apply list_elem_of_lookup in Hk as [i Hi].
  destruct (Forall2_lookup_l _ _ _ i _ (check_table_names c snap hs) Hi) as (n & Hn & Hname).
  rewrite (Hname k eq_refl) in Hr.
  destruct i as [|[|i]]; cbn in Hi, Hn.
  - left. unfold when in Hi. destruct hs; naive_solver.
  - right. naive_solver.
  - exfalso. do 7 (destruct i as [|i]; [by injection Hn as <-|]). done.
Qed.

(** Runtime validation finds the contract NonCompliant exactly when a target object
    is missing, and every other failed check, whatever its severity, is a warning. *)
Lemma Validate_NonCompliant c snap hs :
  computeContractStatus (Checks (Validate c snap hs)) = ContractStatusNonCompliant ↔
  (hs = true ∧ ServiceExists snap = false) ∨ WorkloadExists snap = false.
Proof.
  destruct (computeContractStatus_verdict (Checks (Validate c snap hs))) as [-> _].
  split.
  - intros (k & Hk & Hp & Hr).
    destruct (table_resource_checks c snap hs k Hk Hr) as [[-> ->]| ->].
    + left. split; [done|]. unfold checkServiceExists in Hp. by destruct (ServiceExists snap).
    + right. unfold checkWorkloadExists in Hp. by destruct (WorkloadExists snap).
  - intros [[-> Hs]|Hw].
    + exists (checkServiceExists snap). rewrite elem_of_table. unfold checkServiceExists.
      rewrite Hs. split; [|done]. unfold check_table, when, checkServiceExists. rewrite Hs.
      by left.
    + exists (checkWorkloadExists snap). rewrite elem_of_table. unfold checkWorkloadExists.
      rewrite Hw. split; [|done]. unfold check_table, when, checkWorkloadExists. rewrite Hw.
      right. by left.
Qed.

(** C30 (functional). The compliance verdict of a validation: NonCompliant exactly when
    the Service asked for or the workload is missing; otherwise Warning exactly when
    some check failed, even one of error severity; Compliant exactly when every check
    passed. *)
Theorem Validate_verdict c snap hs :
  let checks := Checks (Validate c snap hs) in
  (computeContractStatus checks = ContractStatusNonCompliant ↔
     (hs = true ∧ ServiceExists snap = false) ∨ WorkloadExists snap = false) ∧
  (computeContractStatus checks = ContractStatusWarning ↔
     ((hs = true → ServiceExists snap = true) ∧ WorkloadExists snap = true) ∧
     ∃ k, k ∈ checks ∧ Passed k = false) ∧
  (computeContractStatus checks = ContractStatusCompliant ↔
     ∀ k, k ∈ checks → Passed k = true).
Proof.
  cbv zeta. pose proof (Validate_NonCompliant c snap hs) as HN.
  destruct (computeContractStatus_verdict (Checks (Validate c snap hs)))
    as (HN' & HW & HC).
  split_and!; [done| |done]. rewrite HW.
  assert ((∀ x, x ∈ Checks (Validate c snap hs) → is_resource_condition (Name x) = true →
             Passed x = true) ↔
          (hs = true → ServiceExists snap = true) ∧ WorkloadExists snap = true) as ->;
    [|done].
  transitivity (computeContractStatus (Checks (Validate c snap hs)) ≠
                ContractStatusNonCompliant).
  - rewrite HN'. split.
    + intros Hall (x & Hx & Hf & Hr). by rewrite Hall in Hf.
    + intros Hnone x Hx Hr. destruct (Passed x) eqn:E; [done|]. destruct Hnone. eauto.
  - rewrite HN. destruct hs, (ServiceExists snap), (WorkloadExists snap); naive_solver.
Qed.

(** The port comparison: "missing" and "unexpected" are the two set
    differences in declaration order, extra Service ports never fail the check, and
    for ports in the [int32] range the comparison is on the declared numbers. *)
Theorem checkPorts_compares c snap :
  let '(k, p) := checkPorts c snap in
  Expected p = contractPorts c ∧ Observed p = ServicePorts snap ∧
  Missing p `sublist_of` Expected p ∧ Unexpected p `sublist_of` Observed p ∧
  (∀ x, x ∈ Missing p ↔ x ∈ Expected p ∧ x ∉ Observed p) ∧
  (∀ x, x ∈ Unexpected p ↔ x ∈ Observed p ∧ x ∉ Expected p) ∧
  (Passed k = true ↔ Expected p ⊆ Observed p) ∧
  (Forall (in_range 32) (omap if_Port (c_Interfaces c)) →
     Expected p = omap if_Port (c_Interfaces c)).
Proof.
  assert (∀ l1 l2 : list Z, ∀ x,
    x ∈ filter (λ p, p ∉ (list_to_set l2 : gset Z)) l1 ↔ x ∈ l1 ∧ x ∉ l2) as Hdiff.
  { intros l1 l2 x. rewrite list_elem_of_filter, elem_of_list_to_set. tauto. }
  assert (∀ p, checkPorts c snap = p →
    p.2 = mkPorts (contractPorts c) (ServicePorts snap)
      (filter (λ p, p ∉ (list_to_set (ServicePorts snap) : gset Z)) (contractPorts c))
      (filter (λ p, p ∉ (list_to_set (contractPorts c) : gset Z)) (ServicePorts snap)) ∧
    (Passed p.1 = true ↔ filter (λ p, p ∉ (list_to_set (ServicePorts snap) : gset Z))
                           (contractPorts c) = [])) as Hcp.
  { intros p <-. unfold checkPorts. rewrite <- length_zero_iff_nil.
    case_bool_decide; cbn; naive_solver. }
  destruct (checkPorts c snap) as [k p]. destruct (Hcp _ eq_refl) as [Hp Hk].
  cbn in Hp, Hk. subst p. cbn.
  split_and!; auto using sublist_filter.
  - rewrite Hk, filter_nil_iff. split.
    + intros Hall x Hx. destruct (decide (x ∈ ServicePorts snap)); [done|].
      exfalso. apply (Hall x Hx). by rewrite elem_of_list_to_set.
    + intros Hsub x Hx. rewrite elem_of_list_to_set. intros Hn. by apply Hn, Hsub.
  - intros Hr. rewrite contractPorts_spec. induction Hr as [|x l Hx Hr IH]; [done|].
    cbn. by rewrite int32_id, IH.
Qed.

(** Case analysis on the guards, then congruence on the facts they leave. *)
Ltac verdict_tac :=
  repeat (case_bool_decide || case_decide || case_match); cbn in *;
  split; try done; intros; repeat (destruct_or? || destruct_and?); try congruence;
  first [naive_solver | split_and?; intros; split_and?; intros; congruence | set_solver].

(** C31 (functional). What each runtime check accepts, on every branch: the workload
    kind and the state model as tables of the declared words, the upgrade strategy
    also when the kind has none to compare, shutdown period and probe delay as exact
    numbers (the delay after conversion to [int32]), and the image as [imageMatches]
    against the first container. *)
Theorem runtime_checks_verdicts rt lc gs ids ref snap :
  (Passed (checkWorkloadType rt snap) = true ↔
     workload_agrees (rt_Workload rt) (WorkloadKind snap)) ∧
  (Passed (checkStateModel rt snap) = true ↔ state_agrees (rt_State rt) snap) ∧
  (Passed (checkUpgradeStrategy lc snap) = true ↔
     strategy_agrees (lc_UpgradeStrategy lc) snap) ∧
  (Passed (checkGracefulShutdown gs snap) = true ↔
     TerminationGracePeriod snap = Some (int64 gs)) ∧
  (Passed (checkHealthTiming ids snap) = true ↔
     HealthProbeInitialDelay snap = Some (int32 ids)) ∧
  (Passed (checkImage ref snap) = true ↔
     ∃ actual rest, ContainerImages snap = actual :: rest ∧ imageMatches ref actual = true).
Proof.
  split_and!.
  - unfold checkWorkloadType, workload_agrees.
    verdict_tac.
  - unfold checkStateModel, state_agrees.
    destruct (HasPVC snap); verdict_tac.
  - unfold checkUpgradeStrategy, strategy_agrees, actual_strategy.
    verdict_tac.
  - unfold checkGracefulShutdown. case_match; [case_bool_decide|]; cbn; naive_solver.
  - unfold checkHealthTiming. case_match; [case_bool_decide|]; cbn; naive_solver.
  - unfold checkImage. destruct (ContainerImages snap) as [|a rest]; [naive_solver|].
    destruct (imageMatches ref a) eqn:E; cbn; naive_solver.
Qed.

End verdicts.

End Validator.
