(* ===== verification/Credentials.v ===== *)
(** * Registry credentials

    [internal/credentials/resolve.go]: credentials from Kubernetes Secrets, for the
    operator's own pulls and merged for the dashboard. [encoding/json] on the Docker
    configuration is an interface ([DockerConfigCodec]); everything else computes. *)

From S2P Require Import Prelude GoStrings GoMaps GoFmt Utf8.
From stdpp Require Import options.
#[local] Set Default Proof Using "Type*".

Module Credentials.
Import Utf8.

(** [dockerConfigEntry]; [dockerConfigJSON] is its [Auths] map. *)
Record dockerConfigEntry := mkEntry { Auth : string; Username : string; Password : string }.

#[export] Instance dockerConfigEntry_eq_dec : EqDecision dockerConfigEntry.
Proof. solve_decision. Defined.

Record dockerConfigJSON := { Auths : gmap string dockerConfigEntry }.

(** [authn.AuthConfig], the fields the operator sets. *)
Record AuthConfig := mkAuth {
  ac_Username : string; ac_Password : string; ac_RegistryToken : string }.

#[export] Instance AuthConfig_eq_dec : EqDecision AuthConfig.
Proof. solve_decision. Defined.

(** [corev1.Secret]; a data value is its bytes. *)
Record Secret := {
  sec_Name : string; sec_Type : string; sec_Data : gmap string string }.

Definition SecretTypeDockerConfigJson := "kubernetes.io/dockerconfigjson".
Definition DockerConfigJsonKey := ".dockerconfigjson".

(** [json.Unmarshal(raw, &cfg)] and [json.Marshal(cfg)]. *)
Class DockerConfigCodec := {
  json_Unmarshal : string → result dockerConfigJSON;
  json_Marshal : dockerConfigJSON → string
}.

(** A configuration all strings of which are text. *)
Definition text_entry (e : dockerConfigEntry) : Prop :=
  ValidString (Auth e) = true ∧ ValidString (Username e) = true ∧
  ValidString (Password e) = true.
Definition text_config (auths : gmap string dockerConfigEntry) : Prop :=
  ∀ k e, auths !! k = Some e → ValidString k = true ∧ text_entry e.

(** The documented behaviour of [encoding/json]: what it decodes is text, and text survives
    encoding; other bytes are replaced by U+FFFD. *)
Class DockerConfigLaws `{DockerConfigCodec} := {
  Unmarshal_text raw cfg : json_Unmarshal raw = Ok cfg → text_config (Auths cfg);
  Unmarshal_Marshal cfg : text_config (Auths cfg) → json_Unmarshal (json_Marshal cfg) = Ok cfg
}.

(** [string(secret.Data[key])]: a missing key reads as no bytes. *)
Definition data_string (secret : Secret) (key : string) : string :=
  default "" (sec_Data secret !! key).

Definition dockerHubHost := "index.docker.io".

(** [normalizeRegistryHost]. *)
Definition normalizeRegistryHost (host : string) : string :=
  let host :=
    match find_first "://" host with
    | Some i => str_drop (i + 3) host
    | None => host
    end in
  let host :=
    match find_first "/" host with
    | Some i => str_take i host
    | None => host
    end in
  let host := TrimRight host "/" in
  if bool_decide (host = "docker.io") then dockerHubHost else host.

(** [RegistryFromRef]. *)
Definition RegistryFromRef (ref : string) : string :=
  let ref := TrimPrefix ref "oci://" in
  let ref :=
    match find_first "@" ref with
    | Some i => str_take i ref
    | None => ref
    end in
  let '(registry, _, found) := Cut ref "/" in
  if negb found then dockerHubHost
  else if ContainsAny registry ".:" then registry
  else dockerHubHost.

(** [encodeAuth]. *)
Definition encodeAuth (auth : AuthConfig) : string :=
  if bool_decide (ac_RegistryToken auth ≠ "")
  then base64_encode (bytes_of ("_token:" +:+ ac_RegistryToken auth))
  else base64_encode (bytes_of (ac_Username auth +:+ ":" +:+ ac_Password auth)).

Section resolve.
Context `{UnicodeTables} `{GoMaps} `{DockerConfigCodec}.

(** [fromOpaque]. *)
Definition fromOpaque (secret : Secret) : result AuthConfig :=
  let token := data_string secret "token" in
  if bool_decide (token ≠ "") then Ok (mkAuth "" "" token)
  else
    let user := data_string secret "username" in
    let pass := data_string secret "password" in
    if bool_decide (user ≠ "") && bool_decide (pass ≠ "") then Ok (mkAuth user pass "")
    else Err (Errorf ("secret " +:+ Quote (sec_Name secret) +:+
           " must contain either 'token' or 'username'+'password' keys")).

(** [entryToAuthConfig]. *)
Definition entryToAuthConfig (entry : dockerConfigEntry) (secretName : string)
    : result AuthConfig :=
  if bool_decide (Username entry ≠ "") && bool_decide (Password entry ≠ "")
  then Ok (mkAuth (Username entry) (Password entry) "")
  else if bool_decide (Auth entry ≠ "") then
    match base64_decode (Auth entry) with
    | Err e => Err (Wrap ("secret " +:+ Quote secretName +:+
                          ": invalid base64 in auth field: ") e)
    | Ok decoded =>
        let bad := Err (Errorf ("secret " +:+ Quote secretName +:+
                     ": auth field must be base64(username:password)")) in
        match SplitN2 (of_bytes decoded) ":" with
        | [user; pass] => if bool_decide (user = "") then bad else Ok (mkAuth user pass "")
        | _ => bad
        end
    end
  else Err (Errorf ("secret " +:+ Quote secretName +:+ ": auth entry has no credentials")).

(** [matchRegistry]: the first entry of the iteration whose key normalises to the
    normalised registry. *)
Definition matchRegistry (auths : gmap string dockerConfigEntry) (registry : string)
    : option dockerConfigEntry :=
  let registry := normalizeRegistryHost registry in
  '(_, (_, entry)) ← list_find (λ ke, normalizeRegistryHost ke.1 = registry) (range auths);
  Some entry.

(** [fromDockerConfigJSON]. *)
Definition fromDockerConfigJSON (secret : Secret) (registry : string) : result AuthConfig :=
  let name := Quote (sec_Name secret) in
  match sec_Data secret !! DockerConfigJsonKey with
  | None =>
      Err (Errorf ("secret " +:+ name +:+ " is type " +:+ SecretTypeDockerConfigJson +:+
                   " but missing key " +:+ Quote DockerConfigJsonKey))
  | Some raw =>
      match json_Unmarshal raw with
      | Err e => Err (Wrap ("secret " +:+ name +:+ ": malformed dockerconfigjson: ") e)
      | Ok cfg =>
          if bool_decide (size (Auths cfg) = 0%nat)
          then Err (Errorf ("secret " +:+ name +:+ ": dockerconfigjson has no auth entries"))
          else
            match matchRegistry (Auths cfg) registry with
            | None =>
                let registries := (range (Auths cfg)).*1 in
                Err (Errorf ("secret " +:+ name +:+ ": no auth entry for registry " +:+
                  Quote registry +:+ " (available: " +:+ Join registries ", " +:+ ")"))
            | Some entry => entryToAuthConfig entry (sec_Name secret)
            end
      end
  end.

(** [FromSecret]. *)
Definition FromSecret (secret : Secret) (registry : string) : result AuthConfig :=
  if bool_decide (sec_Type secret = SecretTypeDockerConfigJson)
  then fromDockerConfigJSON secret registry
  else fromOpaque secret.

(** The body of the loop of [MergeToDockerConfigJSON]: one more secret merged. *)
Definition merge_secret (merged : gmap string dockerConfigEntry) (secret : Secret)
    : result (gmap string dockerConfigEntry) :=
  let name := Quote (sec_Name secret) in
  if bool_decide (sec_Type secret = SecretTypeDockerConfigJson) then
    match sec_Data secret !! DockerConfigJsonKey with
    | None => Err (Errorf ("secret " +:+ name +:+ ": missing key " +:+
                           Quote DockerConfigJsonKey))
    | Some raw =>
        match json_Unmarshal raw with
        | Err e => Err (Wrap ("secret " +:+ name +:+ ": malformed dockerconfigjson: ") e)
        | Ok cfg =>
            Ok (foldl (λ m '(registry, entry), <[normalizeRegistryHost registry := entry]> m)
                  merged (range (Auths cfg)))
        end
    end
  else
    let registry := TrimSpace (data_string secret "registry") in
    if bool_decide (registry = "") then
      Err (Errorf ("secret " +:+ name +:+ ": opaque secrets must contain a 'registry' key "
                   +:+ "specifying the registry hostname (e.g. ghcr.io)"))
    else
      match fromOpaque secret with
      | Err e => Err (Wrap ("secret " +:+ name +:+ ": ") e)
      | Ok auth =>
          Ok (<[normalizeRegistryHost registry :=
                  mkEntry (encodeAuth auth) (ac_Username auth) (ac_Password auth)]> merged)
      end.

Fixpoint merge_secrets (merged : gmap string dockerConfigEntry) (secrets : list Secret)
    : result (gmap string dockerConfigEntry) :=
  match secrets with
  | [] => Ok merged
  | secret :: rest => merged ← merge_secret merged secret; merge_secrets merged rest
  end.

(** [MergeToDockerConfigJSON]. *)
Definition MergeToDockerConfigJSON (secrets : list Secret) : result string :=
  merged ← merge_secrets ∅ secrets;
  Ok (json_Marshal {| Auths := merged |}).

End resolve.

(** ** Registry hosts *)

Lemma normalizeRegistryHost_no_slash h :
  has_byte "/" (normalizeRegistryHost h) = false.
Proof.
  unfold normalizeRegistryHost. cbv zeta.
  set (h1 := match find_first "://" h with Some _ => _ | None => _ end). clearbody h1.
  assert (has_byte "/" (match find_first "/" h1 with
            Some i => str_take i h1 | None => h1 end) = false) as H2.
  { destruct (find_first "/" h1) as [i|] eqn:E; [by eapply find_first_take|].
    by apply find_first_none_iff. }
  rewrite TrimRight_id by done. by case_bool_decide.
Qed.

Lemma normalizeRegistryHost_idemp h :
  normalizeRegistryHost (normalizeRegistryHost h) = normalizeRegistryHost h.
Proof.
  pose proof (normalizeRegistryHost_no_slash h) as Hs.
  assert (normalizeRegistryHost h ≠ "docker.io") as Hd.
  { unfold normalizeRegistryHost. cbv zeta. by case_bool_decide. }
  revert Hs Hd. generalize (normalizeRegistryHost h). clear h. intros h Hs Hd.
  unfold normalizeRegistryHost. cbv zeta.
  rewrite (find_first_needs "/" "://" h), (find_first_none "/" h), TrimRight_id by done.
  by rewrite bool_decide_eq_false_2.
Qed.

Lemma normalizeRegistryHost_text h :
  ValidString h = true → ValidString (normalizeRegistryHost h) = true.
Proof.
  intros Hh. unfold normalizeRegistryHost. cbv zeta.
  set (h1 := match find_first "://" h with Some _ => _ | None => _ end).
  assert (ValidString h1 = true) as H1.
  { subst h1. destruct (find_first "://" h) as [i|] eqn:E; [|done].
    by apply (ValidString_around "://" ":" "//" h i). }
  set (h2 := match find_first "/" h1 with Some _ => _ | None => _ end).
  assert (ValidString h2 = true ∧ has_byte "/" h2 = false) as [H2 Hs].
  { subst h2. destruct (find_first "/" h1) as [i|] eqn:E.
    - split; [by apply (ValidString_around "/" "/" "" h1 i)|by eapply find_first_take].
    - split; [done|by apply find_first_none_iff]. }
  rewrite TrimRight_id by done. by case_bool_decide.
Qed.

(** On a reference whose part before the first slash is [host],
    [RegistryFromRef] answers [host] when it looks like a host name (a dot or a port),
    and Docker Hub's host otherwise, whatever follows the slash and whether or not the
    reference carries the scheme; a reference without a slash is a Docker Hub one. *)
Theorem RegistryFromRef_host host path :
  has_byte "/" host = false → has_byte "@" host = false →
  HasPrefix (host +:+ "/" +:+ path) "oci://" = false →
  RegistryFromRef (host +:+ "/" +:+ path) =
    (if has_byte "." host || has_byte ":" host then host else dockerHubHost) ∧
  RegistryFromRef ("oci://" +:+ host +:+ "/" +:+ path) =
    RegistryFromRef (host +:+ "/" +:+ path) ∧
  RegistryFromRef host = dockerHubHost.
Proof.
  intros Hs Ha Hp.
  assert (∀ ref, TrimPrefix ref "oci://" = host +:+ "/" +:+ path →
    RegistryFromRef ref = if has_byte "." host || has_byte ":" host
                          then host else dockerHubHost) as Hcore.
  { intros ref Href. unfold RegistryFromRef. rewrite Href. cbv zeta.
    rewrite find_first_skip, app_byte by done.
    assert (∀ rest, Cut (host +:+ String "/" rest) "/" = (host, rest, true)) as Hcut
      by (intros rest; by apply Cut_app).
    rewrite find_first_byte. cbn [Ascii.eqb].
    destruct (find_first "@" path) as [j|]; cbn; [rewrite str_take_skip; cbn|];
      rewrite Hcut; cbn [negb]; by rewrite orb_false_r. }
  repeat split.
  - apply Hcore. by apply TrimPrefix_id.
  - rewrite !Hcore; [done|by apply TrimPrefix_id|apply TrimPrefix_app].
  - unfold RegistryFromRef. rewrite TrimPrefix_id, (find_first_none "@") by
      (try done; apply not_true_iff_false; intros [r Hr]%HasPrefix_spec;
       by rewrite Hr in Hs).
    by rewrite Cut_none.
Qed.

Lemma RegistryFromRef_host_witness :
  RegistryFromRef "registry:5000/org/repo@sha256:ab" = "registry:5000" ∧
  RegistryFromRef "oci://registry:5000/org/repo@sha256:ab" = "registry:5000" ∧
  RegistryFromRef "registry:5000" = dockerHubHost.
Proof. apply (RegistryFromRef_host "registry:5000" "org/repo@sha256:ab"); reflexivity. Defined.

(** ** Matching *)

Section matching.
Context `{UnicodeTables} `{GoMaps}.

Lemma matchRegistry_Some auths registry entry :
  matchRegistry auths registry = Some entry →
  ∃ k, auths !! k = Some entry ∧
       normalizeRegistryHost k = normalizeRegistryHost registry.
Proof.
  unfold matchRegistry. cbv zeta. intros ([i [k e]] & Hf & [= <-])%bind_Some.
  apply list_find_Some in Hf as (Hl & Hk & _). exists k. split; [|done].
  apply elem_of_range. by eapply list_elem_of_lookup_2.
Qed.

Lemma matchRegistry_None auths registry :
  matchRegistry auths registry = None →
  ∀ k e, auths !! k = Some e → normalizeRegistryHost k ≠ normalizeRegistryHost registry.
Proof.
  unfold matchRegistry. cbv zeta. intros [Hf|([i [k' e']] & _ & ?)]%bind_None; [|done].
  intros k e Hk. apply list_find_None in Hf. rewrite Forall_forall in Hf.
  apply (Hf (k, e)). by apply elem_of_range.
Qed.

(** A map whose keys are already normalised is looked up exactly. *)
Lemma matchRegistry_normal auths registry :
  (∀ k e, auths !! k = Some e → normalizeRegistryHost k = k) →
  matchRegistry auths registry = auths !! normalizeRegistryHost registry.
Proof.
  intros Hn. destruct (matchRegistry auths registry) as [e|] eqn:Hm.
  - apply matchRegistry_Some in Hm as (k & Hk & E). by rewrite <- E, (Hn k e).
  - pose proof (matchRegistry_None _ _ Hm) as Hno.
    destruct (auths !! _) as [e|] eqn:He; [|done].
    destruct (Hno _ _ He). apply normalizeRegistryHost_idemp.
Qed.

End matching.

Lemma matchRegistry_order_from auths k e registry :
  auths !! k = Some e → normalizeRegistryHost k = normalizeRegistryHost registry →
  @matchRegistry (order_from k) auths registry = Some e.
Proof.
  intros Hk E. unfold matchRegistry. cbn [range order_from]. unfold visit_first.
  rewrite Hk. cbn. by rewrite decide_True.
Qed.

(** The entry [matchRegistry] picks is the same for every order in
    which the runtime may visit the map exactly when all keys that normalise to the
    registry carry the same entry; with two different ones the answer depends on the
    order of the iteration, an exact match having no precedence. *)
Theorem matchRegistry_deterministic auths registry :
  (∀ o1 o2 : GoMaps, @matchRegistry o1 auths registry = @matchRegistry o2 auths registry) ↔
  (∀ k1 k2 e1 e2, auths !! k1 = Some e1 → auths !! k2 = Some e2 →
     normalizeRegistryHost k1 = normalizeRegistryHost registry →
     normalizeRegistryHost k2 = normalizeRegistryHost registry → e1 = e2).
Proof.
  split.
  - intros Hall k1 k2 e1 e2 H1 H2 E1 E2.
    specialize (Hall (order_from k1) (order_from k2)).
    rewrite (matchRegistry_order_from _ k1 e1), (matchRegistry_order_from _ k2 e2) in Hall;
      by simplify_eq.
  - intros Hagree o1 o2.
    destruct (@matchRegistry o1 auths registry) as [e1|] eqn:M1,
             (@matchRegistry o2 auths registry) as [e2|] eqn:M2; try done.
    + apply matchRegistry_Some in M1 as (k1 & ? & ?).
      apply matchRegistry_Some in M2 as (k2 & ? & ?). f_equal. by eapply Hagree.
    + apply matchRegistry_Some in M1 as (k & Hk & E).
      by destruct (matchRegistry_None _ _ M2 _ _ Hk).
    + apply matchRegistry_Some in M2 as (k & Hk & E).
      by destruct (matchRegistry_None _ _ M1 _ _ Hk).
Qed.


(** ** The [auth] field *)

Section encoding.
Context `{UnicodeTables}.

(** What an entry without explicit user and password means. *)
Lemma entry_of_auth_text user pass n u p :
  user = "" ∨ pass = "" → u ≠ "" → has_byte ":" u = false →
  entryToAuthConfig
    (mkEntry (base64_encode (bytes_of (u +:+ ":" +:+ p))) user pass) n = Ok (mkAuth u p "").
Proof.
  intros Hne Hu Hc. unfold entryToAuthConfig. cbn [Username Password Auth].
  assert (bool_decide (user ≠ "") && bool_decide (pass ≠ "") = false) as ->
    by (by apply andb_false_iff; destruct Hne as [-> | ->]; [left|right]).
  destruct (bool_decide (base64_encode _ ≠ "")) eqn:Hb.
  - rewrite base64_decode_encode by apply bytes_of_range.
    rewrite of_bytes_of, app_byte. cbv zeta. rewrite SplitN2_app by done.
    by rewrite bool_decide_eq_false_2.
  - apply bool_decide_eq_false_1, dec_stable, base64_encode_empty in Hb.
    by destruct u.
Qed.

(** What [encodeAuth] writes reads back as the user and password, or as the user
    [_token] with the token as its password. *)
Definition decoded_auth (auth : AuthConfig) : AuthConfig :=
  if bool_decide (ac_RegistryToken auth ≠ "")
  then mkAuth "_token" (ac_RegistryToken auth) ""
  else mkAuth (ac_Username auth) (ac_Password auth) "".

(** The credentials an opaque secret yields, written into a Docker
    configuration entry as [MergeToDockerConfigJSON] writes them, are read back by
    [entryToAuthConfig]: user and password unchanged, a registry token as the password
    of the user [_token]; a user name with a colon in it survives too, because the
    explicit fields are preferred to the [auth] text. *)
Theorem opaque_entry_roundtrip secret auth n :
  fromOpaque secret = Ok auth →
  entryToAuthConfig (mkEntry (encodeAuth auth) (ac_Username auth) (ac_Password auth)) n =
    Ok (decoded_auth auth).
Proof.
  unfold fromOpaque, decoded_auth. cbv zeta. intros Hf.
  destruct (bool_decide (data_string secret "token" ≠ "")) eqn:Ht.
  - injection Hf as <-. unfold encodeAuth. cbn [ac_RegistryToken ac_Username ac_Password].
    rewrite Ht. change ("_token:" +:+ ?t) with ("_token" +:+ ":" +:+ t).
    apply entry_of_auth_text; auto.
  - destruct (bool_decide (data_string secret "username" ≠ "")) eqn:Hu; [|done].
    destruct (bool_decide (data_string secret "password" ≠ "")) eqn:Hp; [|done].
    injection Hf as <-. unfold entryToAuthConfig. cbn. by rewrite Hu, Hp.
Qed.

End encoding.

(** ** What a secret provides

    Read off the secrets as their authors mean them. *)

(** The credentials of an entry: an explicit user and password, else the ones in the text
    of the [auth] field, up to the first colon and after it; without either it has none. *)
Definition auth_text (e : dockerConfigEntry) (text : string) : Prop :=
  ∃ bs, base64_decode (Auth e) = Ok bs ∧ of_bytes bs = text.

Inductive entry_means : dockerConfigEntry → option AuthConfig → Prop :=
| means_explicit e :
    Username e ≠ "" → Password e ≠ "" →
    entry_means e (Some (mkAuth (Username e) (Password e) ""))
| means_text e user pass :
    Username e = "" ∨ Password e = "" →
    auth_text e (user +:+ ":" +:+ pass) → has_byte ":" user = false → user ≠ "" →
    entry_means e (Some (mkAuth user pass ""))
| means_nothing e :
    Username e = "" ∨ Password e = "" →
    (∀ user pass, auth_text e (user +:+ ":" +:+ pass) → has_byte ":" user = false →
       user = "") →
    entry_means e None.

(** The credentials a source secret has for a host: the entry of a key of its Docker
    configuration that names the host, or, for a secret whose [registry] names it, its token
    as the password of the user [_token], or its user and password. *)
Inductive provides `{DockerConfigCodec} (host : string) (s : Secret)
    : option AuthConfig → Prop :=
| provides_docker raw cfg k e a :
    sec_Type s = SecretTypeDockerConfigJson → sec_Data s !! DockerConfigJsonKey = Some raw →
    json_Unmarshal raw = Ok cfg → Auths cfg !! k = Some e → normalizeRegistryHost k = host →
    entry_means e a → provides host s a
| provides_token :
    sec_Type s ≠ SecretTypeDockerConfigJson →
    normalizeRegistryHost (TrimSpace (data_string s "registry")) = host →
    data_string s "token" ≠ "" →
    provides host s (Some (mkAuth "_token" (data_string s "token") ""))
| provides_basic :
    sec_Type s ≠ SecretTypeDockerConfigJson →
    normalizeRegistryHost (TrimSpace (data_string s "registry")) = host →
    data_string s "token" = "" →
    provides host s
      (Some (mkAuth (data_string s "username") (data_string s "password") "")).

(** An opaque secret whose registry, user and password are text (its token may be any
    bytes). *)
Definition text_secret (s : Secret) : Prop :=
  sec_Type s ≠ SecretTypeDockerConfigJson →
  ValidString (TrimSpace (data_string s "registry")) = true ∧
  ValidString (data_string s "username") = true ∧
  ValidString (data_string s "password") = true.

(** The credentials that were found. *)
Definition found (r : result AuthConfig) : option AuthConfig :=
  match r with Ok a => Some a | Err _ => None end.

Lemma entryToAuthConfig_means `{UnicodeTables} e n :
  entry_means e (found (entryToAuthConfig e n)).
Proof.
  unfold entryToAuthConfig.
  destruct (bool_decide (Username e ≠ "") && bool_decide (Password e ≠ "")) eqn:Hup.
  { apply andb_true_iff in Hup as [?%bool_decide_eq_true_1 ?%bool_decide_eq_true_1].
    by apply means_explicit. }
  assert (Username e = "" ∨ Password e = "") as Hne.
  { apply andb_false_iff in Hup as [Hup|Hup]; apply bool_decide_eq_false_1, dec_stable in Hup;
      auto. }
  clear Hup. case_bool_decide as Ha; cycle 1.
  { apply means_nothing; [done|]. intros user pass (bs & Hbs & Ht) _.
    rewrite Ha in Hbs. injection Hbs as <-. by destruct user. }
  destruct (base64_decode (Auth e)) as [bs|err] eqn:Hbs; cycle 1.
  { apply means_nothing; [done|]. intros user pass (bs & Hbs' & _). congruence. }
  cbv zeta. destruct (has_byte ":" (of_bytes bs)) eqn:Hc.
  - apply has_byte_split in Hc as (user & pass & Ht & Hu). rewrite Ht, SplitN2_app by done.
    case_bool_decide as Hue.
    + apply means_nothing; [done|]. intros u p (bs' & Hbs' & Ht') Hu'.
      rewrite Hbs in Hbs'. injection Hbs' as <-. rewrite Ht, app_byte in Ht'.
      pose proof (SplitN2_app user pass ":" Hu) as E. rewrite Ht', SplitN2_app in E by done.
      injection E as -> _. done.
    + apply means_text; [done| |done..]. exists bs. by rewrite app_byte.
  - rewrite SplitN2_none by done. apply means_nothing; [done|].
    intros u p (bs' & Hbs' & Ht') _. rewrite Hbs in Hbs'. injection Hbs' as <-.
    rewrite Ht', has_byte_app in Hc. cbn in Hc. by rewrite orb_true_r in Hc.
Qed.

(** ** Merging *)

Definition insert_entry (m : gmap string dockerConfigEntry)
    (ke : string * dockerConfigEntry) : gmap string dockerConfigEntry :=
  let '(registry, entry) := ke in <[normalizeRegistryHost registry := entry]> m.

Lemma foldl_insert_entry l (m : gmap string dockerConfigEntry) :
  foldl insert_entry m l = foldl insert_entry ∅ l ∪ m.
Proof.
  rewrite <- (left_id_L ∅ (∪) m) at 1. generalize (∅ : gmap string dockerConfigEntry).
  induction l as [|[r e] l IH]; intros m'; [done|].
  cbn. by rewrite <- IH, insert_union_l.
Qed.

Lemma foldl_insert_entry_normal l k e :
  foldl insert_entry ∅ l !! k = Some e → normalizeRegistryHost k = k.
Proof.
  assert (∀ m : gmap string dockerConfigEntry,
    (∀ k e, m !! k = Some e → normalizeRegistryHost k = k) →
    ∀ k e, foldl insert_entry m l !! k = Some e → normalizeRegistryHost k = k) as Hg.
  { induction l as [|[r e'] l IH]; intros m Hm; [done|]. cbn. apply IH.
    intros k' e'' [(<- & _)|(_ & Hk)]%lookup_insert_Some; [|eauto].
    apply normalizeRegistryHost_idemp. }
  apply Hg. intros k' e'. by rewrite lookup_empty.
Qed.

Section merging.
Context `{UnicodeTables} `{GoMaps} `{DockerConfigCodec}.

(** What one secret contributes does not depend on what was merged before it. *)
Lemma merge_secret_contribution m secret :
  merge_secret m secret = (λ c, c ∪ m) <$> merge_secret ∅ secret.
Proof.
  unfold merge_secret. cbv zeta. repeat case_match; try done; cbn.
  - f_equal. apply (foldl_insert_entry _ m).
  - by rewrite <- insert_union_l, (left_id_L ∅ (∪)).
Qed.

Lemma merge_secret_normal secret c :
  merge_secret ∅ secret = Ok c → ∀ k e, c !! k = Some e → normalizeRegistryHost k = k.
Proof.
  unfold merge_secret. cbv zeta. repeat case_match; try done; intros [= <-] k e.
  - apply (foldl_insert_entry_normal _ k e).
  - rewrite insert_empty. intros [<- _]%lookup_singleton_Some.
    apply normalizeRegistryHost_idemp.
Qed.

(** The contribution of the last secret that has one for [host]. *)
Definition last_contribution (host : string) (cs : list (gmap string dockerConfigEntry))
    : option dockerConfigEntry :=
  foldl (λ acc c, match c !! host with Some e => Some e | None => acc end) None cs.

Lemma last_contribution_split host cs1 c cs2 :
  (∀ c', c' ∈ cs2 → c' !! host = None) → is_Some (c !! host) →
  last_contribution host (cs1 ++ c :: cs2) = c !! host.
Proof.
  intros Hnone [e He]. unfold last_contribution. rewrite foldl_app. cbn. rewrite He.
  induction cs2 as [|c' cs2 IH]; [done|]. cbn. rewrite (Hnone c') by (by left).
  apply IH. intros c'' Hin. apply Hnone. by right.
Qed.

Lemma last_contribution_cases host cs :
  match last_contribution host cs with
  | Some e => ∃ c, c ∈ cs ∧ c !! host = Some e
  | None => ∀ c, c ∈ cs → c !! host = None
  end.
Proof.
  unfold last_contribution. induction cs as [|c cs IH] using rev_ind;
    [by intros c Hc%elem_of_nil|].
  rewrite foldl_app. cbn. destruct (c !! host) as [e|] eqn:Hc.
  { exists c. split; [|done]. apply elem_of_app. right. by left. }
  destruct (foldl _ None cs) as [e|].
  - destruct IH as (c' & Hc' & He). exists c'. split; [|done]. apply elem_of_app. by left.
  - intros c' [Hc'|E%list_elem_of_singleton]%elem_of_app; [by apply IH|by subst].
Qed.

Lemma merge_secrets_contributions m secrets m' :
  merge_secrets m secrets = Ok m' →
  ∃ cs, Forall2 (λ s c, merge_secret ∅ s = Ok c) secrets cs ∧
        ∀ k, m' !! k =
          foldl (λ acc c, match c !! k with Some e => Some e | None => acc end) (m !! k) cs.
Proof.
  revert m. induction secrets as [|s secrets IH]; intros m; cbn [merge_secrets].
  { intros [= <-]. by exists []. }
  rewrite merge_secret_contribution.
  destruct (merge_secret ∅ s) as [c|e] eqn:Hs; [|done]. cbn. intros Hm.
  destruct (IH _ Hm) as (cs & Hcs & Hl). exists (c :: cs). split; [by constructor|].
  intros k. rewrite Hl, lookup_union. cbn. f_equal.
  by destruct (c !! k), (m !! k).
Qed.

Lemma merge_secrets_fails secrets m :
  match merge_secrets m secrets with
  | Err e => ∃ ok s rest, secrets = ok ++ s :: rest ∧
               (∀ s', s' ∈ ok → is_ok (merge_secret ∅ s') = true) ∧
               merge_secret ∅ s = Err e
  | Ok _ => ∀ s, s ∈ secrets → is_ok (merge_secret ∅ s) = true
  end.
Proof.
  revert m. induction secrets as [|s secrets IH]; intros m;
    cbn [merge_secrets]; [by intros ? ?%elem_of_nil|].
  rewrite merge_secret_contribution.
  destruct (merge_secret ∅ s) as [c|e] eqn:Hs; cbn.
  - specialize (IH (c ∪ m)). destruct (merge_secrets (c ∪ m) secrets) as [m'|e].
    + intros s' [->|Hin]%elem_of_cons; [by rewrite Hs|auto].
    + destruct IH as (ok & s' & rest & -> & Hok & He). exists (s :: ok), s', rest.
      repeat split; [|done]. intros s'' [->|Hin]%elem_of_cons; [by rewrite Hs|auto].
  - exists [], s, secrets. repeat split; [|done]. by intros ? ?%elem_of_nil.
Qed.

(** The managed secret of the dashboard: its data is the merged configuration. *)
Definition docker_secret (name raw : string) : Secret :=
  {| sec_Name := name; sec_Type := SecretTypeDockerConfigJson;
     sec_Data := {[ DockerConfigJsonKey := raw ]} |}.

(** What a contribution holds for a host is what the secret provides for it. *)
Lemma foldl_insert_entry_lookup l host :
  match foldl insert_entry ∅ l !! host with
  | Some e => ∃ k, (k, e) ∈ l ∧ normalizeRegistryHost k = host
  | None => ∀ k e, (k, e) ∈ l → normalizeRegistryHost k ≠ host
  end.
Proof.
  induction l as [|[k e] l IH] using rev_ind.
  { cbn. rewrite lookup_empty. by intros k e ?%elem_of_nil. }
  rewrite foldl_app. cbn. destruct (decide (normalizeRegistryHost k = host)) as [<-|Hne].
  { rewrite lookup_insert_eq. exists k. split; [|done]. apply elem_of_app. right. by left. }
  rewrite lookup_insert_ne by done. destruct (foldl _ ∅ l !! host) as [e'|].
  - destruct IH as (k' & Hin & Hk'). exists k'. split; [|done]. apply elem_of_app. by left.
  - intros k' e' [Hin|Hin%list_elem_of_singleton]%elem_of_app; [by eapply IH|by simplify_eq].
Qed.

Lemma contribution_provides secret c host n :
  merge_secret ∅ secret = Ok c →
  match c !! host with
  | Some e => provides host secret (found (entryToAuthConfig e n))
  | None => ∀ a, ¬ provides host secret a
  end.
Proof.
  unfold merge_secret. cbv zeta. case_bool_decide as Htype.
  - destruct (sec_Data secret !! DockerConfigJsonKey) as [raw|] eqn:Hraw; [|done].
    destruct (json_Unmarshal raw) as [cfg|] eqn:Hcfg; [|done]. intros [= <-].
    pose proof (foldl_insert_entry_lookup (range (Auths cfg)) host) as Hl.
    change (foldl _ ∅ (range (Auths cfg))) with (foldl insert_entry ∅ (range (Auths cfg))).
    destruct (foldl insert_entry _ _ !! host) as [e|].
    + destruct Hl as (k & Hk%elem_of_range & Hhost).
      eapply provides_docker; [done..|]. apply entryToAuthConfig_means.
    + intros a Hp. destruct Hp as [raw' cfg' k e a _ Hraw' Hcfg' Hk Hhost _|?|?]; [|done..].
      rewrite Hraw in Hraw'. simplify_eq. rewrite Hcfg in Hcfg'. simplify_eq.
      by apply (Hl k e); [apply elem_of_range|].
  - case_bool_decide; [done|]. destruct (fromOpaque secret) as [auth|] eqn:Hauth; [|done].
    intros [= <-]. rewrite insert_empty.
    destruct (decide (normalizeRegistryHost (TrimSpace (data_string secret "registry")) = host))
      as [Hhost|Hhost].
    + rewrite Hhost, lookup_singleton_eq, (opaque_entry_roundtrip secret auth n Hauth).
      revert Hauth. unfold fromOpaque, decoded_auth. cbv zeta. cbn [found].
      destruct (bool_decide (data_string secret "token" ≠ "")) eqn:Ht.
      * intros [= <-]. cbn [ac_RegistryToken]. rewrite Ht.
        apply bool_decide_eq_true_1 in Ht. by apply provides_token.
      * destruct (_ && _); [|done]. intros [= <-]. cbn.
        apply bool_decide_eq_false_1, dec_stable in Ht. by apply provides_basic.
    + rewrite lookup_singleton_ne by done. intros a Hp. by destruct Hp.
Qed.

Context `{!DockerConfigLaws}.

Lemma contribution_text secret c :
  text_secret secret → merge_secret ∅ secret = Ok c → text_config c.
Proof.
  unfold merge_secret, text_secret. cbv zeta. intros Htext. case_bool_decide as Htype.
  - destruct (sec_Data secret !! DockerConfigJsonKey) as [raw|]; [|done].
    destruct (json_Unmarshal raw) as [cfg|] eqn:Hcfg; [|done]. intros [= <-] host e He.
    pose proof (foldl_insert_entry_lookup (range (Auths cfg)) host) as Hl.
    change (foldl _ ∅ (range (Auths cfg))) with (foldl insert_entry ∅ (range (Auths cfg))) in He.
    rewrite He in Hl. destruct Hl as (k & Hk%elem_of_range & <-).
    destruct (Unmarshal_text raw cfg Hcfg k e Hk) as [Hkt Het].
    split; [by apply normalizeRegistryHost_text|done].
  - case_bool_decide; [done|]. destruct (fromOpaque secret) as [auth|] eqn:Hauth; [|done].
    intros [= <-] host e. rewrite insert_empty.
    intros [<- <-]%lookup_singleton_Some. destruct (Htext Htype) as (Hr & Hu & Hp).
    split; [by apply normalizeRegistryHost_text|]. unfold text_entry. cbn [Auth Username Password].
    assert (ValidString (encodeAuth auth) = true) as He
      by (apply ascii_only_valid; unfold encodeAuth; case_bool_decide; apply base64_encode_ascii).
    revert Hauth. unfold fromOpaque. cbv zeta. case_bool_decide; [by intros [= <-]|].
    destruct (_ && _); [|done]. by intros [= <-].
Qed.

(** Reading the merged configuration back. *)
Lemma merged_resolves secrets m cs name registry :
  merge_secrets ∅ secrets = Ok m → Forall text_secret secrets →
  Forall2 (λ s c, merge_secret ∅ s = Ok c) secrets cs →
  (∀ k, m !! k = last_contribution k cs) →
  found (FromSecret (docker_secret name (json_Marshal {| Auths := m |})) registry) =
  (e ← last_contribution (normalizeRegistryHost registry) cs; found (entryToAuthConfig e name)).
Proof.
  intros Hms Htext Hcs Hl.
  assert (∀ k e, m !! k = Some e → ∃ s c, s ∈ secrets ∧ merge_secret ∅ s = Ok c ∧
    c !! k = Some e) as Hfrom.
  { intros k e Hk. rewrite Hl in Hk. pose proof (last_contribution_cases k cs) as Hc.
    rewrite Hk in Hc. destruct Hc as (c & Hin & He).
    apply list_elem_of_lookup in Hin as [i Hi].
    destruct (Forall2_lookup_r _ _ _ _ _ Hcs Hi) as (s & Hs & Hm).
    exists s, c. split; [by eapply list_elem_of_lookup_2|done]. }
  assert (text_config m) as Ht.
  { intros k e Hk. destruct (Hfrom k e Hk) as (s & c & Hs & Hm & He).
    rewrite Forall_forall in Htext. by apply (contribution_text s c (Htext s Hs) Hm). }
  unfold FromSecret, fromDockerConfigJSON. cbn [sec_Type docker_secret].
  rewrite bool_decide_eq_true_2 by done. cbv zeta. cbn [sec_Data sec_Name docker_secret].
  rewrite lookup_singleton_eq, Unmarshal_Marshal by done. cbn [Auths].
  rewrite matchRegistry_normal, Hl; cycle 1.
  { intros k e Hk. destruct (Hfrom k e Hk) as (s & c & _ & Hm & He).
    by apply (merge_secret_normal s c Hm k e). }
  destruct (last_contribution _ cs) as [e|] eqn:He; [|by case_bool_decide].
  rewrite bool_decide_eq_false_2; [done|]. intros Hz%map_size_empty_inv.
  specialize (Hl (normalizeRegistryHost registry)). by rewrite Hz, lookup_empty, He in Hl.
Qed.

(** C25 (roundtrip). The merged configuration resolves: read back from a secret of type
    dockerconfigjson, whatever order the runtime visits maps in, the credentials for a
    registry are those that the last source secret with any for its normalised host
    provides: an explicit user and password of its Docker configuration or the ones in its
    [auth] text, the user and password of an opaque secret, or its token as the password of
    the user [_token]; none if no source secret has any. The registry, user and password of
    opaque secrets must be valid UTF-8, as [encoding/json] keeps nothing else. *)
Theorem MergeToDockerConfigJSON_resolves secrets raw name registry :
  Forall text_secret secrets → MergeToDockerConfigJSON secrets = Ok raw →
  let host := normalizeRegistryHost registry in
  let got := found (FromSecret (docker_secret name raw) registry) in
  (∀ before secret after,
     secrets = before ++ secret :: after → (∃ a, provides host secret a) →
     (∀ later a, later ∈ after → ¬ provides host later a) → provides host secret got) ∧
  ((∀ secret a, secret ∈ secrets → ¬ provides host secret a) → got = None).
Proof.
  intros Htext Hm. cbv zeta. unfold MergeToDockerConfigJSON in Hm.
  destruct (merge_secrets ∅ secrets) as [m|e] eqn:Hms; [|done]. injection Hm as <-.
  destruct (merge_secrets_contributions _ _ _ Hms) as (cs & Hcs & Hl).
  rewrite (merged_resolves secrets m cs) by (try done; intros k; by rewrite Hl, lookup_empty).
  set (host := normalizeRegistryHost registry).
  assert (∀ s c, merge_secret ∅ s = Ok c → (∀ a, ¬ provides host s a) → c !! host = None)
    as Hnothing.
  { intros s c Hc Hno. pose proof (contribution_provides s c host name Hc) as Hp.
    destruct (c !! host); [by destruct (Hno _ Hp)|done]. }
  split.
  - intros before secret after -> [a Ha] Hafter.
    apply Forall2_app_inv_l in Hcs as (cs1 & cs' & _ & Hcs & ->).
    apply Forall2_cons_inv_l in Hcs as (c & cs2 & Hc & Hcs2 & ->).
    pose proof (contribution_provides secret c host name Hc) as Hp.
    destruct (c !! host) as [e|] eqn:He; [|by destruct (Hp a)].
    rewrite last_contribution_split, He; [done| |by rewrite He].
    intros c' [i Hi]%list_elem_of_lookup.
    destruct (Forall2_lookup_r _ _ _ _ _ Hcs2 Hi) as (s & Hs & Hsc).
    apply (Hnothing s c' Hsc). intros a'. apply Hafter. by eapply list_elem_of_lookup_2.
  - intros Hno. pose proof (last_contribution_cases host cs) as Hc.
    destruct (last_contribution host cs) as [e|]; [|done]. destruct Hc as (c & Hin & He).
    apply list_elem_of_lookup in Hin as [i Hi].
    destruct (Forall2_lookup_r _ _ _ _ _ Hcs Hi) as (s & Hs & Hsc).
    rewrite (Hnothing s c Hsc) in He; [done|]. intros a'. apply Hno.
    by eapply list_elem_of_lookup_2.
Qed.

(** [MergeToDockerConfigJSON] fails only for a source secret that is
    unusable by itself: a dockerconfigjson secret without its key or with malformed
    JSON, or an opaque secret without a registry or without credentials; and it does
    fail when there is one, reporting the first. *)
Theorem MergeToDockerConfigJSON_fails secrets :
  match MergeToDockerConfigJSON secrets with
  | Err e => ∃ ok s rest, secrets = ok ++ s :: rest ∧
               (∀ s', s' ∈ ok → is_ok (merge_secret ∅ s') = true) ∧
               merge_secret ∅ s = Err e
  | Ok _ => ∀ s, s ∈ secrets → is_ok (merge_secret ∅ s) = true
  end.
Proof.
  unfold MergeToDockerConfigJSON. pose proof (merge_secrets_fails secrets ∅) as Hf.
  by destruct (merge_secrets ∅ secrets).
Qed.

End merging.

(** *** Witnesses *)

(** A codec with these laws, through the canonical coding of finite maps; what is not text
    is refused. *)
Section example_codec.
#[local] Instance entry_countable : Countable dockerConfigEntry.
Proof.
  apply (inj_countable' (λ e, (Auth e, Username e, Password e))
           (λ '(a, u, p), mkEntry a u p)). by intros [].
Defined.

#[local] Instance text_config_dec auths : Decision (text_config auths).
Proof.
  assert (∀ k e, Decision (ValidString k = true ∧ text_entry e)) by (unfold text_entry; apply _).
  apply (map_Forall_dec (λ k e, ValidString k = true ∧ text_entry e)).
Defined.

Definition example_codec : DockerConfigCodec := {|
  json_Unmarshal raw :=
    match decode (bits_parse raw) with
    | Some m =>
        if bool_decide (text_config m) then Ok {| Auths := m |}
        else Err (Errorf "invalid UTF-8")
    | None => Err (Errorf "invalid character")
    end;
  json_Marshal cfg := bits_string (encode (Auths cfg)) |}.

#[export] Instance example_codec_laws : @DockerConfigLaws example_codec.
Proof.
  constructor; cbn.
  - intros raw cfg. destruct (decode (bits_parse raw)) as [m|]; [|done].
    case_bool_decide; [|done]. by intros [= <-].
  - intros [m] Hm. cbn in *. rewrite bits_parse_string, decode_encode.
    by rewrite bool_decide_eq_true_2.
Qed.
End example_codec.


Definition ghcr_secret : Secret :=
  {| sec_Name := "ghcr"; sec_Type := "Opaque";
     sec_Data := {[ "registry" := " ghcr.io/ "; "username" := "bot"; "password" := "pw" ]} |}.

Lemma opaque_entry_roundtrip_witness :
  @entryToAuthConfig latin1_tables (mkEntry (encodeAuth (mkAuth "bot" "pw" "")) "bot" "pw")
    "ghcr" = Ok (mkAuth "bot" "pw" "").
Proof. by apply (@opaque_entry_roundtrip latin1_tables ghcr_secret (mkAuth "bot" "pw" "")). Defined.

(** The credentials for a repository of the registry, read back. *)
Example MergeToDockerConfigJSON_ex :
  (raw ← @MergeToDockerConfigJSON latin1_tables canonical_order example_codec [ghcr_secret];
   @FromSecret latin1_tables canonical_order example_codec (docker_secret "merged" raw)
     "https://ghcr.io/v2/") = Ok (mkAuth "bot" "pw" "").
Proof. vm_compute. reflexivity. Qed.

Lemma MergeToDockerConfigJSON_resolves_witness :
  ∃ raw, @MergeToDockerConfigJSON latin1_tables canonical_order example_codec [ghcr_secret] =
      Ok raw ∧
    @provides example_codec "ghcr.io" ghcr_secret
      (found (@FromSecret latin1_tables canonical_order example_codec
                (docker_secret "merged" raw) "https://ghcr.io/v2/")).
Proof.
  eexists. split; [reflexivity|].
  apply (@MergeToDockerConfigJSON_resolves latin1_tables canonical_order example_codec
    example_codec_laws [ghcr_secret] _ "merged" "https://ghcr.io/v2/") with (before := [])
    (after := []); [|reflexivity|reflexivity| |].
  - constructor; [|constructor]. intros _. vm_compute. auto.
  - eexists. apply provides_basic; [discriminate|reflexivity..].
  - intros later a Hin. inversion Hin.
Defined.


End Credentials.
