(* ===== verification/Prober.v ===== *)
(** * The prober

    [internal/prober]: one HTTP GET against a service endpoint. The network is the
    interface [HTTPTransport]; its operations act on a world [W]. *)

From S2P Require Import Prelude GoStrings GoFmt Contract.
From stdpp Require Import options.
#[local] Set Default Proof Using "Type*".

Module Prober.

(** [defaultTimeout] (nanoseconds) and [maxBodyRead]. *)
Definition defaultTimeout : Z := 5 * 1000000000.
Definition maxBodyRead : Z := 4096.

(** [prober.Result]. *)
Record Result := mkResult {
  URL : string; Reachable : bool; StatusCode : Z; LatencyMs : Z; Error : string;
  ContentPresent : bool; PrometheusLike : bool }.

(** What the code reads of an [http.Response]: the status code and the bytes the body
    yields before its end or its first read error (which [Probe] ignores). *)
Record Response := { resp_StatusCode : Z; resp_Body : string }.

(** [http.NewRequestWithContext] (which may refuse the URL), [client.Do] with the
    client's timeout. The client does not follow redirects. *)
Class HTTPTransport (W : Type) := {
  http_NewRequest : string → option error;
  http_Do : Z → string → W → result Response * W
}.

(** [Prober]: its client's timeout. *)
Record Prober := { client_Timeout : Z }.

(** [New]. *)
Definition New (timeout : Z) : Prober :=
  {| client_Timeout := if timeout <=? 0 then defaultTimeout else timeout |}.

(** [sanitizeError]. *)
Definition sanitizeError (err : error) : string :=
  let msg := err_text err in
  match find_last ": " msg with
  | Some idx =>
      if bool_decide (0 < idx)%nat then
        let suffix := str_drop (idx + 2) msg in
        if bool_decide (0 < len suffix)%nat then suffix else msg
      else msg
  | None => msg
  end.

(** [BuildURL]. *)
Definition BuildURL (serviceName namespace : string) (port : Z) (path : string) : string :=
  let path := if negb (HasPrefix path "/") then "/" +:+ path else path in
  "http://" +:+ serviceName +:+ "." +:+ namespace +:+ ".svc:" +:+ fmt_d port +:+ path.

(** [time.Duration.Milliseconds]. *)
Definition Milliseconds (d : Z) : Z := Z.quot d 1000000.

Section probe.
Context {W : Type} `{!Clock W} `{!HTTPTransport W}.

(** [Probe]. *)
Definition Probe (p : Prober) (url : string) : M W Result :=
  match http_NewRequest url with
  | Some err =>
      mret (mkResult url false 0 0 ("invalid URL: " +:+ err_text err) false false)
  | None =>
      start ← gets now;
      resp ← lift_op (http_Do (client_Timeout p) url);
      finish ← gets now;
      let latencyMs := Milliseconds (finish - start) in
      match resp with
      | Err err => mret (mkResult url false 0 latencyMs (sanitizeError err) false false)
      | Ok resp =>
          let body := str_take (Z.to_nat maxBodyRead) (resp_Body resp) in
          let contentPresent := bool_decide (0 < len body)%nat in
          mret (mkResult url true (int32 (resp_StatusCode resp)) latencyMs ""
                  contentPresent
                  (if contentPresent
                   then Contains body "# HELP" || Contains body "# TYPE"
                   else false))
      end
  end.

End probe.

(** ** Specification *)

#[local] Opaque maxBodyRead.

Lemma maxBodyRead_pos : (0 < Z.to_nat maxBodyRead)%nat.
Proof. change maxBodyRead with 4096. lia. Qed.

Lemma sanitizeError_empty err : sanitizeError err = "" ↔ err_text err = "".
Proof.
  unfold sanitizeError. cbv zeta. split; [|by intros ->].
  case_match; [|done]. repeat case_bool_decide; try done.
  intros Hs. rewrite Hs in *. cbn in *. lia.
Qed.

Lemma len_str_take_pos n s : (0 < n)%nat → (0 < len (str_take n s))%nat ↔ s ≠ "".
Proof. intros Hn. destruct n; [lia|]. destruct s; cbn; split; (done || lia). Qed.

Lemma BuildURL_absolute s n p path :
  BuildURL s n p path =
  "http://" +:+ s +:+ "." +:+ n +:+ ".svc:" +:+ fmt_d p +:+
    (if HasPrefix path "/" then path else "/" +:+ path).
Proof. unfold BuildURL. by destruct (HasPrefix path "/"). Qed.

Lemma absolute_path path :
  ∃ q, (if HasPrefix path "/" then path else "/" +:+ path) = String "/" q.
Proof.
  destruct (HasPrefix path "/") eqn:E; [|by exists path].
  apply HasPrefix_spec in E as [q ->]. by exists q.
Qed.

Section laws.
Context {W : Type} `{!Clock W} `{!HTTPTransport W}.

(** One request on the network. *)
Definition request (w w' : W) : Prop := ∃ timeout url, w' = (http_Do timeout url w).2.

Lemma Probe_returns (p : Prober) (url : string) (w : W) :
  ∃ r w', Probe p url w = (Ret r, w') ∧ rtc request w w'.
Proof.
  unfold Probe. destruct (http_NewRequest url) as [err|]; [by eauto using rtc_refl|].
  rewrite M_bind_unfold. cbn [gets]. rewrite M_bind_unfold. unfold lift_op.
  assert (rtc request w (http_Do (client_Timeout p) url w).2) as Hr
    by (apply rtc_once; by eexists _, _).
  destruct (http_Do (client_Timeout p) url w) as [[resp|err] w']; cbn [fst snd] in *;
    rewrite M_bind_unfold; cbn [gets]; eexists _, _; (split; [reflexivity|done]).
Qed.

(** A probe always ends in one of three ways and its result tells
    them apart: a refused URL (no request made, the world unchanged), a transport error
    (the error text cut at its last colon, never emptied by the cut), or an answer, whose
    status is reported as it came, with the content flags computed from the first 4096
    bytes. Only an answer is [Reachable], only a [Reachable] result carries a status or
    content flags, and Prometheus markers imply content. *)
Theorem Probe_outcomes (p : Prober) (url : string) (w : W) :
  let r := Probe p url w in
  match http_NewRequest url with
  | Some err =>
      r = (Ret (mkResult url false 0 0 ("invalid URL: " +:+ err_text err) false false), w)
  | None =>
      let '(resp, w') := http_Do (client_Timeout p) url w in
      r.2 = w' ∧
      ∃ res, r.1 = Ret res ∧ URL res = url ∧
        LatencyMs res = Milliseconds (now w' - now w) ∧
        (PrometheusLike res = true → ContentPresent res = true) ∧
        match resp with
        | Err err =>
            Reachable res = false ∧ StatusCode res = 0 ∧ ContentPresent res = false ∧
            (Error res = "" ↔ err_text err = "") ∧
            (∃ pre, err_text err = pre +:+ Error res)
        | Ok resp =>
            Reachable res = true ∧ Error res = "" ∧
            (in_range 32 (resp_StatusCode resp) → StatusCode res = resp_StatusCode resp) ∧
            (ContentPresent res = true ↔ resp_Body resp ≠ "")
        end
  end.
Proof.
  cbv zeta. unfold Probe. destruct (http_NewRequest url) as [err|]; [done|].
  rewrite !M_bind_unfold. cbn. rewrite !M_bind_unfold. unfold lift_op.
  destruct (http_Do (client_Timeout p) url w) as [[resp|err] w']; cbn;
    (split; [done|]); eexists; (split; [done|]); cbn; split_and!; try done.
  - intros. by case_bool_decide.
  - by intros ?%int32_id.
  - rewrite bool_decide_eq_true. apply len_str_take_pos, maxBodyRead_pos.
  - apply sanitizeError_empty.
  - unfold sanitizeError. cbv zeta. case_match; [|by exists ""].
    repeat case_bool_decide; try by exists "". eexists. symmetry. apply str_take_drop.
Qed.

End laws.

(** [BuildURL] names one endpoint: for service and namespace names
    without a dot (every valid Kubernetes name of these), two calls give the same URL
    exactly when service, namespace and port agree and the paths agree up to the one
    leading slash that is added when it is missing. *)
Theorem BuildURL_injective s1 n1 p1 path1 s2 n2 p2 path2 :
  (∀ x, x ∈ [s1; n1; s2; n2] → has_byte "." x = false) →
  BuildURL s1 n1 p1 path1 = BuildURL s2 n2 p2 path2 ↔
  s1 = s2 ∧ n1 = n2 ∧ p1 = p2 ∧
  (if HasPrefix path1 "/" then path1 else "/" +:+ path1) =
  (if HasPrefix path2 "/" then path2 else "/" +:+ path2).
Proof.
  intros Hdot. rewrite !BuildURL_absolute. generalize (absolute_path path1), (absolute_path path2).
  intros (q1 & ->) (q2 & ->). split; [|by intros (-> & -> & -> & ->)].
  intros H%app_inj_l. rewrite !app_byte in H.
  apply split_first_inj in H as [-> H]; [|apply Hdot; set_solver..].
  change (".svc:" +:+ ?r) with (String "." ("svc:" +:+ r)) in H.
  apply split_first_inj in H as [-> H]; [|apply Hdot; set_solver..].
  apply app_inj_l in H.
  apply split_first_inj in H as [H ->]; [|apply fmt_d_no_slash..].
  by apply (inj pretty) in H.
Qed.

Lemma BuildURL_injective_witness :
  BuildURL "api" "prod" 8080 "health" = BuildURL "api" "prod" 8080 "/health" ↔
  "api" = "api" ∧ "prod" = "prod" ∧ 8080 = 8080 ∧ "/health" = "/health".
Proof.
  apply (BuildURL_injective "api" "prod" 8080 "health" "api" "prod" 8080 "/health").
  intros x. rewrite !elem_of_cons, elem_of_nil. intros [->|[->|[->|[->|[]]]]]; reflexivity.
Defined.

(** Every timeout the operator configures is positive: a zero or negative one is
    replaced by five seconds. *)
Lemma New_timeout t : 0 < client_Timeout (New t).
Proof. unfold New, defaultTimeout. cbn. case_match; lia. Qed.

(** A network on which every endpoint answers 200 with a body, for examples. *)
Definition example_network : HTTPTransport Z := {|
  http_NewRequest _ := None;
  http_Do _ _ t := (Ok {| resp_StatusCode := 200; resp_Body := "# HELP up" |}, t) |}.

End Prober.
