(* ===== verification/Metrics.v ===== *)
(** * Metrics

    [internal/metrics]: the gauges emitted for a Pacto. A call of [Record] appends a
    sample to the trace of emissions; the exported value of a gauge is the last sample
    recorded for its attributes ([gauge]). *)

From S2P Require Import Prelude GoStrings GoFmt Contract V1alpha1 Observer Images Validator.
From stdpp Require Import options.

Module Metrics.

(** One [Int64Gauge.Record(ctx, value, attributes)] on the instrument of that name. *)
Record Sample := mkSample {
  instrument : string; attributes : list (string * string); value : Z }.

Definition allStatuses : list string :=
  [ContractStatusCompliant; ContractStatusWarning; ContractStatusNonCompliant;
   ContractStatusReference; ContractStatusUnknown].

Definition allReadinessStatuses : list string :=
  [ReasonReadinessSatisfied; ReasonReadinessBelowMinScore; ReasonReadinessExpired].

Definition readinessCheckStatuses : list string :=
  ["done"; "partial"; "not-done"; "deferred"].

(** The instruments of [registerGauges]. *)
Definition complianceStatus := "pacto_contract_compliance_status".
Definition validationErrors := "pacto_contract_validation_errors".
Definition validationWarns := "pacto_contract_validation_warnings".
Definition validationResult := "pacto_contract_validation_result".
Definition contractStatus := "pacto_contract_status".
Definition readinessScore := "pacto_readiness_score".
Definition readinessGate := "pacto_readiness_gate".
Definition readinessStatus := "pacto_readiness_status".
Definition readinessChecks := "pacto_readiness_checks".

(** The instruments with their descriptions. *)
Definition instruments : list (string * string) :=
  [(complianceStatus,
    "Whether the service is fully compliant with its contract (1=compliant, 0=non-compliant)");
   (validationErrors, "Number of error-level contract validation failures");
   (validationWarns, "Number of warning-level contract validation mismatches");
   (validationResult, "Result of each contract validation check (1=pass, 0=fail)");
   (contractStatus, "Contract status by phase (1=active, 0=inactive). Label 'status' is one of: Compliant, Warning, NonCompliant, Reference, Unknown");
   (readinessScore, "Derived operational readiness score (0-100)");
   (readinessGate, "Whether the readiness gate is met (1=passing, 0=not passing)");
   (readinessStatus, "Readiness gate state (1=active, 0=inactive). Label 'status' is one of: Satisfied, BelowMinScore, Expired");
   (readinessChecks, "Number of readiness checks by declared status. Label 'status' is one of: done, partial, not-done, deferred")].

(** The OpenTelemetry SDK: the exporter and the gauges of a meter that feeds it, by name and
    description. *)
Class OTelSDK := {
  Exporter : Type; Int64Gauge : Type;
  otelprom_New : result Exporter;
  meter_Int64Gauge : Exporter → string → string → result Int64Gauge
}.

(** [must]. *)
Definition must {S T} (r : result T) : M S T :=
  match r with Ok v => mret v | Err err => panic (err_text err) end.

(** [registerGauges]: the package variables, by the name of their instrument; errors are
    discarded, which leaves a variable nil. *)
Definition registerGauges `{OTelSDK} (exporter : Exporter)
    : list (string * option Int64Gauge) :=
  (λ '(name, description),
     (name, match meter_Int64Gauge exporter name description with
            | Ok g => Some g
            | Err _ => None
            end)) <$> instruments.

(** [init]. *)
Definition init `{OTelSDK} {S} : M S (list (string * option Int64Gauge)) :=
  exporter ← must otelprom_New; mret (registerGauges exporter).

(** [RecordContractStatus]. *)
Definition RecordContractStatus (namespace name status : string) : list Sample :=
  (λ s, mkSample contractStatus [("name", name); ("namespace", namespace); ("status", s)]
          (if bool_decide (s = status) then 1 else 0)) <$> allStatuses.

(** The loop of [RecordValidation] threads the error count, the warning count and the
    all-passed flag. *)
Definition record_check (baseAttrs : list (string * string))
    (acc : list Sample * Z * Z * bool) (check : Validator.Check)
    : list Sample * Z * Z * bool :=
  let '(out, errors, warnings, allPassed) := acc in
  let attrs := baseAttrs ++ [("check", Validator.Name check)] in
  if Validator.Passed check
  then (out ++ [mkSample validationResult attrs 1], errors, warnings, allPassed)
  else
    let severity := Validator.Severity check in
    let severity := if bool_decide (severity = "") then SeverityError else severity in
    let '(errors, warnings) :=
      if bool_decide (severity = SeverityError) then (errors + 1, warnings)
      else (errors, warnings + 1) in
    (out ++ [mkSample validationResult attrs 0], errors, warnings, false).

(** [RecordValidation]. *)
Definition RecordValidation (namespace service : string) (checks : list Validator.Check)
    : list Sample :=
  let baseAttrs := [("service", service); ("namespace", namespace)] in
  let '(out, errors, warnings, allPassed) :=
    foldl (record_check baseAttrs) ([], 0, 0, true) checks in
  out ++ [mkSample complianceStatus baseAttrs (if allPassed then 1 else 0);
          mkSample validationErrors baseAttrs errors;
          mkSample validationWarns baseAttrs warnings].

(** [RecordReadiness]. *)
Definition RecordReadiness (namespace name : string) (rs : option ReadinessStatus)
    (gateReason : string) : list Sample :=
  match rs with
  | None => []
  | Some rs =>
      let idAttrs := [("name", name); ("namespace", namespace)] in
      let counts : gmap string Z :=
        {[ "done" := rds_DoneCount rs; "partial" := rds_PartialCount rs;
           "not-done" := rds_NotDoneCount rs; "deferred" := rds_DeferredCount rs ]} in
      [mkSample readinessScore idAttrs (rds_Score rs);
       mkSample readinessGate idAttrs (if rds_Passing rs then 1 else 0)] ++
      ((λ s, mkSample readinessStatus [("name", name); ("namespace", namespace); ("status", s)]
               (if bool_decide (s = gateReason) then 1 else 0)) <$> allReadinessStatuses) ++
      ((λ s, mkSample readinessChecks [("name", name); ("namespace", namespace); ("status", s)]
               (default 0 (counts !! s))) <$> readinessCheckStatuses)
  end.

(** ** What a scrape sees *)

(** The current value of a gauge after a trace of emissions. *)
Fixpoint gauge (trace : list Sample) (inst : string) (attrs : list (string * string))
    : option Z :=
  match trace with
  | [] => None
  | s :: trace =>
      match gauge trace inst attrs with
      | Some v => Some v
      | None => if bool_decide (instrument s = inst ∧ attributes s = attrs)
                then Some (value s) else None
      end
  end.

(** Read a gauge off an explicit list of samples. *)
Ltac solve_gauge :=
  cbn [gauge instrument attributes value];
  repeat first [ rewrite bool_decide_eq_true_2 by done
               | rewrite bool_decide_eq_false_2 by (intros [? ?]; done) ].

Lemma gauge_app t1 t2 inst attrs :
  gauge (t1 ++ t2) inst attrs =
  match gauge t2 inst attrs with Some v => Some v | None => gauge t1 inst attrs end.
Proof.
  induction t1 as [|s t1 IH]; cbn; [by destruct (gauge t2 inst attrs)|].
  rewrite IH. by destruct (gauge t2 inst attrs).
Qed.

Lemma gauge_other t inst attrs :
  (∀ s, s ∈ t → instrument s ≠ inst ∨ attributes s ≠ attrs) → gauge t inst attrs = None.
Proof.
  induction t as [|s t IH]; intros Ho; [done|]. cbn.
  rewrite IH by (intros s' Hs'; apply Ho; by right).
  rewrite bool_decide_eq_false_2; [done|]. intros [? ?]. by destruct (Ho s ltac:(left)).
Qed.

Definition status_attrs (namespace name s : string) : list (string * string) :=
  [("name", name); ("namespace", namespace); ("status", s)].

(** An info-style gauge family: one sample per label, 1 for the current one. *)
Lemma gauge_family inst (attrs : string → list (string * string)) (v : string → Z) ls s :
  (∀ a b, attrs a = attrs b → a = b) → s ∈ ls →
  gauge ((λ l, mkSample inst (attrs l) (v l)) <$> ls) inst (attrs s) = Some (v s).
Proof.
  intros Hinj. induction ls as [|l ls IH]; intros Hin; [by apply elem_of_nil in Hin|].
  rewrite fmap_cons. cbn [gauge]. destruct (decide (s ∈ ls)) as [Hs|Hs]; [by rewrite IH|].
  apply elem_of_cons in Hin as [<-|?]; [|done].
  rewrite gauge_other.
  - by rewrite bool_decide_eq_true_2.
  - intros x (l & -> & Hl)%list_elem_of_fmap. right. cbn. by intros <-%Hinj.
Qed.

Lemma RecordContractStatus_gauge trace namespace name status s :
  s ∈ allStatuses →
  gauge (trace ++ RecordContractStatus namespace name status) contractStatus
    (status_attrs namespace name s) = Some (if bool_decide (s = status) then 1 else 0).
Proof.
  intros Hs. rewrite gauge_app. unfold RecordContractStatus.
  rewrite (gauge_family contractStatus (status_attrs namespace name)); [done| |done].
  by intros a b [= ->].
Qed.

(** Whatever was emitted before, after [RecordContractStatus] the gauge
    of the Pacto's own status reads 1 and those of the other four statuses read 0 (so
    exactly one phase is active when the status is one of the five); the gauges of other
    Pactos and other instruments are untouched. *)
Theorem RecordContractStatus_exactly_one trace namespace name status :
  let after := trace ++ RecordContractStatus namespace name status in
  (∀ s, s ∈ allStatuses →
     gauge after contractStatus (status_attrs namespace name s) =
       Some (if bool_decide (s = status) then 1 else 0)) ∧
  (is_contract_status status →
     exists! s, s ∈ allStatuses ∧
       gauge after contractStatus (status_attrs namespace name s) = Some 1) ∧
  (∀ inst attrs,
     inst ≠ contractStatus ∨ (∀ s, attrs ≠ status_attrs namespace name s) →
     gauge after inst attrs = gauge trace inst attrs).
Proof.
  cbv zeta.
  assert (∀ s, s ∈ allStatuses →
     gauge (trace ++ RecordContractStatus namespace name status) contractStatus
       (status_attrs namespace name s) =
       Some (if bool_decide (s = status) then 1 else 0)) as Hall
    by (intros; by apply RecordContractStatus_gauge).
  split; [exact Hall|split].
  - intros Hst. exists status. split.
    + split; [exact Hst|]. rewrite Hall by exact Hst. by rewrite bool_decide_eq_true_2.
    + intros s [Hs Hg]. rewrite Hall in Hg by done. by case_bool_decide.
  - intros inst attrs Ho. rewrite gauge_app, (gauge_other (RecordContractStatus _ _ _)); [done|].
    intros s (l & -> & _)%list_elem_of_fmap. cbn.
    destruct Ho as [Hi|Ha]; [left; congruence|right].
    intros <-. by destruct (Ha l).
Qed.

(** A failed check counts as an error unless it has a severity other than "error". *)
Definition is_error (k : Validator.Check) : bool :=
  bool_decide (Validator.Severity k = "") ||
  bool_decide (Validator.Severity k = SeverityError).

Definition failed_with (b : bool) (checks : list Validator.Check) : Z :=
  Z.of_nat (length (filter (λ k, Validator.Passed k = false ∧ is_error k = b) checks)).

Lemma record_checks base checks out e w p :
  foldl (record_check base) (out, e, w, p) checks =
    (out ++ ((λ k, mkSample validationResult (base ++ [("check", Validator.Name k)])
                (if Validator.Passed k then 1 else 0)) <$> checks),
     e + failed_with true checks, w + failed_with false checks,
     p && forallb Validator.Passed checks).
Proof.
  revert out e w p. induction checks as [|k checks IH]; intros out e w p.
  { unfold failed_with. cbn. rewrite app_nil_r, andb_true_r, !Z.add_0_r. done. }
  cbn [foldl record_check]. unfold failed_with, is_error in *.
  rewrite !filter_cons. cbn [forallb fmap list_fmap].
  destruct (Validator.Passed k) eqn:Hp.
  - rewrite IH, <- (assoc (++)). solve_decides. by destruct p.
  - assert (bool_decide ((if bool_decide (Validator.Severity k = "") then SeverityError
              else Validator.Severity k) = SeverityError) =
            bool_decide (Validator.Severity k = "") ||
            bool_decide (Validator.Severity k = SeverityError)) as ->
      by (by repeat case_bool_decide).
    destruct (_ || _); rewrite IH, <- (assoc (++));
      solve_decides;
      cbn [length]; rewrite andb_false_r; repeat apply (f_equal2 pair); (done || lia).
Qed.

(** The result gauges of checks with distinct names. *)
Lemma gauge_result base checks k :
  NoDup (Validator.Name <$> checks) → k ∈ checks →
  gauge ((λ k, mkSample validationResult (base ++ [("check", Validator.Name k)])
                (if Validator.Passed k then 1 else 0)) <$> checks)
    validationResult (base ++ [("check", Validator.Name k)]) =
  Some (if Validator.Passed k then 1 else 0).
Proof.
  induction checks as [|l checks IH]; intros Hnd Hk; [by apply elem_of_nil in Hk|].
  apply NoDup_cons in Hnd as [Hnot Hnd]. rewrite fmap_cons. cbn [gauge].
  apply elem_of_cons in Hk as [<-|Hk]; [|by rewrite IH].
  rewrite gauge_other; [by rewrite bool_decide_eq_true_2|].
  intros x (k' & -> & Hk')%list_elem_of_fmap. right. cbn. intros [= Heq]%(inj (app base)).
  destruct Hnot. rewrite <- Heq. by apply list_elem_of_fmap_2.
Qed.

(** The validation gauges are other instruments than the status gauge. *)
Lemma RecordValidation_other trace namespace service checks attrs :
  gauge (trace ++ RecordValidation namespace service checks) contractStatus attrs =
  gauge trace contractStatus attrs.
Proof.
  unfold RecordValidation. cbv zeta. rewrite record_checks, gauge_app, gauge_other; [done|].
  intros s. rewrite elem_of_app, !elem_of_cons, elem_of_nil. cbn [app].
  intros [(k & -> & _)%list_elem_of_fmap|[->|[->|[->|[]]]]]; by left.
Qed.

(** After [RecordValidation] the service's error and warning gauges add
    up to the number of failed checks, an unset severity counting as an error; the
    compliance gauge reads 1 exactly when no check failed (then both counts are 0); and
    the result gauge of each check reads its verdict when no two checks share a name. *)
Theorem RecordValidation_counts trace namespace service checks :
  let after := trace ++ RecordValidation namespace service checks in
  let base := [("service", service); ("namespace", namespace)] in
  ∃ errors warnings compliant,
    gauge after validationErrors base = Some errors ∧
    gauge after validationWarns base = Some warnings ∧
    gauge after complianceStatus base = Some compliant ∧
    errors + warnings =
      Z.of_nat (length (filter (λ k, Validator.Passed k = false) checks)) ∧
    errors = failed_with true checks ∧
    compliant = (if bool_decide (errors + warnings = 0) then 1 else 0) ∧
    (NoDup (Validator.Name <$> checks) → ∀ k, k ∈ checks →
       gauge after validationResult (base ++ [("check", Validator.Name k)]) =
         Some (if Validator.Passed k then 1 else 0)).
Proof.
  cbv zeta. unfold RecordValidation. cbv zeta. rewrite record_checks. cbn [app].
  assert (failed_with true checks + failed_with false checks =
    Z.of_nat (length (filter (λ k, Validator.Passed k = false) checks))) as Hsum.
  { unfold failed_with. induction checks as [|k checks IH]; [done|].
    rewrite !filter_cons. destruct (Validator.Passed k); [by solve_decides|].
    destruct (is_error k); solve_decides; cbn [length]; lia. }
  exists (failed_with true checks), (failed_with false checks),
    (if forallb Validator.Passed checks then 1 else 0).
  rewrite !gauge_app. split_and!; [by solve_gauge..|exact Hsum|done| |].
  - rewrite Hsum. destruct (forallb Validator.Passed checks) eqn:Hall.
    + rewrite bool_decide_eq_true_2; [done|].
      rewrite (proj2 (filter_nil_iff _ _)); [done|].
      intros k Hk. by rewrite (proj1 (forallb_elem _ _) Hall k Hk).
    + rewrite bool_decide_eq_false_2; [done|]. intros Hz. apply not_true_iff_false in Hall.
      apply Hall, forallb_elem. intros k Hk. apply not_false_iff_true. intros Hf.
      assert (filter (λ k, Validator.Passed k = false) checks = []) as Hnil
        by (apply length_zero_iff_nil; lia).
      by apply (proj1 (filter_nil_iff _ _) Hnil k).
  - intros Hnd k Hk. rewrite !gauge_app.
    rewrite (gauge_other [_; _; _]) by
      (intros s; rewrite !elem_of_cons, elem_of_nil; intros [->|[->|[->|[]]]]; by left).
    pose proof (gauge_result [("service", service); ("namespace", namespace)] _ _ Hnd Hk)
      as Hg. cbn [app] in Hg |- *. by rewrite Hg.
Qed.



(** [RecordReadiness] emits nothing without readiness data; with it, the
    score and gate gauges are the evaluated ones, the state gauge of the gate's reason
    reads 1 and the other states 0, and each declared status carries its count. *)
Theorem RecordReadiness_gauges trace namespace name rs reason :
  let after := trace ++ RecordReadiness namespace name rs reason in
  let id := [("name", name); ("namespace", namespace)] in
  match rs with
  | None => after = trace
  | Some r =>
      gauge after readinessScore id = Some (rds_Score r) ∧
      gauge after readinessGate id = Some (if rds_Passing r then 1 else 0) ∧
      (∀ s, s ∈ allReadinessStatuses →
         gauge after readinessStatus (status_attrs namespace name s) =
           Some (if bool_decide (s = reason) then 1 else 0)) ∧
      (λ s, gauge after readinessChecks (status_attrs namespace name s))
        <$> readinessCheckStatuses =
      [Some (rds_DoneCount r); Some (rds_PartialCount r); Some (rds_NotDoneCount r);
       Some (rds_DeferredCount r)]
  end.
Proof.
  cbv zeta. destruct rs as [r|]; cbn [RecordReadiness]; [|apply app_nil_r].
  cbv zeta. split_and!.
  - rewrite !gauge_app, !(gauge_other (_ <$> _)) by
      (intros x (l & -> & _)%list_elem_of_fmap; by left). by solve_gauge.
  - rewrite !gauge_app, !(gauge_other (_ <$> _)) by
      (intros x (l & -> & _)%list_elem_of_fmap; by left). by solve_gauge.
  - intros s Hs. rewrite !gauge_app.
    rewrite (gauge_other (_ <$> readinessCheckStatuses)) by
      (intros x (l & -> & _)%list_elem_of_fmap; by left).
    rewrite (gauge_family readinessStatus (status_attrs namespace name)); [done| |done].
    by intros a b [= ->].
  - set (counts := {[ "done" := _; _ := _; _ := _; _ := _ ]}).
    transitivity ((λ s, Some (default 0 (counts !! s))) <$> readinessCheckStatuses);
      [|reflexivity].
    apply list_fmap_ext. intros i s Hs%list_elem_of_lookup_2.
    rewrite !gauge_app, (gauge_family readinessChecks (status_attrs namespace name));
      [done| |done]. by intros a b [= ->].
Qed.

(** *** Start-up *)

(** The documented syntax of instrument names. *)
Definition instrument_name (n : string) : bool :=
  match String.list_ascii_of_string n with
  | c :: cs => is_letter c && forallb (λ d, is_alnum d || has_byte d "_.-/") cs
  | [] => false
  end && (len n <=? 255)%nat.

Lemma instruments_well_named :
  NoDup instruments.*1 ∧ forallb instrument_name instruments.*1 = true.
Proof. split; [by apply (bool_decide_unpack _)|by vm_compute]. Qed.

(** Every sample the package records is of one of the nine instruments. *)
Lemma recorded_instrument s ns n status svc checks rs reason :
  s ∈ RecordContractStatus ns n status ++ RecordValidation ns svc checks ++
      RecordReadiness ns n rs reason →
  instrument s ∈ instruments.*1.
Proof.
  assert (∀ base ks acc, (∀ s, s ∈ acc.1.1.1 → instrument s = validationResult) →
    ∀ s, s ∈ (foldl (record_check base) acc ks).1.1.1 → instrument s = validationResult) as Hv.
  { intros base ks. induction ks as [|k ks IH]; intros [[[out e] w] b] Hacc; [done|].
    cbn [foldl]. apply IH. intros s'. unfold record_check.
    destruct (Validator.Passed k); cbn; [|case_match]; cbn;
      rewrite elem_of_app, list_elem_of_singleton; intros [?| ->]; auto. }
  rewrite !elem_of_app. intros [Hs|[Hs|Hs]].
  - apply list_elem_of_fmap in Hs as (st & -> & _). cbn. set_solver.
  - unfold RecordValidation in Hs. cbv zeta in Hs.
    specialize (Hv [("service", svc); ("namespace", ns)] checks ([], 0, 0, true)
      ltac:(by intros ? ?%elem_of_nil)).
    destruct (foldl _ _ _) as [[[out e] w] b]. apply elem_of_app in Hs as [Hs|Hs].
    + rewrite (Hv s Hs). cbn. set_solver.
    + rewrite !elem_of_cons, elem_of_nil in Hs. destruct_or?; subst; cbn; set_solver.
  - destruct rs as [rs|]; [|by apply elem_of_nil in Hs].
    unfold RecordReadiness in Hs. cbv zeta in Hs. rewrite !elem_of_app in Hs.
    destruct Hs as [Hs|[Hs|Hs]].
    + rewrite !elem_of_cons, elem_of_nil in Hs. destruct_or?; subst; cbn; set_solver.
    + apply list_elem_of_fmap in Hs as (st & -> & _). cbn. set_solver.
    + apply list_elem_of_fmap in Hs as (st & -> & _). cbn. set_solver.
Qed.

(** The start of the process panics exactly when the exporter cannot be made, with its
    error. Otherwise, as the SDK makes a gauge for every well-formed name, each sample the
    package ever records goes to a gauge that exists, one per instrument. *)
Theorem init_registers_all `{OTelSDK} {S} (st : S) :
  (∀ exporter name description,
     instrument_name name = true → is_ok (meter_Int64Gauge exporter name description) = true) →
  match otelprom_New with
  | Err err => init st = (Panic (err_text err), st)
  | Ok _ => ∃ gauges, init st = (Ret gauges, st) ∧ NoDup gauges.*1 ∧
      ∀ s ns n status svc checks rs reason,
        s ∈ RecordContractStatus ns n status ++ RecordValidation ns svc checks ++
            RecordReadiness ns n rs reason →
        ∃ g, (instrument s, Some g) ∈ gauges
  end.
Proof.
  intros Hsdk. destruct instruments_well_named as [Hnd Hnames].
  unfold init. rewrite M_bind_unfold. destruct otelprom_New as [exporter|err]; [|done]. cbn.
  exists (registerGauges exporter). split; [done|].
  assert ((registerGauges exporter).*1 = instruments.*1) as Hfst.
  { unfold registerGauges. rewrite <- list_fmap_compose. apply list_fmap_ext.
    by intros ? [name d]. }
  split; [by rewrite Hfst|].
  intros s ns n status svc checks rs reason Hs%recorded_instrument.
  pose proof (proj1 (forallb_elem _ _) Hnames _ Hs) as Hname.
  apply list_elem_of_fmap in Hs as ([name d] & Hinst & Hin). cbn in Hinst.
  specialize (Hsdk exporter name d). rewrite <- Hinst in Hsdk.
  destruct (meter_Int64Gauge exporter (instrument s) d) as [g|] eqn:Hg; [|by specialize (Hsdk Hname)].
  exists g. unfold registerGauges. apply list_elem_of_fmap. exists (name, d).
  split; [|done]. by rewrite <- Hinst, Hg.
Qed.

End Metrics.
