(* ===== verification/Loader.v ===== *)
(** * The contract loader

    [internal/loader]: contracts from inline YAML or from an OCI registry, behind two
    time-bounded caches. The registry client of the pacto library is the interface
    [OCIClient]; its operations act on a world [W] with a clock. The loader's state is
    its two caches; [Load] and [ListTags] act on the world and on that state. Concurrent
    calls are in [LoaderConc]. *)

From S2P Require Import Prelude GoStrings GoMaps GoFmt Sha256 Contract Credentials.
From stdpp Require Import options.
#[local] Set Default Proof Using "Type*".

Module Loader.
Import Credentials(AuthConfig).

(** [LoadResult]. *)
Record LoadResult := mkLoadResult {
  lr_Contract : Contract; RawYAML : string; BundleFS : option FS;
  ResolvedRef : string; ResolvedDigest : string }.

(** ** [oci.go] *)

(** What [client.Pull] returns: the bundle of the pacto library. *)
Record Bundle := {
  bundle_Contract : Contract; bundle_RawYAML : string; bundle_FS : option FS }.

(** The keychains the operator builds: the one configured at start, or static
    credentials that take precedence over another keychain
    ([authn.NewMultiKeychain(staticKeychain{auth}, kc)]). *)
Inductive Keychain :=
| DefaultKeychain
| MultiKeychain (static : AuthConfig) (kc : Keychain).

Class OCIClient (W : Type) := {
  (** [oci.ResolveRef(ctx, client, ref, constraint)] with an empty constraint. *)
  oci_ResolveRef : Keychain → string → W → result string * W;
  (** [client.Pull], [client.Resolve], [client.ListTags]. *)
  client_Pull : Keychain → string → W → result Bundle * W;
  client_Resolve : Keychain → string → W → result string * W;
  client_ListTags : Keychain → string → W → result (list string) * W
}.

(** [effectiveKeychain]. *)
Definition effectiveKeychain (authOverride : option AuthConfig) : Keychain :=
  match authOverride with
  | None => DefaultKeychain
  | Some auth => MultiKeychain auth DefaultKeychain
  end.

(** The removal of a digest and of a tag, which [tagCacheKey] and [OCIPuller.ListTags]
    both spell out. *)
Definition stripTagAndDigest (ref : string) : string :=
  let ref := match find_first "@" ref with
             | Some idx => str_take idx ref
             | None => ref
             end in
  if LastIndex ref "/" <? LastIndex ref ":"
  then str_take (Z.to_nat (LastIndex ref ":")) ref
  else ref.

(** ** [contract.go]: keys and caches *)

(** [normalizeOCIRef]. *)
Definition normalizeOCIRef (ref : string) : string :=
  let ref :=
    if Contains ref "%" then
      match QueryUnescape ref with Some decoded => decoded | None => ref end
    else ref in
  TrimPrefix ref "oci://".

(** [cacheKey]. *)
Definition cacheKey (ociRef inline : string) : string :=
  if bool_decide (inline ≠ "")
  then "inline:" +:+ fmt_x (take 8 (Sum256 (bytes_of inline)))
  else "oci:" +:+ normalizeOCIRef ociRef.

(** [tagCacheKey]. *)
Definition tagCacheKey (ref : string) : string := "tags:" +:+ stripTagAndDigest ref.

(** [cacheEntry] and [tagCacheEntry]: a result or an error, and when it expires. *)
Record entry (R : Type) := mkCacheEntry { result_ : result R; expiresAt : Time }.
Arguments mkCacheEntry {R}. Arguments result_ {R}. Arguments expiresAt {R}.

Definition cacheEntry := entry LoadResult.
Definition tagCacheEntry := entry (list string).

(** [Loader]. *)
Record Loader := mkLoader {
  cache : gmap string cacheEntry; tagCache : gmap string tagCacheEntry }.

Definition cacheTTL : Z := 30 * 1000000000.
Definition tagCacheTTL : Z := 5 * 60 * 1000000000.

(** [New]. *)
Definition New : Loader := mkLoader ∅ ∅.

(** The region under [RLock]: the entry of [key], unless it has expired. *)
Definition cached {R} (m : gmap string (entry R)) (key : string) (t : Time)
    : option (result R) :=
  match m !! key with
  | Some e => if t <? expiresAt e then Some (result_ e) else None
  | None => None
  end.

(** The region under [Lock]: store, then sweep the expired entries of a cache that has
    grown past 100 entries ([now.After(v.expiresAt)]). *)
Definition sweep {R} (t : Time) (m : gmap string (entry R)) : gmap string (entry R) :=
  if bool_decide (100 < size m)%nat
  then filter (λ ke, ¬ expiresAt ke.2 < t) m
  else m.

Definition store {R} (ttl : Z) (key : string) (r : result R) (t : Time)
    (m : gmap string (entry R)) : gmap string (entry R) :=
  sweep t (<[key := mkCacheEntry r (t + ttl)]> m).

Section loader.
Context `{UnicodeTables} `{PactoLib} {W : Type} `{!Clock W} `{!OCIClient W}.

(** [OCIPuller.Pull]. *)
Definition Pull (ref : string) (authOverride : option AuthConfig) : M W (result LoadResult) :=
  let ref := TrimPrefix ref "oci://" in
  let client := effectiveKeychain authOverride in
  resolved ← lift_op (oci_ResolveRef client ref);
  let resolvedRef := match resolved with Ok r => r | Err _ => ref end in
  pulled ← lift_op (client_Pull client resolvedRef);
  match pulled with
  | Err e => mret (Err (Wrap ("failed to pull " +:+ Quote resolvedRef +:+ ": ") e))
  | Ok bundle =>
      d ← lift_op (client_Resolve client resolvedRef);
      let digest := match d with Ok d => d | Err _ => "" end in
      let rawYAML :=
        if bool_decide (bundle_RawYAML bundle = "") then
          match bundle_FS bundle with
          | Some fs => match fs "pacto.yaml" with
                       | Ok data => data
                       | Err _ => bundle_RawYAML bundle
                       end
          | None => bundle_RawYAML bundle
          end
        else bundle_RawYAML bundle in
      mret (Ok (mkLoadResult (bundle_Contract bundle) rawYAML (bundle_FS bundle)
                  resolvedRef digest))
  end.

(** [OCIPuller.ListTags]. *)
Definition OCIPuller_ListTags (ref : string) (authOverride : option AuthConfig)
    : M W (result (list string)) :=
  let ref := stripTagAndDigest (TrimPrefix ref "oci://") in
  let client := effectiveKeychain authOverride in
  listed ← lift_op (client_ListTags client ref);
  mret (match listed with
        | Err e => Err (Wrap ("failed to list tags for " +:+ Quote ref +:+ ": ") e)
        | Ok tags => Ok (oci_FilterSemverTags tags)
        end).

(** [loadInline]. *)
Definition loadInline (yaml : string) : result LoadResult :=
  match contract_Parse yaml with
  | Err e => Err (Wrap "failed to parse inline contract: " e)
  | Ok c => Ok (mkLoadResult c yaml None "" "")
  end.

(** [loadUncached]. *)
Definition loadUncached (ociRef inline : string) (authOverride : option AuthConfig)
    : M W (result LoadResult) :=
  if bool_decide (inline ≠ "") then mret (loadInline inline)
  else if bool_decide (ociRef ≠ "") then Pull (normalizeOCIRef ociRef) authOverride
  else mret (Err (Errorf ("no contract source specified: set either " +:+
                          "spec.contractRef.oci or spec.contractRef.inline"))).

(** The state of a process that holds a loader. *)
Abbreviation LS := (W * Loader)%type.

Definition on_world {A} (m : M W A) : M LS A := zoom fst (λ w s, (w, s.2)) m.

(** [Load]. *)
Definition Load (ociRef inline : string) (authOverride : option AuthConfig)
    : M LS (result LoadResult) :=
  match authOverride with
  | Some auth => on_world (loadUncached ociRef inline (Some auth))
  | None =>
      let key := cacheKey ociRef inline in
      hit ← gets (λ s, cached (cache s.2) key (now s.1));
      match hit with
      | Some r => mret r
      | None =>
          r ← on_world (loadUncached ociRef inline None);
          modify (λ s, (s.1, mkLoader (store cacheTTL key r (now s.1) (cache s.2))
                               (tagCache s.2))) ≫= λ _, mret r
      end
  end.

(** [ListTags]. *)
Definition ListTags (ociRef : string) (authOverride : option AuthConfig)
    : M LS (result (list string)) :=
  if bool_decide (ociRef = "") then mret (Ok [])
  else
    match authOverride with
    | Some auth => on_world (OCIPuller_ListTags (normalizeOCIRef ociRef) (Some auth))
    | None =>
        let ref := normalizeOCIRef ociRef in
        let key := tagCacheKey ref in
        hit ← gets (λ s, cached (tagCache s.2) key (now s.1));
        match hit with
        | Some r => mret r
        | None =>
            r ← on_world (OCIPuller_ListTags ref None);
            modify (λ s, (s.1, mkLoader (cache s.2)
                                 (store tagCacheTTL key r (now s.1) (tagCache s.2))))
              ≫= λ _, mret r
        end
    end.

End loader.

(** ** Keys *)

Lemma stripTagAndDigest_prefix ref : ∃ r, ref = stripTagAndDigest ref +:+ r.
Proof.
  unfold stripTagAndDigest. cbv zeta.
  assert (∃ r, ref = match find_first "@" ref with
    Some idx => str_take idx ref | None => ref end +:+ r) as [r Hr].
  { case_match; [|exists ""; by rewrite app_empty_r].
    eexists. symmetry. apply str_take_drop. }
  revert Hr. set (r1 := match find_first "@" ref with Some _ => _ | None => _ end).
  clearbody r1. intros ->. case_match; [|by exists r].
  exists (str_drop (Z.to_nat (LastIndex r1 ":")) r1 +:+ r).
  by rewrite <- app_assoc_str, str_take_drop.
Qed.

Lemma stripTagAndDigest_scheme s :
  stripTagAndDigest ("oci://" +:+ s) = "oci://" +:+ stripTagAndDigest s.
Proof.
  unfold stripTagAndDigest. cbv zeta. rewrite (find_first_skip "@" "oci://") by done.
  set (s1 := match find_first "@" s with Some _ => _ | None => _ end).
  assert (match (λ j, len "oci://" + j)%nat <$> find_first "@" s with
          | Some idx => str_take idx ("oci://" +:+ s)
          | None => "oci://" +:+ s end = "oci://" +:+ s1) as ->.
  { subst s1. destruct (find_first "@" s); cbn [fmap option_fmap option_map]; [|done].
    apply str_take_skip. }
  clearbody s1. unfold LastIndex.
  rewrite (find_last_skip "/" "oci://" s1), (find_last_skip ":" "oci://" s1).
  replace (find_last "/" "oci://") with (Some 5%nat) by reflexivity.
  replace (find_last ":" "oci://") with (Some 3%nat) by reflexivity.
  change (len "oci://") with 6%nat.
  destruct (find_last "/" s1) as [i|], (find_last ":" s1) as [j|];
    unfold or_minus_one; cbn [from_option];
    repeat match goal with |- context [?x <? ?y] => destruct (Z.ltb_spec x y) end;
    try done; try lia; rewrite !Nat2Z.id; apply (str_take_skip "oci://").
Qed.

Lemma tagCacheKey_repository a b :
  tagCacheKey a = tagCacheKey b →
  stripTagAndDigest (TrimPrefix a "oci://") = stripTagAndDigest (TrimPrefix b "oci://").
Proof.
  intros H%app_inj_l.
  assert (∀ x y, stripTagAndDigest x = stripTagAndDigest y →
            HasPrefix x "oci://" = true → HasPrefix y "oci://" = true) as Hpre.
  { intros x y E [s ->]%HasPrefix_spec. rewrite stripTagAndDigest_scheme in E.
    destruct (stripTagAndDigest_prefix y) as [r Hr].
    rewrite Hr, <- E, app_assoc_str. apply HasPrefix_app. }
  destruct (HasPrefix a "oci://") eqn:Ha.
  - pose proof (Hpre _ _ H Ha) as Hb.
    apply HasPrefix_spec in Ha as [s ->]. apply HasPrefix_spec in Hb as [s' ->].
    rewrite !stripTagAndDigest_scheme in H. rewrite !TrimPrefix_app. by apply app_inj_l in H.
  - destruct (HasPrefix b "oci://") eqn:Hb;
      [by rewrite (Hpre _ _ (eq_sym H) Hb) in Ha|].
    by rewrite !TrimPrefix_id.
Qed.

Lemma cacheKey_cases o1 i1 o2 i2 :
  cacheKey o1 i1 = cacheKey o2 i2 ↔
  (i1 = "" ∧ i2 = "" ∧ normalizeOCIRef o1 = normalizeOCIRef o2) ∨
  (i1 ≠ "" ∧ i2 ≠ "" ∧
   take 8 (Sum256 (bytes_of i1)) = take 8 (Sum256 (bytes_of i2))).
Proof.
  unfold cacheKey.
  destruct (decide (i1 = "")) as [->|H1], (decide (i2 = "")) as [->|H2];
    repeat first [rewrite (bool_decide_eq_true_2 (_ ≠ _)) by done
                 |rewrite (bool_decide_eq_false_2 (_ ≠ _)) by (by intros [])].
  - split; [intros H%app_inj_l; auto|].
    intros [(_ & _ & ->)|([] & _)]; done.
  - split; [intros [=]|]. by intros [(_ & -> & _)|([] & _)].
  - split; [intros [=]|]. by intros [(-> & _)|(_ & [] & _)].
  - split.
    + intros H%app_inj_l%fmt_x_inj; [auto|apply Forall_take, Sum256_range..].
    + intros [(-> & _)|(_ & _ & ->)]; done.
Qed.


(** ** The caches *)

Section facts.
Context {R : Type}.
Implicit Types m : gmap string (entry R).

Lemma lookup_sweep_Some m t k e : sweep t m !! k = Some e → m !! k = Some e.
Proof. unfold sweep. case_bool_decide; [|done]. by intros [? _]%map_lookup_filter_Some. Qed.

Lemma lookup_sweep_live m t k e :
  m !! k = Some e → t ≤ expiresAt e → sweep t m !! k = Some e.
Proof.
  intros Hk Ht. unfold sweep. case_bool_decide; [|done].
  apply map_lookup_filter_Some. split; [done|]. cbn. lia.
Qed.

Lemma sweep_size m t :
  (size (sweep t m) ≤ 100)%nat ∨ ∀ k e, sweep t m !! k = Some e → t ≤ expiresAt e.
Proof.
  unfold sweep. case_bool_decide; [right|left; lia].
  intros k e [_ He]%map_lookup_filter_Some. cbn in He. lia.
Qed.

Lemma cached_store_eq ttl k (r : result R) t m t' :
  0 ≤ ttl → cached (store ttl k r t m) k t' = if t' <? t + ttl then Some r else None.
Proof.
  intros Httl. unfold cached, store.
  rewrite (lookup_sweep_live _ _ _ (mkCacheEntry r (t + ttl))); [done| |cbn; lia].
  by rewrite lookup_insert_eq.
Qed.

Lemma lookup_store_Some ttl k (r : result R) t m k' e :
  store ttl k r t m !! k' = Some e →
  (k' = k ∧ e = mkCacheEntry r (t + ttl)) ∨ (k' ≠ k ∧ m !! k' = Some e).
Proof.
  intros [(<- & <-)|(? & ?)]%lookup_sweep_Some%lookup_insert_Some; auto.
Qed.

Lemma cached_entry m k e t :
  m !! k = Some e → cached m k t = if t <? expiresAt e then Some (result_ e) else None.
Proof. intros Hk. unfold cached. by rewrite Hk. Qed.

Lemma cached_Some m k t r :
  cached m k t = Some r ↔ ∃ e, m !! k = Some e ∧ t < expiresAt e ∧ result_ e = r.
Proof.
  unfold cached. destruct (m !! k) as [e|]; [|naive_solver].
  destruct (Z.ltb_spec t (expiresAt e)); split; [naive_solver|naive_solver|done|].
  intros (? & [= <-] & ? & _). lia.
Qed.

End facts.

Section laws.
Context `{UnicodeTables} `{PactoLib} {W : Type} `{!Clock W} `{!OCIClient W}.

(** Loading never panics. *)
Lemma loadUncached_Ret o i auth (w : W) : ∃ r w', loadUncached o i auth w = (Ret r, w').
Proof.
  unfold loadUncached, Pull. cbv zeta. repeat case_bool_decide; try by eauto.
  unfold lift_op. rewrite M_bind_unfold. cbn. rewrite M_bind_unfold.
  destruct (client_Pull _ _ _) as [[b|e] w1]; cbn; [|by eauto].
  rewrite M_bind_unfold. cbn. by eauto.
Qed.

(** What a call of [Load] without per-CR credentials does. *)
Lemma Load_cases o i (w : W) (l : Loader) :
  let key := cacheKey o i in
  match cached (cache l) key (now w) with
  | Some r => Load o i None (w, l) = (Ret r, (w, l))
  | None => ∃ r w', loadUncached o i None w = (Ret r, w') ∧
      Load o i None (w, l) =
        (Ret r, (w', mkLoader (store cacheTTL key r (now w') (cache l)) (tagCache l)))
  end.
Proof.
  cbv zeta. unfold Load. rewrite M_bind_unfold. cbn [gets fst snd].
  destruct (cached _ _ _) as [r|] eqn:Hc; [done|].
  destruct (loadUncached_Ret o i None w) as (r & w' & Hl). exists r, w'. split; [done|].
  rewrite M_bind_unfold. unfold on_world, zoom. cbn [fst snd]. by rewrite Hl.
Qed.

Lemma ListTags_returns o a (w : W) (l : Loader) :
  ∃ r s', ListTags o a (w, l) = (Ret r, s').
Proof.
  unfold ListTags. case_bool_decide; [by eauto|]. destruct a as [a|]; [by cbn; eauto|].
  cbv zeta. rewrite M_bind_unfold. cbn [gets fst snd].
  destruct (cached _ _ _); [by eauto|]. rewrite M_bind_unfold. cbn. by eauto.
Qed.

Lemma Load_auth o i a (w : W) (l : Loader) :
  Load o i (Some a) (w, l) =
  ((loadUncached o i (Some a) w).1, ((loadUncached o i (Some a) w).2, l)).
Proof. unfold Load, on_world, zoom. cbn. by destruct (loadUncached _ _ _ w). Qed.

(** What may happen to the loader while an entry is waiting to expire at [T]: calls of
    [Load] and [ListTags] of any key and with any credentials, each begun and ended before
    [T]; and changes of the rest of the world. *)
Inductive meanwhile (T : Z) : W * Loader → W * Loader → Prop :=
| mw_load o i a w l r w' l' :
    Load o i a (w, l) = (r, (w', l')) → now w < T → now w' < T → meanwhile T (w, l) (w', l')
| mw_tags o a w l r w' l' :
    ListTags o a (w, l) = (r, (w', l')) → meanwhile T (w, l) (w', l')
| mw_world w w' l : meanwhile T (w, l) (w', l).

Lemma ListTags_cache o a (w : W) (l : Loader) : cache (ListTags o a (w, l)).2.2 = cache l.
Proof.
  unfold ListTags. case_bool_decide; [done|]. destruct a as [a|].
  - unfold on_world, zoom. cbn. by destruct (OCIPuller_ListTags _ _ w).
  - cbv zeta. rewrite M_bind_unfold. cbn [gets fst snd].
    destruct (cached _ _ _); [done|]. rewrite M_bind_unfold. unfold on_world, zoom.
    cbn [fst snd]. by destruct (OCIPuller_ListTags _ None w) as [[?|?] ?].
Qed.

(** An entry survives whatever happens before it expires. *)
Lemma meanwhile_keeps T s s' k r :
  rtc (meanwhile T) s s' → cache s.2 !! k = Some (mkCacheEntry r T) →
  cache s'.2 !! k = Some (mkCacheEntry r T).
Proof.
  induction 1 as [s|s s1 s2 Hstep _ IH]; [done|]. intros Hk. apply IH. clear IH.
  destruct Hstep as [o i a w l r1 w' l' Hrun Hw Hw'|o a w l r1 w' l' Hrun|w w' l];
    cbn [snd] in *; [|pose proof (ListTags_cache o a w l) as Hc; rewrite Hrun in Hc;
      cbn in Hc; by rewrite Hc|done].
  destruct a as [a|]; [by rewrite Load_auth in Hrun; injection Hrun as _ _ <-|].
  pose proof (Load_cases o i w l) as Hl. cbv zeta in Hl.
  destruct (cached (cache l) (cacheKey o i) (now w)) as [r2|] eqn:Hhit.
  { rewrite Hl in Hrun. by injection Hrun as _ _ <-. }
  destruct Hl as (r2 & w2 & _ & Hl). rewrite Hl in Hrun. injection Hrun as _ <- <-.
  cbn [cache]. unfold store. apply lookup_sweep_live; [|cbn; lia].
  rewrite lookup_insert_ne; [done|]. intros Heq.
  assert (cached (cache l) (cacheKey o i) (now w) = Some r) as Hlive; [|congruence].
  apply cached_Some. exists (mkCacheEntry r T). by rewrite Heq.
Qed.

(** C33 (functional). A result fetched without per-CR credentials, error or not, is served
    from the cache to every call with the same key that begins during the next 30 seconds,
    without touching the registry or the cache, whatever other calls of the loader were made
    in between, of whatever keys and with whatever credentials, as long as they were over by
    then. A call that begins after these 30 seconds, the entry being the same, fetches
    anew. *)
Theorem Load_cached o i (w : W) (l : Loader) :
  cached (cache l) (cacheKey o i) (now w) = None →
  ∃ r w' l', Load o i None (w, l) = (Ret r, (w', l')) ∧
    loadUncached o i None w = (Ret r, w') ∧
    ∀ w2 l2 o2 i2, rtc (meanwhile (now w' + cacheTTL)) (w', l') (w2, l2) →
      cacheKey o2 i2 = cacheKey o i →
      (now w2 < now w' + cacheTTL → Load o2 i2 None (w2, l2) = (Ret r, (w2, l2))) ∧
      (now w' + cacheTTL ≤ now w2 →
       ∃ r2 w3 l3, loadUncached o2 i2 None w2 = (Ret r2, w3) ∧
         Load o2 i2 None (w2, l2) = (Ret r2, (w3, l3))).
Proof.
  intros Hmiss. pose proof (Load_cases o i w l) as Hl. cbv zeta in Hl.
  rewrite Hmiss in Hl. destruct Hl as (r & w' & Hu & Hl).
  exists r, w', (mkLoader (store cacheTTL (cacheKey o i) r (now w') (cache l)) (tagCache l)).
  split_and!; [done..|].
  intros w2 l2 o2 i2 Hsteps Hk. pose proof (Load_cases o2 i2 w2 l2) as H2. cbv zeta in H2.
  assert (cache l2 !! cacheKey o i = Some (mkCacheEntry r (now w' + cacheTTL))) as He.
  { apply (meanwhile_keeps _ _ _ _ _ Hsteps). unfold store.
    apply lookup_sweep_live; [by rewrite lookup_insert_eq|cbn; unfold cacheTTL; lia]. }
  rewrite Hk, (cached_entry (cache l2) _ _ _ He) in H2. cbn [expiresAt result_] in H2.
  destruct (Z.ltb_spec (now w2) (now w' + cacheTTL)); (split; [|]); intros; try lia; [done|].
  destruct H2 as (r2 & w3 & ? & ->). by eauto.
Qed.

(** Storing a fetched result only replaces the entry of its own key: entries
    that have not expired survive, no entry of another key changes, and a cache that
    still holds more than 100 entries afterwards holds no expired one. *)
Theorem Load_evicts_only_expired o i (w : W) (l : Loader) :
  ∃ r w' l', Load o i None (w, l) = (Ret r, (w', l')) ∧ tagCache l' = tagCache l ∧
    (∀ k e, k ≠ cacheKey o i → cache l' !! k = Some e → cache l !! k = Some e) ∧
    (∀ k e, k ≠ cacheKey o i → cache l !! k = Some e → now w' ≤ expiresAt e →
       cache l' !! k = Some e) ∧
    (l' = l ∨
     ((100 < size (cache l'))%nat →
      ∀ k e, cache l' !! k = Some e → now w' ≤ expiresAt e)) ∧
    (∃ e, cache l' !! cacheKey o i = Some e ∧ result_ e = r ∧ now w' < expiresAt e).
Proof.
  pose proof (Load_cases o i w l) as Hl. cbv zeta in Hl.
  destruct (cached _ _ _) as [r|] eqn:Hc.
  { exists r, w, l. split_and!; try done; [by left|].
    apply cached_Some in Hc as (e & ? & ? & ?). by exists e. }
  destruct Hl as (r & w' & Hu & Hl).
  eexists r, w', _. split; [exact Hl|]. cbn [cache tagCache].
  assert (0 ≤ cacheTTL) as Hpos by (unfold cacheTTL; lia).
  split_and!; [done|..].
  - intros k e Hk [[? _]|[_ ?]]%lookup_store_Some; done.
  - intros k e Hk He Ht. unfold store. apply lookup_sweep_live; [|done].
    by rewrite lookup_insert_ne.
  - right. intros Hs. unfold store in *.
    match type of Hs with (_ < size (sweep ?t ?m))%nat =>
      destruct (sweep_size m t) as [Hle|Hall]; [by apply Nat.le_ngt in Hle|exact Hall] end.
  - exists (mkCacheEntry r (now w' + cacheTTL)). cbn. split_and!; [|done|].
    + unfold store. apply lookup_sweep_live; [by rewrite lookup_insert_eq|cbn; lia].
    + unfold cacheTTL. lia.
Qed.

(** Two calls share a cache entry only if they would load the same contract:
    for inline documents without a collision of the truncated digest, and references
    that are both empty or both not, equal keys mean that the uncached loads are the
    same computation, for the same credentials. *)
Theorem cacheKey_same_load o1 i1 o2 i2 :
  (take 8 (Sum256 (bytes_of i1)) = take 8 (Sum256 (bytes_of i2)) → i1 = i2) →
  (o1 = "" ↔ o2 = "") →
  cacheKey o1 i1 = cacheKey o2 i2 →
  ∀ auth (w : W), loadUncached o1 i1 auth w = loadUncached o2 i2 auth w.
Proof.
  intros Hcol Ho [(-> & -> & Hn)|(Hi1 & Hi2 & E)]%cacheKey_cases auth w.
  - unfold loadUncached. rewrite Hn.
    assert (bool_decide (o1 ≠ "") = bool_decide (o2 ≠ "")) as ->; [|done].
    apply bool_decide_ext. by rewrite Ho.
  - unfold loadUncached. rewrite !bool_decide_eq_true_2 by done. by rewrite (Hcol E).
Qed.

(** The tag cache is keyed by repository: references whose keys agree, with
    whatever tag or digest, make [OCIPuller.ListTags] ask for the tags of the same
    repository. *)
Theorem tagCacheKey_same_repository r1 r2 :
  tagCacheKey (normalizeOCIRef r1) = tagCacheKey (normalizeOCIRef r2) →
  ∀ auth (w : W), OCIPuller_ListTags (normalizeOCIRef r1) auth w =
                  OCIPuller_ListTags (normalizeOCIRef r2) auth w.
Proof.
  intros Hk auth w. unfold OCIPuller_ListTags. cbv zeta.
  by rewrite (tagCacheKey_repository _ _ Hk).
Qed.


End laws.

(** The keys do not tell an empty reference from one that normalises to nothing. *)
Example empty_reference_ex : cacheKey "" "" = cacheKey "oci://" "".
Proof. reflexivity. Qed.
Example port_ex : stripTagAndDigest "registry:5000/a" = "registry:5000/a".
Proof. reflexivity. Qed.

(** *** Witnesses: a registry whose world is its clock *)

Definition example_clock : Clock Z := λ t, t.

(** Every reference resolves to itself, every pull takes a second, and the bundle says
    with which credentials it was pulled. *)
Definition example_registry : OCIClient Z := {|
  oci_ResolveRef _ ref t := (Ok ref, t);
  client_Pull kc ref t :=
    (Ok {| bundle_Contract := example_contract
             (match kc with DefaultKeychain => ref | MultiKeychain _ _ => "private" end);
           bundle_RawYAML := "y"; bundle_FS := None |}, t + 1000000000);
  client_Resolve _ _ t := (Ok "sha256:0123456789abcdef", t);
  client_ListTags _ _ t := (Ok ["1.0.0"], t) |}.

(** Another artefact is loaded ten seconds later. *)
Lemma Load_cached_witness :
  ∃ r w' l' l2,
    @Load latin1_tables example_lib Z example_clock example_registry "oci://r/a:1" "" None
      (0, New) = (Ret r, (w', l')) ∧
    @Load latin1_tables example_lib Z example_clock example_registry "oci://r/a%3A1" "" None
      (12000000000, l2) = (Ret r, (12000000000, l2)) ∧ size (cache l2) = 2%nat.
Proof.
  destruct (@Load_cached latin1_tables example_lib Z example_clock example_registry
              "oci://r/a:1" "" 0 New eq_refl) as (r & w' & l' & Hrun & _ & Hlater).
  pose proof Hrun as Heq. vm_compute in Heq. injection Heq as Hr Hw' Hl'.
  destruct (@Load latin1_tables example_lib Z example_clock example_registry "r/b:2" "" None
    (11000000000, l')) as [r2 [w2 l2]] eqn:Hother.
  exists r, w', l', l2. split; [exact Hrun|]. split.
  - apply (Hlater 12000000000 l2 "oci://r/a%3A1" ""); [|reflexivity|by subst w'].
    eapply rtc_l; [apply (mw_world _ w' 11000000000)|].
    eapply rtc_l; [eapply mw_load; [exact Hother|by subst w'|]|].
    + subst l' w'. vm_compute in Hother. injection Hother as _ <- _. reflexivity.
    + apply rtc_once, mw_world.
  - subst l'. vm_compute in Hother. injection Hother as _ _ <-. reflexivity.
Defined.

Lemma cacheKey_same_load_witness :
  @loadUncached latin1_tables example_lib Z example_registry "oci://r/a" "" None 5 =
  @loadUncached latin1_tables example_lib Z example_registry "r%2Fa" "" None 5.
Proof.
  apply (@cacheKey_same_load latin1_tables example_lib Z example_clock example_registry).
  - reflexivity.
  - split; discriminate.
  - reflexivity.
Defined.

Lemma tagCacheKey_same_repository_witness :
  @OCIPuller_ListTags latin1_tables example_lib Z example_registry
    (normalizeOCIRef "oci://r:5000/a:1") None 5 =
  @OCIPuller_ListTags latin1_tables example_lib Z example_registry
    (normalizeOCIRef "r:5000/a@sha256:ab") None 5.
Proof.
  by apply (@tagCacheKey_same_repository latin1_tables example_lib Z example_clock
              example_registry).
Defined.

End Loader.
