(* ===== verification/LoaderConc.v ===== *)
(** * Concurrent use of the loader

    [Loader.Load] is called by reconciles that may run at the same time; the cache is
    guarded by a lock that is released while the registry is being asked. This file
    reads [Load] as the sequence of its atomic regions (look up, fetch, store), lets any
    number of calls interleave with each other and with an environment that moves the
    clock and changes the registry, and shows what a call may return. *)

From S2P Require Import Prelude GoStrings GoMaps GoFmt Sha256 Contract Credentials Loader.
From stdpp Require Import options.
#[local] Set Default Proof Using "Type*".

Module LoaderConc.
Import Credentials(AuthConfig).
Import Loader.

(** One call of [Load] and how far it has come. *)
Record call := mkCall { c_oci : string; c_inline : string; c_auth : option AuthConfig }.

Definition call_key (c : call) : string := cacheKey (c_oci c) (c_inline c).

Inductive stage :=
| Start
| Missed
| Fetched (r : result LoadResult)
| Done (r : result LoadResult).

Section conc.
Context `{UnicodeTables} `{PactoLib} {W : Type} `{!Clock W} `{!OCIClient W}.

(** The shared state, the calls, and the log of the uncached loads that took place. *)
Record config := mkConfig {
  g_world : W; g_loader : Loader; g_calls : gmap nat (call * stage);
  g_log : list (call * result LoadResult) }.

Definition initial (w : W) : config := mkConfig w New ∅ [].

Definition with_call (t : nat) (c : call) (s : stage) (g : config) : config :=
  mkConfig (g_world g) (g_loader g) (<[t := (c, s)]> (g_calls g)) (g_log g).

Inductive step : config → config → Prop :=
| step_call g t c :
    g_calls g !! t = None →
    step g (with_call t c Start g)
| step_environment g w tags :
    step g (mkConfig w (mkLoader (cache (g_loader g)) tags) (g_calls g) (g_log g))
| step_hit g t c r :
    g_calls g !! t = Some (c, Start) → c_auth c = None →
    cached (cache (g_loader g)) (call_key c) (now (g_world g)) = Some r →
    step g (with_call t c (Done r) g)
| step_miss g t c :
    g_calls g !! t = Some (c, Start) → c_auth c = None →
    cached (cache (g_loader g)) (call_key c) (now (g_world g)) = None →
    step g (with_call t c Missed g)
| step_fetch g t c r w :
    g_calls g !! t = Some (c, Missed) →
    loadUncached (c_oci c) (c_inline c) None (g_world g) = (Ret r, w) →
    step g (mkConfig w (g_loader g) (<[t := (c, Fetched r)]> (g_calls g))
              ((c, r) :: g_log g))
| step_store g t c r :
    g_calls g !! t = Some (c, Fetched r) →
    step g (mkConfig (g_world g)
              (mkLoader (store cacheTTL (call_key c) r (now (g_world g))
                           (cache (g_loader g))) (tagCache (g_loader g)))
              (<[t := (c, Done r)]> (g_calls g)) (g_log g))
| step_uncached g t c a r w :
    g_calls g !! t = Some (c, Start) → c_auth c = Some a →
    loadUncached (c_oci c) (c_inline c) (Some a) (g_world g) = (Ret r, w) →
    step g (mkConfig w (g_loader g) (<[t := (c, Done r)]> (g_calls g))
              ((c, r) :: g_log g)).

Definition reachable (g : config) : Prop := ∃ w, rtc step (initial w) g.

(** ** The invariant *)

(** [r] was loaded from the source, with the call's own credentials or none, by a call
    with the same key (by the call itself if it has credentials). *)
Definition justified (log : list (call * result LoadResult)) (c : call)
    (r : result LoadResult) : Prop :=
  match c_auth c with
  | Some _ => (c, r) ∈ log
  | None => ∃ c', (c', r) ∈ log ∧ c_auth c' = None ∧ call_key c' = call_key c
  end.

Definition stage_ok (log : list (call * result LoadResult)) (c : call) (s : stage) : Prop :=
  match s with
  | Start => True
  | Missed => c_auth c = None
  | Fetched r => c_auth c = None ∧ (c, r) ∈ log
  | Done r => justified log c r
  end.

Record inv (g : config) : Prop := {
  inv_cache k e :
    cache (g_loader g) !! k = Some e →
    ∃ c, (c, result_ e) ∈ g_log g ∧ c_auth c = None ∧ call_key c = k;
  inv_calls t c s : g_calls g !! t = Some (c, s) → stage_ok (g_log g) c s;
  inv_log c r :
    (c, r) ∈ g_log g →
    ∃ w w', loadUncached (c_oci c) (c_inline c) (c_auth c) w = (Ret r, w')
}.

Lemma stage_ok_cons c0 r0 log c s : stage_ok log c s → stage_ok ((c0, r0) :: log) c s.
Proof.
  destruct s; cbn; try done.
  - intros [? ?]. split; [done|by right].
  - unfold justified. destruct (c_auth c); [by right|].
    intros (c' & ? & ? & ?). exists c'. split_and!; [by right|done..].
Qed.

Lemma inv_with_call g t c s :
  inv g → stage_ok (g_log g) c s → inv (with_call t c s g).
Proof.
  intros [Hc Ht Hl] Hs. constructor; cbn; [done| |done].
  intros t' c' s' [(<- & [= <- <-])|(_ & Hk)]%lookup_insert_Some; [done|by eapply Ht].
Qed.

Lemma inv_fetched g t c r w s :
  inv g → stage_ok ((c, r) :: g_log g) c s →
  loadUncached (c_oci c) (c_inline c) (c_auth c) (g_world g) = (Ret r, w) →
  inv (mkConfig w (g_loader g) (<[t := (c, s)]> (g_calls g)) ((c, r) :: g_log g)).
Proof.
  intros [Hc Ht Hl] Hs Hload. constructor; cbn.
  - intros k e (c' & ? & ? & ?)%Hc. exists c'. split_and!; [by right|done..].
  - intros t' c' s' [(<- & [= <- <-])|(_ & Hk)]%lookup_insert_Some; [done|].
    by apply stage_ok_cons; eapply Ht.
  - intros c' r' [[= -> ->]|?]%elem_of_cons; [by eauto|by apply Hl].
Qed.

Lemma inv_step g g' : inv g → step g g' → inv g'.
Proof.
  intros Hinv Hstep. destruct Hstep as
    [g t c Hfree|g w tags|g t c r Hcall Hauth Hhit|g t c Hcall Hauth _|g t c r w Hcall Hload
    |g t c r Hcall|g t c a r w Hcall Hauth Hload].
  - by apply inv_with_call.
  - destruct Hinv. by constructor.
  - apply inv_with_call; [done|]. cbn. unfold justified. rewrite Hauth.
    apply cached_Some in Hhit as (e & He & _ & <-). by eapply inv_cache.
  - by apply inv_with_call.
  - pose proof (inv_calls _ Hinv _ _ _ Hcall) as Hauth. cbn in Hauth.
    apply inv_fetched; [done| |by rewrite Hauth]. split; [done|by left].
  - pose proof (inv_calls _ Hinv _ _ _ Hcall) as [Hauth Hin]. destruct Hinv as [Hc Ht Hl].
    constructor; cbn; [| |done].
    + intros k e [[-> ->]|[_ He]]%lookup_store_Some; [by exists c|by apply Hc].
    + intros t' c' s' [(<- & [= <- <-])|(_ & Hk)]%lookup_insert_Some; [|by eapply Ht].
      cbn. unfold justified. rewrite Hauth. by exists c.
  - apply inv_fetched; [done| |by rewrite Hauth]. cbn. unfold justified. rewrite Hauth.
    by left.
Qed.

Lemma reachable_inv g : reachable g → inv g.
Proof.
  intros [w Hr]. assert (inv (initial w)) as H0'.
  { constructor; cbn; intros *; [by rewrite lookup_empty|by rewrite lookup_empty|].
    by intros ?%elem_of_nil. }
  revert H0'. induction Hr as [|g1 g2 g3 Hs Hr IH]; [done|]. intros Hi.
  by apply IH, (inv_step g1).
Qed.

(** C9 (safety). However calls interleave, a call with its own credentials returns what it
    loaded itself with exactly these credentials, and a call without returns what some
    load without per-CR credentials for the same cache key returned: what one custom
    resource fetched with its pull secret never reaches another one. *)
Theorem Load_isolates_credentials g t c r :
  reachable g → g_calls g !! t = Some (c, Done r) →
  ∃ c', (c', r) ∈ g_log g ∧ c_auth c' = c_auth c ∧ call_key c' = call_key c ∧
    (c_auth c ≠ None → c' = c) ∧
    ∃ w w', loadUncached (c_oci c') (c_inline c') (c_auth c') w = (Ret r, w').
Proof.
  intros Hr%reachable_inv Hc. pose proof (inv_calls _ Hr _ _ _ Hc) as Hj.
  cbn in Hj. unfold justified in Hj. destruct (c_auth c) as [a|] eqn:Ha.
  - exists c. split_and!; [done..|by apply (inv_log _ Hr)].
  - destruct Hj as (c' & Hin & Ha' & Hk). exists c'.
    split_and!; [done..|by apply (inv_log _ Hr)].
Qed.

(** ** The sequential function is one of these runs

    A check of the two readings of the code against each other. *)

(** [Load], run without interference, is a run of the atomic steps: the
    call starts, takes the steps of its branch, and ends with the result, the world and
    the cache the function returns. *)
Theorem Load_is_a_run g t c :
  g_calls g !! t = Some (c, Start) →
  ∃ r w' l' log',
    Load (c_oci c) (c_inline c) (c_auth c) (g_world g, g_loader g) = (Ret r, (w', l')) ∧
    rtc step g (mkConfig w' l' (<[t := (c, Done r)]> (g_calls g)) log').
Proof.
  intros Hc. destruct (c_auth c) as [a|] eqn:Ha.
  - rewrite Load_auth.
    destruct (loadUncached_Ret (c_oci c) (c_inline c) (Some a) (g_world g))
      as (r & w' & Hl). rewrite Hl. cbn. exists r, w', (g_loader g), ((c, r) :: g_log g).
    split; [done|]. apply rtc_once. by eapply step_uncached.
  - pose proof (Load_cases (c_oci c) (c_inline c) (g_world g) (g_loader g)) as Hl.
    cbv zeta in Hl. destruct (cached _ _ _) as [r|] eqn:Hhit.
    + eexists r, _, _, (g_log g). split; [exact Hl|]. apply rtc_once. by apply step_hit.
    + destruct Hl as (r & w' & Hu & Hl). eexists r, w', _, ((c, r) :: g_log g).
      split; [exact Hl|].
      eapply rtc_l; [by apply (step_miss _ t c)|].
      eapply rtc_l; [eapply (step_fetch _ t c r w'); [apply lookup_insert_eq|done]|].
      eapply rtc_l; [eapply (step_store _ t c r); apply lookup_insert_eq|].
      cbn. rewrite !insert_insert_eq. apply rtc_refl.
Qed.

End conc.

(** *** Witnesses *)

Definition public_call : call := mkCall "oci://r/a:1" "" None.

Lemma Load_is_a_run_witness :
  ∃ r w' l' log',
    @Load latin1_tables example_lib Z example_clock example_registry "oci://r/a:1" "" None
      (0, New) = (Ret r, (w', l')) ∧
    rtc (@step latin1_tables example_lib Z example_clock example_registry)
      (mkConfig 0 New {[ 0%nat := (public_call, Start) ]} [])
      (mkConfig w' l' (<[0%nat := (public_call, Done r)]>
                         {[ 0%nat := (public_call, Start) ]}) log').
Proof.
  exact (@Load_is_a_run latin1_tables example_lib Z example_clock example_registry
     (mkConfig 0 New {[ 0%nat := (public_call, Start) ]} []) 0%nat public_call eq_refl).
Defined.

Definition private_call : call :=
  mkCall "oci://r/a:1" "" (Some (Credentials.mkAuth "bot" "pw" "")).

Definition private_result : result LoadResult :=
  Ok (mkLoadResult (example_contract "private") "y" None "r/a:1" "sha256:0123456789abcdef").

Lemma Load_isolates_credentials_witness :
  ∃ c', (c', private_result) ∈ [(private_call, private_result)] ∧
    c_auth c' = c_auth private_call ∧ call_key c' = call_key private_call ∧
    (c_auth private_call ≠ None → c' = private_call) ∧
    ∃ w w', @loadUncached latin1_tables example_lib Z example_registry
              (c_oci c') (c_inline c') (c_auth c') w = (Ret private_result, w').
Proof.
  apply (@Load_isolates_credentials latin1_tables example_lib Z example_clock
     example_registry
     (mkConfig 1000000000 New (<[0%nat := (private_call, Done private_result)]>
        (<[0%nat := (private_call, Start)]> ∅)) [(private_call, private_result)]) 0%nat).
  - exists 0. eapply rtc_l; [by apply (step_call _ 0%nat private_call)|].
    eapply rtc_once. by eapply step_uncached.
  - reflexivity.
Defined.

End LoaderConc.
