(* ===== verification/Overrides.v ===== *)
(** * Configuration overrides

    [applyConfigurationOverrides] of [pacto_controller.go]. The first part is the
    function on values. The contract it is given is the loader's cached one, shared by
    every reconcile, so the second part runs the same code on a heap in which slices
    and maps are mutable objects reached through references, and shows that it computes
    the same result without writing to any object that existed before. *)

From S2P Require Import Prelude GoStrings GoMaps GoFmt Contract V1alpha1.
From stdpp Require Import options.
#[local] Set Default Proof Using "Type*".

Module Overrides.

Definition set_Values {V V'} (v : V') (cfg : ConfigurationSource V) : ConfigurationSource V' :=
  mkConfigurationSource (cs_Name cfg) (cs_Schema cfg) (cs_Ref cfg) v.

Definition with_Configurations {V V'} (cfgs : list (ConfigurationSource V'))
    (c : ContractOf V) : ContractOf V' :=
  mkContract (c_Service c) (c_Interfaces c) cfgs (c_Dependencies c) (c_Policies c)
    (c_Runtime c) (c_Scaling c) (c_Metadata c) (c_Readiness c).

(** [configByName]: later configurations replace earlier ones of the same name. *)
Definition config_index {V} (cfgs : list (ConfigurationSource V)) : gmap string nat :=
  foldl (λ m '(i, cfg), <[cs_Name cfg := i]> m) ∅ (zip (seq 0 (length cfgs)) cfgs).

Section overrides.
Context `{UnicodeTables} `{GoMaps}.

Definition unknown_config (name : string) : error :=
  Errorf ("configuration " +:+ Quote name +:+ " not found in contract").

(** The first override whose name is not a configuration of the contract. *)
Fixpoint check_names (configByName : gmap string nat) (ovs : list ConfigurationOverride)
    : option error :=
  match ovs with
  | [] => None
  | ov :: ovs =>
      match configByName !! ov_Name ov with
      | None => Some (unknown_config (ov_Name ov))
      | Some _ => check_names configByName ovs
      end
  end.

(** The loop over one override's values: the map written and the keys collected. *)
Definition merge_values (ov : ConfigurationOverride) (values : gmap string any)
    : gmap string any * list string :=
  foldl (λ '(values, keys) '(k, v), (<[k := AnyString v]> values, keys ++ [k]))
    (values, []) (range (ov_Values ov)).

(** The body of the merge loop. *)
Definition merge_override (configByName : gmap string nat)
    (acc : list (ConfigurationSource (gomap any)) * gmap string (list string))
    (ov : ConfigurationOverride)
    : list (ConfigurationSource (gomap any)) * gmap string (list string) :=
  let '(cfgs, overriddenKeys) := acc in
  let idx := default 0%nat (configByName !! ov_Name ov) in
  let keys := sort_Strings (merge_values ov ∅).2 in
  (alter (λ cfg, set_Values (Some (merge_values ov (default ∅ (cs_Values cfg))).1) cfg)
     idx cfgs,
   <[ov_Name ov := keys]> overriddenKeys).

(** [applyConfigurationOverrides] on values. *)
Definition applyConfigurationOverrides (c : Contract) (overrides : option ContractOverrides)
    : result (Contract * gmap string (list string)) :=
  match overrides with
  | None => Ok (c, ∅)
  | Some ovs =>
      if bool_decide (length (ovs_Configurations ovs) = 0%nat) then Ok (c, ∅)
      else
        let configByName := config_index (c_Configurations c) in
        match check_names configByName (ovs_Configurations ovs) with
        | Some e => Err e
        | None =>
            let '(cfgs, overriddenKeys) :=
              foldl (merge_override configByName) (c_Configurations c, ∅)
                (ovs_Configurations ovs) in
            Ok (with_Configurations cfgs c, overriddenKeys)
        end
  end.

(** ** The same code on a heap *)

Abbreviation loc := positive (only parsing).

(** Maps and the backing array of [Configurations] are mutable objects. *)
Record heap := mkHeap {
  h_maps : gmap loc (gmap string any);
  h_slices : gmap loc (list (ConfigurationSource (option loc))) }.

(** A [*contract.Contract]: the fields the function copies untouched, and the reference
    to the backing array of its configurations. *)
Record HContract := mkHContract { hc_fields : ContractOf unit; hc_configs : loc }.

Definition alloc_map (m : gmap string any) : M heap loc := λ h,
  let l := fresh (dom (h_maps h)) in
  (Ret l, mkHeap (<[l := m]> (h_maps h)) (h_slices h)).

Definition alloc_slice (cs : list (ConfigurationSource (option loc))) : M heap loc := λ h,
  let l := fresh (dom (h_slices h)) in
  (Ret l, mkHeap (h_maps h) (<[l := cs]> (h_slices h))).

(** A dangling reference cannot occur in Go; it is a panic here. *)
Definition read_map (l : loc) : M heap (gmap string any) := λ h,
  match h_maps h !! l with Some m => (Ret m, h) | None => (Panic "dangling map", h) end.

Definition read_slice (l : loc) : M heap (list (ConfigurationSource (option loc))) := λ h,
  match h_slices h !! l with Some m => (Ret m, h) | None => (Panic "dangling slice", h) end.

Definition write_map (l : loc) (m : gmap string any) : M heap unit :=
  modify (λ h, mkHeap (<[l := m]> (h_maps h)) (h_slices h)).

Definition write_slice (l : loc) (cs : list (ConfigurationSource (option loc)))
    : M heap unit :=
  modify (λ h, mkHeap (h_maps h) (<[l := cs]> (h_slices h))).

(** The deep copy of the configurations: every non-nil map is cloned. *)
Fixpoint copy_configs (cfgs : list (ConfigurationSource (option loc)))
    : M heap (list (ConfigurationSource (option loc))) :=
  match cfgs with
  | [] => mret []
  | cfg :: cfgs =>
      values ← (match cs_Values cfg with
                | None => mret None
                | Some l => m ← read_map l; l' ← alloc_map m; mret (Some l')
                end);
      rest ← copy_configs cfgs;
      mret (set_Values values cfg :: rest)
  end.

(** [effective.Configurations[idx].Values[k] = v] for each pair. *)
Fixpoint write_values (l : loc) (kvs : list (string * string)) (keys : list string)
    : M heap (list string) :=
  match kvs with
  | [] => mret keys
  | (k, v) :: kvs =>
      m ← read_map l;
      write_map l (<[k := AnyString v]> m) ≫= λ _, write_values l kvs (keys ++ [k])
  end.

Definition heap_merge_override (slice : loc) (configByName : gmap string nat)
    (ov : ConfigurationOverride) (overriddenKeys : gmap string (list string))
    : M heap (gmap string (list string)) :=
  let idx := default 0%nat (configByName !! ov_Name ov) in
  cfgs ← read_slice slice;
  match cfgs !! idx with
  | None => panic "index out of range"
  | Some cfg =>
      l ← (match cs_Values cfg with
           | Some l => mret l
           | None =>
               l ← alloc_map ∅;
               write_slice slice (<[idx := set_Values (Some l) cfg]> cfgs) ≫= λ _, mret l
           end);
      keys ← write_values l (range (ov_Values ov)) [];
      mret (<[ov_Name ov := sort_Strings keys]> overriddenKeys)
  end.

Fixpoint heap_merge (slice : loc) (configByName : gmap string nat)
    (ovs : list ConfigurationOverride) (overriddenKeys : gmap string (list string))
    : M heap (gmap string (list string)) :=
  match ovs with
  | [] => mret overriddenKeys
  | ov :: ovs =>
      keys ← heap_merge_override slice configByName ov overriddenKeys;
      heap_merge slice configByName ovs keys
  end.

(** [applyConfigurationOverrides] on the heap. *)
Definition heap_applyConfigurationOverrides (c : HContract)
    (overrides : option ContractOverrides)
    : M heap (result (HContract * gmap string (list string))) :=
  match overrides with
  | None => mret (Ok (c, ∅))
  | Some ovs =>
      if bool_decide (length (ovs_Configurations ovs) = 0%nat) then mret (Ok (c, ∅))
      else
        cfgs ← read_slice (hc_configs c);
        let configByName := config_index cfgs in
        match check_names configByName (ovs_Configurations ovs) with
        | Some e => mret (Err e)
        | None =>
            copies ← copy_configs cfgs;
            slice ← alloc_slice copies;
            keys ← heap_merge slice configByName (ovs_Configurations ovs) ∅;
            mret (Ok (mkHContract (hc_fields c) slice, keys))
        end
  end.

(** What a heap contract denotes; [None] if a reference dangles. *)
Definition denote_config (maps : gmap loc (gmap string any))
    (cfg : ConfigurationSource (option loc)) : option (ConfigurationSource (gomap any)) :=
  match cs_Values cfg with
  | None => Some (set_Values None cfg)
  | Some l => m ← maps !! l; Some (set_Values (Some m) cfg)
  end.

Definition denote (h : heap) (c : HContract) : option Contract :=
  cfgs ← h_slices h !! hc_configs c;
  cfgs ← mapM (denote_config (h_maps h)) cfgs;
  Some (with_Configurations cfgs (hc_fields c)).

(** Every object of [h] is still there, with the same contents. *)
Definition untouched (h h' : heap) : Prop :=
  h_maps h ⊆ h_maps h' ∧ h_slices h ⊆ h_slices h'.

End overrides.

(** ** Specification on values *)

Section index.
Context {V : Type}.
Implicit Types cfgs : list (ConfigurationSource V).

Lemma config_index_snoc cfgs cfg :
  config_index (cfgs ++ [cfg]) = <[cs_Name cfg := length cfgs]> (config_index cfgs).
Proof.
  unfold config_index. rewrite length_app, Nat.add_comm. cbn [length Nat.add].
  rewrite seq_S, zip_with_app by (by rewrite length_seq). by rewrite foldl_app.
Qed.

(** [configByName] maps a name to the last configuration that has it. *)
Lemma config_index_spec cfgs n i :
  config_index cfgs !! n = Some i ↔
  (∃ cfg, cfgs !! i = Some cfg ∧ cs_Name cfg = n) ∧
  ∀ j cfg, cfgs !! j = Some cfg → cs_Name cfg = n → (j ≤ i)%nat.
Proof.
  revert i. induction cfgs as [|cfg cfgs IH] using rev_ind; intros i.
  { cbn. rewrite lookup_empty. split; [done|]. by intros [(? & ? & _) _]. }
  rewrite config_index_snoc, lookup_insert_Some, IH. setoid_rewrite lookup_snoc_Some. split.
  - intros [[<- <-]|(Hne & (c & Hc & Hn) & Hmax)].
    + split; [exists cfg; auto|]. intros j c [[? _]|[-> _]] _; lia.
    + split; [|intros j c' [[Hj Hc']|[-> <-]] Hn'; [by eapply Hmax|done]].
      exists c. split; [|done]. left. split; [by eapply lookup_lt_Some|done].
  - intros [(c & Hc & Hn) Hmax]. destruct (decide (cs_Name cfg = n)) as [E|E].
    + left. split; [done|].
      pose proof (Hmax (length cfgs) cfg ltac:(auto) E). destruct Hc as [[? _]|[-> _]]; lia.
    + right. split; [done|]. destruct Hc as [[Hlt Hc]|[-> <-]]; [|done].
      split; [by exists c|]. intros j c' Hc' Hn'. apply (Hmax j c'); [|done].
      left. split; [by eapply lookup_lt_Some|done].
Qed.

Lemma config_index_None cfgs n :
  config_index cfgs !! n = None ↔ ∀ cfg, cfg ∈ cfgs → cs_Name cfg ≠ n.
Proof.
  induction cfgs as [|cfg cfgs IH] using rev_ind.
  { cbn. rewrite lookup_empty. split; [|done]. by intros _ ? ?%elem_of_nil. }
  rewrite config_index_snoc, lookup_insert_None, IH.
  setoid_rewrite elem_of_app. setoid_rewrite list_elem_of_singleton. naive_solver.
Qed.

End index.

Section spec.
Context `{UnicodeTables} `{GoMaps}.

Lemma check_names_None (cb : gmap string nat) ovs :
  check_names cb ovs = None ↔ ∀ ov, ov ∈ ovs → is_Some (cb !! ov_Name ov).
Proof.
  induction ovs as [|ov ovs IH]; cbn; [split; [by intros _ ? ?%elem_of_nil|done]|].
  destruct (cb !! ov_Name ov) as [i|] eqn:E.
  - rewrite IH. split.
    + intros Hall o [->|?]%elem_of_cons; [by rewrite E|auto].
    + intros Hall o Ho. apply Hall. by right.
  - split; [done|]. intros Hall. destruct (Hall ov ltac:(by left)). congruence.
Qed.

Lemma check_names_Some (cb : gmap string nat) ovs e :
  check_names cb ovs = Some e →
  ∃ ov, ov ∈ ovs ∧ cb !! ov_Name ov = None ∧ e = unknown_config (ov_Name ov).
Proof.
  induction ovs as [|ov ovs IH]; cbn; [done|].
  destruct (cb !! ov_Name ov) as [i|] eqn:E.
  - intros (o & ? & ? & ?)%IH. exists o. split_and!; [by right|done..].
  - intros [= <-]. exists ov. split_and!; [by left|done..].
Qed.

Definition insert_value (vs : gmap string any) (kv : string * string) : gmap string any :=
  <[kv.1 := AnyString kv.2]> vs.

Lemma merge_values_unfold ov values :
  merge_values ov values =
  (foldl insert_value values (range (ov_Values ov)),
   (range (ov_Values ov)).*1).
Proof.
  unfold merge_values. generalize (range (ov_Values ov)). intros l.
  assert (∀ (vs : gmap string any) (ks : list string), foldl (λ '(values, keys) '(k, v), (<[k := AnyString v]> values, keys ++ [k]))
    (vs, ks) l = (foldl insert_value vs l, ks ++ l.*1)) as Hg.
  { induction l as [|[k v] l IH]; intros vs ks; cbn; [by rewrite app_nil_r|].
    by rewrite IH, <- (assoc (++)). }
  by rewrite Hg.
Qed.

(** The override's values win, the others stay. *)
Lemma merge_values_lookup ov values k :
  (merge_values ov values).1 !! k =
  match ov_Values ov !! k with Some v => Some (AnyString v) | None => values !! k end.
Proof.
  rewrite merge_values_unfold. cbn.
  assert (ov_Values ov = list_to_map (range (ov_Values ov))) as Hm.
  { rewrite (list_to_map_proper _ _ (range_keys_NoDup _) (range_perm (ov_Values ov))).
    by rewrite list_to_map_to_list. }
  rewrite Hm at 2. pose proof (range_keys_NoDup (ov_Values ov)) as Hnd. clear Hm.
  revert values. induction (range (ov_Values ov)) as [|[k' v] l IH]; intros values; [done|].
  cbn in Hnd |- *. apply NoDup_cons in Hnd as [Hnot Hnd]. rewrite IH by done.
  destruct (decide (k = k')) as [->|Hne].
  - by rewrite not_elem_of_list_to_map_1, !lookup_insert_eq.
  - by rewrite !lookup_insert_ne.
Qed.

(** One configuration through the merge loop. *)
Definition merge_config (cb : gmap string nat) (ovs : list ConfigurationOverride) (i : nat)
    (cfg : ConfigurationSource (gomap any)) : ConfigurationSource (gomap any) :=
  foldl (λ cfg ov,
      if bool_decide (default 0%nat (cb !! ov_Name ov) = i)
      then set_Values (Some (merge_values ov (default ∅ (cs_Values cfg))).1) cfg
      else cfg) cfg ovs.

Lemma merge_loop_lookup cb ovs cfgs keys i :
  (foldl (merge_override cb) (cfgs, keys) ovs).1 !! i = merge_config cb ovs i <$> cfgs !! i.
Proof.
  revert cfgs keys. induction ovs as [|ov ovs IH]; intros cfgs keys; cbn.
  { symmetry. apply option_fmap_id. }
  rewrite IH. unfold merge_config. cbn [foldl]. case_bool_decide as E.
  - subst i. rewrite list_lookup_alter_eq. by destruct (cfgs !! _).
  - rewrite list_lookup_alter_ne by done. done.
Qed.

Lemma merge_loop_keys cb ovs cfgs keys n :
  (foldl (merge_override cb) (cfgs, keys) ovs).2 !! n =
  foldl (λ acc ov, if bool_decide (ov_Name ov = n)
                   then Some (sort_Strings (range (ov_Values ov)).*1) else acc)
    (keys !! n) ovs.
Proof.
  revert cfgs keys. induction ovs as [|ov ovs IH]; intros cfgs keys; cbn; [done|].
  rewrite IH. f_equal. rewrite merge_values_unfold. cbn. case_bool_decide as E.
  - subst. by rewrite lookup_insert_eq.
  - by rewrite lookup_insert_ne.
Qed.

(** The value the last override of configuration [n] that has the key gives it. *)
Definition override_value (n k : string) (ovs : list ConfigurationOverride) : option string :=
  foldl (λ acc ov,
      if bool_decide (ov_Name ov = n)
      then match ov_Values ov !! k with Some v => Some v | None => acc end
      else acc) None ovs.

Definition value_of (cfg : ConfigurationSource (gomap any)) (k : string) : option any :=
  default ∅ (cs_Values cfg) !! k.

Definition same_identity {V V'} (a : ConfigurationSource V) (b : ConfigurationSource V') : Prop :=
  cs_Name a = cs_Name b ∧ cs_Schema a = cs_Schema b ∧ cs_Ref a = cs_Ref b.

Lemma merge_config_identity cb ovs i cfg : same_identity (merge_config cb ovs i cfg) cfg.
Proof.
  unfold merge_config. revert cfg. induction ovs as [|ov ovs IH]; intros cfg; cbn; [done|].
  case_bool_decide; [|apply IH]. exact (IH (set_Values _ cfg)).
Qed.

Lemma merge_config_values (cb : gmap string nat) ovs i cfg n k :
  (∀ ov, ov ∈ ovs → default 0%nat (cb !! ov_Name ov) = i ↔ ov_Name ov = n) →
  value_of (merge_config cb ovs i cfg) k =
  match override_value n k ovs with Some v => Some (AnyString v) | None => value_of cfg k end.
Proof.
  intros Hhit. unfold merge_config, override_value.
  induction ovs as [|ov ovs IH] using rev_ind; [done|].
  rewrite !foldl_snoc. specialize (IH ltac:(intros o Ho; apply Hhit; set_solver)).
  pose proof (Hhit ov ltac:(set_solver)) as Hov.
  rewrite (bool_decide_ext _ _ Hov). case_bool_decide; [|done].
  unfold value_of in *. cbn [cs_Values set_Values from_option id]. rewrite merge_values_lookup.
  by destruct (ov_Values ov !! k).
Qed.

(** The keys reported for configuration [n]: those of the last override with the name. *)
Definition reported_keys (n : string) (ovs : list ConfigurationOverride)
    : option (list string) :=
  (λ ov, sort_Strings (elements (dom (ov_Values ov)))) <$>
    last (filter (λ ov, ov_Name ov = n) ovs).

Lemma merge_loop_reported cb ovs cfgs n :
  (foldl (merge_override cb) (cfgs, ∅) ovs).2 !! n = reported_keys n ovs.
Proof.
  rewrite merge_loop_keys, lookup_empty. unfold reported_keys.
  induction ovs as [|ov ovs IH] using rev_ind; [done|].
  rewrite foldl_snoc, IH, filter_app, filter_cons, filter_nil.
  case_bool_decide as E.
  - by rewrite decide_True, last_snoc, sorted_keys.
  - by rewrite decide_False, app_nil_r.
Qed.

Lemma with_Configurations_id (c : Contract) :
  with_Configurations (c_Configurations c) c = c.
Proof. by destruct c. Qed.

Lemma merge_config_skip (cb : gmap string nat) ovs i cfg :
  (∀ ov, ov ∈ ovs → default 0%nat (cb !! ov_Name ov) ≠ i) → merge_config cb ovs i cfg = cfg.
Proof.
  unfold merge_config. intros Hno. induction ovs as [|ov ovs IH]; [done|]. cbn.
  rewrite bool_decide_eq_false_2 by (apply Hno; by left). apply IH. set_solver.
Qed.

(** What the merge loop does to one configuration of the contract. *)
Lemma merged_config i cfg cfgs ovs :
  cfgs !! i = Some cfg →
  (∀ ov, ov ∈ ovs → is_Some (config_index cfgs !! ov_Name ov)) →
  ∀ k, value_of (merge_config (config_index cfgs) ovs i cfg) k =
    if bool_decide (config_index cfgs !! cs_Name cfg = Some i) then
      match override_value (cs_Name cfg) k ovs with
      | Some v => Some (AnyString v)
      | None => value_of cfg k
      end
    else value_of cfg k.
Proof.
  intros Hi Hall k.
  assert (∀ ov, ov ∈ ovs → default 0%nat (config_index cfgs !! ov_Name ov) = i →
            ov_Name ov = cs_Name cfg ∧ config_index cfgs !! cs_Name cfg = Some i) as Hhit.
  { intros ov [j Hj]%Hall E. rewrite Hj in E. cbn in E. subst j.
    pose proof Hj as [(cfg' & Hi' & Hn) _]%config_index_spec. rewrite Hi in Hi'. injection Hi' as <-.
    split; [done|]. by rewrite Hn. }
  case_bool_decide as E.
  - apply merge_config_values. intros ov Hov. split; [intros; by apply Hhit|].
    intros ->. by rewrite E.
  - rewrite merge_config_skip; [done|]. intros ov Hov Heq. by destruct (Hhit _ Hov Heq).
Qed.

(** C24 (functional). Overrides apply by name. An override that names no configuration of
    the contract is an error and nothing is applied. Otherwise only configuration values
    change: the configuration a name refers to (the last of that name) takes, for each
    key, the value of the last override that has it, and keeps its value for every other
    key; all other configurations, and everything else in the contract, stay. The keys
    reported for a name are those of its last override, sorted, whatever order the
    runtime visits maps in. *)
Theorem applyConfigurationOverrides_by_name c ovs :
  let cfgs := c_Configurations c in
  let os := ovs_Configurations ovs in
  match applyConfigurationOverrides c (Some ovs) with
  | Err e => ∃ ov, ov ∈ os ∧ (∀ cfg, cfg ∈ cfgs → cs_Name cfg ≠ ov_Name ov) ∧
               e = unknown_config (ov_Name ov)
  | Ok (c', keys) =>
      (∀ ov, ov ∈ os → ∃ cfg, cfg ∈ cfgs ∧ cs_Name cfg = ov_Name ov) ∧
      c' = with_Configurations (c_Configurations c') c ∧
      length (c_Configurations c') = length cfgs ∧
      (∀ i cfg, cfgs !! i = Some cfg →
         ∃ cfg', c_Configurations c' !! i = Some cfg' ∧ same_identity cfg' cfg ∧
           ∀ k, value_of cfg' k =
             if bool_decide (config_index cfgs !! cs_Name cfg = Some i) then
               match override_value (cs_Name cfg) k os with
               | Some v => Some (AnyString v)
               | None => value_of cfg k
               end
             else value_of cfg k) ∧
      ∀ n, keys !! n = reported_keys n os
  end.
Proof.
  cbv zeta. unfold applyConfigurationOverrides. case_bool_decide as Hlen.
  { apply length_zero_iff_nil in Hlen. rewrite Hlen. split_and!; try done.
    - by intros ? ?%elem_of_nil.
    - by rewrite with_Configurations_id.
    - intros i cfg Hi. exists cfg. split_and!; [done..|]. intros k. cbn. by case_bool_decide. }
  cbv zeta. destruct (check_names _ _) as [e|] eqn:Hc.
  { apply check_names_Some in Hc as (ov & Hin & Hno & ->). exists ov.
    by rewrite config_index_None in Hno. }
  rewrite check_names_None in Hc. clear Hlen.
  pose proof (λ i cfg Hi, merged_config i cfg _ _ Hi Hc) as Hm.
  pose proof (merge_loop_lookup (config_index (c_Configurations c))
                (ovs_Configurations ovs) (c_Configurations c) ∅) as Hl.
  pose proof (merge_loop_reported (config_index (c_Configurations c))
                (ovs_Configurations ovs) (c_Configurations c)) as Hk.
  destruct (foldl _ _ _) as [cfgs' keys]. cbn [fst snd] in Hl, Hk.
  cbn [c_Configurations with_Configurations]. split_and!; [|done| | |done].
  - intros ov [i Hi]%Hc. apply config_index_spec in Hi as [(cfg & Hi & ?) _].
    exists cfg. split; [by eapply list_elem_of_lookup_2|done].
  - assert (cfgs' = imap (merge_config (config_index (c_Configurations c))
              (ovs_Configurations ovs)) (c_Configurations c)) as ->; [|apply length_imap].
    apply list_eq. intros i. by rewrite Hl, list_lookup_imap.
  - intros i cfg Hi. rewrite Hl, Hi. eexists. split; [done|].
    split; [apply merge_config_identity|]. intros k. by apply Hm.
Qed.

End spec.

(** ** The heap program refines the function and writes to no old object *)

Section refinement.
Context `{UnicodeTables} `{GoMaps}.

Abbreviation cells := (list (ConfigurationSource (option positive))).
Abbreviation values_cfgs := (list (ConfigurationSource (gomap any))).

(** The cells denote the values. *)
Definition denotes (maps : gmap positive (gmap string any)) (cs : cells)
    (vs : values_cfgs) : Prop :=
  Forall2 (λ a b, denote_config maps a = Some b) cs vs.

(** The maps of the cells are new (not in [base]) and no two cells share one. *)
Record owned (base : gmap positive (gmap string any)) (cs : cells) : Prop := {
  owned_new i a l : cs !! i = Some a → cs_Values a = Some l → base !! l = None;
  owned_inj i j a b l : cs !! i = Some a → cs !! j = Some b →
    cs_Values a = Some l → cs_Values b = Some l → i = j
}.

Lemma denote_config_mono maps maps' a b :
  maps ⊆ maps' → denote_config maps a = Some b → denote_config maps' a = Some b.
Proof.
  intros Hsub. unfold denote_config. destruct (cs_Values a) as [l|]; [|done].
  intros (m & Hm & [= <-])%bind_Some. by rewrite (lookup_weaken _ _ _ _ Hm Hsub).
Qed.

Lemma denotes_mono maps maps' cs vs : maps ⊆ maps' → denotes maps cs vs → denotes maps' cs vs.
Proof.
  intros Hsub Hd. eapply Forall2_impl; [exact Hd|]. intros a b. by apply denote_config_mono.
Qed.

Lemma denote_config_identity maps a b : denote_config maps a = Some b → same_identity a b.
Proof.
  unfold denote_config. destruct (cs_Values a); [|by intros [= <-]].
  by intros (m & _ & [= <-])%bind_Some.
Qed.

Lemma denote_config_Some maps a b l :
  denote_config maps a = Some b → cs_Values a = Some l →
  ∃ m, maps !! l = Some m ∧ b = set_Values (Some m) a.
Proof.
  intros Hd Hl. unfold denote_config in Hd. rewrite Hl in Hd.
  apply bind_Some in Hd as (m & ? & [= <-]). by exists m.
Qed.

Lemma config_index_denotes maps cs vs : denotes maps cs vs → config_index cs = config_index vs.
Proof.
  intros Hd. assert (cs_Name <$> cs = cs_Name <$> vs) as Hn.
  { induction Hd as [|a b cs vs Hab Hd IH]; [done|]. cbn. f_equal; [|done].
    by destruct (denote_config_identity _ _ _ Hab). }
  apply map_eq. intros n. apply option_eq. intros i. rewrite !config_index_spec.
  assert (∀ j, cs_Name <$> cs !! j = cs_Name <$> vs !! j) as Hj
    by (intros j; by rewrite <- !list_lookup_fmap, Hn).
  assert (∀ j n, (∃ cfg, cs !! j = Some cfg ∧ cs_Name cfg = n) ↔
                 (∃ cfg, vs !! j = Some cfg ∧ cs_Name cfg = n)) as He.
  { intros j m. specialize (Hj j). destruct (cs !! j), (vs !! j); naive_solver. }
  rewrite He. split; intros [? Hmax]; (split; [done|]); intros j cfg Hc Hn';
    destruct (He j n) as [Hcv Hvc]; [destruct Hvc as (? & ? & ?)|destruct Hcv as (? & ? & ?)];
    eauto.
Qed.

Lemma fresh_map_None (h : heap) : h_maps h !! fresh (dom (h_maps h)) = None.
Proof. apply not_elem_of_dom, is_fresh. Qed.

(** The deep copy. *)
Lemma copy_configs_spec cs vs h :
  denotes (h_maps h) cs vs →
  ∃ copies h', copy_configs cs h = (Ret copies, h') ∧ h_slices h' = h_slices h ∧
    h_maps h ⊆ h_maps h' ∧ denotes (h_maps h') copies vs ∧ owned (h_maps h) copies.
Proof.
  revert vs h. induction cs as [|a cs IH]; intros vs h Hd.
  { inversion Hd; subst. exists [], h. split_and!; [done..|constructor|].
    constructor; intros *; by rewrite lookup_nil. }
  apply Forall2_cons_inv_l in Hd as (b & vs' & Hab & Hd & ->).
  cbn [copy_configs]. rewrite M_bind_unfold. destruct (cs_Values a) as [l|] eqn:Hl.
  - destruct (denote_config_Some _ _ _ _ Hab Hl) as (m & Hm & ->).
    rewrite M_bind_unfold. unfold read_map at 1. rewrite Hm. rewrite M_bind_unfold.
    cbn [alloc_map]. set (l' := fresh (dom (h_maps h))).
    set (h1 := mkHeap (<[l' := m]> (h_maps h)) (h_slices h)).
    assert (h_maps h ⊆ h_maps h1) as Hsub1 by (apply insert_subseteq, fresh_map_None).
    destruct (IH vs' h1) as (copies & h' & Hc & Hs & Hsub & Hd' & Hown);
      [by eapply denotes_mono|].
    exists (set_Values (Some l') a :: copies), h'.
    assert (h_maps h' !! l' = Some m) as Hl'
      by (apply (lookup_weaken (h_maps h1)); [apply lookup_insert_eq|done]).
    split_and!; [|done|by etrans| |].
    + change (mret (M := M heap) (Some l') h1) with (Ret (Some l'), h1).
      cbv beta iota. by rewrite M_bind_unfold, Hc.
    + constructor; [|done]. unfold denote_config. cbn. by rewrite Hl'.
    + destruct Hown as [Hnew Hinj].
      assert (∀ i a' l0, copies !! i = Some a' → cs_Values a' = Some l0 →
                h_maps h !! l0 = None ∧ l0 ≠ l') as Hnew'.
      { intros i a' l0 Hi Hv. pose proof (Hnew _ _ _ Hi Hv) as Hno.
        cbn in Hno. apply lookup_insert_None in Hno as [? ?]. auto. }
      constructor.
      * intros [|i] a' l0; cbn; [intros [= <-] [= <-]; apply fresh_map_None|].
        intros Hi Hv. by eapply Hnew'.
      * intros [|i] [|j] a1 a2 l0; cbn; [done| | |].
        -- intros [= <-] Hj [= <-] Hv. by destruct (Hnew' _ _ _ Hj Hv).
        -- intros Hi [= <-] Hv [= <-]. by destruct (Hnew' _ _ _ Hi Hv).
        -- intros. f_equal. by eapply Hinj.
  - destruct (IH vs' h Hd) as (copies & h' & Hc & Hs & Hsub & Hd' & [Hnew Hinj]).
    exists (set_Values None a :: copies), h'. split_and!; [|done|done| |].
    + change (mret (M := M heap) None h) with (Ret (@None positive), h).
      cbv beta iota. by rewrite M_bind_unfold, Hc.
    + constructor; [|done]. unfold denote_config in *. rewrite Hl in Hab. by cbn.
    + constructor.
      * intros [|i] a' l0; cbn; [by intros [= <-]|]. apply Hnew.
      * intros [|i] [|j] a1 a2 l0; cbn; [done|by intros [= <-]|by intros _ [= <-]|].
        intros. f_equal. by eapply Hinj.
Qed.

Lemma write_values_spec l kvs keys h m :
  h_maps h !! l = Some m →
  write_values l kvs keys h =
    (Ret (keys ++ kvs.*1),
     mkHeap (<[l := foldl insert_value m kvs]> (h_maps h)) (h_slices h)).
Proof.
  revert keys h m. induction kvs as [|[k v] kvs IH]; intros keys h m Hl; cbn.
  - rewrite app_nil_r, insert_id by done. by destruct h.
  - rewrite M_bind_unfold. unfold read_map. rewrite Hl, M_bind_unfold. cbn.
    rewrite (IH _ _ (<[k := AnyString v]> m)) by (cbn; apply lookup_insert_eq). cbn.
    by rewrite insert_insert_eq, <- (assoc (++)).
Qed.

Lemma alter_as_insert {A} (f : A → A) i (l : list A) x :
  l !! i = Some x → alter f i l = <[i := f x]> l.
Proof.
  intros Hi. apply list_eq. intros j. destruct (decide (i = j)) as [<-|Hne].
  - rewrite list_lookup_alter_eq, Hi, list_lookup_insert_eq; [done|].
    by eapply lookup_lt_Some.
  - by rewrite list_lookup_alter_ne, list_lookup_insert_ne.
Qed.

(** Writing the map of one cell changes what that cell denotes, and no other. *)
Lemma denotes_write base maps cs vs i a l m' :
  owned base cs → denotes maps cs vs → cs !! i = Some a → cs_Values a = Some l →
  denotes (<[l := m']> maps) cs (<[i := set_Values (Some m') a]> vs).
Proof.
  intros [_ Hinj] Hd Hi Hl. apply Forall2_same_length_lookup_2.
  { rewrite length_insert. by eapply Forall2_length. }
  intros j b v Hb [(-> & <- & _)|(Hne & Hv)]%list_lookup_insert_Some.
  - assert (b = a) as -> by congruence. unfold denote_config.
    by rewrite Hl, lookup_insert_eq.
  - pose proof (Forall2_lookup_lr _ _ _ _ _ _ Hd Hb Hv) as Hab. cbn in Hab.
    unfold denote_config in *. destruct (cs_Values b) as [l2|] eqn:Hl2; [|done].
    rewrite lookup_insert_ne; [done|]. intros <-. destruct Hne. by eapply Hinj.
Qed.

(** Giving a cell without a map a new one. *)
Lemma denotes_alloc maps cs vs i a l m :
  denotes maps cs vs → maps !! l = None → cs !! i = Some a →
  denotes (<[l := m]> maps) (<[i := set_Values (Some l) a]> cs)
    (<[i := set_Values (Some m) a]> vs).
Proof.
  intros Hd Hl Hi. apply Forall2_insert.
  - eapply denotes_mono; [by apply insert_subseteq|done].
  - unfold denote_config. cbn. by rewrite lookup_insert_eq.
Qed.

Lemma merge_values_snd ov values values' :
  (merge_values ov values).2 = (merge_values ov values').2.
Proof. by rewrite !merge_values_unfold. Qed.

(** Giving a cell without a map a new empty one does not change what it is merged to. *)
Lemma owned_alloc base maps cs i a l :
  owned base cs → (∃ vs, denotes maps cs vs) → base ⊆ maps →
  cs !! i = Some a → cs_Values a = None → maps !! l = None →
  owned base (<[i := set_Values (Some l) a]> cs).
Proof.
  intros [Hnew Hinj] [vs Hd] Hsub Hi Ha Hl.
  assert (∀ j b, cs !! j = Some b → cs_Values b ≠ Some l) as Hno.
  { intros j b Hb Hbl. destruct (Forall2_lookup_l _ _ _ _ _ Hd Hb) as (v & _ & Hbv).
    destruct (denote_config_Some _ _ _ _ Hbv Hbl) as (? & ? & _). congruence. }
  constructor.
  - intros j b l0. rewrite list_lookup_insert_Some.
    intros [(<- & <- & _)|(_ & Hb)]; [|by eapply Hnew].
    cbn. intros [= <-]. by eapply lookup_weaken_None.
  - intros j k b c l0. rewrite !list_lookup_insert_Some.
    intros [(<- & <- & _)|(? & Hb)] [(<- & <- & _)|(? & Hc)]; cbn; [done|..].
    + intros [= <-] Hcl. by destruct (Hno _ _ Hc).
    + intros Hbl [= <-]. by destruct (Hno _ _ Hb).
    + by eapply Hinj.
Qed.

Lemma write_new base maps cs i a l m :
  owned base cs → cs !! i = Some a → cs_Values a = Some l → base ⊆ maps →
  base ⊆ <[l := m]> maps.
Proof.
  intros [Hnew _] Hi Hl Hsub. apply insert_subseteq_r; [by eapply Hnew|done].
Qed.

(** One override, on the heap and on values. *)
Lemma heap_merge_override_spec base s cb ov keys h cs vs :
  h_slices h !! s = Some cs → denotes (h_maps h) cs vs → owned base cs →
  base ⊆ h_maps h → is_Some (cs !! default 0%nat (cb !! ov_Name ov)) →
  ∃ h' cs' vs' keys',
    merge_override cb (vs, keys) ov = (vs', keys') ∧
    heap_merge_override s cb ov keys h = (Ret keys', h') ∧
    h_slices h' = <[s := cs']> (h_slices h) ∧ denotes (h_maps h') cs' vs' ∧
    owned base cs' ∧ base ⊆ h_maps h' ∧ length cs' = length cs.
Proof.
  intros Hs Hd Hown Hsub [a Hi]. unfold merge_override, heap_merge_override.
  set (i := default 0%nat _) in *. rewrite M_bind_unfold. unfold read_slice. rewrite Hs, Hi.
  destruct (Forall2_lookup_l _ _ _ _ _ Hd Hi) as (v & Hv & Hav).
  rewrite M_bind_unfold. destruct (cs_Values a) as [l|] eqn:Hl.
  - destruct (denote_config_Some _ _ _ _ Hav Hl) as (m & Hm & ->).
    change (mret (M := M heap) l h) with (Ret l, h). cbv beta iota.
    rewrite M_bind_unfold, (write_values_spec _ _ _ _ m Hm). cbv beta iota.
    eexists _, cs, _, _. split; [done|]. split.
    { cbn. rewrite (merge_values_unfold ov ∅). done. }
    cbn [h_slices h_maps]. rewrite insert_id by done.
    split_and!; [done| |done|by apply (write_new base _ cs i a)|done].
    rewrite (alter_as_insert _ _ _ _ Hv), merge_values_unfold.
    by apply (denotes_write base (h_maps h) cs vs i a).
  - unfold denote_config in Hav. rewrite Hl in Hav. injection Hav as <-.
    rewrite M_bind_unfold. cbn [alloc_map]. set (l := fresh (dom (h_maps h))).
    pose proof (fresh_map_None h) as Hlnew. fold l in Hlnew.
    rewrite M_bind_unfold. cbn [write_slice modify].
    change (mret (M := M heap) l ?h1) with (Ret l, h1). cbv beta iota.
    rewrite M_bind_unfold, (write_values_spec _ _ _ _ ∅) by (cbn; apply lookup_insert_eq).
    cbv beta iota.
    assert (owned base (<[i := set_Values (Some l) a]> cs)) as Hown'
      by (eapply owned_alloc; eauto).
    eexists _, _, _, _. split; [done|]. split.
    { cbn. rewrite (merge_values_unfold ov ∅). done. }
    cbn [h_slices h_maps]. split_and!; [done| |done| |by rewrite length_insert].
    + rewrite (alter_as_insert _ _ _ _ Hv), merge_values_unfold.
      rewrite <- (list_insert_insert_eq vs i _ (set_Values (Some ∅) a)).
      eapply (denotes_write base _ _ _ i (set_Values (Some l) a)); [done| | |done].
      * by apply denotes_alloc.
      * apply list_lookup_insert_eq. by eapply lookup_lt_Some.
    + rewrite insert_insert_eq. etrans; [exact Hsub|by apply insert_subseteq].
Qed.

Lemma heap_merge_spec base s cb ovs keys h cs vs :
  h_slices h !! s = Some cs → denotes (h_maps h) cs vs → owned base cs →
  base ⊆ h_maps h →
  (∀ ov, ov ∈ ovs → (default 0%nat (cb !! ov_Name ov) < length cs)%nat) →
  ∃ h' cs' vs' keys',
    foldl (merge_override cb) (vs, keys) ovs = (vs', keys') ∧
    heap_merge s cb ovs keys h = (Ret keys', h') ∧
    h_slices h' = <[s := cs']> (h_slices h) ∧ denotes (h_maps h') cs' vs' ∧
    base ⊆ h_maps h'.
Proof.
  revert keys h cs vs. induction ovs as [|ov ovs IH]; intros keys h cs vs Hs Hd Ho Hsub Hin.
  { exists h, cs, vs, keys. split_and!; [done..| |done|done]. by rewrite insert_id. }
  destruct (heap_merge_override_spec base s cb ov keys h cs vs)
    as (h1 & cs1 & vs1 & keys1 & E1 & E2 & Hs1 & Hd1 & Ho1 & Hsub1 & Hlen); [done..| |].
  { apply lookup_lt_is_Some_2, Hin. by left. }
  destruct (IH keys1 h1 cs1 vs1) as (h2 & cs2 & vs2 & keys2 & F1 & F2 & Hs2 & Hd2 & Hsub2);
    [by rewrite Hs1, lookup_insert_eq|done..|rewrite Hlen; intros o Hov; apply Hin; by right|].
  exists h2, cs2, vs2, keys2. split_and!; [| | |done|done].
  - cbn [foldl]. by rewrite E1.
  - cbn [heap_merge]. by rewrite M_bind_unfold, E2.
  - by rewrite Hs2, Hs1, insert_insert_eq.
Qed.

(** C13 (refinement). Run on the heap, where the loader's cached contract is shared, the
    override function never panics, computes what the function on values computes, and
    leaves every map and every slice that existed before with its contents: the cached
    contract still denotes what it denoted. *)
Theorem heap_overrides_refine (h : heap) (c : HContract) (cv : Contract) ovs :
  denote h c = Some cv →
  ∃ r h', heap_applyConfigurationOverrides c ovs h = (Ret r, h') ∧
    untouched h h' ∧ denote h' c = Some cv ∧
    match applyConfigurationOverrides cv ovs with
    | Err e => r = Err e
    | Ok (cv', keys) => ∃ c', r = Ok (c', keys) ∧ denote h' c' = Some cv'
    end.
Proof.
  intros Hden. pose proof Hden as (cs & Hs & (vs & Hvs & [= <-])%bind_Some)%bind_Some.
  apply mapM_Some in Hvs as Hd. unfold heap_applyConfigurationOverrides, applyConfigurationOverrides.
  assert (untouched h h) as Hrefl by done.
  destruct ovs as [ovs|]; [|by eexists _, h; split_and!; [..|exists c]].
  case_bool_decide; [by eexists _, h; split_and!; [..|exists c]|].
  cbv zeta. cbn [c_Configurations with_Configurations].
  rewrite M_bind_unfold. unfold read_slice at 1. rewrite Hs.
  rewrite (config_index_denotes _ _ _ Hd).
  destruct (check_names _ _) as [e|] eqn:Hn; [by eexists _, h; split_and!|].
  rewrite check_names_None in Hn.
  destruct (copy_configs_spec cs vs h Hd) as (copies & h1 & Hc & Hs1 & Hsub1 & Hd1 & Ho1).
  rewrite M_bind_unfold, Hc, M_bind_unfold. cbn [alloc_slice].
  set (s := fresh (dom (h_slices h1))).
  assert (h_slices h1 !! s = None) as Hsnew by (apply not_elem_of_dom, is_fresh).
  destruct (heap_merge_spec (h_maps h) s (config_index vs) (ovs_Configurations ovs) ∅
    (mkHeap (h_maps h1) (<[s := copies]> (h_slices h1))) copies vs)
    as (h2 & cs2 & vs2 & keys & F1 & F2 & Hs2 & Hd2 & Hsub2); [|done..| |].
  { cbn. by rewrite lookup_insert_eq. }
  { intros ov [i Hi]%Hn. rewrite Hi. cbn.
    pose proof Hi as [(cfg & Hcfg & _) _]%config_index_spec.
    rewrite (Forall2_length _ _ _ Hd1). by eapply lookup_lt_Some. }
  rewrite M_bind_unfold, F2, F1. cbn [h_slices] in Hs2. rewrite insert_insert_eq, Hs1 in Hs2.
  rewrite Hs1 in Hsnew.
  assert (untouched h h2) as Hun.
  { split; [done|]. rewrite Hs2. by apply insert_subseteq. }
  eexists _, h2. split; [done|]. split_and!; [done| |].
  - unfold denote. destruct Hun as [Hum Hus]. rewrite (lookup_weaken _ _ _ _ Hs Hus). cbn.
    rewrite (proj2 (mapM_Some _ _ _) (denotes_mono _ _ _ _ Hum Hd)). done.
  - eexists. split; [done|]. unfold denote. cbn [hc_configs hc_fields].
    rewrite Hs2, lookup_insert_eq. cbn. by rewrite (proj2 (mapM_Some _ _ _) Hd2).
Qed.

End refinement.

(** *** Witness: a cached contract with one configuration, overridden *)

Definition example_fields : ContractOf unit :=
  mkContract (example_identity "api") [] [] [] [] None None ∅ None.

Definition example_heap : heap :=
  mkHeap {[ 1%positive := {[ "level" := AnyString "info" ]} ]}
    {[ 1%positive := [mkConfigurationSource "app" "" "" (Some 1%positive)] ]}.

Definition example_overrides : option ContractOverrides :=
  Some {| ovs_Configurations :=
    [{| ov_Name := "app"; ov_Values := {[ "level" := "debug"; "port" := "80" ]} |}] |}.

Definition example_value : Contract :=
  with_Configurations
    [mkConfigurationSource "app" "" "" (Some {[ "level" := AnyString "info" ]})]
    example_fields.

Lemma heap_overrides_refine_witness :
  ∃ r h',
    @heap_applyConfigurationOverrides latin1_tables canonical_order
      (mkHContract example_fields 1%positive) example_overrides example_heap = (Ret r, h') ∧
    untouched example_heap h' ∧
    denote h' (mkHContract example_fields 1%positive) = Some example_value ∧
    match @applyConfigurationOverrides latin1_tables canonical_order example_value
            example_overrides with
    | Err e => r = Err e
    | Ok (cv', keys) => ∃ c', r = Ok (c', keys) ∧ denote h' c' = Some cv'
    end.
Proof.
  apply (@heap_overrides_refine latin1_tables canonical_order). reflexivity.
Defined.

Example overrides_ex :
  match @applyConfigurationOverrides latin1_tables canonical_order example_value
          example_overrides with
  | Ok (c, keys) =>
      keys !! "app" = Some ["level"; "port"] ∧
      (λ cfg, value_of cfg "level") <$> c_Configurations c = [Some (AnyString "debug")]
  | Err _ => False
  end.
Proof. split; vm_compute; reflexivity. Qed.

End Overrides.
