(* ===== verification/Kube.v ===== *)
(** * The reconciler's surroundings

    What [PactoReconciler] holds and talks to: the Kubernetes API ([client.Client]), the
    contract loader (the interface [ContractLoader] of [pacto_controller.go]), the event
    recorder and the metrics. API and network act on the world [W]; events and metrics
    are traces. *)

From S2P Require Import Prelude GoStrings GoMaps GoFmt Contract V1alpha1 Conditions.
From S2P Require Import Observer Images Validator Credentials Prober Metrics Loader.
From stdpp Require Import options.
#[local] Set Default Proof Using "Type*".

(** [Recorder.Event(object, type, reason, message)]. *)
Record Event := mkEvent {
  ev_Object : string * string; ev_Type : string; ev_Reason : string; ev_Message : string }.

Definition EventTypeNormal := "Normal".
Definition EventTypeWarning := "Warning".

(** [client.Client]: reads look at the world, writes change it. A list is filtered by
    namespace and labels. [SetControllerReference] is [ctrl.SetControllerReference] on a
    new revision. *)
Class KubeClient (W : Type) := {
  kube_reader : W → Observer.KubeReader;
  Get_Pacto : string → string → W → result Pacto;
  Get_Secret : string → string → W → result Credentials.Secret;
  Get_Revision : string → string → W → result PactoRevision;
  List_Revisions : string → gmap string string → W → result (list PactoRevision);
  Create_Revision : PactoRevision → W → option error * W;
  Update_Revision_Status : PactoRevision → W → option error * W;
  Update_Pacto_Status : Pacto → W → option error * W;
  SetControllerReference : Pacto → PactoRevision → result PactoRevision
}.

(** The interface [ContractLoader]: what the reconciler asks of a loader with state [L]. *)
Class ContractLoader (W L : Type) := {
  cl_Load : string → string → option Credentials.AuthConfig →
    M (W * L) (result Loader.LoadResult);
  cl_ListTags : string → option Credentials.AuthConfig → M (W * L) (result (list string))
}.

(** Loading and listing return: they do not panic. *)
Class ContractLoaderLaws (W L : Type) `{!ContractLoader W L} := {
  cl_Load_returns o i a s : ∃ r s', cl_Load o i a s = (Ret r, s');
  cl_ListTags_returns o a s : ∃ r s', cl_ListTags o a s = (Ret r, s')
}.

(** The loader of [internal/loader] implements the interface. *)
Section instance.
Context `{UnicodeTables} `{PactoLib} {W : Type} `{!Clock W} `{!Loader.OCIClient W}.

#[export] Instance loader_ContractLoader : ContractLoader W Loader.Loader := {|
  cl_Load := Loader.Load; cl_ListTags := Loader.ListTags |}.

#[export] Instance loader_ContractLoaderLaws : ContractLoaderLaws W Loader.Loader.
Proof.
  constructor; cbn; [intros o i [a|] [w l]|intros o a [w l]].
  - rewrite Loader.Load_auth.
    destruct (Loader.loadUncached_Ret o i (Some a) w) as (r & w' & ->). by eauto.
  - pose proof (Loader.Load_cases o i w l) as Hl. cbv zeta in Hl.
    destruct (Loader.cached _ _ _); [by eauto|].
    destruct Hl as (r & w' & _ & ->). by eauto.
  - by apply Loader.ListTags_returns.
Qed.
End instance.

(** ** What the API promises about revisions *)

Definition revision_key (r : PactoRevision) : string * string :=
  (rev_Namespace r, rev_Name r).

Definition with_revision_status (status : PactoRevisionStatus) (r : PactoRevision)
    : PactoRevision :=
  {| rev_Name := rev_Name r; rev_Namespace := rev_Namespace r; rev_Labels := rev_Labels r;
     rev_Owner := rev_Owner r; rev_Spec := rev_Spec r; rev_Status := status |}.

Definition with_owner (owner : string) (r : PactoRevision) : PactoRevision :=
  {| rev_Name := rev_Name r; rev_Namespace := rev_Namespace r; rev_Labels := rev_Labels r;
     rev_Owner := Some owner; rev_Spec := rev_Spec r; rev_Status := rev_Status r |}.

(** The documented behaviour of the API server on PactoRevision objects, whose status is a
    subresource: [revisions] is what is stored; a successful read returns the stored
    object and a not-found error means that there is none; a create stores a new object
    without its status or changes nothing (and says "already exists" only of an existing
    one); a status update writes the status only. An error says nothing else. *)
Class RevisionLaws (W : Type) `{!KubeClient W} := {
  revisions : W → gmap (string * string) PactoRevision;
  get_found ns n w r :
    Get_Revision ns n w = Ok r → revisions w !! (ns, n) = Some r;
  get_missing ns n w e :
    Get_Revision ns n w = Err e → IsNotFound e = true → revisions w !! (ns, n) = None;
  create_done r w w' :
    Create_Revision r w = (None, w') →
    revisions w !! revision_key r = None ∧
    ∃ st, revisions w' = <[revision_key r := with_revision_status st r]> (revisions w);
  create_refused r w w' e :
    Create_Revision r w = (Some e, w') →
    revisions w' = revisions w ∧
    (IsAlreadyExists e = true → is_Some (revisions w !! revision_key r));
  update_done r w w' :
    Update_Revision_Status r w = (None, w') →
    ∃ old, revisions w !! revision_key r = Some old ∧
      revisions w' = <[revision_key r := with_revision_status (rev_Status r) old]> (revisions w);
  update_refused r w w' e :
    Update_Revision_Status r w = (Some e, w') → revisions w' = revisions w;
  reference_set p r r' : SetControllerReference p r = Ok r' → r' = with_owner (p_Name p) r;
  pacto_frame p w : revisions (Update_Pacto_Status p w).2 = revisions w
}.

(** Loading contracts and listing tags do not write to the cluster. *)
Class LoaderFrame (W L : Type) `{!KubeClient W} `{!RevisionLaws W} `{!ContractLoader W L} := {
  load_frame o i a w l r w' l' :
    cl_Load o i a (w, l) = (r, (w', l')) → revisions w' = revisions w;
  list_frame o a w l r w' l' :
    cl_ListTags o a (w, l) = (r, (w', l')) → revisions w' = revisions w
}.

(** Neither do requests to the endpoints of a service. *)
Class NetworkFrame (W : Type) `{!KubeClient W} `{!RevisionLaws W}
    `{!Prober.HTTPTransport W} := {
  request_frame t u w : revisions (Prober.http_Do t u w).2 = revisions w
}.

Lemma requests_frame `{NetworkFrame W} w w' :
  rtc Prober.request w w' → revisions w' = revisions w.
Proof.
  induction 1 as [|w1 w2 w3 (t & u & ->) _ IH]; [done|]. rewrite IH. apply request_frame.
Qed.

(** ** The state of a reconciler *)

Record RState (W L : Type) := mkRState {
  st_world : W; st_loader : L;
  st_events : list Event; st_metrics : list Metrics.Sample }.
Arguments mkRState {W L}.
Arguments st_world {W L}. Arguments st_loader {W L}.
Arguments st_events {W L}. Arguments st_metrics {W L}.

Section ops.
Context {W L : Type}.
Implicit Types s : RState W L.

Definition on_world {A} (m : M W A) : M (RState W L) A :=
  zoom st_world (λ w s, mkRState w (st_loader s) (st_events s) (st_metrics s)) m.

Definition on_loader {A} (m : M (W * L) A) : M (RState W L) A :=
  zoom (λ s, (st_world s, st_loader s))
    (λ wl s, mkRState wl.1 wl.2 (st_events s) (st_metrics s)) m.

(** A call of the API that changes the world. *)
Definition kube {A} (f : W → A * W) : M (RState W L) A := on_world (lift_op f).

(** A read of the API or of the clock. *)
Definition ask {A} (f : W → A) : M (RState W L) A := gets (λ s, f (st_world s)).

(** [r.Recorder.Event(pacto, typ, reason, message)]. *)
Definition emit (p : Pacto) (typ reason message : string) : M (RState W L) unit :=
  modify (λ s, mkRState (st_world s) (st_loader s)
    (st_events s ++ [mkEvent (p_Namespace p, p_Name p) typ reason message])
    (st_metrics s)).

Definition record (samples : list Metrics.Sample) : M (RState W L) unit :=
  modify (λ s, mkRState (st_world s) (st_loader s) (st_events s)
    (st_metrics s ++ samples)).
End ops.

(** ** What a computation keeps *)

(** [m] keeps a property of the world: it holds after every run from a world where it
    holds, whether the run returns or panics. *)
Definition keeps {W L A} (F : W → Prop) (m : M (RState W L) A) : Prop :=
  ∀ s, F (st_world s) → F (st_world (m s).2).

(** A property of the world that only the write of a Pacto's status can change. *)
Record quiet {W L} `{!KubeClient W} `{!ContractLoader W L} `{!Prober.HTTPTransport W}
    (F : W → Prop) : Prop := {
  quiet_create r w : F w → F (Create_Revision r w).2;
  quiet_update r w : F w → F (Update_Revision_Status r w).2;
  quiet_load o i a w l : F w → F (cl_Load o i a (w, l)).2.1;
  quiet_tags o a w l : F w → F (cl_ListTags o a (w, l)).2.1;
  quiet_http t u w : F w → F (Prober.http_Do t u w).2
}.

Arguments quiet {W} L {_ _ _} F.

Section keeping.
Context {W L : Type} (F : W → Prop).

Lemma keeps_ret {A} (a : A) : keeps F (mret (M := M (RState W L)) a).
Proof. by intros s. Qed.

Lemma keeps_panic {A} msg : keeps F (panic (S := RState W L) (A := A) msg).
Proof. by intros s. Qed.

Lemma keeps_bind {A B} (m : M (RState W L) A) (f : A → M (RState W L) B) :
  keeps F m → (∀ a, keeps F (f a)) → keeps F (m ≫= f).
Proof.
  intros Hm Hf s Hs. specialize (Hm s Hs). rewrite M_bind_unfold.
  destruct (m s) as [[a|msg] s']; [by apply Hf|done].
Qed.

Lemma keeps_ask {A} (f : W → A) : keeps F (ask (L := L) f).
Proof. by intros s. Qed.

Lemma keeps_emit p t r msg : keeps F (emit (W := W) (L := L) p t r msg).
Proof. by intros s. Qed.

Lemma keeps_kube {A} (f : W → A * W) :
  (∀ w, F w → F (f w).2) → keeps F (kube (L := L) f).
Proof. intros Hf s Hs. by apply Hf. Qed.

Lemma keeps_on_loader {A} (m : M (W * L) A) :
  (∀ w l, F w → F (m (w, l)).2.1) → keeps F (on_loader m).
Proof.
  intros Hm s Hs. specialize (Hm _ (st_loader s) Hs). unfold on_loader, zoom.
  by destruct (m _) as [r wl].
Qed.

Lemma keeps_for_range {A} (f : A → M (RState W L) unit) l :
  (∀ a, keeps F (f a)) → keeps F (for_range f l).
Proof.
  intros Hf. induction l as [|a l IH]; [apply keeps_ret|].
  apply keeps_bind; [apply Hf|by intros _].
Qed.
End keeping.

Section quiet_calls.
Context `{KubeClient W, !ContractLoader W L, !Prober.HTTPTransport W} (F : W → Prop).
Hypothesis HF : quiet L F.

Lemma keeps_create r : keeps (L := L) F (kube (Create_Revision r)).
Proof. apply keeps_kube, (quiet_create F HF). Qed.

Lemma keeps_update r : keeps (L := L) F (kube (Update_Revision_Status r)).
Proof. apply keeps_kube, (quiet_update F HF). Qed.

Lemma keeps_load o i a : keeps (L := L) F (on_loader (cl_Load o i a)).
Proof. apply keeps_on_loader, (quiet_load F HF). Qed.

Lemma keeps_tags o a : keeps (L := L) F (on_loader (cl_ListTags o a)).
Proof. apply keeps_on_loader, (quiet_tags F HF). Qed.
End quiet_calls.

Create HintDb keeps discriminated.
#[export] Hint Resolve keeps_ret keeps_panic keeps_ask keeps_emit keeps_create
  keeps_update keeps_load keeps_tags keeps_for_range : keeps.

(** Goes through the code: a bind keeps what both parts keep, a case what every branch
    keeps. *)
Ltac keep_going :=
  repeat first
    [ progress eauto with keeps
    | apply keeps_bind; [|intros ?]
    | progress cbv zeta
    | match goal with
      | |- keeps _ (match ?x with _ => _ end) => destruct x
      | |- keeps _ (let '(_, _) := ?x in _) => destruct x
      end ].

(** ** What a computation returns *)

(** Whatever state [m] starts in, a value it returns satisfies [P]. *)
Definition returns {S A} (P : A → Prop) (m : M S A) : Prop :=
  ∀ s, match (m s).1 with Ret a => P a | Panic _ => True end.

Lemma returns_ret {S A} (P : A → Prop) (a : A) : P a → returns P (mret (M := M S) a).
Proof. by intros Ha s. Qed.

Lemma returns_any {S A} (m : M S A) : returns (λ _, True) m.
Proof. intros s. by destruct (m s).1. Qed.

Lemma returns_bind {S A B} (P : A → Prop) (Q : B → Prop) (m : M S A) (f : A → M S B) :
  returns P m → (∀ a, P a → returns Q (f a)) → returns Q (m ≫= f).
Proof.
  intros Hm Hf s. specialize (Hm s). rewrite M_bind_unfold.
  destruct (m s) as [[a|msg] s']; [by apply Hf|done].
Qed.

Lemma returns_weaken {S A} (P Q : A → Prop) (m : M S A) :
  returns P m → (∀ a, P a → Q a) → returns Q m.
Proof. intros Hm HPQ s. specialize (Hm s). destruct (m s).1; auto. Qed.

Lemma returns_then {S A B} (Q : B → Prop) (m : M S A) (f : A → M S B) :
  (∀ a, returns Q (f a)) → returns Q (m ≫= f).
Proof. intros Hf. eapply returns_bind; [apply returns_any|auto]. Qed.

Lemma requests_quiet `{KubeClient W, !ContractLoader W L, !Prober.HTTPTransport W} F w w' :
  quiet L F → rtc Prober.request w w' → F w → F w'.
Proof.
  intros HF. induction 1 as [|w1 w2 w3 (t & u & ->) _ IH]; [done|].
  intros Hw. apply IH. by apply (quiet_http F HF).
Qed.

(** [r.setCondition]. *)
Definition setCondition `{ConditionStore} (condType status reason message : string)
    (p : Pacto) : Pacto :=
  with_status (λ st, set_Conditions
    (SetStatusCondition (Conditions st)
       {| cond_Type := condType; cond_Status := status;
          cond_ObservedGeneration := p_Generation p;
          cond_Reason := reason; cond_Message := message |}) st) p.

(** ** Conditions of a Pacto *)

(** The same object up to its status. *)
Definition same_object (p q : Pacto) : Prop :=
  p_Name p = p_Name q ∧ p_Namespace p = p_Namespace q ∧ p_Generation p = p_Generation q ∧
  p_Spec p = p_Spec q.

#[export] Instance same_object_equivalence : Equivalence same_object.
Proof.
  split.
  - intros x. by split_and!.
  - intros x y (? & ? & ? & ?). by split_and!.
  - intros x y z (? & ? & ? & ?) (? & ? & ? & ?). unfold same_object. split_and!; congruence.
Qed.


Definition conditions (p : Pacto) : list Condition := Conditions (p_Status p).
Definition condition_of `{ConditionStore} (p : Pacto) (t : string) : option Condition :=
  FindStatusCondition (conditions p) t.

Section conditions.
Context `{ConditionStoreLaws}.

Lemma setCondition_unique t st r m p :
  unique_types (conditions p) → unique_types (conditions (setCondition t st r m p)).
Proof. apply set_condition_unique. Qed.

Lemma condition_of_set_eq t st r m p :
  unique_types (conditions p) →
  condition_of (setCondition t st r m p) t =
  Some {| cond_Type := t; cond_Status := st; cond_ObservedGeneration := p_Generation p;
          cond_Reason := r; cond_Message := m |}.
Proof.
  intros Hu. apply (find_set_eq (conditions p) {| cond_Type := t; cond_Status := st;
    cond_ObservedGeneration := p_Generation p; cond_Reason := r; cond_Message := m |} Hu).
Qed.

Lemma condition_of_set_ne t t' st r m p :
  unique_types (conditions p) → t' ≠ t →
  condition_of (setCondition t st r m p) t' = condition_of p t'.
Proof. intros Hu Hne. by apply find_set_ne. Qed.

Lemma elem_of_set_conditions t st r m p c :
  unique_types (conditions p) →
  c ∈ conditions (setCondition t st r m p) ↔
  c = {| cond_Type := t; cond_Status := st; cond_ObservedGeneration := p_Generation p;
         cond_Reason := r; cond_Message := m |} ∨ (c ∈ conditions p ∧ cond_Type c ≠ t).
Proof. intros Hu. by apply set_condition_elem. Qed.
End conditions.
