(* ===== verification/Cluster.v ===== *)
(** * An in-memory cluster

    An implementation of the interfaces of [Kube]: the stored objects are finite maps, a
    status is a subresource, nothing fails for transient reasons, and the loader answers
    every load with one fixed result. It discharges the interfaces' laws, so what is
    proved from the laws holds of something that runs. *)

From S2P Require Import Prelude GoStrings GoMaps GoFmt Contract V1alpha1.
From S2P Require Import Conditions Observer Credentials Prober Metrics Loader Kube.
From stdpp Require Import options.

Module Cluster.

Record cluster := mkCluster {
  cl_clock : Z;
  cl_revisions : gmap (string * string) PactoRevision;
  cl_pactos : gmap (string * string) Pacto;
  cl_secrets : gmap (string * string) Credentials.Secret;
  cl_reader : Observer.KubeReader }.

Definition cluster_clock : Clock cluster := cl_clock.

Definition with_revisions (R : gmap (string * string) PactoRevision) (w : cluster) : cluster :=
  mkCluster (cl_clock w) R (cl_pactos w) (cl_secrets w) (cl_reader w).

Definition with_pactos (P : gmap (string * string) Pacto) (w : cluster) : cluster :=
  mkCluster (cl_clock w) (cl_revisions w) P (cl_secrets w) (cl_reader w).

Definition NotFound : error := mkError KNotFound "not found".
Definition AlreadyExists : error := mkError KAlreadyExists "already exists".

Definition lookup_object {A} (m : gmap (string * string) A) (ns name : string) : result A :=
  match m !! (ns, name) with Some a => Ok a | None => Err NotFound end.

Definition has_labels (labels : gmap string string) (r : PactoRevision) : bool :=
  forallb (λ '(k, v), bool_decide (rev_Labels r !! k = Some v)) (map_to_list labels).

Definition empty_rev_status : PactoRevisionStatus :=
  {| rev_Resolved := false; rev_ContractHash := ""; rev_CreatedAt := None;
     rev_Conditions := [] |}.

Definition create (r : PactoRevision) (w : cluster) : option error * cluster :=
  match cl_revisions w !! revision_key r with
  | Some _ => (Some AlreadyExists, w)
  | None => (None, with_revisions
      (<[revision_key r := with_revision_status empty_rev_status r]> (cl_revisions w)) w)
  end.

Definition update_revision (r : PactoRevision) (w : cluster) : option error * cluster :=
  match cl_revisions w !! revision_key r with
  | None => (Some NotFound, w)
  | Some old => (None, with_revisions
      (<[revision_key r := with_revision_status (rev_Status r) old]> (cl_revisions w)) w)
  end.

Definition update_pacto (p : Pacto) (w : cluster) : option error * cluster :=
  match cl_pactos w !! (p_Namespace p, p_Name p) with
  | None => (Some NotFound, w)
  | Some old => (None, with_pactos
      (<[(p_Namespace p, p_Name p) := with_status (λ _, p_Status p) old]> (cl_pactos w)) w)
  end.

Definition cluster_client : KubeClient cluster := {|
  kube_reader := cl_reader;
  Get_Pacto ns name w := lookup_object (cl_pactos w) ns name;
  Get_Secret ns name w := lookup_object (cl_secrets w) ns name;
  Get_Revision ns name w := lookup_object (cl_revisions w) ns name;
  List_Revisions ns labels w :=
    Ok (filter (λ r, rev_Namespace r = ns ∧ has_labels labels r = true)
          (map_to_list (cl_revisions w)).*2);
  Create_Revision := create;
  Update_Revision_Status := update_revision;
  Update_Pacto_Status := update_pacto;
  SetControllerReference p r := Ok (with_owner (p_Name p) r) |}.

#[local] Existing Instance cluster_client.

Lemma lookup_object_Ok {A} (m : gmap (string * string) A) ns n a :
  lookup_object m ns n = Ok a → m !! (ns, n) = Some a.
Proof. unfold lookup_object. by destruct (m !! _); intros [= ->]. Qed.

Definition cluster_laws : RevisionLaws cluster.
Proof.
  refine {| revisions := cl_revisions |}; cbn.
  - intros ns n w r. apply lookup_object_Ok.
  - intros ns n w e. unfold lookup_object. by destruct (cl_revisions w !! _).
  - intros r w w'. unfold create. destruct (cl_revisions w !! _) eqn:E; [done|].
    intros [= <-]. split; [done|]. by exists empty_rev_status.
  - intros r w w' e. unfold create. destruct (cl_revisions w !! _) eqn:E; [|done].
    intros [= <- <-]. done.
  - intros r w w'. unfold update_revision.
    destruct (cl_revisions w !! _) as [old|] eqn:E; [|done]. intros [= <-]. by exists old.
  - intros r w w' e. unfold update_revision.
    destruct (cl_revisions w !! _) eqn:E; [done|]. by intros [= _ <-].
  - by intros p r r' [= <-].
  - intros p w. unfold update_pacto. by destruct (cl_pactos w !! _).
Defined.

(** A loader that always answers [r], and [tags] for every repository. *)
Definition fixed_loader (r : result Loader.LoadResult) (tags : list string)
    : ContractLoader cluster unit := {|
  cl_Load _ _ _ s := (Ret r, s);
  cl_ListTags _ _ s := (Ret (Ok tags), s) |}.

Lemma fixed_loader_laws r tags :
  @ContractLoaderLaws cluster unit (fixed_loader r tags).
Proof. constructor; cbn; eauto. Qed.

Lemma fixed_loader_frame r tags :
  @LoaderFrame cluster unit cluster_client cluster_laws (fixed_loader r tags).
Proof. constructor; cbn; congruence. Qed.

(** Endpoints that answer 200, without touching the cluster. *)
Definition cluster_network : Prober.HTTPTransport cluster := {|
  Prober.http_NewRequest _ := None;
  Prober.http_Do _ _ w := (Ok {| Prober.resp_StatusCode := 200; Prober.resp_Body := "ok" |}, w) |}.

Lemma cluster_network_frame :
  @NetworkFrame cluster cluster_client cluster_laws cluster_network.
Proof. by constructor. Qed.

(** A cluster with one Pacto and nothing else. *)
Definition empty_reader : Observer.KubeReader := {|
  Observer.GetService _ _ := Err NotFound;
  Observer.GetDeployment _ _ := Err NotFound;
  Observer.GetStatefulSet _ _ := Err NotFound;
  Observer.GetReplicaSet _ _ := Err NotFound;
  Observer.GetJob _ _ := Err NotFound;
  Observer.GetCronJob _ _ := Err NotFound |}.

Definition small_cluster : cluster :=
  mkCluster 7 ∅ {[ ("prod", "api") := example_pacto ]} ∅ empty_reader.

Definition small_state : RState cluster unit := mkRState small_cluster tt [] [].

Definition loaded : Loader.LoadResult :=
  Loader.mkLoadResult (example_contract "api") "yaml" None "r/a:1.0.0" "sha256:0123456789".

(** The same contract pulled when the registry did not resolve the digest. *)
Definition loaded_without_digest : Loader.LoadResult :=
  Loader.mkLoadResult (example_contract "api") "yaml2" None "r/a:1.0.0" "".

End Cluster.
