(* ===== verification/Readiness.v ===== *)
(** * Readiness

    [internal/controller/readiness.go]: the operational readiness a contract declares,
    as status, condition, metrics and transition events. The evaluation itself is the
    pacto library's ([readiness_Evaluate]). *)

From S2P Require Import Prelude GoStrings GoMaps GoFmt Contract V1alpha1 Conditions.
From S2P Require Import Metrics Kube.
From stdpp Require Import options.
#[local] Set Default Proof Using "Type*".

Module Readiness.

(** [readinessCondition]: status, reason and message. *)
Definition readinessCondition (eval : ReadinessResult) : string * string * string :=
  if res_Passing eval then
    (ConditionTrue, ReasonReadinessSatisfied,
     "readiness score " +:+ fmt_d (res_Score eval) +:+ " meets minScore " +:+
     fmt_d (res_MinScore eval))
  else if res_Expired eval then
    (ConditionFalse, ReasonReadinessExpired,
     "readiness assessment expired (expires " +:+ res_Expires eval +:+ "); score " +:+
     fmt_d (res_Score eval) +:+ " below minScore " +:+ fmt_d (res_MinScore eval))
  else
    (ConditionFalse, ReasonReadinessBelowMinScore,
     "readiness score " +:+ fmt_d (res_Score eval) +:+ " below minScore " +:+
     fmt_d (res_MinScore eval) +:+ " (" +:+ fmt_d (res_DoneCount eval) +:+ " done, " +:+
     fmt_d (res_PartialCount eval) +:+ " partial, " +:+ fmt_d (res_NotDoneCount eval) +:+
     " not-done, " +:+ fmt_d (res_DeferredCount eval) +:+ " deferred)").

(** [buildReadinessStatus]. *)
Definition buildReadinessStatus (eval : ReadinessResult)
    (decl : option Contract.Readiness) : ReadinessStatus :=
  {| rds_Score := int32 (res_Score eval);
     rds_MinScore := int32 (res_MinScore eval);
     rds_Passing := res_Passing eval;
     rds_TotalWeight := int32 (res_TotalWeight eval);
     rds_EarnedWeight := int32 (res_EarnedWeight eval);
     rds_Expires := res_Expires eval;
     rds_Expired := res_Expired eval;
     rds_DaysRemaining := int32 <$> res_DaysRemaining eval;
     rds_DoneCount := int32 (res_DoneCount eval);
     rds_PartialCount := int32 (res_PartialCount eval);
     rds_NotDoneCount := int32 (res_NotDoneCount eval);
     rds_DeferredCount := int32 (res_DeferredCount eval);
     rds_Revisions :=
       match decl with
       | Some decl =>
           (λ rev, {| rrs_Date := rr_Date rev; rrs_Version := rr_Version rev;
                      rrs_Author := rr_Author rev; rrs_Description := rr_Description rev |})
             <$> rd_History decl
       | None => []
       end;
     rds_Checks :=
       (λ ch, {| rcs_ID := cr_ID ch; rcs_Type := cr_Type ch; rcs_Category := cr_Category ch;
                 rcs_Status := cr_Status ch; rcs_Evidence := cr_Evidence ch;
                 rcs_Description := cr_Description ch; rcs_Weight := int32 (cr_Weight ch);
                 rcs_EarnedWeight := int32 (cr_EarnedWeight ch);
                 rcs_Excluded := cr_Excluded ch |}) <$> res_Checks eval |}.

Section readiness.
Context `{PactoLib} `{ConditionStore} {W L : Type} `{!Clock W}.

(** The event of the final [switch]. *)
Definition emit_transition (pacto : Pacto) (status msg : string) (wasUnmet : bool)
    : M (RState W L) unit :=
  if bool_decide (status = ConditionFalse) && negb wasUnmet
  then emit pacto EventTypeWarning EventReadinessGateUnmet msg
  else if bool_decide (status = ConditionTrue) && wasUnmet
  then emit pacto EventTypeNormal EventReadinessRecovered msg
  else mret tt.

(** [reconcileReadiness]. *)
Definition reconcileReadiness (pacto : Pacto) (c : Contract) (wasUnmet : bool)
    : M (RState W L) Pacto :=
  t ← ask now;
  match readiness_Evaluate (c_Readiness c) t with
  | None => mret pacto
  | Some eval =>
      let rs := buildReadinessStatus eval (c_Readiness c) in
      let pacto := with_status (set_Readiness_ (Some rs)) pacto in
      let '(status, reason, msg) := readinessCondition eval in
      let pacto := setCondition ConditionReadinessSatisfied status reason msg pacto in
      record (Metrics.RecordReadiness (p_Namespace pacto) (p_Name pacto) (Some rs) reason)
        ≫= λ _, emit_transition pacto status msg wasUnmet ≫= λ _, mret pacto
  end.

(** The state of the gate before the status is reset (the start of [Reconcile]). *)
Definition readinessWasUnmet (pacto : Pacto) : bool :=
  match FindStatusCondition (Conditions (p_Status pacto)) ConditionReadinessSatisfied with
  | Some prev => bool_decide (cond_Status prev = ConditionFalse)
  | None => false
  end.

End readiness.

(** ** Specification *)

Lemma readinessCondition_status eval :
  (readinessCondition eval).1.1 = if res_Passing eval then ConditionTrue else ConditionFalse.
Proof. unfold readinessCondition. by destruct (res_Passing eval), (res_Expired eval). Qed.

Lemma readinessCondition_reason eval :
  (readinessCondition eval).1.2 =
    if res_Passing eval then ReasonReadinessSatisfied
    else if res_Expired eval then ReasonReadinessExpired else ReasonReadinessBelowMinScore.
Proof. unfold readinessCondition. by destruct (res_Passing eval), (res_Expired eval). Qed.

(** The event a gate state produces after the state [wasUnmet]: none unless it changed. *)
Definition transition (p : Pacto) (passing : bool) (msg : string) (wasUnmet : bool)
    : list Event :=
  match passing, wasUnmet with
  | false, false => [mkEvent (p_Namespace p, p_Name p) EventTypeWarning
                       EventReadinessGateUnmet msg]
  | true, true => [mkEvent (p_Namespace p, p_Name p) EventTypeNormal
                     EventReadinessRecovered msg]
  | _, _ => []
  end.

Section spec.
Context `{PactoLib} `{ConditionStoreLaws} {W L : Type} `{!Clock W}.

(** The Pacto after an evaluation. *)
Definition assessed (pacto : Pacto) (c : Contract) (eval : ReadinessResult) : Pacto :=
  let '(status, reason, msg) := readinessCondition eval in
  setCondition ConditionReadinessSatisfied status reason msg
    (with_status (set_Readiness_ (Some (buildReadinessStatus eval (c_Readiness c)))) pacto).

Lemma reconcileReadiness_run pacto c wasUnmet (s : RState W L) :
  reconcileReadiness pacto c wasUnmet s =
  match readiness_Evaluate (c_Readiness c) (now (st_world s)) with
  | None => (Ret pacto, s)
  | Some eval =>
      (Ret (assessed pacto c eval),
       mkRState (st_world s) (st_loader s)
         (st_events s ++
          transition pacto (res_Passing eval) (readinessCondition eval).2 wasUnmet)
         (st_metrics s ++ Metrics.RecordReadiness (p_Namespace pacto) (p_Name pacto)
            (Some (buildReadinessStatus eval (c_Readiness c)))
            (readinessCondition eval).1.2))
  end.
Proof.
  unfold reconcileReadiness. rewrite M_bind_unfold. cbn [ask gets].
  destruct (readiness_Evaluate _ _) as [eval|]; [|done].
  pose proof (readinessCondition_status eval) as Hst. unfold assessed.
  destruct (readinessCondition eval) as [[status reason] msg]. cbn [fst snd] in Hst |- *.
  cbv zeta. rewrite M_bind_unfold. cbn [record modify]. rewrite M_bind_unfold.
  unfold emit_transition, transition. subst status.
  destruct (res_Passing eval), wasUnmet; cbn; rewrite ?app_nil_r; done.
Qed.

Lemma assessed_wasUnmet pacto c eval :
  unique_types (Conditions (p_Status pacto)) →
  readinessWasUnmet (assessed pacto c eval) = negb (res_Passing eval).
Proof.
  intros Hu. unfold assessed, readinessWasUnmet.
  pose proof (readinessCondition_status eval) as Hst.
  destruct (readinessCondition eval) as [[status reason] msg]. cbn [fst] in Hst. subst status.
  change (FindStatusCondition (Conditions (p_Status ?p))) with (condition_of p).
  rewrite condition_of_set_eq by done. cbn [cond_Status].
  by destruct (res_Passing eval).
Qed.

(** C40 (functional). Without a readiness declaration nothing happens. With one, the status
    carries the assessment, the ReadinessSatisfied condition is True exactly when the gate
    passes (an expired assessment is told apart from a low score), the contract status is
    left alone, the gauges are emitted, and an event is recorded only when the gate
    changed state. *)
Theorem reconcileReadiness_assesses pacto c wasUnmet (s : RState W L) :
  unique_types (Conditions (p_Status pacto)) →
  match readiness_Evaluate (c_Readiness c) (now (st_world s)) with
  | None => reconcileReadiness pacto c wasUnmet s = (Ret pacto, s)
  | Some eval =>
      ∃ pacto' s' cond, reconcileReadiness pacto c wasUnmet s = (Ret pacto', s') ∧
        Readiness_ (p_Status pacto') = Some (buildReadinessStatus eval (c_Readiness c)) ∧
        FindStatusCondition (Conditions (p_Status pacto')) ConditionReadinessSatisfied =
          Some cond ∧
        (cond_Status cond = ConditionTrue ↔ res_Passing eval = true) ∧
        (cond_Status cond = ConditionFalse ↔ res_Passing eval = false) ∧
        (cond_Reason cond = ReasonReadinessExpired ↔
           res_Passing eval = false ∧ res_Expired eval = true) ∧
        (∀ t, t ≠ ConditionReadinessSatisfied →
           FindStatusCondition (Conditions (p_Status pacto')) t =
           FindStatusCondition (Conditions (p_Status pacto)) t) ∧
        ContractStatus (p_Status pacto') = ContractStatus (p_Status pacto) ∧
        st_world s' = st_world s ∧ st_loader s' = st_loader s ∧
        st_metrics s' = st_metrics s ++
          Metrics.RecordReadiness (p_Namespace pacto) (p_Name pacto)
            (Readiness_ (p_Status pacto')) (cond_Reason cond) ∧
        (st_events s' = st_events s ↔ wasUnmet = negb (res_Passing eval))
  end.
Proof.
  intros Hu. rewrite reconcileReadiness_run.
  destruct (readiness_Evaluate _ _) as [eval|]; [|done].
  eexists _, _, {| cond_Type := ConditionReadinessSatisfied;
    cond_Status := (readinessCondition eval).1.1;
    cond_ObservedGeneration := p_Generation pacto;
    cond_Reason := (readinessCondition eval).1.2;
    cond_Message := (readinessCondition eval).2 |}. split; [done|].
  cbn [cond_Status cond_Reason]. rewrite readinessCondition_status, readinessCondition_reason.
  assert (assessed pacto c eval = setCondition ConditionReadinessSatisfied
    (readinessCondition eval).1.1 (readinessCondition eval).1.2 (readinessCondition eval).2
    (with_status (set_Readiness_ (Some (buildReadinessStatus eval (c_Readiness c)))) pacto))
    as -> by (unfold assessed; by destruct (readinessCondition eval) as [[??]?]).
  split_and!; try done.
  - change (FindStatusCondition (Conditions (p_Status ?p))) with (condition_of p).
    rewrite condition_of_set_eq by done.
    by rewrite readinessCondition_status, readinessCondition_reason.
  - by destruct (res_Passing eval).
  - by destruct (res_Passing eval).
  - destruct (res_Passing eval), (res_Expired eval); naive_solver.
  - intros t Ht. cbn. by apply find_set_ne.
  - cbn [st_events]. unfold transition.
    assert (∀ (l : list Event) e, l ++ [e] = l ↔ False) as Hne.
    { intros l e. split; [|done]. intros E%(f_equal length). rewrite length_app in E.
      cbn in E. lia. }
    destruct (res_Passing eval), wasUnmet; cbn; rewrite ?app_nil_r, ?Hne; done.
Qed.

End spec.

(** *** Witness: a gate that is met at odd times *)

Definition example_eval (t : Z) : ReadinessResult :=
  {| res_Score := t; res_MinScore := 50; res_Passing := Z.odd t; res_TotalWeight := 1;
     res_EarnedWeight := 1; res_Expires := ""; res_Expired := false;
     res_DaysRemaining := None; res_DoneCount := 1; res_PartialCount := 0;
     res_NotDoneCount := 0; res_DeferredCount := 0; res_Checks := [] |}.

Definition readiness_lib : PactoLib := {|
  Owner_IsEmpty := @Owner_IsEmpty example_lib;
  Owner_DisplayString := @Owner_DisplayString example_lib;
  contract_Parse := @contract_Parse example_lib;
  validation_Validate := @validation_Validate example_lib;
  readiness_Evaluate _ t := Some (example_eval t);
  schemax_Values := @schemax_Values example_lib;
  schemax_Properties := @schemax_Properties example_lib;
  schemax_Meta := @schemax_Meta example_lib;
  oci_HasExplicitTag := @oci_HasExplicitTag example_lib;
  oci_FilterSemverTags := @oci_FilterSemverTags example_lib |}.

Definition example_state : RState Z unit := mkRState 1 tt [] [].

Lemma reconcileReadiness_assesses_witness :
  ∃ pacto' s' cond,
    @reconcileReadiness readiness_lib list_store Z unit (λ t, t) example_pacto
      (example_contract "api") true example_state = (Ret pacto', s') ∧
    Readiness_ (p_Status pacto') =
      Some (buildReadinessStatus (example_eval 1) None) ∧
    @FindStatusCondition list_store (Conditions (p_Status pacto')) ConditionReadinessSatisfied
      = Some cond ∧
    cond_Status cond = ConditionTrue.
Proof.
  destruct (@reconcileReadiness_assesses readiness_lib list_store list_store_laws Z unit
    (λ t, t) example_pacto (example_contract "api") true example_state
    (NoDup_nil_2)) as (p & s & c & H1 & H2 & H3 & H4 & _).
  exists p, s, c. repeat split; try assumption. apply H4. reflexivity.
Defined.

End Readiness.
