(* ===== verification/Status.v ===== *)
(** * Status

    The parts of [pacto_controller.go] that fill in [pacto.Status]: from the contract
    ([populateContractStatus]), from the validator ([applyValidationResult]) and from the
    endpoint probes ([probeEndpoints]), and the verdict over the conditions
    ([computeFinalContractStatus]). *)

From S2P Require Import Prelude GoStrings GoMaps GoFmt Contract V1alpha1 Conditions.
From S2P Require Import Observer Images Validator Prober Metrics Loader Kube.
From stdpp Require Import options.
#[local] Set Default Proof Using "Type*".

Module Status.
Import Observer(RuntimeSnapshot, ServiceExists, WorkloadExists).
Import Validator(Check, mkCheck).
Import Loader(LoadResult).

(** ** Helpers *)

(** [resetDerivedStatus]. *)
Definition resetDerivedStatus (pacto : Pacto) : Pacto :=
  with_status (λ st,
    set_Conditions [] (set_Metadata ∅ (set_Readiness_ None (set_Scaling_ None
    (set_ObservedRuntime_ None (set_Runtime_ None (set_Policies [] (set_Dependencies []
    (set_Configurations [] (set_Interfaces [] (set_Endpoints None (set_Ports None
    (set_Resources None (set_Validation None (set_Contract_ None (set_ContractVersion ""
    (set_Summary None (set_ResolutionPolicy "" (set_ContractStatus "" st
    ))))))))))))))))))) pacto.

(** [requeueInterval]: a [time.Duration] from an [int32] number of seconds. *)
Definition requeueInterval (pacto : Pacto) : Z :=
  let s := sp_CheckIntervalSeconds (p_Spec pacto) in
  if 0 <? s then s * 1000000000 else 5 * 60 * 1000000000.

(** [resolutionPolicy]. *)
Definition resolutionPolicy `{PactoLib} (ociRef : string) : string :=
  if bool_decide (ociRef = "") then ""
  else if oci_HasExplicitTag ociRef then
    if Contains ociRef "@" then ResolutionPolicyPinnedDigest else ResolutionPolicyPinnedTag
  else ResolutionPolicyLatest.

(** [mapValidationResult]. *)
Definition to_issue (e : ValidationError) : ValidationIssue :=
  {| vi_Code := ve_Code e; vi_Path := ve_Path e; vi_Message := ve_Message e |}.

Definition mapValidationResult (vr : validation_ValidationResult) : ValidationResult :=
  {| Valid := bool_decide (length (vr_Errors vr) = 0%nat);
     Errors := to_issue <$> vr_Errors vr; Warnings := to_issue <$> vr_Warnings vr |}.

(** [formatValidationErrors]. *)
Definition formatValidationErrors (errors : list ValidationError) : string :=
  let details := (λ e, if bool_decide (ve_Path e ≠ "")
                       then ve_Path e +:+ ": " +:+ ve_Message e else ve_Message e) <$> errors in
  "Contract validation failed: " +:+ Join details "; ".

(** [mapOwnerToInfo]. *)
Definition mapOwnerToInfo `{PactoLib} (o : Owner) : option OwnerInfo :=
  if Owner_IsEmpty o then None
  else Some {| oi_Team := o_Team o; oi_DRI := o_DRI o;
               oi_Contacts := (λ c, {| ct_Type := oc_Type c; ct_Value := oc_Value c;
                                       ct_Purpose := oc_Purpose c |}) <$> o_Contacts o |}.

(** [toSchemaProps]; a nil slice and an empty one are the same list. *)
Definition toSchemaProps (ps : list Property_) : list SchemaProperty :=
  (λ p, {| sp_Key := pr_Key p; sp_Value := pr_Value p; sp_Type := pr_Type p |}) <$> ps.

(** [schemaPropsFromBundle] and [schemaMetaFromBundle]. *)
Definition schemaPropsFromBundle `{PactoLib} (fsys : option FS) (path : string)
    : list SchemaProperty :=
  match fsys with
  | None => []
  | Some fsys =>
      if bool_decide (path = "") then []
      else match fsys path with
           | Err _ => []
           | Ok data => toSchemaProps (schemax_Properties data path)
           end
  end.

Definition schemaMetaFromBundle `{PactoLib} (fsys : option FS) (path : string)
    : string * string :=
  match fsys with
  | None => ("", "")
  | Some fsys =>
      if bool_decide (path = "") then ("", "")
      else match fsys path with
           | Err _ => ("", "")
           | Ok data => schemax_Meta data path
           end
  end.

(** ** [populateContractStatus] *)

(** [v.(string)] and the [secret://] scheme. *)
Definition is_secret_value (v : any) : bool :=
  match v with AnyString s => HasPrefix s "secret://" | _ => false end.

Section populate.
Context `{PactoLib} `{GoMaps}.

Definition contract_info (lr : LoadResult) : ContractInfo :=
  let c := Loader.lr_Contract lr in
  let owner := si_Owner (c_Service c) in
  {| ci_ServiceName := si_Name (c_Service c);
     ci_Version := si_Version (c_Service c);
     ci_Owner := if negb (Owner_IsEmpty owner) then mapOwnerToInfo owner else None;
     ci_OwnerDisplay := if negb (Owner_IsEmpty owner) then Owner_DisplayString owner else "";
     ci_ImageRef := match si_Image (c_Service c) with Some i => img_Ref i | None => "" end;
     ci_ResolvedRef := Loader.ResolvedRef lr |}.

Definition interface_info (iface : Interface) : InterfaceInfo :=
  {| ii_Name := if_Name iface; ii_Type := if_Type iface;
     ii_Port := int32 <$> if_Port iface; ii_Visibility := if_Visibility iface;
     ii_HasContractFile := bool_decide (if_Contract iface ≠ "") |}.

(** The loop over [cfg.Values]: the keys, and the keys of secrets. *)
Definition value_keys (values : gmap string any) : list string * list string :=
  foldl (λ '(keys, secrets) '(k, v),
      (keys ++ [k], if is_secret_value v then secrets ++ [k] else secrets))
    ([], []) (range values).

Definition configuration_info (bundleFS : option FS)
    (cfg : ConfigurationSource (gomap any)) : ConfigurationInfo :=
  let values := default ∅ (cs_Values cfg) in
  let '(valueKeys, secretKeys) := value_keys values in
  {| cfi_Name := cs_Name cfg;
     cfi_HasSchema := bool_decide (cs_Schema cfg ≠ "");
     cfi_Ref := cs_Ref cfg;
     cfi_ValueKeys := sort_Strings valueKeys;
     cfi_SecretKeys := sort_Strings secretKeys;
     cfi_OverriddenKeys := [];
     cfi_Properties :=
       if bool_decide (0 < size values)%nat then toSchemaProps (schemax_Values values)
       else if bool_decide (cs_Schema cfg ≠ "")
       then schemaPropsFromBundle bundleFS (cs_Schema cfg) else [] |}.

Definition dependency_info (dep : Dependency) : DependencyInfo :=
  {| di_Name := dep_Name dep; di_Ref := dep_Ref dep; di_Required := dep_Required dep;
     di_Compatibility := dep_Compatibility dep |}.

Definition policy_info (bundleFS : option FS) (pol : PolicySource) : PolicyInfo :=
  let local := bool_decide (pol_Schema pol ≠ "") in
  let '(title, description) :=
    if local then schemaMetaFromBundle bundleFS (pol_Schema pol) else ("", "") in
  {| pi_Name := pol_Name pol; pi_HasSchema := local; pi_Schema := pol_Schema pol;
     pi_Ref := pol_Ref pol; pi_Title := title; pi_Description := description;
     pi_Properties := if local then schemaPropsFromBundle bundleFS (pol_Schema pol) else [] |}.

Definition runtime_info (rt : Runtime) : RuntimeInfo :=
  {| ri_Workload := rt_Workload rt;
     ri_StateType := sta_Type (rt_State rt);
     ri_PersistenceScope := per_Scope (sta_Persistence (rt_State rt));
     ri_PersistenceDurability := per_Durability (sta_Persistence (rt_State rt));
     ri_DataCriticality := sta_DataCriticality (rt_State rt);
     ri_UpgradeStrategy :=
       match rt_Lifecycle rt with Some lc => lc_UpgradeStrategy lc | None => "" end;
     ri_GracefulShutdownSeconds :=
       lc ← rt_Lifecycle rt; int32 <$> lc_GracefulShutdownSeconds lc;
     ri_HealthInterface := match rt_Health rt with Some h => h_Interface h | None => "" end;
     ri_HealthPath := match rt_Health rt with Some h => h_Path h | None => "" end;
     ri_MetricsInterface := match rt_Metrics rt with Some m => m_Interface m | None => "" end;
     ri_MetricsPath := match rt_Metrics rt with Some m => m_Path m | None => "" end;
     ri_HealthInitialDelaySeconds :=
       h ← rt_Health rt; int32 <$> h_InitialDelaySeconds h |}.

Definition scaling_info (sc : Scaling) : ScalingInfo :=
  {| sci_Replicas := int32 <$> sc_Replicas sc;
     sci_Min := if 0 <? sc_Min sc then Some (int32 (sc_Min sc)) else None;
     sci_Max := if 0 <? sc_Max sc then Some (int32 (sc_Max sc)) else None |}.

(** The metadata map is built entry by entry. *)
Definition print_metadata (metadata : gmap string any) : gmap string string :=
  foldl (λ m '(k, v), <[k := fmt_v_any v]> m) ∅ (range metadata).

Definition populateContractStatus (pacto : Pacto) (lr : LoadResult) : Pacto :=
  let c := Loader.lr_Contract lr in
  let fsys := Loader.BundleFS lr in
  with_status (λ st,
    let st := set_Configurations [] st in
    let st := set_Policies [] st in
    let st := set_Contract_ (Some (contract_info lr)) st in
    let st := set_Interfaces (Interfaces st ++ (interface_info <$> c_Interfaces c)) st in
    let st := set_Configurations
      (Configurations st ++ (configuration_info fsys <$> c_Configurations c)) st in
    let st := set_Dependencies
      (Dependencies st ++ (dependency_info <$> c_Dependencies c)) st in
    let st := set_Policies (Policies st ++ (policy_info fsys <$> c_Policies c)) st in
    let st := match c_Runtime c with
              | Some rt => set_Runtime_ (Some (runtime_info rt)) st
              | None => st
              end in
    let st := match c_Scaling c with
              | Some sc => set_Scaling_ (Some (scaling_info sc)) st
              | None => st
              end in
    if bool_decide (0 < size (c_Metadata c))%nat
    then set_Metadata (print_metadata (c_Metadata c)) st else st) pacto.

(** The loop of [Reconcile] that marks overridden keys. *)
Definition mark_overridden (overriddenKeys : gmap string (list string)) (pacto : Pacto)
    : Pacto :=
  with_status (λ st, set_Configurations
    ((λ ci, match overriddenKeys !! cfi_Name ci with
            | Some keys =>
                {| cfi_Name := cfi_Name ci; cfi_HasSchema := cfi_HasSchema ci;
                   cfi_Ref := cfi_Ref ci; cfi_ValueKeys := cfi_ValueKeys ci;
                   cfi_SecretKeys := cfi_SecretKeys ci; cfi_OverriddenKeys := keys;
                   cfi_Properties := cfi_Properties ci |}
            | None => ci
            end) <$> Configurations st) st) pacto.

End populate.

(** ** Specification *)

(** The reset keeps nothing derived: two Pactos with the same identity and
    spec that agree on the revision, the time of the last reconcile and the observed
    generation are equal after it, whatever stale fields they carried; and resetting twice
    is resetting once. *)
Theorem resetDerivedStatus_forgets p q :
  p_Name p = p_Name q → p_Namespace p = p_Namespace q → p_Generation p = p_Generation q →
  p_Spec p = p_Spec q →
  CurrentRevision (p_Status p) = CurrentRevision (p_Status q) →
  LastReconciledAt (p_Status p) = LastReconciledAt (p_Status q) →
  ObservedGeneration (p_Status p) = ObservedGeneration (p_Status q) →
  resetDerivedStatus p = resetDerivedStatus q ∧
  resetDerivedStatus (resetDerivedStatus p) = resetDerivedStatus p.
Proof.
  destruct p as [? ? ? ? []], q as [? ? ? ? []]. cbn. intros. subst. split; reflexivity.
Qed.

Lemma resetDerivedStatus_forgets_witness :
  resetDerivedStatus (with_status (set_ContractStatus "Compliant") example_pacto) =
    resetDerivedStatus (with_status (set_ContractVersion "9") example_pacto) ∧
  resetDerivedStatus (resetDerivedStatus
    (with_status (set_ContractStatus "Compliant") example_pacto)) =
    resetDerivedStatus (with_status (set_ContractStatus "Compliant") example_pacto).
Proof. apply resetDerivedStatus_forgets; reflexivity. Defined.

(** Every requeue lies in the future, and within the range of an [int64] duration. *)
Lemma requeueInterval_range p :
  in_range 32 (sp_CheckIntervalSeconds (p_Spec p)) →
  0 < requeueInterval p ∧ in_range 64 (requeueInterval p).
Proof.
  unfold in_range, requeueInterval. cbv zeta. cbn. intros.
  destruct (Z.ltb_spec 0 (sp_CheckIntervalSeconds (p_Spec p))); lia.
Qed.

Section keys.
Context `{GoMaps}.

Lemma value_keys_unfold values :
  value_keys values =
  ((range values).*1, (filter (λ kv, is_secret_value kv.2 = true) (range values)).*1).
Proof.
  unfold value_keys. induction (range values) as [|[k v] l IH] using rev_ind; [done|].
  rewrite foldl_snoc, IH, filter_app, filter_cons, filter_nil, !fmap_app. cbn.
  destruct (is_secret_value v); solve_decides; cbn; by rewrite ?app_nil_r.
Qed.

(** The sorted keys of secret values. *)
Definition secret_keys (values : gmap string any) : list string :=
  sort_Strings (elements (dom (filter (λ kv, is_secret_value kv.2 = true) values))).

Lemma sorted_secret_keys values : sort_Strings (value_keys values).2 = secret_keys values.
Proof.
  rewrite value_keys_unfold. cbn. apply sort_Strings_unique, NoDup_Permutation.
  - eapply sublist_NoDup; [apply (range_keys_NoDup values)|].
    apply fmap_sublist, sublist_filter.
  - apply NoDup_elements.
  - intros k. rewrite elem_of_elements, elem_of_dom, list_elem_of_fmap. split.
    + intros ([k' v] & -> & [Hs Hk%elem_of_range]%list_elem_of_filter). exists v.
      by apply map_lookup_filter_Some.
    + intros [v [Hk Hs]%map_lookup_filter_Some]. exists (k, v). split; [done|].
      apply list_elem_of_filter. split; [done|]. by apply elem_of_range.
Qed.

Lemma print_metadata_fmap m : print_metadata m = fmt_v_any <$> m.
Proof.
  unfold print_metadata. apply map_eq. intros k. rewrite lookup_fmap.
  assert (m = list_to_map (range m)) as Hm.
  { rewrite (list_to_map_proper _ _ (range_keys_NoDup _) (range_perm m)).
    by rewrite list_to_map_to_list. }
  rewrite Hm at 2. pose proof (range_keys_NoDup m) as Hnd. clear Hm.
  transitivity (match (list_to_map (range m) : gmap string any) !! k with
                | Some v => Some (fmt_v_any v) | None => (∅ : gmap string string) !! k end);
    [|rewrite lookup_empty; by destruct (list_to_map _ !! k)].
  generalize (∅ : gmap string string). intros acc. revert acc.
  induction (range m) as [|[k' v] l IH]; intros acc; [done|].
  cbn in Hnd |- *. apply NoDup_cons in Hnd as [Hnot Hnd]. rewrite IH by done.
  destruct (decide (k = k')) as [->|Hne].
  - by rewrite not_elem_of_list_to_map_1, !lookup_insert_eq.
  - by rewrite !lookup_insert_ne.
Qed.

End keys.

(** A configuration's entry and the whole status, without an order. *)
Definition configuration_info' `{PactoLib} (bundleFS : option FS)
    (cfg : ConfigurationSource (gomap any)) : ConfigurationInfo :=
  let values := default ∅ (cs_Values cfg) in
  {| cfi_Name := cs_Name cfg; cfi_HasSchema := bool_decide (cs_Schema cfg ≠ "");
     cfi_Ref := cs_Ref cfg;
     cfi_ValueKeys := sort_Strings (elements (dom values));
     cfi_SecretKeys := secret_keys values; cfi_OverriddenKeys := [];
     cfi_Properties :=
       if bool_decide (0 < size values)%nat then toSchemaProps (schemax_Values values)
       else if bool_decide (cs_Schema cfg ≠ "")
       then schemaPropsFromBundle bundleFS (cs_Schema cfg) else [] |}.

Lemma configuration_info_normal `{PactoLib} `{GoMaps} fs cfg :
  configuration_info fs cfg = configuration_info' fs cfg.
Proof.
  unfold configuration_info, configuration_info'. cbv zeta.
  pose proof (sorted_secret_keys (default ∅ (cs_Values cfg))) as Hs.
  rewrite value_keys_unfold in *. cbn [snd] in Hs. by rewrite Hs, sorted_keys.
Qed.

Definition populateContractStatus' `{PactoLib} (pacto : Pacto) (lr : LoadResult) : Pacto :=
  let c := Loader.lr_Contract lr in
  let fsys := Loader.BundleFS lr in
  with_status (λ st,
    let st := set_Configurations [] st in
    let st := set_Policies [] st in
    let st := set_Contract_ (Some (contract_info lr)) st in
    let st := set_Interfaces (Interfaces st ++ (interface_info <$> c_Interfaces c)) st in
    let st := set_Configurations
      (Configurations st ++ (configuration_info' fsys <$> c_Configurations c)) st in
    let st := set_Dependencies
      (Dependencies st ++ (dependency_info <$> c_Dependencies c)) st in
    let st := set_Policies (Policies st ++ (policy_info fsys <$> c_Policies c)) st in
    let st := match c_Runtime c with
              | Some rt => set_Runtime_ (Some (runtime_info rt)) st
              | None => st
              end in
    let st := match c_Scaling c with
              | Some sc => set_Scaling_ (Some (scaling_info sc)) st
              | None => st
              end in
    if bool_decide (0 < size (c_Metadata c))%nat
    then set_Metadata (fmt_v_any <$> c_Metadata c) st else st) pacto.

(** C37 (functional). The contract data in the status does not depend on the order in which
    the runtime visits maps. Each configuration reports all its value keys, sorted, and as
    secret keys exactly those whose value is a string with the secret:// scheme, sorted;
    the metadata prints every value. *)
Theorem populateContractStatus_deterministic `{PactoLib} (o1 o2 : GoMaps) pacto lr :
  @populateContractStatus _ o1 pacto lr = @populateContractStatus _ o2 pacto lr ∧
  let st := p_Status (@populateContractStatus _ o1 pacto lr) in
  let c := Loader.lr_Contract lr in
  Forall2 (λ ci cfg,
    cfi_Name ci = cs_Name cfg ∧
    cfi_ValueKeys ci = sort_Strings (elements (dom (default ∅ (cs_Values cfg)))) ∧
    cfi_SecretKeys ci = secret_keys (default ∅ (cs_Values cfg)))
    (Configurations st) (c_Configurations c) ∧
  (c_Metadata c ≠ ∅ → Metadata st = fmt_v_any <$> c_Metadata c).
Proof.
  assert (∀ (o : GoMaps) fs, @configuration_info _ o fs <$> c_Configurations (Loader.lr_Contract lr) =
    configuration_info' fs <$> c_Configurations (Loader.lr_Contract lr)) as Hcfg.
  { intros o fs. apply list_fmap_ext. intros i cfg _. apply configuration_info_normal. }
  assert (∀ o, @populateContractStatus _ o pacto lr = populateContractStatus' pacto lr) as Hpop.
  { intros o. unfold populateContractStatus, populateContractStatus'. cbv zeta.
    by rewrite Hcfg, print_metadata_fmap. }
  rewrite !Hpop. split; [done|]. cbv zeta. split.
  - replace (Configurations _) with
      (configuration_info' (Loader.BundleFS lr) <$> c_Configurations (Loader.lr_Contract lr))
      by (unfold populateContractStatus'; cbn; by repeat case_match).
    apply Forall2_fmap_l, Forall_Forall2_diag, Forall_true. intros cfg. done.
  - intros Hne. unfold populateContractStatus'. cbn.
    rewrite bool_decide_eq_true_2; [done|].
    destruct (size (c_Metadata (Loader.lr_Contract lr))) eqn:E; [|lia].
    by apply map_size_empty_inv in E.
Qed.

(** *** Machine widths *)

(** The numbers a contract declares for its ports, scaling, shutdown period and probe
    delay, all 64 bits wide; the bounds of the scaling only when they are positive. *)
Definition declared_numbers (c : Contract) : list Z :=
  omap if_Port (c_Interfaces c) ++
  match c_Scaling c with
  | Some sc => option_list (sc_Replicas sc) ++ filter (λ n, 0 < n) [sc_Min sc; sc_Max sc]
  | None => []
  end ++
  match c_Runtime c with
  | Some rt => option_list (rt_Lifecycle rt ≫= lc_GracefulShutdownSeconds) ++
               option_list (rt_Health rt ≫= h_InitialDelaySeconds)
  | None => []
  end.

(** The fields of the status that show them, which are [int32]. *)
Definition shown_numbers (st : PactoStatus) : list Z :=
  omap ii_Port (Interfaces st) ++
  match Scaling_ st with
  | Some sc => option_list (sci_Replicas sc) ++ option_list (sci_Min sc) ++ option_list (sci_Max sc)
  | None => []
  end ++
  match Runtime_ st with
  | Some rt => option_list (ri_GracefulShutdownSeconds rt) ++
               option_list (ri_HealthInitialDelaySeconds rt)
  | None => []
  end.

Lemma option_list_fmap {A B} (f : A → B) (o : option A) :
  option_list (f <$> o) = f <$> option_list o.
Proof. by destruct o. Qed.

Lemma shown_ports (ifaces : list Interface) :
  omap ii_Port (interface_info <$> ifaces) = int32 <$> omap if_Port ifaces.
Proof.
  induction ifaces as [|i ifaces IH]; [done|]. rewrite fmap_cons. cbn [omap list_omap].
  unfold interface_info at 1. cbn [ii_Port]. destruct (if_Port i); cbn; by rewrite IH.
Qed.

Lemma shown_scaling sc :
  option_list (sci_Replicas (scaling_info sc)) ++ option_list (sci_Min (scaling_info sc)) ++
    option_list (sci_Max (scaling_info sc)) =
  int32 <$> (option_list (sc_Replicas sc) ++ filter (λ n, 0 < n) [sc_Min sc; sc_Max sc]).
Proof.
  unfold scaling_info. cbn [sci_Replicas sci_Min sci_Max].
  rewrite option_list_fmap, fmap_app, !filter_cons, filter_nil.
  destruct (Z.ltb_spec 0 (sc_Min sc)), (Z.ltb_spec 0 (sc_Max sc));
    repeat case_decide; try lia; done.
Qed.

Lemma shown_runtime rt :
  option_list (ri_GracefulShutdownSeconds (runtime_info rt)) ++
    option_list (ri_HealthInitialDelaySeconds (runtime_info rt)) =
  int32 <$> (option_list (rt_Lifecycle rt ≫= lc_GracefulShutdownSeconds) ++
             option_list (rt_Health rt ≫= h_InitialDelaySeconds)).
Proof.
  unfold runtime_info. cbn [ri_GracefulShutdownSeconds ri_HealthInitialDelaySeconds].
  rewrite fmap_app, <- !option_list_fmap. by destruct (rt_Lifecycle rt), (rt_Health rt).
Qed.

Lemma int32_map_fits ns :
  (Forall (in_range 32) ns → int32 <$> ns = ns) ∧
  ((∃ n, n ∈ ns ∧ ¬ in_range 32 n) → int32 <$> ns ≠ ns).
Proof.
  split.
  - induction 1 as [|n ns Hn _ IH]; [done|]. rewrite fmap_cons, IH. f_equal. by apply int32_id.
  - intros (n & [i Hi]%list_elem_of_lookup_1 & Hn) Heq. apply Hn.
    apply (f_equal (λ l, l !! i)) in Heq. rewrite list_lookup_fmap, Hi in Heq.
    injection Heq as <-. by apply wrap_in_range.
Qed.

(** C38 (bounds). Every number of the contract that a fresh status shows fits its field of
    32 bits, and is the declared number converted in two's complement; so the numbers shown
    are the declared ones, in order and none left out, if those fit, and a number that does
    not fit is shown as another one instead of being refused. *)
Theorem shown_numbers_fit `{PactoLib} `{GoMaps} pacto lr :
  let c := Loader.lr_Contract lr in
  let shown := shown_numbers (p_Status (populateContractStatus (resetDerivedStatus pacto) lr)) in
  Forall (in_range 32) shown ∧ shown = int32 <$> declared_numbers c ∧
  (Forall (in_range 32) (declared_numbers c) → shown = declared_numbers c) ∧
  ((∃ n, n ∈ declared_numbers c ∧ ¬ in_range 32 n) → shown ≠ declared_numbers c).
Proof.
  cbv zeta.
  assert (shown_numbers (p_Status (populateContractStatus (resetDerivedStatus pacto) lr)) =
    int32 <$> declared_numbers (Loader.lr_Contract lr)) as ->.
  { unfold declared_numbers. rewrite !fmap_app, <- shown_ports.
    unfold populateContractStatus. cbv zeta.
    destruct (c_Runtime _) as [rt|], (c_Scaling _) as [sc|];
      rewrite <- ?shown_scaling, <- ?shown_runtime; by destruct (bool_decide _). }
  split; [|split; [done|]].
  - apply Forall_fmap, Forall_true. intros n. by apply wrap_in_range.
  - apply int32_map_fits.
Qed.

(** A port of two digits and a lower bound of 2^32 replicas. *)
Definition wide_load : LoadResult :=
  Loader.mkLoadResult
    (mkContract (example_identity "api")
       [{| if_Name := "http"; if_Type := "http"; if_Port := Some 70; if_Visibility := "";
           if_Contract := "" |}] [] [] [] None
       (Some {| sc_Replicas := None; sc_Min := 4294967296; sc_Max := 0 |}) ∅ None)
    "yaml" None "" "".

Lemma shown_numbers_fit_witness :
  shown_numbers (p_Status (@populateContractStatus example_lib canonical_order
    (resetDerivedStatus example_pacto) wide_load)) = [70; 0].
Proof.
  destruct (@shown_numbers_fit example_lib canonical_order example_pacto wide_load)
    as (_ & Hshown & _). rewrite Hshown. reflexivity.
Defined.

End Status.
