(* ===== verification/Verdict.v ===== *)
(** * The verdict

    The part of [pacto_controller.go] that turns the validator's result and the endpoint
    probes into resources, conditions and the summary, and derives the contract status
    from the conditions. *)

From S2P Require Import Prelude GoStrings GoMaps GoFmt Contract V1alpha1 Conditions.
From S2P Require Import Observer Images Validator Prober Metrics Loader Kube Status.
From stdpp Require Import options.
#[local] Set Default Proof Using "Type*".

Module Verdict.
Import Observer(RuntimeSnapshot, ServiceExists, WorkloadExists).
Import Validator(Check, mkCheck, Checks, Name, Passed, Reason, Message).

Definition condition_status (passed : bool) : string :=
  if passed then ConditionTrue else ConditionFalse.

Section verdict.
Context `{UnicodeTables} `{ConditionStore}.

(** [applyValidationResult]. *)
Definition applyValidationResult (pacto : Pacto) (result : Validator.Result)
    (snapshot : RuntimeSnapshot) (serviceName workloadName workloadKind : string) : Pacto :=
  let pacto := with_status (set_Resources (Some
    {| rss_Service :=
         if bool_decide (serviceName ≠ "")
         then Some {| rs_Name := serviceName; rs_Kind := "";
                      rs_Exists := ServiceExists snapshot |}
         else None;
       rss_Workload :=
         if bool_decide (workloadName ≠ "")
         then Some {| rs_Name := workloadName; rs_Kind := workloadKind;
                      rs_Exists := WorkloadExists snapshot |}
         else None |})) pacto in
  let ports := Validator.Ports result in
  let pacto :=
    if bool_decide (0 < length (Validator.Expected ports))%nat ||
       bool_decide (0 < length (Validator.Observed ports))%nat
    then with_status (set_Ports (Some
           {| ps_Expected := Validator.Expected ports; ps_Observed := Validator.Observed ports;
              ps_Missing := Validator.Missing ports;
              ps_Unexpected := Validator.Unexpected ports |})) pacto
    else pacto in
  let pacto := foldl (λ pacto check,
      setCondition (Name check) (condition_status (Passed check)) (Reason check)
        (Message check) pacto) pacto (Checks result) in
  let '(passed, failed) := foldl (λ '(passed, failed) check,
      if Passed check then (int32 (passed + 1), failed) else (passed, int32 (failed + 1)))
    (1, 0) (Checks result) in
  with_status (set_Summary (Some
    {| V1alpha1.Total := int32 (int32 (Z.of_nat (length (Checks result))) + 1);
       V1alpha1.Passed := passed; V1alpha1.Failed := failed |})) pacto.

(** [applyCheck]. *)
Definition applyCheck (pacto : Pacto) (check : Check) : Pacto :=
  let pacto := setCondition (Name check) (condition_status (Passed check)) (Reason check)
                 (Message check) pacto in
  let summary := default {| V1alpha1.Total := 0; V1alpha1.Passed := 0; V1alpha1.Failed := 0 |}
                   (Summary (p_Status pacto)) in
  with_status (set_Summary (Some
    {| V1alpha1.Total := int32 (V1alpha1.Total summary + 1);
       V1alpha1.Passed := if Passed check then int32 (V1alpha1.Passed summary + 1)
                          else V1alpha1.Passed summary;
       V1alpha1.Failed := if Passed check then V1alpha1.Failed summary
                          else int32 (V1alpha1.Failed summary + 1) |})) pacto.

(** [probeSpec]. *)
Record probeSpec := {
  conditionType : string; label : string; interfaceName : string; path : string;
  serviceName : string; namespace : string;
  ifaceExists : gmap string bool; ifacePort : gmap string Z; requireBody : bool }.

(** [evaluateProbeResult]. *)
Definition evaluateProbeResult (result : Prober.Result) (url : string) (spec : probeSpec)
    : Check * option EndpointCheckResult :=
  let ep := {| ep_URL := url; ep_Reachable := Prober.Reachable result;
               ep_StatusCode := Prober.StatusCode result;
               ep_LatencyMs := Prober.LatencyMs result;
               ep_Error := Prober.Error result |} in
  let code := Prober.StatusCode result in
  let said := label spec +:+ " endpoint " +:+ url in
  let bad reason message := (mkCheck (conditionType spec) false reason message "", Some ep) in
  if negb (Prober.Reachable result) then
    bad ReasonEndpointConnectionError (said +:+ " is unreachable: " +:+ Prober.Error result)
  else if requireBody spec && negb (code =? 200) then
    bad ReasonEndpointInvalidStatus (said +:+ " returned HTTP " +:+ fmt_d code +:+ ", expected 200")
  else if requireBody spec && negb (Prober.ContentPresent result) then
    bad ReasonEndpointEmptyResponse (said +:+ " returned empty response body")
  else if negb (requireBody spec) && ((code <? 200) || (400 <=? code)) then
    bad ReasonEndpointInvalidStatus
      (said +:+ " returned HTTP " +:+ fmt_d code +:+ ", expected 2xx/3xx")
  else
    (mkCheck (conditionType spec) true ReasonEndpointOK
       (said +:+ " responded with HTTP " +:+ fmt_d code +:+ " (" +:+
        fmt_d (Prober.LatencyMs result) +:+ "ms)") "", Some ep).

Context {W L : Type} `{!Clock W} `{!Prober.HTTPTransport W}.

(** [probeOneEndpoint]. *)
Definition probeOneEndpoint (p : Prober.Prober) (spec : probeSpec)
    : M (RState W L) (Check * option EndpointCheckResult) :=
  if negb (default false (ifaceExists spec !! interfaceName spec)) then
    mret (mkCheck (conditionType spec) false ReasonEndpointInterfaceMissing
            ("Interface " +:+ Quote (interfaceName spec) +:+ " referenced by " +:+
             label spec +:+ " not found in contract") "", None)
  else
    match ifacePort spec !! interfaceName spec with
    | None =>
        mret (mkCheck (conditionType spec) false ReasonEndpointNoPort
                ("Interface " +:+ Quote (interfaceName spec) +:+ " referenced by " +:+
                 label spec +:+ " has no port declared") "", None)
    | Some port =>
        let url := Prober.BuildURL (serviceName spec) (namespace spec) port (path spec) in
        result ← on_world (Prober.Probe p url);
        mret (evaluateProbeResult result url spec)
    end.

(** The interface lookups: later interfaces replace earlier ones of the same name. *)
Definition iface_lookups (ifaces : list Interface) : gmap string bool * gmap string Z :=
  foldl (λ '(ex, po) iface,
      (<[if_Name iface := true]> ex,
       match if_Port iface with
       | Some p => <[if_Name iface := int32 p]> po
       | None => po
       end)) (∅, ∅) ifaces.

(** One of the two blocks of [probeEndpoints]: probe, apply the check, collect it. *)
Definition probe_and_apply (p : Prober.Prober) (spec : probeSpec) (pacto : Pacto)
    (probeChecks : list Check)
    : M (RState W L) (Pacto * list Check * option EndpointCheckResult) :=
  cr ← probeOneEndpoint p spec;
  let '(check, result) := cr in
  mret (applyCheck pacto check, probeChecks ++ [check], result).

(** [probeEndpoints]. *)
Definition probeEndpoints (pacto : Pacto) (c : Contract) (serviceName : string)
    : M (RState W L) (Pacto * list Check) :=
  match c_Runtime c with
  | None => mret (pacto, [])
  | Some rt =>
      let '(ifaceExists, ifacePort) := iface_lookups (c_Interfaces c) in
      let p := Prober.New 0 in
      let spec condType label iface path requireBody :=
        {| conditionType := condType; label := label; interfaceName := iface; path := path;
           serviceName := serviceName; namespace := p_Namespace pacto;
           ifaceExists := ifaceExists; ifacePort := ifacePort;
           requireBody := requireBody |} in
      health ← (match rt_Health rt with
                | Some h =>
                    if bool_decide (h_Interface h ≠ "")
                    then probe_and_apply p (spec ConditionHealthEndpointValid "health" (h_Interface h)
                                  (h_Path h) false) pacto []
                    else mret (pacto, [], None)
                | None => mret (pacto, [], None)
                end);
      let '(pacto, probeChecks, healthResult) := health in
      metrics ← (match rt_Metrics rt with
                 | Some m =>
                     if bool_decide (m_Interface m ≠ "")
                     then probe_and_apply p (spec ConditionMetricsEndpointValid "metrics" (m_Interface m)
                                   (m_Path m) true) pacto probeChecks
                     else mret (pacto, probeChecks, None)
                 | None => mret (pacto, probeChecks, None)
                 end);
      let '(pacto, probeChecks, metricsResult) := metrics in
      mret (if bool_decide (healthResult = None) && bool_decide (metricsResult = None)
            then pacto
            else with_status (set_Endpoints (Some
                   {| es_Health := healthResult; es_Metrics := metricsResult |})) pacto,
            probeChecks)
  end.

End verdict.

(** [computeFinalContractStatus]. *)
Definition computeFinalContractStatus (pacto : Pacto) : string :=
  let '(hasResourceFailure, hasOtherFailure) :=
    foldl (λ '(res, oth) cond,
        if bool_decide (cond_Status cond = ConditionTrue) then (res, oth)
        else if Validator.is_resource_condition (cond_Type cond) then (true, oth)
        else (res, true))
      (false, false) (Conditions (p_Status pacto)) in
  Validator.status_of_flags hasResourceFailure hasOtherFailure.

(** ** Specification *)

(** *** Endpoints *)

(** What a healthy answer is: any 2xx or 3xx for the health endpoint, exactly 200 with a
    body for the metrics endpoint. *)
Definition healthy (requireBody : bool) (r : Prober.Result) : Prop :=
  Prober.Reachable r = true ∧
  if requireBody then Prober.StatusCode r = 200 ∧ Prober.ContentPresent r = true
  else 200 ≤ Prober.StatusCode r < 400.

Section endpoints.
Context `{UnicodeTables} {W L : Type} `{!Clock W} `{!Prober.HTTPTransport W}.

Lemma evaluateProbeResult_verdict r url spec :
  let '(check, ep) := evaluateProbeResult r url spec in
  Name check = conditionType spec ∧ (Passed check = true ↔ healthy (requireBody spec) r) ∧
  (Reason check = ReasonEndpointConnectionError ↔ Prober.Reachable r = false) ∧
  (Reason check = ReasonEndpointOK ↔ Passed check = true) ∧
  ep = Some {| ep_URL := url; ep_Reachable := Prober.Reachable r;
               ep_StatusCode := Prober.StatusCode r; ep_LatencyMs := Prober.LatencyMs r;
               ep_Error := Prober.Error r |}.
Proof.
  unfold evaluateProbeResult, healthy. cbv zeta.
  destruct (Prober.Reachable r); cbn [negb]; [|cbn; naive_solver].
  destruct (requireBody spec); cbn [andb negb].
  - destruct (Z.eqb_spec (Prober.StatusCode r) 200), (Prober.ContentPresent r);
      cbn; naive_solver.
  - destruct (Z.ltb_spec (Prober.StatusCode r) 200),
      (Z.leb_spec 400 (Prober.StatusCode r)); cbn; repeat split; try done; naive_solver lia.
Qed.


End endpoints.

(** *** Conditions and summary *)

Definition set_check `{ConditionStore} (pacto : Pacto) (k : Check) : Pacto :=
  setCondition (Name k) (condition_status (Passed k)) (Reason k) (Message k) pacto.

(** The condition of a check. *)
Definition check_condition (generation : Z) (k : Check) : Condition :=
  {| cond_Type := Name k; cond_Status := condition_status (Passed k);
     cond_ObservedGeneration := generation; cond_Reason := Reason k;
     cond_Message := Message k |}.

Definition npassed (checks : list Check) : Z :=
  Z.of_nat (length (filter (λ k, Passed k = true) checks)).
Definition nfailed (checks : list Check) : Z :=
  Z.of_nat (length (filter (λ k, Passed k = false) checks)).

Lemma npassed_nfailed checks : npassed checks + nfailed checks = Z.of_nat (length checks).
Proof.
  unfold npassed, nfailed. induction checks as [|k checks IH]; [done|].
  rewrite !filter_cons. destruct (Passed k); solve_decides; cbn [length]; lia.
Qed.

Lemma npassed_snoc checks k :
  npassed (checks ++ [k]) = npassed checks + (if Passed k then 1 else 0).
Proof.
  unfold npassed. rewrite filter_app, length_app, filter_cons, filter_nil.
  destruct (Passed k); solve_decides; cbn [length]; lia.
Qed.

Lemma nfailed_snoc checks k :
  nfailed (checks ++ [k]) = nfailed checks + (if Passed k then 0 else 1).
Proof.
  unfold nfailed. rewrite filter_app, length_app, filter_cons, filter_nil.
  destruct (Passed k); solve_decides; cbn [length]; lia.
Qed.

Lemma npassed_bounds checks :
  0 ≤ npassed checks ≤ Z.of_nat (length checks) ∧ 0 ≤ nfailed checks ≤ Z.of_nat (length checks).
Proof. pose proof (npassed_nfailed checks). unfold npassed, nfailed in *. lia. Qed.

(** The summary of the contract check plus [checks]. *)
Definition summary_of (checks : list Check) : CheckSummary :=
  {| V1alpha1.Total := 1 + Z.of_nat (length checks);
     V1alpha1.Passed := 1 + npassed checks; V1alpha1.Failed := nfailed checks |}.

Definition few (checks : list Check) : Prop := Z.of_nat (length checks) < 1000000.

Section summaries.
Context `{ConditionStore}.

Lemma counting_loop checks :
  few checks →
  foldl (λ '(passed, failed) check,
      if Passed check then (int32 (passed + 1), failed) else (passed, int32 (failed + 1)))
    (1, 0) checks = (1 + npassed checks, nfailed checks).
Proof.
  induction checks as [|k checks IH] using rev_ind; intros Hf; [done|].
  unfold few in Hf. rewrite length_app in Hf. cbn in Hf.
  rewrite foldl_snoc, IH by (unfold few; lia). rewrite npassed_snoc, nfailed_snoc.
  pose proof (npassed_bounds checks).
  destruct (Passed k); rewrite int32_small by lia; f_equal; lia.
Qed.

Lemma applyCheck_summary p checks k :
  few (checks ++ [k]) → Summary (p_Status p) = Some (summary_of checks) →
  Summary (p_Status (applyCheck p k)) = Some (summary_of (checks ++ [k])).
Proof.
  unfold few. rewrite length_app. cbn [length]. intros Hf Hs. unfold applyCheck. cbn.
  replace (Summary (p_Status p)) with (Some (summary_of checks)). cbn.
  pose proof (npassed_bounds checks). unfold summary_of.
  rewrite npassed_snoc, nfailed_snoc, length_app. cbn [length].
  destruct (Passed k); rewrite !int32_small by lia; do 2 f_equal; lia.
Qed.

Lemma applyCheck_conditions p k : conditions (applyCheck p k) = conditions (set_check p k).
Proof. done. Qed.

Lemma applyValidationResult_summary p r snap svc wn wk :
  few (Checks r) →
  Summary (p_Status (applyValidationResult p r snap svc wn wk)) = Some (summary_of (Checks r)).
Proof.
  intros Hf. unfold applyValidationResult. cbv zeta. rewrite counting_loop by done.
  cbn. unfold summary_of, few in *. rewrite (int32_small (Z.of_nat _)) by lia.
  rewrite int32_small by lia. do 2 f_equal. lia.
Qed.

Lemma applyValidationResult_conditions p r snap svc wn wk :
  conditions (applyValidationResult p r snap svc wn wk) =
    conditions (foldl set_check p (Checks r)) ∧
  p_Generation (applyValidationResult p r snap svc wn wk) = p_Generation p.
Proof.
  unfold applyValidationResult. cbv zeta. destruct (foldl _ (1, 0) _) as [passed failed].
  set (p0 := if _ || _ then _ else _).
  assert (conditions p0 = conditions p ∧ p_Generation p0 = p_Generation p) as [Hc Hg]
    by (subst p0; by case_match).
  clearbody p0.
  assert (∀ q1 q2, conditions q1 = conditions q2 → p_Generation q1 = p_Generation q2 →
    conditions (foldl set_check q1 (Checks r)) = conditions (foldl set_check q2 (Checks r)) ∧
    p_Generation (foldl set_check q1 (Checks r)) = p_Generation q2) as Hfold.
  { induction (Checks r) as [|k ks IH]; intros q1 q2 E1 E2; [done|]. cbn [foldl].
    destruct (IH (set_check q1 k) (set_check q2 k)) as [-> ->]; [|done|done].
    unfold conditions, set_check, setCondition in *. cbn. by rewrite E1, E2. }
  destruct (Hfold p0 p Hc Hg). done.
Qed.

End summaries.

Lemma set_checks_same `{ConditionStore} p checks : same_object (foldl set_check p checks) p.
Proof.
  revert p. induction checks as [|k checks IH]; intros p; [done|]. cbn [foldl].
  etrans; [apply IH|done].
Qed.

Lemma applyChecks_same `{ConditionStore} p checks : same_object (foldl applyCheck p checks) p.
Proof.
  revert p. induction checks as [|k checks IH]; intros p; [done|]. cbn [foldl].
  etrans; [apply IH|done].
Qed.

Lemma applyValidationResult_same `{ConditionStore} p r snap svc wn wk :
  same_object (applyValidationResult p r snap svc wn wk) p.
Proof.
  unfold applyValidationResult. cbv zeta. destruct (foldl _ (1, 0) _) as [passed failed].
  etrans; [apply (set_checks_same _ (Checks r))|]. by case_match.
Qed.

Section recorded.
Context `{ConditionStoreLaws}.

Lemma set_checks_unique p checks :
  unique_types (conditions p) → unique_types (conditions (foldl set_check p checks)).
Proof.
  revert p. induction checks as [|k checks IH]; intros p Hu; [done|]. cbn [foldl].
  by apply IH, setCondition_unique.
Qed.

Lemma set_checks_generation p checks :
  p_Generation (foldl set_check p checks) = p_Generation p.
Proof. revert p. induction checks as [|k checks IH]; intros p; [done|].
  cbn [foldl]. by rewrite IH. Qed.

(** Recording checks of distinct names gives each its condition and keeps the others. *)
Lemma elem_of_set_checks p checks c :
  unique_types (conditions p) → NoDup (Name <$> checks) →
  c ∈ conditions (foldl set_check p checks) ↔
  (∃ k, k ∈ checks ∧ c = check_condition (p_Generation p) k) ∨
  (c ∈ conditions p ∧ cond_Type c ∉ Name <$> checks).
Proof.
  intros Hu. induction checks as [|k checks IH] using rev_ind; intros Hnd.
  { cbn. split; [intros; right; split; [done|apply not_elem_of_nil]|].
    by intros [(k & ?%elem_of_nil & _)|[? _]]. }
  rewrite fmap_app in Hnd |- *. apply NoDup_app in Hnd as (Hnd & Hdisj & _).
  rewrite foldl_snoc. unfold set_check at 1.
  rewrite elem_of_set_conditions by (by apply set_checks_unique).
  rewrite set_checks_generation, IH by done.
  setoid_rewrite elem_of_app. cbn [fmap list_fmap].
  setoid_rewrite list_elem_of_singleton. fold (check_condition (p_Generation p) k). split.
  - intros [->|[[(k' & Hk' & ->)|[Hc Hno]] Hne]]; [left; by exists k; auto|left|right].
    + exists k'. auto.
    + split; [done|]. naive_solver.
  - intros [(k' & [Hk'| ->] & ->)|[Hc Hno]]; [right|by left|right].
    + split; [left; by exists k'|]. cbn. intros Heq.
      apply (Hdisj (Name k')); [by apply list_elem_of_fmap_2|rewrite Heq; by left].
    + split; [right|]; naive_solver.
Qed.

Lemma condition_of_set_checks p checks k :
  unique_types (conditions p) → NoDup (Name <$> checks) → k ∈ checks →
  condition_of (foldl set_check p checks) (Name k) =
    Some (check_condition (p_Generation p) k).
Proof.
  intros Hu Hnd Hk. apply find_condition_spec; [by apply set_checks_unique|].
  split; [|done]. apply elem_of_set_checks; [done..|]. left. by exists k.
Qed.

End recorded.

(** *** The probes of a contract *)

Definition probe_names : list string :=
  [ConditionHealthEndpointValid; ConditionMetricsEndpointValid].

Section probing.
Context `{UnicodeTables} `{ConditionStore} {W L : Type} `{!Clock W} `{!Prober.HTTPTransport W}.

(** Only the world moves, and only by requests on the network. *)
Definition only_world (s s' : RState W L) : Prop :=
  rtc Prober.request (st_world s) (st_world s') ∧
  st_loader s' = st_loader s ∧ st_events s' = st_events s ∧ st_metrics s' = st_metrics s.

Lemma probeOneEndpoint_run p spec (s : RState W L) :
  ∃ check ep s', probeOneEndpoint p spec s = (Ret (check, ep), s') ∧
    Name check = conditionType spec ∧ only_world s s'.
Proof.
  unfold probeOneEndpoint.
  destruct (negb _); [by eexists _, None, s|].
  destruct (ifacePort spec !! interfaceName spec) as [port|]; [|by eexists _, None, s].
  cbv zeta. destruct (Prober.Probe_returns p
    (Prober.BuildURL (serviceName spec) (namespace spec) port (path spec)) (st_world s))
    as (r & w' & Hp & Hreq).
  rewrite M_bind_unfold. unfold on_world, zoom. rewrite Hp.
  pose proof (evaluateProbeResult_verdict r
    (Prober.BuildURL (serviceName spec) (namespace spec) port (path spec)) spec) as Hv.
  destruct (evaluateProbeResult _ _ _) as [check ep]. destruct Hv as (? & _).
  by eexists check, ep, _.
Qed.

Lemma probe_and_apply_run p spec pacto checks (s : RState W L) :
  ∃ k ep s', probe_and_apply p spec pacto checks s =
      (Ret (applyCheck pacto k, checks ++ [k], ep), s') ∧
    Name k = conditionType spec ∧ only_world s s'.
Proof.
  destruct (probeOneEndpoint_run p spec s) as (k & ep & s' & Hrun & Hn & Hw).
  exists k, ep, s'. split; [|done]. unfold probe_and_apply. by rewrite M_bind_unfold, Hrun.
Qed.

(** A block that may be skipped. *)
Definition block_run (pacto : Pacto) (checks : list Check) (name : string)
    (m : M (RState W L) (Pacto * list Check * option EndpointCheckResult)) : Prop :=
  ∀ s, ∃ ks ep s', m s = (Ret (foldl applyCheck pacto ks, checks ++ ks, ep), s') ∧
    sublist (Name <$> ks) [name] ∧ only_world s s'.

Lemma block_skip pacto checks name : block_run pacto checks name (mret (pacto, checks, None)).
Proof.
  intros s. exists [], None, s. rewrite app_nil_r. split_and!; [done|apply sublist_nil_l|done].
Qed.

Lemma block_probe p spec pacto checks name :
  conditionType spec = name →
  block_run pacto checks name (probe_and_apply p spec pacto checks).
Proof.
  intros Hn s. destruct (probe_and_apply_run p spec pacto checks s) as (k & ep & s' & E & Hk & Hw).
  exists [k], ep, s'. split_and!; [done| |done]. cbn. by rewrite Hk, Hn.
Qed.

(** Probing applies at most the health check and then the metrics check. *)
Lemma probeEndpoints_run pacto c svc (s : RState W L) :
  ∃ checks (ends : PactoStatus → PactoStatus) s',
    probeEndpoints pacto c svc s =
      (Ret (with_status ends (foldl applyCheck pacto checks), checks), s') ∧
    (∀ st, Conditions (ends st) = Conditions st ∧ Summary (ends st) = Summary st) ∧
    sublist (Name <$> checks) probe_names ∧ only_world s s'.
Proof.
  unfold probeEndpoints, probe_names.
  assert (∀ p : Pacto, p = with_status id p) as Hid by (by intros []).
  destruct (c_Runtime c) as [rt|]; cycle 1.
  { exists [], id, s. cbn [foldl]. rewrite <- Hid. split_and!; [done..| |done].
    apply sublist_nil_l. }
  destruct (iface_lookups (c_Interfaces c)) as [ex po]. cbv zeta.
  rewrite M_bind_unfold.
  set (hs := match rt_Health rt with Some h => _ | None => _ end).
  assert (block_run pacto [] ConditionHealthEndpointValid hs) as Hh.
  { subst hs. destruct (rt_Health rt) as [h|]; [|apply block_skip].
    destruct (bool_decide _); [by apply block_probe|apply block_skip]. }
  clearbody hs. destruct (Hh s) as (hc & hr & s1 & -> & Hsub1 & Hw1).
  cbv beta iota. cbn [app]. rewrite M_bind_unfold.
  set (ms := match rt_Metrics rt with Some m => _ | None => _ end).
  assert (block_run (foldl applyCheck pacto hc) hc ConditionMetricsEndpointValid ms) as Hm.
  { subst ms. destruct (rt_Metrics rt) as [m|]; [|apply block_skip].
    destruct (bool_decide _); [by apply block_probe|apply block_skip]. }
  clearbody ms. destruct (Hm s1) as (mc & mr & s2 & -> & Hsub2 & Hw2).
  cbv beta iota. rewrite <- foldl_app.
  assert (sublist (Name <$> hc ++ mc)
    [ConditionHealthEndpointValid; ConditionMetricsEndpointValid]) as Hsub.
  { rewrite fmap_app. by apply (sublist_app _ [_] _ [_]). }
  assert (only_world s s2) as Hw.
  { unfold only_world in *. destruct_and?. split_and!; [by etrans|congruence..]. }
  destruct (_ && _).
  - exists (hc ++ mc), id, s2. rewrite <- Hid. by split_and!.
  - by eexists (hc ++ mc), _, s2; split_and!.
Qed.

End probing.

(** *** The verdict over checks and conditions *)

Section results.
Context `{UnicodeTables} `{ConditionStoreLaws} {W L : Type} `{!Clock W}
  `{!Prober.HTTPTransport W}.

Lemma applyChecks_summary p checks ks :
  few (checks ++ ks) → Summary (p_Status p) = Some (summary_of checks) →
  Summary (p_Status (foldl applyCheck p ks)) = Some (summary_of (checks ++ ks)).
Proof.
  revert p checks. induction ks as [|k ks IH]; intros p checks Hf Hs.
  { by rewrite app_nil_r. }
  cbn [foldl]. rewrite cons_middle, (assoc (++)) in Hf |- *.
  apply IH; [done|]. apply applyCheck_summary; [|done].
  unfold few in *. rewrite length_app in Hf. lia.
Qed.

Lemma conditions_congruence p q checks :
  conditions p = conditions q → p_Generation p = p_Generation q →
  conditions (foldl applyCheck p checks) = conditions (foldl set_check q checks).
Proof.
  revert p q. induction checks as [|k checks IH]; intros p q Hc Hg; [done|].
  apply IH; [|done]. unfold conditions, set_check, setCondition in *. cbn. by rewrite Hc, Hg.
Qed.

(** The names of the validator's checks and of the probes do not clash. *)
Lemma runtime_names_NoDup c snap hs probes :
  sublist (Name <$> probes) probe_names →
  NoDup (Name <$> Checks (Validator.Validate c snap hs) ++ probes) ∧
  few (Checks (Validator.Validate c snap hs) ++ probes).
Proof.
  intros Hsub.
  pose proof (sublist_app _ _ _ _ (Validator.Validate_names_sublist c snap hs) Hsub) as Hall.
  rewrite <- fmap_app in Hall. split.
  - assert (NoDup (Validator.table_names ++ probe_names)) as Hn
      by (by apply (bool_decide_unpack _)). by eapply sublist_NoDup.
  - apply sublist_length in Hall. rewrite length_fmap in Hall. cbn in Hall.
    unfold few. lia.
Qed.

(** Steps 12 to 14 of [Reconcile]: the validator's result applied, then the endpoints
    probed when the service exists; the checks of both. *)
Definition runtime_part (pacto : Pacto) (c : Contract) (snap : RuntimeSnapshot) (hs : bool)
    (svc wn wk : string) : M (RState W L) (Pacto * list Check) :=
  let r := Validator.Validate c snap hs in
  let pacto := applyValidationResult pacto r snap svc wn wk in
  pc ← (if ServiceExists snap then probeEndpoints pacto c svc else mret (pacto, []));
  mret (pc.1, Checks r ++ pc.2).

Lemma probes_run pacto c svc (b : bool) (s : RState W L) :
  ∃ checks (ends : PactoStatus → PactoStatus) s',
    (if b then probeEndpoints pacto c svc else mret (pacto, [])) s =
      (Ret (with_status ends (foldl applyCheck pacto checks), checks), s') ∧
    (∀ st, Conditions (ends st) = Conditions st ∧ Summary (ends st) = Summary st) ∧
    sublist (Name <$> checks) probe_names ∧ only_world s s'.
Proof.
  destruct b; [apply probeEndpoints_run|]. exists [], id, s.
  split_and!; [by destruct pacto|done|apply sublist_nil_l|done].
Qed.

Lemma runtime_part_run pacto c snap hs svc wn wk (s : RState W L) :
  unique_types (conditions pacto) →
  ∃ pacto' checks s',
    runtime_part pacto c snap hs svc wn wk s = (Ret (pacto', checks), s') ∧
    (∃ probes, checks = Checks (Validator.Validate c snap hs) ++ probes ∧
       sublist (Name <$> probes) probe_names) ∧
    Summary (p_Status pacto') = Some (summary_of checks) ∧
    NoDup (Name <$> checks) ∧ unique_types (conditions pacto') ∧
    (∀ d, d ∈ conditions pacto' ↔
       (∃ k, k ∈ checks ∧ d = check_condition (p_Generation pacto) k) ∨
       (d ∈ conditions pacto ∧ cond_Type d ∉ Name <$> checks)) ∧
    only_world s s' ∧ same_object pacto' pacto.
Proof.
  intros Hu. unfold runtime_part. cbv zeta. rewrite M_bind_unfold.
  set (r := Validator.Validate c snap hs).
  set (p1 := applyValidationResult pacto r snap svc wn wk).
  destruct (probes_run p1 c svc (ServiceExists snap) s)
    as (probes & ends & s' & -> & Hends & Hsub & Hw).
  cbv beta iota. cbn [fst snd].
  destruct (runtime_names_NoDup c snap hs probes Hsub) as [Hnd Hf]. fold r in Hnd, Hf.
  destruct (applyValidationResult_conditions pacto r snap svc wn wk) as [Hc1 Hg1].
  fold p1 in Hc1, Hg1.
  assert (conditions (with_status ends (foldl applyCheck p1 probes)) =
          conditions (foldl set_check pacto (Checks r ++ probes))) as Hconds.
  { transitivity (conditions (foldl applyCheck p1 probes)); [apply Hends|].
    rewrite foldl_app. apply conditions_congruence; [done|].
    by rewrite Hg1, set_checks_generation. }
  eexists _, _, s'. split; [done|]. rewrite Hconds. split_and!.
  - by exists probes.
  - transitivity (Summary (p_Status (foldl applyCheck p1 probes))); [apply Hends|].
    apply applyChecks_summary; [done|]. apply applyValidationResult_summary.
    unfold few in *. rewrite length_app in Hf. lia.
  - done.
  - by apply set_checks_unique.
  - intros d. by apply elem_of_set_checks.
  - done.
  - etrans; [apply (applyChecks_same p1 probes)|]. apply applyValidationResult_same.
Qed.

(** C28 (functional). After the runtime part of a reconcile the summary counts exactly the
    contract check, the validator's checks and the probes, passed and failed adding up to
    the total; no two checks share a name; and each check has its own condition, with its
    status, reason and message, while conditions of other types are kept. *)
Theorem runtime_part_records pacto c snap hs svc wn wk (s : RState W L) :
  unique_types (conditions pacto) →
  ∃ pacto' checks s',
    runtime_part pacto c snap hs svc wn wk s = (Ret (pacto', checks), s') ∧
    (∃ sum, Summary (p_Status pacto') = Some sum ∧
       V1alpha1.Total sum = 1 + Z.of_nat (length checks) ∧
       V1alpha1.Failed sum = nfailed checks ∧
       V1alpha1.Passed sum + V1alpha1.Failed sum = V1alpha1.Total sum) ∧
    NoDup (Name <$> checks) ∧
    (∀ k, k ∈ checks →
       condition_of pacto' (Name k) = Some (check_condition (p_Generation pacto) k)) ∧
    (∀ t, t ∉ Name <$> checks → condition_of pacto' t = condition_of pacto t).
Proof.
  intros Hu. destruct (runtime_part_run pacto c snap hs svc wn wk s Hu)
    as (pacto' & checks & s' & Hrun & _ & Hsum & Hnd & Hu' & Hc & _).
  exists pacto', checks, s'. split_and!; [done| |done| |].
  - eexists. split; [done|]. cbn. pose proof (npassed_nfailed checks). split_and!; [done..|lia].
  - intros k Hk. apply find_condition_spec; [done|]. split; [|done].
    apply Hc. left. by exists k.
  - intros t Ht. destruct (condition_of pacto t) as [d|] eqn:E.
    + apply find_condition_spec in E as [Hd <-]; [|done].
      apply find_condition_spec; [done|]. split; [|done]. apply Hc. by right.
    + apply find_condition_None; [done|]. intros d [(k & Hk & ->)|[Hd _]]%Hc.
      * cbn. intros <-. apply Ht. by apply list_elem_of_fmap_2.
      * by eapply find_condition_None in E.
Qed.

Lemma computeFinalContractStatus_verdict p :
  Validator.verdict (λ d, bool_decide (cond_Status d = ConditionTrue))
    (λ d, Validator.is_resource_condition (cond_Type d)) (conditions p)
    (computeFinalContractStatus p).
Proof.
  unfold computeFinalContractStatus, conditions.
  rewrite (Validator.fold_flags (λ d, bool_decide (cond_Status d = ConditionTrue))
    (λ d, Validator.is_resource_condition (cond_Type d))).
  apply Validator.verdict_of_flags.
Qed.

(** The names a runtime part can report. *)
Lemma runtime_names_elem c snap hs probes n :
  sublist (Name <$> probes) probe_names →
  n ∈ Name <$> Checks (Validator.Validate c snap hs) ++ probes →
  n ∈ Validator.table_names ++ probe_names.
Proof.
  intros Hsub Hin. eapply elem_of_submseteq; [exact Hin|].
  apply sublist_submseteq. rewrite fmap_app.
  apply sublist_app; [apply Validator.Validate_names_sublist|done].
Qed.

Definition initial_conditions (pacto : Pacto) : Prop :=
  ∀ d, d ∈ conditions pacto →
    (cond_Type d = ConditionContractValid ∧ cond_Status d = ConditionTrue) ∨
    cond_Type d = ConditionReadinessSatisfied.

Definition recorded (pacto pacto' : Pacto) (checks : list Check) : Prop :=
  ∀ d, d ∈ conditions pacto' ↔
    (∃ k, k ∈ checks ∧ d = check_condition (p_Generation pacto) k) ∨
    (d ∈ conditions pacto ∧ cond_Type d ∉ Name <$> checks).

Lemma check_condition_status g k :
  bool_decide (cond_Status (check_condition g k) = ConditionTrue) = Passed k.
Proof. cbn. by destruct (Passed k). Qed.

(** A failed condition is a failed check or the unmet gate. *)
Lemma failed_condition pacto pacto' checks :
  recorded pacto pacto' checks → initial_conditions pacto → unique_types (conditions pacto) →
  (∀ n, n ∈ Name <$> checks → n ∈ Validator.table_names ++ probe_names) →
  (∃ d, d ∈ conditions pacto' ∧ bool_decide (cond_Status d = ConditionTrue) = false) ↔
  (∃ k, k ∈ checks ∧ Passed k = false) ∨
  (∃ d, condition_of pacto ConditionReadinessSatisfied = Some d ∧
     cond_Status d ≠ ConditionTrue).
Proof.
  intros Hrec Hinit Hu Hn. split.
  - intros (d & [(k & Hk & ->)|[Hd _]]%Hrec & Hb).
    + left. exists k. split; [done|]. by rewrite check_condition_status in Hb.
    + apply bool_decide_eq_false_1 in Hb. destruct (Hinit d Hd) as [[_ ?]|Ht]; [done|].
      right. exists d. split; [|done]. by apply find_condition_spec.
  - intros [(k & Hk & Hp)|(d & Hd & Hb)].
    + exists (check_condition (p_Generation pacto) k). rewrite check_condition_status.
      split; [|done]. apply Hrec. left. by exists k.
    + apply find_condition_spec in Hd as [Hd Ht]; [|done]. exists d.
      split; [|by apply bool_decide_eq_false_2]. apply Hrec. right. split; [done|].
      intros Hin%Hn. rewrite Ht in Hin. revert Hin. by apply (bool_decide_unpack _).
Qed.

(** A failed condition on a target object means that the object is missing. *)
Lemma failed_resource pacto pacto' c snap hs probes :
  recorded pacto pacto' (Checks (Validator.Validate c snap hs) ++ probes) →
  initial_conditions pacto → sublist (Name <$> probes) probe_names →
  (∃ d, d ∈ conditions pacto' ∧ bool_decide (cond_Status d = ConditionTrue) = false ∧
        Validator.is_resource_condition (cond_Type d) = true) ↔
  (hs = true ∧ ServiceExists snap = false) ∨ WorkloadExists snap = false.
Proof.
  intros Hrec Hinit Hsub. rewrite <- (Validator.Validate_NonCompliant c snap hs).
  destruct (Validator.computeContractStatus_verdict (Checks (Validator.Validate c snap hs)))
    as [-> _]. split.
  - intros (d & [(k & Hk & ->)|[Hd _]]%Hrec & Hb & Hr).
    + rewrite check_condition_status in Hb. exists k. split_and!; [|done|done].
      apply elem_of_app in Hk as [Hk|Hk]; [done|].
      assert (Name k ∈ probe_names) as Hin.
      { eapply elem_of_submseteq; [by apply list_elem_of_fmap_2|].
        by apply sublist_submseteq. }
      cbn in Hr. unfold probe_names in Hin. rewrite !elem_of_cons, elem_of_nil in Hin.
      by destruct Hin as [E|[E|[]]]; rewrite E in Hr.
    + by destruct (Hinit d Hd) as [[E _]|E]; rewrite E in Hr.
  - intros (k & Hk & Hp & Hr). exists (check_condition (p_Generation pacto) k).
    rewrite check_condition_status. split_and!; [|done|done].
    apply Hrec. left. exists k. split; [|done]. apply elem_of_app. by left.
Qed.

(** C7 (functional). The contract status after the runtime part, when only the contract and
    possibly the readiness gate had conditions before: NonCompliant exactly when the
    service or the workload is missing; otherwise Warning exactly when some check failed or
    the readiness gate is unmet; Compliant exactly when everything passed. Declared
    readiness thus does lower the contract status. *)
Theorem runtime_contract_status pacto c snap hs svc wn wk (s : RState W L) :
  unique_types (conditions pacto) →
  (∀ d, d ∈ conditions pacto →
     (cond_Type d = ConditionContractValid ∧ cond_Status d = ConditionTrue) ∨
     cond_Type d = ConditionReadinessSatisfied) →
  ∃ pacto' checks s',
    runtime_part pacto c snap hs svc wn wk s = (Ret (pacto', checks), s') ∧
    let status := computeFinalContractStatus pacto' in
    let unmet := ∃ d, condition_of pacto ConditionReadinessSatisfied = Some d ∧
                   cond_Status d ≠ ConditionTrue in
    let missing := (hs = true ∧ ServiceExists snap = false) ∨ WorkloadExists snap = false in
    let failed := ∃ k, k ∈ checks ∧ Passed k = false in
    (status = ContractStatusNonCompliant ↔ missing) ∧
    (status = ContractStatusWarning ↔ ¬ missing ∧ (failed ∨ unmet)) ∧
    (status = ContractStatusCompliant ↔ ¬ (failed ∨ unmet)).
Proof.
  intros Hu Hinit. destruct (runtime_part_run pacto c snap hs svc wn wk s Hu)
    as (pacto' & checks & s' & Hrun & (probes & Hchecks & Hsub) & _ & _ & _ & Hc & _).
  exists pacto', checks, s'. split; [done|]. cbv zeta.
  subst checks.
  rewrite <- (failed_condition pacto pacto' _ Hc Hinit Hu)
    by (intros n; by apply runtime_names_elem).
  rewrite <- (failed_resource pacto pacto' c snap hs probes Hc Hinit Hsub).
  destruct (computeFinalContractStatus_verdict pacto') as (-> & -> & ->).
  split_and!; [done| |].
  - split.
    + intros [Hall Hsome]. split; [|done]. intros (d & Hd & Hb & Hr).
      by rewrite (Hall d Hd Hr) in Hb.
    + intros [Hno Hsome]. split; [|done]. intros d Hd Hr. apply not_false_iff_true.
      intros Hb. apply Hno. by exists d.
  - split.
    + intros Hall (d & Hd & Hb). by rewrite (Hall d Hd) in Hb.
    + intros Hno d Hd. apply not_false_iff_true. intros Hb. apply Hno. by exists d.
Qed.

End results.

(** *** Witnesses: a contract with a health endpoint whose workload is missing *)

Definition example_runtime : Contract :=
  mkContract (example_identity "api")
    [{| if_Name := "http"; if_Type := "http"; if_Port := Some 8080; if_Visibility := "";
        if_Contract := "" |}] [] [] []
    (Some {| rt_Workload := "service";
             rt_State := {| sta_Type := "stateless";
                            sta_Persistence := {| per_Scope := ""; per_Durability := "" |};
                            sta_DataCriticality := "" |};
             rt_Lifecycle := None;
             rt_Health := Some {| h_Interface := "http"; h_Path := "/health";
                                  h_InitialDelaySeconds := None |};
             rt_Metrics := None |}) None ∅ None.

Definition example_snapshot : RuntimeSnapshot :=
  Observer.set_ServiceExists true (Observer.new_snapshot "Deployment").

Definition verdict_state : RState Z unit := mkRState 0 tt [] [].

Lemma runtime_part_records_witness :
  ∃ pacto' checks s',
    @runtime_part latin1_tables list_store Z unit (λ t, t) Prober.example_network
      example_pacto example_runtime example_snapshot true "api" "api" "Deployment"
      verdict_state = (Ret (pacto', checks), s') ∧
    (∃ sum, Summary (p_Status pacto') = Some sum ∧
       V1alpha1.Total sum = 1 + Z.of_nat (length checks) ∧
       V1alpha1.Failed sum = nfailed checks ∧
       V1alpha1.Passed sum + V1alpha1.Failed sum = V1alpha1.Total sum) ∧
    NoDup (Name <$> checks) ∧
    (∀ k, k ∈ checks →
       @condition_of list_store pacto' (Name k) = Some (check_condition 1 k)) ∧
    (∀ t, t ∉ Name <$> checks →
       @condition_of list_store pacto' t = @condition_of list_store example_pacto t).
Proof.
  apply (@runtime_part_records latin1_tables list_store list_store_laws Z unit (λ t, t)
    Prober.example_network example_pacto example_runtime example_snapshot true
    "api" "api" "Deployment" verdict_state). apply NoDup_nil_2.
Defined.

Lemma runtime_contract_status_witness :
  ∃ pacto' checks s',
    @runtime_part latin1_tables list_store Z unit (λ t, t) Prober.example_network
      example_pacto example_runtime example_snapshot true "api" "api" "Deployment"
      verdict_state = (Ret (pacto', checks), s') ∧
    computeFinalContractStatus pacto' = ContractStatusNonCompliant.
Proof.
  destruct (@runtime_contract_status latin1_tables list_store list_store_laws Z unit (λ t, t)
    Prober.example_network example_pacto example_runtime example_snapshot true
    "api" "api" "Deployment" verdict_state) as (p & ks & s' & Hrun & Hnc & _).
  - apply NoDup_nil_2.
  - intros d Hd. inversion Hd.
  - exists p, ks, s'. split; [exact Hrun|]. apply Hnc. right. reflexivity.
Defined.

End Verdict.
