(* ===== verification/Revisions.v ===== *)
(** * Revisions

    [ensureRevision] and [syncAllRevisions] of [pacto_controller.go]: the immutable
    snapshots of contract versions. *)

From S2P Require Import Prelude GoStrings GoMaps GoFmt Sha256 Contract V1alpha1.
From S2P Require Import Conditions Observer Credentials Prober Metrics Loader Kube Cluster.
From stdpp Require Import options.
#[local] Set Default Proof Using "Type*".

Module Revisions.
Import Credentials(AuthConfig).
Import Loader(LoadResult, RawYAML, lr_Contract, ResolvedRef, ResolvedDigest).

(** [hash] and [hash[:7]]. *)
Definition contract_hash (lr : LoadResult) : string :=
  fmt_x (Sum256 (bytes_of (RawYAML lr))).

Definition contract_version (lr : LoadResult) : string :=
  let version := si_Version (c_Service (lr_Contract lr)) in
  if bool_decide (version = "") then "unknown" else version.

Definition revision_name (pacto : Pacto) (lr : LoadResult) : string :=
  let shortHash := str_take 7 (contract_hash lr) in
  let sanitizedVersion := ReplaceAll (contract_version lr) "." "-" in
  let name := p_Name pacto +:+ "-" +:+ sanitizedVersion +:+ "-" +:+ shortHash in
  if bool_decide (253 < len name)%nat then str_take 253 name else name.

Definition revision_source (pacto : Pacto) (lr : LoadResult) : RevisionSource :=
  let oci := OCI (sp_ContractRef (p_Spec pacto)) in
  if bool_decide (ResolvedRef lr ≠ "") then
    {| src_OCI := ResolvedRef lr; src_Digest := ResolvedDigest lr; src_Inline := false |}
  else if bool_decide (oci ≠ "") then
    {| src_OCI := oci; src_Digest := ResolvedDigest lr; src_Inline := false |}
  else {| src_OCI := ""; src_Digest := ""; src_Inline := true |}.

Definition empty_revision_status : PactoRevisionStatus :=
  {| rev_Resolved := false; rev_ContractHash := ""; rev_CreatedAt := None;
     rev_Conditions := [] |}.

(** The object [ensureRevision] builds. *)
Definition new_revision (pacto : Pacto) (lr : LoadResult) : PactoRevision :=
  {| rev_Name := revision_name pacto lr; rev_Namespace := p_Namespace pacto;
     rev_Labels := {[ LabelPactoName := p_Name pacto;
                      LabelRevisionVersion := contract_version lr ]};
     rev_Owner := None;
     rev_Spec := {| rev_Version := contract_version lr;
                    rev_Source := revision_source pacto lr;
                    rev_PactoRef := p_Name pacto;
                    rev_ServiceName := si_Name (c_Service (lr_Contract lr)) |};
     rev_Status := empty_revision_status |}.

Section revisions.
Context {W L : Type} `{!Clock W} `{!KubeClient W} `{!ContractLoader W L}.

(** The backfill of an existing revision's status. *)
Definition backfill (existing : PactoRevision) (hash : string) (t : Time) : PactoRevision :=
  with_revision_status
    {| rev_Resolved := true; rev_ContractHash := hash;
       rev_CreatedAt := match rev_CreatedAt (rev_Status existing) with
                        | None => Some t
                        | Some c => Some c
                        end;
       rev_Conditions := rev_Conditions (rev_Status existing) |} existing.

(** [ensureRevision]. Errors of status updates are only logged. *)
Definition ensureRevision (pacto : Pacto) (lr : LoadResult) : M (RState W L) (result string) :=
  let hash := contract_hash lr in
  let version := contract_version lr in
  let revisionName := revision_name pacto lr in
  got ← ask (Get_Revision (p_Namespace pacto) revisionName);
  match got with
  | Ok existing =>
      if bool_decide (rev_ContractHash (rev_Status existing) = "") ||
         bool_decide (rev_CreatedAt (rev_Status existing) = None)
      then
        t ← ask now;
        kube (Update_Revision_Status (backfill existing hash t)) ≫= λ _,
        mret (Ok revisionName)
      else mret (Ok revisionName)
  | Err err =>
      if negb (IsNotFound err)
      then mret (Err (Wrap "failed to check for existing revision: " err))
      else
        t ← ask now;
        match SetControllerReference pacto (new_revision pacto lr) with
        | Err err => mret (Err (Wrap "failed to set owner reference: " err))
        | Ok revision =>
            created ← kube (Create_Revision revision);
            match created with
            | Some err =>
                if IsAlreadyExists err then mret (Ok revisionName)
                else mret (Err (Wrap "failed to create PactoRevision: " err))
            | None =>
                kube (Update_Revision_Status (with_revision_status
                  {| rev_Resolved := true; rev_ContractHash := hash;
                     rev_CreatedAt := Some t; rev_Conditions := [] |} revision)) ≫= λ _,
                emit pacto EventTypeNormal "RevisionCreated"
                  ("Created revision " +:+ revisionName +:+ " for contract v" +:+ version)
                ≫= λ _, mret (Ok revisionName)
            end
        end
  end.

(** The reference of one tag of [baseRef]. *)
Definition tagged_ref (baseRef tag : string) : string :=
  let taggedRef := TrimPrefix baseRef "oci://" in
  let taggedRef :=
    if LastIndex taggedRef "/" <? LastIndex taggedRef ":"
    then str_take (Z.to_nat (LastIndex taggedRef ":")) taggedRef
    else taggedRef in
  taggedRef +:+ ":" +:+ tag.

(** The body of the loop of [syncAllRevisions]. *)
Definition sync_tag (pacto : Pacto) (baseRef : string) (ociAuth : option AuthConfig)
    (tag : string) : M (RState W L) unit :=
  let taggedRef := tagged_ref baseRef tag in
  revList ← ask (List_Revisions (p_Namespace pacto)
                   {[ LabelPactoName := p_Name pacto; LabelRevisionVersion := tag ]});
  match revList with
  | Err _ => mret tt
  | Ok (existing :: _) =>
      let storedDigest := src_Digest (rev_Source (rev_Spec existing)) in
      if bool_decide (storedDigest = "") then mret tt
      else
        loaded ← on_loader (cl_Load taggedRef "" ociAuth);
        match loaded with
        | Err _ => mret tt
        | Ok loadResult =>
            if bool_decide (ResolvedDigest loadResult = storedDigest) then mret tt
            else
              match slice_to 12 storedDigest, slice_to 12 (ResolvedDigest loadResult) with
              | Some old, Some new =>
                  emit pacto EventTypeWarning "TagOverwritten"
                    ("Tag " +:+ tag +:+ " was force-pushed (digest changed from " +:+ old +:+
                     " to " +:+ new +:+ ")") ≫= λ _,
                  ensureRevision pacto loadResult ≫= λ _, mret tt
              | _, _ => panic "slice bounds out of range [:12]"
              end
        end
  | Ok [] =>
      loaded ← on_loader (cl_Load taggedRef "" ociAuth);
      match loaded with
      | Err _ => mret tt
      | Ok loadResult => ensureRevision pacto loadResult ≫= λ _, mret tt
      end
  end.

(** [syncAllRevisions]. *)
Definition syncAllRevisions (pacto : Pacto) (baseRef : string) (ociAuth : option AuthConfig)
    : M (RState W L) (option error) :=
  listed ← on_loader (cl_ListTags baseRef ociAuth);
  match listed with
  | Err e => mret (Some (Wrap "failed to list tags: " e))
  | Ok tags => for_range (sync_tag pacto baseRef ociAuth) tags ≫= λ _, mret None
  end.

End revisions.

(** ** Specification *)

(** Revisions are never removed, and only their status is ever written. *)
Definition extends (R R' : gmap (string * string) PactoRevision) : Prop :=
  ∀ k old, R !! k = Some old →
    ∃ new, R' !! k = Some new ∧ new = with_revision_status (rev_Status new) old.

#[export] Instance extends_preorder : PreOrder extends.
Proof.
  split.
  - intros R k old Hk. exists old. split; [done|]. by destruct old.
  - intros R1 R2 R3 H12 H23 k old (n2 & H2 & E2)%H12.
    destruct (H23 _ _ H2) as (n3 & H3 & E3). exists n3. split; [done|].
    rewrite E3, E2. by destruct old.
Qed.

Lemma extends_status R k old st :
  R !! k = Some old → extends R (<[k := with_revision_status st old]> R).
Proof.
  intros Hk k' old' Hk'. destruct (decide (k = k')) as [<-|Hne].
  - rewrite lookup_insert_eq. eexists. split; [done|]. cbn. by simplify_eq.
  - rewrite lookup_insert_ne by done. exists old'. split; [done|]. by destruct old'.
Qed.

Lemma extends_new R k r : R !! k = None → extends R (<[k := r]> R).
Proof.
  intros Hk k' old' Hk'. exists old'. rewrite lookup_insert_ne by congruence.
  split; [done|]. by destruct old'.
Qed.

(** The name is a valid object name length whatever the inputs. *)
Lemma revision_name_length pacto lr : (len (revision_name pacto lr) ≤ 253)%nat.
Proof.
  unfold revision_name. cbv zeta. case_bool_decide; [|lia].
  rewrite str_take_length; lia.
Qed.

Section laws.
Context {W L : Type} `{!Clock W} `{!KubeClient W} `{!ContractLoader W L} `{!RevisionLaws W}.

Lemma update_extends r w e w' :
  Update_Revision_Status r w = (e, w') → extends (revisions w) (revisions w') ∧
  dom (revisions w') = dom (revisions w).
Proof.
  destruct e as [e|].
  - by intros ->%update_refused.
  - intros (old & Hold & ->)%update_done. split; [by apply extends_status|].
    rewrite dom_insert_L. apply elem_of_dom_2 in Hold. set_solver.
Qed.

(** What a run of [ensureRevision] does to the stored revisions. *)
Record ensured (pacto : Pacto) (lr : LoadResult) (s s' : RState W L)
    (r : result string) : Prop := {
  ens_frame : st_loader s' = st_loader s ∧ st_metrics s' = st_metrics s;
  ens_extends : extends (revisions (st_world s)) (revisions (st_world s'));
  ens_ok name : r = Ok name →
    name = revision_name pacto lr ∧
    (p_Namespace pacto, name) ∈ dom (revisions (st_world s'));
  ens_new k new :
    revisions (st_world s) !! k = None → revisions (st_world s') !! k = Some new →
    k = (p_Namespace pacto, revision_name pacto lr) ∧
    new = with_revision_status (rev_Status new)
            (with_owner (p_Name pacto) (new_revision pacto lr));
  ens_events :
    (st_events s' = st_events s ∧
     dom (revisions (st_world s')) = dom (revisions (st_world s))) ∨
    (∃ e, st_events s' = st_events s ++ [e] ∧ ev_Reason e = "RevisionCreated" ∧
       revisions (st_world s) !! (p_Namespace pacto, revision_name pacto lr) = None ∧
       is_ok r = true)
}.

(** Nothing new was stored. *)
Lemma ensured_same pacto lr (s : RState W L) w' r :
  extends (revisions (st_world s)) (revisions w') →
  dom (revisions w') = dom (revisions (st_world s)) →
  (∀ name, r = Ok name → name = revision_name pacto lr ∧
     is_Some (revisions (st_world s) !! (p_Namespace pacto, name))) →
  ensured pacto lr s (mkRState w' (st_loader s) (st_events s) (st_metrics s)) r.
Proof.
  intros He Hd Hok. constructor; cbn; [done|done| | |by left].
  - intros name Hr. destruct (Hok name Hr) as [? ?]. split; [done|].
    rewrite Hd. by apply elem_of_dom.
  - intros k new Hn Hs. apply not_elem_of_dom in Hn. destruct Hn.
    rewrite <- Hd. by eapply elem_of_dom_2.
Qed.

(** A revision was created, and its status update went through or not. *)
Lemma ensured_created pacto lr (s : RState W L) w1 e w2 ev rev st' :
  SetControllerReference pacto (new_revision pacto lr) = Ok rev →
  Create_Revision rev (st_world s) = (None, w1) →
  Update_Revision_Status (with_revision_status st' rev) w1 = (e, w2) →
  ev_Reason ev = "RevisionCreated" →
  ensured pacto lr s (mkRState w2 (st_loader s) (st_events s ++ [ev]) (st_metrics s))
    (Ok (revision_name pacto lr)).
Proof.
  intros ->%reference_set (Hnone & st & Hw1)%create_done Hup Hev.
  destruct (update_extends _ _ _ _ Hup) as [Hext Hdom].
  unfold revision_key in *. cbn [rev_Namespace rev_Name with_owner new_revision] in *.
  assert (extends (revisions (st_world s)) (revisions w1)) as Hext1
    by (rewrite Hw1; by apply extends_new).
  constructor; cbn [st_loader st_metrics st_world st_events]; [done|by etrans| | |].
  - intros name [= <-]. split; [done|]. rewrite Hdom, Hw1, dom_insert_L. set_solver.
  - intros k new Hn Hs.
    assert (k = (p_Namespace pacto, revision_name pacto lr)) as ->.
    { apply elem_of_dom_2 in Hs. rewrite Hdom, Hw1, dom_insert_L in Hs.
      apply not_elem_of_dom in Hn. set_solver. }
    split; [done|].
    destruct (Hext (p_Namespace pacto, revision_name pacto lr) _
      ltac:(rewrite Hw1; apply lookup_insert_eq)) as (n & Hn' & Heq).
    rewrite Hs in Hn'. injection Hn' as <-. rewrite Heq at 1. done.
  - right. eexists. by split_and!.
Qed.

Lemma ensureRevision_run pacto lr (s : RState W L) :
  ∃ r s', ensureRevision pacto lr s = (Ret r, s') ∧ ensured pacto lr s s' r.
Proof.
  assert (s = mkRState (st_world s) (st_loader s) (st_events s) (st_metrics s)) as Hs
    by (by destruct s).
  assert (∀ r, (∀ name, r = Ok name → name = revision_name pacto lr ∧
     is_Some (revisions (st_world s) !! (p_Namespace pacto, name))) →
     ensured pacto lr s s r) as Hsame
    by (intros r Hr; rewrite Hs at 2; by apply ensured_same).
  unfold ensureRevision. cbv zeta. rewrite M_bind_unfold. cbn [ask gets].
  destruct (Get_Revision _ _ _) as [existing|err] eqn:Hget.
  - apply get_found in Hget. destruct (_ || _).
    + rewrite M_bind_unfold. cbn [ask gets]. rewrite M_bind_unfold.
      unfold kube, on_world, zoom, lift_op. cbn [fst snd].
      destruct (Update_Revision_Status _ _) as [e w'] eqn:Hup. cbn [fst snd].
      destruct (update_extends _ _ _ _ Hup). eexists _, _. split; [done|].
      apply ensured_same; [done..|]. intros name [= <-]. split; [done|]. by eexists.
    + eexists _, s. split; [done|]. apply Hsame. intros name [= <-]. split; [done|]. by eexists.
  - destruct (IsNotFound err) eqn:Hnf; cbn [negb];
      [|eexists _, s; split; [done|]; by apply Hsame].
    rewrite M_bind_unfold. cbn [ask gets].
    destruct (SetControllerReference _ _) as [rev|e] eqn:Href;
      [|eexists _, s; split; [done|]; by apply Hsame].
    rewrite M_bind_unfold. unfold kube, on_world, zoom, lift_op. cbn [fst snd].
    destruct (Create_Revision rev (st_world s)) as [[e|] w1] eqn:Hcr; cbn [fst snd].
    + apply create_refused in Hcr as [Heq Hex]. destruct (IsAlreadyExists e) eqn:Hae.
      * eexists _, _. split; [done|]. apply ensured_same; [by rewrite Heq..|].
        intros name [= <-]. split; [done|]. apply reference_set in Href as ->.
        by apply Hex.
      * eexists _, _. split; [done|]. apply ensured_same; [by rewrite Heq..|done].
    + rewrite M_bind_unfold. cbn [st_world st_loader st_events st_metrics].
      destruct (Update_Revision_Status _ w1) as [e w2] eqn:Hup. cbn [fst snd].
      rewrite M_bind_unfold. cbn [emit modify st_world st_loader st_events st_metrics].
      eexists _, _. split; [done|]. by eapply ensured_created.
Qed.

(** C8 (safety). Whatever the API answers, ensuring a revision returns; it never removes a
    revision nor changes the spec, labels or owner of one; it stores at most one new object,
    named after the Pacto, the version and the content hash (at most 253 bytes), owned by
    the Pacto and carrying the loaded version and source; when it reports success the
    revision of that name exists; and the creation event is recorded only for a revision
    that did not exist. *)
Theorem ensureRevision_safe pacto lr (s : RState W L) :
  ∃ r s', ensureRevision pacto lr s = (Ret r, s') ∧ ensured pacto lr s s' r ∧
    (len (revision_name pacto lr) ≤ 253)%nat.
Proof.
  destruct (ensureRevision_run pacto lr s) as (r & s' & ? & ?).
  exists r, s'. split_and!; [done..|]. apply revision_name_length.
Qed.

(** Ensuring is idempotent: after a success, ensuring the same revision
    again, in any later state of the same stored revisions, stores nothing new and records
    no event, and if it succeeds it names the same revision. *)
Theorem ensureRevision_idempotent pacto lr (s : RState W L) :
  ∃ r s1, ensureRevision pacto lr s = (Ret r, s1) ∧
    ∀ name (s2 : RState W L), r = Ok name → extends (revisions (st_world s1)) (revisions (st_world s2)) →
    ∃ r2 s3, ensureRevision pacto lr s2 = (Ret r2, s3) ∧ st_events s3 = st_events s2 ∧
      dom (revisions (st_world s3)) = dom (revisions (st_world s2)) ∧
      (∀ name2, r2 = Ok name2 → name2 = name).
Proof.
  destruct (ensureRevision_run pacto lr s) as (r & s1 & Hrun & Hens).
  exists r, s1. split; [done|]. intros name s2 Hr Hext.
  destruct (ens_ok _ _ _ _ _ Hens name Hr) as [-> Hdom].
  destruct (ensureRevision_run pacto lr s2) as (r2 & s3 & Hrun2 & Hens2).
  exists r2, s3. split; [done|].
  apply elem_of_dom in Hdom as [old Hold]. destruct (Hext _ _ Hold) as (new & Hnew & _).
  destruct (ens_events _ _ _ _ _ Hens2) as [[-> ->]|(e & _ & _ & Hnone & _)].
  - split_and!; [done..|]. intros name2 Hr2. by destruct (ens_ok _ _ _ _ _ Hens2 name2 Hr2).
  - congruence.
Qed.

End laws.

(** ** Synchronising all tags *)

(** Between two states of the stored revisions: nothing is lost or rewritten, and what is
    new lies in the Pacto's namespace and belongs to it. *)
Record grown (pacto : Pacto) (R R' : gmap (string * string) PactoRevision) : Prop := {
  grown_extends : extends R R';
  grown_new k new :
    R !! k = None → R' !! k = Some new →
    k.1 = p_Namespace pacto ∧ rev_Owner new = Some (p_Name pacto) ∧
    rev_PactoRef (rev_Spec new) = p_Name pacto ∧ revision_key new = k
}.

#[export] Instance grown_preorder pacto : PreOrder (grown pacto).
Proof.
  split.
  - intros R. constructor; [done|]. congruence.
  - intros R1 R2 R3 [E12 N12] [E23 N23]. constructor; [by etrans|].
    intros k new H1 H3. destruct (R2 !! k) as [old|] eqn:H2; [|by apply N23].
    destruct (E23 _ _ H2) as (n & Hn & Heq). assert (n = new) as -> by congruence.
    rewrite Heq. unfold revision_key. cbn. by apply N12.
Qed.

Lemma grown_same p q R R' : same_object p q → grown p R R' → grown q R R'.
Proof.
  intros (En & Ens & _) [He Hn]. constructor; [done|]. rewrite <- En, <- Ens. done.
Qed.

Section sync.
Context {W L : Type} `{!Clock W} `{!KubeClient W} `{!ContractLoader W L} `{!RevisionLaws W}
  `{!ContractLoaderLaws W L} `{!LoaderFrame W L}.

Lemma ensured_grown pacto lr (s s' : RState W L) r :
  ensured pacto lr s s' r →
  grown pacto (revisions (st_world s)) (revisions (st_world s')).
Proof.
  intros He. constructor; [apply He|]. intros k new Hn Hs.
  destruct (ens_new _ _ _ _ _ He _ _ Hn Hs) as [-> ->]. done.
Qed.

Lemma load_run o i a (s : RState W L) :
  ∃ r w' l', on_loader (cl_Load o i a) s =
    (Ret r, mkRState w' l' (st_events s) (st_metrics s)) ∧
    cl_Load o i a (st_world s, st_loader s) = (Ret r, (w', l')) ∧
    revisions w' = revisions (st_world s).
Proof.
  destruct (cl_Load_returns o i a (st_world s, st_loader s)) as (r & [w' l'] & E).
  exists r, w', l'. split_and!; [|done|by eapply load_frame].
  unfold on_loader, zoom. by rewrite E.
Qed.

(** When the drift report of a tag slices a digest shorter than twelve bytes. *)
Definition slices_short_digest (pacto : Pacto) (baseRef : string)
    (ociAuth : option AuthConfig) (tag : string) (s : RState W L) : Prop :=
  ∃ existing rest lr wl,
    List_Revisions (p_Namespace pacto)
      {[ LabelPactoName := p_Name pacto; LabelRevisionVersion := tag ]} (st_world s) =
      Ok (existing :: rest) ∧
    let stored := src_Digest (rev_Source (rev_Spec existing)) in
    stored ≠ "" ∧
    cl_Load (tagged_ref baseRef tag) "" ociAuth (st_world s, st_loader s) =
      (Ret (Ok lr), wl) ∧
    ResolvedDigest lr ≠ stored ∧ (len stored < 12 ∨ len (ResolvedDigest lr) < 12)%nat.

(** No slicing in the branch at hand. *)
Ltac no_short := intros (? & ? & ? & ? & ? & ? & ? & ? & ?); simplify_eq; congruence.

Lemma sync_tag_run pacto baseRef ociAuth tag (s : RState W L) :
  ∃ o s', sync_tag pacto baseRef ociAuth tag s = (o, s') ∧
    grown pacto (revisions (st_world s)) (revisions (st_world s')) ∧
    ((∃ msg, o = Panic msg) ↔ slices_short_digest pacto baseRef ociAuth tag s).
Proof.
  unfold sync_tag, slices_short_digest. cbv zeta. rewrite M_bind_unfold. cbn [ask gets].
  assert (∀ (P : Prop), ¬ P → (∃ msg, Ret tt = @Panic unit msg) ↔ P) as Hret
    by (intros P HP; split; [by intros []|done]).
  destruct (List_Revisions _ _ _) as [[|existing rest]|e] eqn:Hl;
    [| |eexists _, s; split_and!; [done..|apply Hret; no_short]].
  - rewrite M_bind_unfold. destruct (load_run (tagged_ref baseRef tag) "" ociAuth s)
      as (r & w' & l' & -> & _ & Hw). destruct r as [lr|e].
    + rewrite M_bind_unfold.
      destruct (ensureRevision_run pacto lr
        (mkRState w' l' (st_events s) (st_metrics s))) as (r & s2 & -> & Hens).
      eexists _, s2. split_and!; [done| |apply Hret; no_short].
      apply ensured_grown in Hens. cbn in Hens. by rewrite Hw in Hens.
    + eexists _, _. split_and!; [done| |apply Hret; no_short]. cbn. by rewrite Hw.
  - case_bool_decide as Hst.
    { eexists _, s. split_and!; [done..|apply Hret; no_short]. }
    rewrite M_bind_unfold. destruct (load_run (tagged_ref baseRef tag) "" ociAuth s)
      as (r & w' & l' & -> & Hload & Hw). destruct r as [lr|e];
      [|eexists _, _; split_and!; [done|cbn; by rewrite Hw|apply Hret; no_short]].
    case_bool_decide as Hd.
    { eexists _, _. split_and!; [done|cbn; by rewrite Hw|apply Hret; no_short]. }
    set (stored := src_Digest (rev_Source (rev_Spec existing))) in *.
    destruct (slice_to 12 stored) as [old|] eqn:H1; [|].
    1: destruct (slice_to 12 (ResolvedDigest lr)) as [new|] eqn:H2.
    + rewrite M_bind_unfold. cbn [emit modify]. rewrite M_bind_unfold.
      match goal with |- context [ensureRevision pacto lr ?s1] =>
        destruct (ensureRevision_run pacto lr s1) as (r & s2 & -> & Hens) end.
      eexists _, s2. split_and!; [done| |].
      * apply ensured_grown in Hens. cbn in Hens. by rewrite Hw in Hens.
      * apply Hret. intros (e' & rest' & lr' & wl & Heq & _ & Hload' & _ & Hshort).
        subst stored. simplify_eq. rewrite Hload in Hload'. simplify_eq.
        destruct Hshort as [Hs|Hs]; apply slice_to_None in Hs; congruence.
    + eexists _, _. split_and!; [done|cbn; by rewrite Hw|]. split; [intros _|by eexists].
      exists existing, rest, lr, (w', l'). split_and!; [done..|].
      right. by apply slice_to_None_inv.
    + eexists _, _. split_and!; [done|cbn; by rewrite Hw|]. split; [intros _|by eexists].
      exists existing, rest, lr, (w', l'). split_and!; [done..|].
      left. by apply slice_to_None_inv.
Qed.

(** C19 (error). Synchronising one tag panics exactly when a stored, non-empty digest
    differs from the loaded one and one of the two is shorter than the twelve bytes the
    event message slices off, for example the empty digest of a load whose digest
    resolution failed; in every other case, load and API errors included, it returns. *)
Theorem sync_tag_panics pacto baseRef ociAuth tag (s : RState W L) :
  (∃ msg, (sync_tag pacto baseRef ociAuth tag s).1 = Panic msg) ↔
  slices_short_digest pacto baseRef ociAuth tag s.
Proof.
  destruct (sync_tag_run pacto baseRef ociAuth tag s) as (o & s' & -> & _ & Hiff). done.
Qed.

Lemma syncAllRevisions_grown pacto baseRef ociAuth (s : RState W L) :
  grown pacto (revisions (st_world s))
    (revisions (st_world (syncAllRevisions pacto baseRef ociAuth s).2)).
Proof.
  assert (∀ tags s, grown pacto (revisions (st_world s))
    (revisions (st_world (for_range (sync_tag pacto baseRef ociAuth) tags s).2))) as Hloop.
  { induction tags as [|tag tags IH]; intros s1; [done|]. cbn [for_range].
    rewrite M_bind_unfold.
    destruct (sync_tag_run pacto baseRef ociAuth tag s1) as (o & s2 & -> & Hg & _).
    destruct o; [|done]. by etrans. }
  unfold syncAllRevisions. rewrite M_bind_unfold. unfold on_loader, zoom.
  destruct (cl_ListTags_returns baseRef ociAuth (st_world s, st_loader s))
    as (r & [w' l'] & E). rewrite E. cbn [fst snd].
  apply list_frame in E. destruct r as [tags|e]; [|cbn; by rewrite E].
  rewrite M_bind_unfold. specialize (Hloop tags (mkRState w' l' (st_events s) (st_metrics s))).
  cbn [st_world] in Hloop. rewrite E in Hloop.
  by destruct (for_range _ _ _) as [[]]; cbn.
Qed.

(** Synchronising all tags, however it ends, loses no revision, rewrites no
    revision's spec, and creates only revisions owned by the Pacto in its own namespace. *)
Theorem syncAllRevisions_grows pacto baseRef ociAuth (s : RState W L) :
  grown pacto (revisions (st_world s))
    (revisions (st_world (syncAllRevisions pacto baseRef ociAuth s).2)).
Proof. apply syncAllRevisions_grown. Qed.

End sync.

(** *** What revision management leaves alone *)

Section frame.
Context {W L : Type} `{!Clock W} `{!KubeClient W} `{!ContractLoader W L}
  `{!Prober.HTTPTransport W} (F : W → Prop) (HF : quiet L F).

Lemma ensureRevision_keeps pacto lr : keeps F (ensureRevision (L := L) pacto lr).
Proof. unfold ensureRevision. keep_going. Qed.

Lemma sync_tag_keeps pacto baseRef ociAuth tag :
  keeps F (sync_tag (L := L) pacto baseRef ociAuth tag).
Proof. pose proof ensureRevision_keeps. unfold sync_tag. keep_going. Qed.

Lemma syncAllRevisions_keeps pacto baseRef ociAuth :
  keeps F (syncAllRevisions (L := L) pacto baseRef ociAuth).
Proof. pose proof sync_tag_keeps. unfold syncAllRevisions. keep_going. Qed.
End frame.

(** *** Witnesses on the in-memory cluster *)

Section examples.
Import Cluster.
#[local] Existing Instances cluster_clock cluster_client cluster_laws.

Definition a_loader : ContractLoader cluster unit := fixed_loader (Ok loaded) ["1.0.0"].
#[local] Existing Instance a_loader.

Definition no_digest_loader : ContractLoader cluster unit :=
  fixed_loader (Ok loaded_without_digest) ["1.0.0"].

Lemma ensureRevision_safe_witness :
  ∃ r s', ensureRevision example_pacto loaded small_state = (Ret r, s') ∧
    ensured example_pacto loaded small_state s' r ∧
    (len (revision_name example_pacto loaded) ≤ 253)%nat.
Proof. apply ensureRevision_safe. Defined.

Lemma ensureRevision_idempotent_witness :
  let s1 := (ensureRevision example_pacto loaded small_state).2 in
  ∃ r2 s3, ensureRevision example_pacto loaded s1 = (Ret r2, s3) ∧
    st_events s3 = st_events s1 ∧
    dom (revisions (st_world s3)) = dom (revisions (st_world s1)) ∧
    (∀ name2, r2 = Ok name2 → name2 = revision_name example_pacto loaded).
Proof.
  cbv zeta.
  destruct (ensureRevision_idempotent example_pacto loaded small_state)
    as (r & s1 & Hrun & Hagain).
  rewrite Hrun. apply Hagain; [|done].
  assert ((ensureRevision example_pacto loaded small_state).1 =
    Ret (Ok (revision_name example_pacto loaded))) as Hok by (vm_compute; reflexivity).
  rewrite Hrun in Hok. by injection Hok.
Defined.

(** The state after a first reconcile stored the revision of tag 1.0.0. *)
Definition synced_state : RState cluster unit :=
  (ensureRevision example_pacto loaded small_state).2.

(** The same tag is loaded later while its digest cannot be resolved. *)
Lemma sync_tag_panics_witness :
  ∃ msg, (@sync_tag cluster unit _ _ no_digest_loader example_pacto "oci://r/a:1" None
            "1.0.0" synced_state).1 = Panic msg.
Proof.
  apply (@sync_tag_panics cluster unit cluster_clock cluster_client no_digest_loader
    cluster_laws (fixed_loader_laws _ _) (fixed_loader_frame _ _)
    example_pacto "oci://r/a:1" None "1.0.0" synced_state).
  eexists _, [], loaded_without_digest, _. split; [vm_compute; reflexivity|].
  split; [discriminate|]. split; [reflexivity|]. split; [discriminate|].
  right. repeat constructor.
Defined.

Lemma syncAllRevisions_grows_witness :
  grown example_pacto (revisions small_cluster)
    (revisions (st_world (syncAllRevisions example_pacto "oci://r/a:1" None small_state).2)).
Proof.
  apply (@syncAllRevisions_grows cluster unit cluster_clock cluster_client a_loader
    cluster_laws (fixed_loader_laws _ _) (fixed_loader_frame _ _)
    example_pacto "oci://r/a:1" None small_state).
Defined.
End examples.

End Revisions.
