(* ===== verification/Reconcile.v ===== *)
(** * The reconcile loop

    [PactoReconciler.Reconcile] of [pacto_controller.go], composed from the components:
    credentials, loader, overrides, status, readiness, revisions, observer, validator,
    probes. The result is [ctrl.Result] and error: [Ok d] asks for a requeue after [d]
    nanoseconds ([Ok 0]: none). *)

From S2P Require Import Prelude GoStrings GoMaps GoFmt Contract V1alpha1 Conditions.
From S2P Require Import Observer Images Validator Credentials Prober Metrics Loader.
From S2P Require Import Overrides Kube Cluster Readiness Status Verdict Revisions.
From stdpp Require Import options.
#[local] Set Default Proof Using "Type*".

Module Reconcile.
Import Credentials(AuthConfig).
Import Loader(LoadResult, lr_Contract, mkLoadResult).
Import Validator(Check, mkCheck).
Import Revisions(grown).
#[local] Existing Instance Revisions.grown_preorder.

Section reconcile.
Context `{UnicodeTables} `{PactoLib} `{GoMaps} `{ConditionStore}
  `{Credentials.DockerConfigCodec}.
Context {W L : Type} `{!Clock W} `{!KubeClient W} `{!ContractLoader W L}
  `{!Prober.HTTPTransport W}.

(** [resolveOCIAuth]. *)
Definition resolveOCIAuth (namespace secretName ociRef : string)
    : M (RState W L) (result AuthConfig) :=
  got ← ask (Get_Secret namespace secretName);
  mret (match got with
        | Err e => Err (Wrap ("secret " +:+ Quote secretName +:+ " not found: ") e)
        | Ok secret => Credentials.FromSecret secret (Credentials.RegistryFromRef ociRef)
        end).

(** The check [ContractValid] that only serves the metrics. *)
Definition contract_valid_check (passed : bool) : Check :=
  mkCheck ConditionContractValid passed "" "" SeverityError.

(** The last metrics block of both ends of a reconcile. *)
Definition record_outcome (pacto : Pacto) (c : option Contract) (checks : list Check)
    : M (RState W L) unit :=
  record (Metrics.RecordContractStatus (p_Namespace pacto) (p_Name pacto)
            (ContractStatus (p_Status pacto))) ≫= λ _,
  match c with
  | Some c =>
      if bool_decide (si_Name (c_Service c) ≠ "")
      then record (Metrics.RecordValidation (p_Namespace pacto) (si_Name (c_Service c)) checks)
      else mret tt
  | None => mret tt
  end.

Definition stamp (t : Time) (pacto : Pacto) : Pacto :=
  with_status (λ st, set_ObservedGeneration (p_Generation pacto)
                       (set_LastReconciledAt (Some t) st)) pacto.

(** [failReconciliation]. *)
Definition failReconciliation (pacto : Pacto) (msg : string) (valResult : ValidationResult)
    (c : option Contract) : M (RState W L) (result Z) :=
  let pacto := setCondition ConditionContractValid ConditionFalse ReasonContractInvalid msg
                 pacto in
  let pacto := with_status (λ st,
    set_Validation (Some valResult)
      (set_Summary (Some {| V1alpha1.Total := 1; V1alpha1.Passed := 0; V1alpha1.Failed := 1 |})
        (set_ContractStatus ContractStatusNonCompliant st))) pacto in
  t ← ask now;
  let pacto := stamp t pacto in
  statusErr ← kube (Update_Pacto_Status pacto);
  match statusErr with
  | Some e => mret (Err e)
  | None =>
      emit pacto EventTypeWarning "ContractInvalid" msg ≫= λ _,
      record_outcome pacto c [contract_valid_check false] ≫= λ _,
      mret (Ok (Status.requeueInterval pacto))
  end.

(** [finishReconciliation]. *)
Definition finishReconciliation (pacto : Pacto) (c : Contract) (checks : list Check)
    : M (RState W L) (result Z) :=
  t ← ask now;
  let pacto := stamp t pacto in
  statusErr ← kube (Update_Pacto_Status pacto);
  match statusErr with
  | Some e => mret (Err e)
  | None =>
      let status := ContractStatus (p_Status pacto) in
      (if bool_decide (status ≠ ContractStatusCompliant) &&
          bool_decide (status ≠ ContractStatusReference)
       then match Summary (p_Status pacto) with
            | Some sum =>
                emit pacto EventTypeWarning "ValidationFailed"
                  ("ContractStatus: " +:+ status +:+ ", " +:+ fmt_d (V1alpha1.Failed sum) +:+
                   "/" +:+ fmt_d (V1alpha1.Total sum) +:+ " checks failed")
            | None => mret tt
            end
       else mret tt) ≫= λ _,
      record_outcome pacto (Some c) checks ≫= λ _,
      mret (Ok (Status.requeueInterval pacto))
  end.

Definition issue (path message : string) : ValidationResult :=
  {| Valid := false;
     Errors := [{| vi_Code := ""; vi_Path := path; vi_Message := message |}];
     Warnings := [] |}.

(** Step 11: what was observed of an existing workload. *)
Definition observed_runtime (snapshot : Observer.RuntimeSnapshot) (pacto : Pacto) : Pacto :=
  if Observer.WorkloadExists snapshot
  then with_status (set_ObservedRuntime_ (Some
         {| or_WorkloadKind := Observer.WorkloadKind snapshot;
            or_DeploymentStrategy := Observer.DeploymentStrategy snapshot;
            or_PodManagementPolicy := Observer.PodManagementPolicy snapshot;
            or_TerminationGracePeriodSeconds := Observer.TerminationGracePeriod snapshot;
            or_ContainerImages := Observer.ContainerImages snapshot;
            or_HasPVC := Observer.HasPVC snapshot;
            or_HasEmptyDir := Observer.HasEmptyDir snapshot;
            or_HealthProbeInitialDelaySeconds := Observer.HealthProbeInitialDelay snapshot |}))
         pacto
  else pacto.

(** Steps 8 to 15: a reference ends here, a target is observed and validated. *)
Definition reconcile_target (pacto : Pacto) (c : Contract) : M (RState W L) (result Z) :=
  if IsReference pacto then
    let pacto := setCondition ConditionContractValid ConditionTrue ReasonReferenceOnly
      ("Reference contract " +:+ si_Name (c_Service c) +:+ " v" +:+
       si_Version (c_Service c) +:+ " is valid") pacto in
    let pacto := with_status (λ st,
      set_Summary (Some {| V1alpha1.Total := 1; V1alpha1.Passed := 1; V1alpha1.Failed := 0 |})
        (set_ContractStatus ContractStatusReference st)) pacto in
    finishReconciliation pacto c [contract_valid_check true]
  else
    let '(workloadName, workloadKind) := ResolvedWorkload pacto in
    let serviceName := tr_ServiceName (sp_Target (p_Spec pacto)) in
    observed ← ask (λ w, Observer.Observe (kube_reader w) (p_Namespace pacto) serviceName
                           workloadName workloadKind);
    match observed with
    | Err err =>
        let obsMsg := "failed to observe runtime state: " +:+ err_text err in
        let pacto := setCondition ConditionRuntimeObserved ConditionFalse
                       ReasonObservationFailed obsMsg pacto in
        emit pacto EventTypeWarning "ObservationFailed"
          ("Could not observe runtime state for " +:+ Quote serviceName +:+ ": " +:+
           err_text err) ≫= λ _,
        let pacto := with_status (λ st,
          set_Summary (Some {| V1alpha1.Total := 1; V1alpha1.Passed := 0;
                               V1alpha1.Failed := 1 |})
            (set_ContractStatus ContractStatusUnknown st)) pacto in
        finishReconciliation pacto c
          [contract_valid_check true;
           mkCheck ConditionRuntimeObserved false "" obsMsg SeverityError]
    | Ok snapshot =>
        let pacto := observed_runtime snapshot pacto in
        let hasService := bool_decide (serviceName ≠ "") in
        pc ← Verdict.runtime_part pacto c snapshot hasService serviceName workloadName
               workloadKind;
        let '(pacto, checks) := pc in
        let pacto := with_status
          (set_ContractStatus (Verdict.computeFinalContractStatus pacto)) pacto in
        finishReconciliation pacto c (contract_valid_check true :: checks)
    end.

(** Step 7: the revision of this contract, and those of all tags. *)
Definition reconcile_revisions (pacto : Pacto) (loadResult : LoadResult)
    (ociAuth : option AuthConfig) : M (RState W L) Pacto :=
  ensured ← Revisions.ensureRevision pacto loadResult;
  let pacto := match ensured with
               | Ok revisionName => with_status (set_CurrentRevision revisionName) pacto
               | Err _ => pacto
               end in
  let ociRef := OCI (sp_ContractRef (p_Spec pacto)) in
  (if bool_decide (ociRef ≠ "") && negb (Contains ociRef "@")
   then Revisions.syncAllRevisions pacto ociRef ociAuth ≫= λ _, mret tt
   else mret tt) ≫= λ _,
  mret pacto.

(** Step 6: the contract in the status. *)
Definition populate_contract (pacto : Pacto) (loadResult : LoadResult) (c : Contract)
    (overriddenKeys : gmap string (list string)) : Pacto :=
  let pacto := setCondition ConditionContractValid ConditionTrue ReasonContractParsed
    ("Contract " +:+ si_Name (c_Service c) +:+ " v" +:+ si_Version (c_Service c) +:+
     " is valid") pacto in
  let pacto := with_status (set_ContractVersion (si_Version (c_Service c))) pacto in
  let effectiveLR := mkLoadResult c (Loader.RawYAML loadResult) (Loader.BundleFS loadResult)
                       (Loader.ResolvedRef loadResult) (Loader.ResolvedDigest loadResult) in
  Status.mark_overridden overriddenKeys (Status.populateContractStatus pacto effectiveLR).

(** Steps 5 to 8, with the effective contract. *)
Definition reconcile_contract (pacto : Pacto) (readinessWasUnmet : bool)
    (ociAuth : option AuthConfig) (loadResult : LoadResult) (effectiveContract : Contract)
    (overriddenKeys : gmap string (list string)) : M (RState W L) (result Z) :=
  let contractResult := validation_Validate effectiveContract (Loader.RawYAML loadResult)
                          (Loader.BundleFS loadResult) in
  let validation := Status.mapValidationResult contractResult in
  let pacto := with_status (set_Validation (Some validation)) pacto in
  if bool_decide (0 < length (vr_Errors contractResult))%nat then
    failReconciliation pacto (Status.formatValidationErrors (vr_Errors contractResult))
      validation (Some effectiveContract)
  else
    let pacto := populate_contract pacto loadResult effectiveContract overriddenKeys in
    pacto ← Readiness.reconcileReadiness pacto effectiveContract readinessWasUnmet;
    pacto ← reconcile_revisions pacto loadResult ociAuth;
    reconcile_target pacto effectiveContract.

(** Step 4: load, and apply the overrides. *)
Definition reconcile_load (pacto : Pacto) (readinessWasUnmet : bool)
    (ociAuth : option AuthConfig) : M (RState W L) (result Z) :=
  let ref := sp_ContractRef (p_Spec pacto) in
  let pacto := with_status (set_ResolutionPolicy (Status.resolutionPolicy (OCI ref))) pacto in
  loaded ← on_loader (cl_Load (OCI ref) (Inline ref) ociAuth);
  match loaded with
  | Err err => failReconciliation pacto (err_text err) (issue "" (err_text err)) None
  | Ok loadResult =>
      let applied :=
        match sp_Overrides (p_Spec pacto) with
        | None => Ok (lr_Contract loadResult, ∅)
        | Some ovs =>
            Overrides.applyConfigurationOverrides (lr_Contract loadResult) (Some ovs)
        end in
      match applied with
      | Err e =>
          failReconciliation pacto ("override error: " +:+ err_text e)
            (issue "spec.overrides" (err_text e)) (Some (lr_Contract loadResult))
      | Ok (effectiveContract, overriddenKeys) =>
          reconcile_contract pacto readinessWasUnmet ociAuth loadResult effectiveContract
            overriddenKeys
      end
  end.

(** Step 3 on the reset Pacto. *)
Definition reconcile_reset (pacto : Pacto) (readinessWasUnmet : bool)
    : M (RState W L) (result Z) :=
  let ref := sp_ContractRef (p_Spec pacto) in
  let secretName := PullSecretRef ref in
  if bool_decide (secretName ≠ "") then
    auth ← resolveOCIAuth (p_Namespace pacto) secretName (OCI ref);
    match auth with
    | Err secretErr =>
        failReconciliation pacto
          ("failed to read pull secret " +:+ Quote secretName +:+ ": " +:+ err_text secretErr)
          (issue "spec.contractRef.pullSecretRef" (err_text secretErr)) None
    | Ok auth => reconcile_load pacto readinessWasUnmet (Some auth)
    end
  else reconcile_load pacto readinessWasUnmet None.

(** [Reconcile]. *)
Definition Reconcile (namespace name : string) : M (RState W L) (result Z) :=
  got ← ask (Get_Pacto namespace name);
  match got with
  | Err err => if IsNotFound err then mret (Ok 0) else mret (Err err)
  | Ok pacto =>
      let readinessWasUnmet := Readiness.readinessWasUnmet pacto in
      reconcile_reset (Status.resetDerivedStatus pacto) readinessWasUnmet
  end.

(** The credentials of a Pacto: none without a pull secret; otherwise those of the Secret
    it names, in its own namespace. *)
Definition credentials (p : Pacto) (w : W) : result (option AuthConfig) :=
  let ref := sp_ContractRef (p_Spec p) in
  if bool_decide (PullSecretRef ref ≠ "") then
    match Get_Secret (p_Namespace p) (PullSecretRef ref) w with
    | Err e => Err (Wrap ("secret " +:+ Quote (PullSecretRef ref) +:+ " not found: ") e)
    | Ok secret => Some <$> Credentials.FromSecret secret (Credentials.RegistryFromRef (OCI ref))
    end
  else Ok None.

End reconcile.

(** ** Specification *)

(** What every status the operator writes satisfies. *)
Record well_formed `{ConditionStore} (pacto p' : Pacto) : Prop := {
  wf_object : same_object p' pacto;
  wf_generation : ObservedGeneration (p_Status p') = p_Generation pacto;
  wf_reconciled : LastReconciledAt (p_Status p') ≠ None;
  wf_status : is_contract_status (ContractStatus (p_Status p'));
  wf_unique : unique_types (conditions p');
  wf_summary : ∃ sum, Summary (p_Status p') = Some sum ∧
    V1alpha1.Passed sum + V1alpha1.Failed sum = V1alpha1.Total sum ∧
    (ContractStatus (p_Status p') = ContractStatusCompliant → V1alpha1.Failed sum = 0);
  wf_contract : ∃ d, condition_of p' ConditionContractValid = Some d ∧
    (cond_Status d ≠ ConditionTrue → ContractStatus (p_Status p') = ContractStatusNonCompliant);
  wf_reference : ContractStatus (p_Status p') = ContractStatusReference →
    IsReference pacto = true;
  wf_compliant : ContractStatus (p_Status p') = ContractStatusCompliant →
    ∀ d, d ∈ conditions p' → cond_Status d = ConditionTrue
}.

(** The status gauges of a Pacto show its contract status. *)
Definition metrics_show (p : Pacto) (trace : list Metrics.Sample) : Prop :=
  ∀ s, s ∈ Metrics.allStatuses →
    Metrics.gauge trace Metrics.contractStatus
      (Metrics.status_attrs (p_Namespace p) (p_Name p) s) =
    Some (if bool_decide (s = ContractStatus (p_Status p)) then 1 else 0).

Lemma record_outcome_run {W L} pacto c checks (s : RState W L) :
  ∃ ms, record_outcome pacto c checks s =
    (Ret tt, mkRState (st_world s) (st_loader s) (st_events s) ms) ∧ metrics_show pacto ms.
Proof.
  unfold record_outcome. rewrite M_bind_unfold. cbn [record modify].
  assert (metrics_show pacto (st_metrics s ++ Metrics.RecordContractStatus (p_Namespace pacto)
    (p_Name pacto) (ContractStatus (p_Status pacto)))) as Hm.
  { intros st Hst. by apply Metrics.RecordContractStatus_gauge. }
  destruct c as [c|]; [|by eexists]. case_bool_decide; [|by eexists].
  eexists. split; [done|]. intros st Hst. cbn. rewrite Metrics.RecordValidation_other.
  by apply Hm.
Qed.

Section finishing.
Context {W L : Type} `{!KubeClient W} `{!RevisionLaws W}.

(** A run that ends with the write of the status: unless it panicked before, which it may
    only when [B], the last thing it did to the world was to write some [p'] with [Q p']; an error of that write is
    its result, and after a successful one the next reconcile is scheduled and the metrics
    show the status written. What is stored as revisions at the end satisfies [G]. *)
Definition finishes (B : Prop) (G : gmap (string * string) PactoRevision → Prop)
    (Q : Pacto → Prop) (o : outcome (result Z) * RState W L) : Prop :=
  (B ∧ ∃ msg s', o = (Panic msg, s') ∧ G (revisions (st_world s'))) ∨
  ∃ p' w e r s',
    o = (Ret r, s') ∧ G (revisions (st_world s')) ∧ Q p' ∧ Update_Pacto_Status p' w = (e, st_world s') ∧
    match e with
    | Some err => r = Err err
    | None => r = Ok (Status.requeueInterval p') ∧ metrics_show p' (st_metrics s')
    end.

Context `{!Clock W}.

(** The same, and what else the world satisfies just before that write, or when the run
    panics; the time in the status is that of the write. *)
Definition ends (F : W → Prop) (B : Prop)
    (G : gmap (string * string) PactoRevision → Prop)
    (Q : Pacto → Prop) (o : outcome (result Z) * RState W L) : Prop :=
  (B ∧ ∃ msg s', o = (Panic msg, s') ∧ G (revisions (st_world s')) ∧ F (st_world s')) ∨
  ∃ p' w e r s',
    o = (Ret r, s') ∧ G (revisions (st_world s')) ∧
    (F w ∧ LastReconciledAt (p_Status p') = Some (now w)) ∧ Q p' ∧
    Update_Pacto_Status p' w = (e, st_world s') ∧
    match e with
    | Some err => r = Err err
    | None => r = Ok (Status.requeueInterval p') ∧ metrics_show p' (st_metrics s')
    end.

Lemma ends_finishes F B G Q o : ends F B G Q o → finishes B G Q o.
Proof.
  intros [(HB & msg & s' & -> & HG & _)|(p' & w & e & r & s' & -> & HG & _ & HQ & Hrest)].
  - left. eauto.
  - right. by exists p', w, e, r, s'.
Qed.

Lemma finishReconciliation_ends F (B : Prop) G (Q : Pacto → Prop) pacto c checks (s : RState W L) :
  G (revisions (st_world s)) → F (st_world s) →
  Q (stamp (now (st_world s)) pacto) → ends F B G Q (finishReconciliation pacto c checks s).
Proof.
  intros HG HF HQ. right. unfold finishReconciliation. rewrite M_bind_unfold. cbn [ask gets].
  rewrite M_bind_unfold. unfold kube, Kube.on_world, zoom, lift_op. cbn [fst snd].
  destruct (Update_Pacto_Status _ (st_world s)) as [e w'] eqn:Hup. cbn [fst snd].
  assert (G (revisions w')) as HG'
    by (erewrite <- (pacto_frame _ (st_world s)), Hup in HG; exact HG).
  exists (stamp (now (st_world s)) pacto), (st_world s), e.
  destruct e as [err|]; [by eexists _, _|].
  rewrite M_bind_unfold.
  match goal with |- context [let (_, _) := ?m ?s1 in _] =>
    assert (∃ evs, m s1 = (Ret tt, mkRState w' (st_loader s) evs (st_metrics s)))
      as (evs & ->) by (case_match; [case_match|]; by eexists) end.
  rewrite M_bind_unfold.
  match goal with |- context [record_outcome ?p ?c ?k ?s1] =>
    destruct (record_outcome_run p c k s1) as (ms & -> & Hms) end.
  eexists _, _. by split_and!.
Qed.

Definition failed_pacto `{ConditionStore} (msg : string) (v : ValidationResult) (pacto : Pacto)
    : Pacto :=
  with_status (λ st,
    set_Validation (Some v)
      (set_Summary (Some {| V1alpha1.Total := 1; V1alpha1.Passed := 0; V1alpha1.Failed := 1 |})
        (set_ContractStatus ContractStatusNonCompliant st)))
    (setCondition ConditionContractValid ConditionFalse ReasonContractInvalid msg pacto).

(** The conditions of a Pacto that failed with the message [msg], from an empty store. *)
Lemma failed_pacto_condition `{ConditionStoreLaws} t msg v (p : Pacto) :
  conditions p = [] →
  ∃ d, condition_of (stamp t (failed_pacto msg v p)) ConditionContractValid = Some d ∧
    cond_Status d = ConditionFalse ∧ cond_Message d = msg ∧
    ∀ d', d' ∈ conditions (stamp t (failed_pacto msg v p)) → d' = d.
Proof.
  intros Hp. assert (unique_types (conditions p)) as Hu by (rewrite Hp; apply NoDup_nil_2).
  set (q := setCondition ConditionContractValid ConditionFalse ReasonContractInvalid msg p).
  assert (conditions (stamp t (failed_pacto msg v p)) = conditions q) as Hq
    by reflexivity.
  unfold condition_of. rewrite Hq.
  eexists. split; [apply (condition_of_set_eq _ _ _ _ _ Hu)|]. split_and!; [done..|].
  intros d' Hd'. apply elem_of_set_conditions in Hd' as [?|[Hd' _]]; [done| |done].
  rewrite Hp in Hd'. by apply elem_of_nil in Hd'.
Qed.

Lemma failReconciliation_ends `{ConditionStore} F (B : Prop) G (Q : Pacto → Prop) pacto msg v c
    (s : RState W L) :
  G (revisions (st_world s)) → F (st_world s) →
  Q (stamp (now (st_world s)) (failed_pacto msg v pacto)) →
  ends F B G Q (failReconciliation pacto msg v c s).
Proof.
  intros HG HF HQ. right. unfold failReconciliation. cbv zeta. rewrite M_bind_unfold. cbn [ask gets].
  rewrite M_bind_unfold. unfold kube, Kube.on_world, zoom, lift_op. cbn [fst snd].
  fold (failed_pacto msg v pacto).
  destruct (Update_Pacto_Status _ (st_world s)) as [e w'] eqn:Hup. cbn [fst snd].
  assert (G (revisions w')) as HG'
    by (erewrite <- (pacto_frame _ (st_world s)), Hup in HG; exact HG).
  exists (stamp (now (st_world s)) (failed_pacto msg v pacto)), (st_world s), e.
  destruct e as [err|]; [by eexists _, _|].
  rewrite M_bind_unfold. cbn [emit modify]. rewrite M_bind_unfold.
  match goal with |- context [record_outcome ?p ?c ?k ?s1] =>
    destruct (record_outcome_run p c k s1) as (ms & -> & Hms) end.
  eexists _, _. by split_and!.
Qed.

End finishing.

(** *** The stages keep the object and its conditions in order *)

Lemma IsReference_same p q : same_object p q → IsReference p = IsReference q.
Proof. intros (_ & _ & _ & E). unfold IsReference. by rewrite E. Qed.

Lemma computeFinalContractStatus_values p :
  Verdict.computeFinalContractStatus p ∈
    [ContractStatusCompliant; ContractStatusWarning; ContractStatusNonCompliant].
Proof.
  unfold Verdict.computeFinalContractStatus. destruct (foldl _ _ _) as [[] []];
    cbn; set_solver.
Qed.

Section stages.
Context `{ConditionStoreLaws}.

(** A Pacto whose contract has been found valid: only the contract and possibly the
    readiness gate have conditions. *)
Record validated (pacto p : Pacto) : Prop := {
  va_object : same_object p pacto;
  va_unique : unique_types (conditions p);
  va_initial : Verdict.initial_conditions p;
  va_valid : ∃ d, condition_of p ConditionContractValid = Some d ∧
               cond_Status d = ConditionTrue
}.

Lemma failed_well_formed pacto p t msg v :
  same_object p pacto → unique_types (conditions p) →
  well_formed pacto (stamp t (failed_pacto msg v p)).
Proof.
  intros Hso Hu. pose proof Hso as (_ & _ & Hg & _). constructor; try done.
  - by apply (bool_decide_unpack _).
  - by apply (setCondition_unique ConditionContractValid).
  - by eexists.
  - eexists. split; [by apply (condition_of_set_eq ConditionContractValid)|done].
Qed.

Lemma reference_well_formed pacto p t msg :
  validated pacto p → IsReference pacto = true →
  well_formed pacto (stamp t (with_status (λ st,
      set_Summary (Some {| V1alpha1.Total := 1; V1alpha1.Passed := 1; V1alpha1.Failed := 0 |})
        (set_ContractStatus ContractStatusReference st))
    (setCondition ConditionContractValid ConditionTrue ReasonReferenceOnly msg p))).
Proof.
  intros [Hso Hu _ _] Href. pose proof Hso as (_ & _ & Hg & _). constructor; try done.
  - by apply (bool_decide_unpack _).
  - by apply (setCondition_unique ConditionContractValid).
  - by eexists.
  - eexists. split; [by apply (condition_of_set_eq ConditionContractValid)|done].
Qed.

Lemma unobserved_well_formed pacto p t msg :
  validated pacto p →
  well_formed pacto (stamp t (with_status (λ st,
      set_Summary (Some {| V1alpha1.Total := 1; V1alpha1.Passed := 0; V1alpha1.Failed := 1 |})
        (set_ContractStatus ContractStatusUnknown st))
    (setCondition ConditionRuntimeObserved ConditionFalse ReasonObservationFailed msg p))).
Proof.
  intros [Hso Hu _ (d & Hd & Ht)]. pose proof Hso as (_ & _ & Hg & _). constructor; try done.
  - by apply (bool_decide_unpack _).
  - by apply (setCondition_unique ConditionRuntimeObserved).
  - by eexists.
  - exists d. split; [|by rewrite Ht].
    etrans; [by apply (condition_of_set_ne ConditionRuntimeObserved)|done].
Qed.

(** The end of the runtime branch. *)
Lemma runtime_well_formed `{UnicodeTables} pacto p p' t checks c snap hs probes :
  validated pacto p → same_object p' p → unique_types (conditions p') →
  checks = Validator.Checks (Validator.Validate c snap hs) ++ probes →
  sublist (Validator.Name <$> probes) Verdict.probe_names →
  Verdict.recorded p p' checks →
  Summary (p_Status p') = Some (Verdict.summary_of checks) →
  well_formed pacto (stamp t (with_status
    (set_ContractStatus (Verdict.computeFinalContractStatus p')) p')).
Proof.
  intros [Hso Hu _ (d & Hd & Ht)] Hso' Hu' Hch Hsub Hrec Hsum.
  assert (same_object p' pacto) as Hso2 by (by etrans).
  pose proof Hso2 as (_ & _ & Hg & _).
  destruct (Verdict.computeFinalContractStatus_verdict p') as (_ & _ & Hcomp).
  assert (Verdict.computeFinalContractStatus p' = ContractStatusCompliant →
    ∀ x, x ∈ conditions p' → cond_Status x = ConditionTrue) as Hall.
  { intros E x Hx. rewrite Hcomp in E. specialize (E x Hx).
    by apply bool_decide_eq_true_1 in E. }
  pose proof (computeFinalContractStatus_values p') as Hv.
  constructor; try done; cbn.
  - unfold is_contract_status. set_solver.
  - eexists. split; [exact Hsum|]. cbn. split; [pose proof (Verdict.npassed_nfailed checks); lia|].
    intros E. unfold Verdict.nfailed. rewrite (proj2 (filter_nil_iff (λ k, Validator.Passed k = false) checks)); [done|].
    intros k Hk Hf. specialize (Hall E (Verdict.check_condition (p_Generation p) k)).
    cbn in Hall. rewrite Hf in Hall. discriminate Hall. apply Hrec. left. by exists k.
  - exists d. split; [|by rewrite Ht]. apply find_condition_spec; [done|].
    apply find_condition_spec in Hd as [Hd Hty]; [|done]. split; [|done].
    apply Hrec. right. split; [done|]. rewrite Hty, Hch. intros Hin.
    apply Verdict.runtime_names_elem in Hin; [|done]. revert Hin. by apply (bool_decide_unpack _).
  - intros E. rewrite E in Hv. exfalso. revert Hv. by apply (bool_decide_unpack _).
Qed.

End stages.

(** *** From the reset to a validated contract *)

Section validated.
Context `{UnicodeTables} `{PactoLib} `{GoMaps} `{ConditionStoreLaws} {W L : Type} `{!Clock W}.

Lemma validated_same pacto p f :
  (∀ st, Conditions (f st) = Conditions st) →
  validated pacto p → validated pacto (with_status f p).
Proof.
  intros Hf [Hso Hu Hi (d & Hd & Ht)].
  assert (conditions (with_status f p) = conditions p) as Hc by apply Hf.
  constructor; [done|by rewrite Hc|by intros x; rewrite Hc; apply Hi|].
  exists d. unfold condition_of. by rewrite Hc.
Qed.

(** A Pacto at the start: nothing derived. *)
Definition fresh_status (pacto p : Pacto) : Prop :=
  same_object p pacto ∧ conditions p = [].

Lemma fresh_unique pacto p : fresh_status pacto p → unique_types (conditions p).
Proof. intros [_ ->]. apply NoDup_nil_2. Qed.

Lemma populate_contract_validated pacto p lr c keys :
  fresh_status pacto p → validated pacto (populate_contract p lr c keys).
Proof.
  intros Hf. pose proof (fresh_unique _ _ Hf) as Hu. destruct Hf as [Hso Hnil].
  set (p1 := setCondition ConditionContractValid ConditionTrue ReasonContractParsed
    ("Contract " +:+ si_Name (c_Service c) +:+ " v" +:+ si_Version (c_Service c) +:+
     " is valid") p).
  assert (conditions (populate_contract p lr c keys) = conditions p1) as Hc
    by (unfold populate_contract, Status.mark_overridden, Status.populateContractStatus,
          conditions; cbn; by repeat case_match).
  constructor; [by etrans| | |].
  - rewrite Hc. by apply setCondition_unique.
  - intros d. rewrite Hc. unfold p1. rewrite elem_of_set_conditions by done. rewrite Hnil.
    intros [->|[Hd _]]; [by left|by apply elem_of_nil in Hd].
  - eexists. unfold condition_of. rewrite Hc. split; [by apply condition_of_set_eq|done].
Qed.

Lemma reconcileReadiness_validated pacto p c unmet (s : RState W L) :
  validated pacto p →
  ∃ p' s', Readiness.reconcileReadiness p c unmet s = (Ret p', s') ∧ validated pacto p' ∧
    st_world s' = st_world s.
Proof.
  intros Hva. rewrite Readiness.reconcileReadiness_run.
  destruct (readiness_Evaluate _ _) as [eval|]; [|by exists p, s].
  eexists _, _. split; [done|]. split; [|done]. unfold Readiness.assessed.
  destruct (Readiness.readinessCondition eval) as [[status reason] msg].
  destruct (validated_same pacto p
    (set_Readiness_ (Some (Readiness.buildReadinessStatus eval (c_Readiness c))))
    ltac:(done) Hva) as [Hso Hu Hi (d & Hd & Ht)].
  constructor; [done|by apply setCondition_unique| |].
  - intros x. rewrite elem_of_set_conditions by done.
    intros [->|[Hx _]]; [by right|by apply Hi].
  - exists d. by rewrite condition_of_set_ne.
Qed.

Lemma reset_fresh pacto : fresh_status pacto (Status.resetDerivedStatus pacto).
Proof. done. Qed.

End validated.

Section target.
Context `{UnicodeTables} `{ConditionStoreLaws} {W L : Type} `{!Clock W} `{!KubeClient W}
  `{!Prober.HTTPTransport W} `{!RevisionLaws W} `{!NetworkFrame W}.
Context `{!ContractLoader W L} (F : W → Prop) (HF : quiet L F).

Lemma reconcile_target_ends (B : Prop) G pacto p c (s : RState W L) :
  G (revisions (st_world s)) → F (st_world s) →
  validated pacto p → ends F B G (well_formed pacto) (reconcile_target p c s).
Proof.
  intros HG Hs Hva. unfold reconcile_target.
  rewrite (IsReference_same p pacto) by apply Hva.
  destruct (IsReference pacto) eqn:Href.
  { apply finishReconciliation_ends; [done..|]. by apply reference_well_formed. }
  destruct (ResolvedWorkload p) as [wn wk]. cbv zeta. rewrite M_bind_unfold. cbn [ask gets].
  destruct (Observer.Observe _ _ _ _ _) as [snap|err].
  - set (p1 := observed_runtime snap p).
    assert (validated pacto p1) as Hva1
      by (subst p1; unfold observed_runtime; case_match; [by apply validated_same|done]).
    rewrite M_bind_unfold.
    destruct (Verdict.runtime_part_run p1 c snap
      (bool_decide (tr_ServiceName (sp_Target (p_Spec p)) ≠ ""))
      (tr_ServiceName (sp_Target (p_Spec p))) wn wk s)
      as (p' & checks & s' & -> & (probes & Hch & Hsub) & Hsum & _ & Hu' & Hrec
          & (Hreq & _) & Hso'); [apply Hva1|].
    cbv beta iota. apply finishReconciliation_ends.
    + by rewrite (requests_frame _ _ Hreq).
    + by apply (requests_quiet F _ _ HF Hreq).
    + by eapply runtime_well_formed.
  - rewrite M_bind_unfold. cbn [emit modify]. apply finishReconciliation_ends; [done..|].
    by apply unobserved_well_formed.
Qed.

End target.

(** ** The whole loop *)

Section whole.
Context `{UnicodeTables} `{PactoLib} `{GoMaps} `{ConditionStoreLaws}
  `{Credentials.DockerConfigCodec}.
Context {W L : Type} `{!Clock W} `{!KubeClient W} `{!ContractLoader W L}
  `{!Prober.HTTPTransport W} `{!RevisionLaws W} `{!NetworkFrame W}
  `{!ContractLoaderLaws W L} `{!LoaderFrame W L}.
Context (F : W → Prop) (HF : quiet L F).

(** All tags are synchronised: the reference is set and has no digest. *)
Definition syncs_tags (pacto : Pacto) : Prop :=
  OCI (sp_ContractRef (p_Spec pacto)) ≠ "" ∧
  Contains (OCI (sp_ContractRef (p_Spec pacto))) "@" = false.

Lemma reconcile_revisions_run pacto p lr auth (s : RState W L) :
  validated pacto p → F (st_world s) →
  ∃ o s', reconcile_revisions p lr auth s = (o, s') ∧
    grown pacto (revisions (st_world s)) (revisions (st_world s')) ∧ F (st_world s') ∧
    match o with
    | Panic _ => syncs_tags pacto
    | Ret p' => validated pacto p'
    end.
Proof.
  intros Hva Hs. pose proof (va_object _ _ Hva) as Hso.
  pose proof Hso as (_ & _ & _ & Hspec).
  unfold reconcile_revisions, syncs_tags. rewrite M_bind_unfold.
  pose proof (Revisions.ensureRevision_keeps F HF p lr s Hs) as Hs1.
  destruct (Revisions.ensureRevision_run p lr s) as (r & s1 & Hrun & Hens).
  rewrite Hrun in Hs1 |- *. cbn [snd] in Hs1.
  apply Revisions.ensured_grown, (Revisions.grown_same p pacto) in Hens; [|done].
  cbv beta iota.
  set (p1 := match r with Ok n => _ | Err _ => p end).
  assert (validated pacto p1) as Hva1
    by (subst p1; destruct r; [by apply validated_same|done]).
  assert (same_object p1 pacto) as Hso1 by apply Hva1.
  pose proof Hso1 as (_ & _ & _ & Hspec1).
  rewrite M_bind_unfold, Hspec1. destruct (_ && _) eqn:Hsync.
  - reflect_bools. rewrite M_bind_unfold.
    pose proof (Revisions.syncAllRevisions_grown p1
      (OCI (sp_ContractRef (p_Spec pacto))) auth s1) as Hg.
    pose proof (Revisions.syncAllRevisions_keeps F HF p1
      (OCI (sp_ContractRef (p_Spec pacto))) auth s1 Hs1) as Hs2.
    destruct (Revisions.syncAllRevisions _ _ _ s1) as [[o|msg] s2]; cbn [snd] in Hg, Hs2.
    all: apply (Revisions.grown_same p1 pacto) in Hg; [|done].
    all: eexists _, s2; by split_and!; [|etrans|..].
  - by eexists _, s1.
Qed.

Lemma reconcile_contract_ends pacto p unmet auth lr c keys (s : RState W L) :
  fresh_status pacto p → F (st_world s) →
  ends F (syncs_tags pacto) (grown pacto (revisions (st_world s))) (well_formed pacto)
    (reconcile_contract p unmet auth lr c keys s).
Proof.
  intros Hf Hs. unfold reconcile_contract. cbv zeta. case_bool_decide.
  { apply failReconciliation_ends; [done..|].
    apply failed_well_formed; [by destruct Hf|by apply (fresh_unique pacto p)]. }
  rewrite M_bind_unfold.
  match goal with |- context [Readiness.reconcileReadiness ?p1 ?c1 ?u ?s1] =>
    destruct (reconcileReadiness_validated pacto p1 c1 u s1) as (p2 & s2 & -> & Hva & Hw) end.
  { by apply populate_contract_validated. }
  cbv beta iota. rewrite M_bind_unfold.
  rewrite <- Hw in Hs.
  destruct (reconcile_revisions_run pacto p2 lr auth s2 Hva Hs) as (o & s3 & -> & Hg & Hs3 & Ho).
  rewrite Hw in Hg.
  destruct o as [p3|msg]; [by apply reconcile_target_ends|]. left. eauto 6.
Qed.

Lemma reconcile_load_ends pacto p unmet auth (s : RState W L) :
  fresh_status pacto p → F (st_world s) →
  ends F (syncs_tags pacto) (grown pacto (revisions (st_world s))) (well_formed pacto)
    (reconcile_load p unmet auth s).
Proof.
  intros Hf Hs. unfold reconcile_load. cbv zeta.
  set (p1 := with_status _ p).
  assert (fresh_status pacto p1) as Hf1 by done.
  rewrite M_bind_unfold.
  match goal with |- context [on_loader (cl_Load ?o ?i ?a) s] =>
    destruct (Revisions.load_run o i a s) as (r & w' & l' & -> & Hload & Hw);
    pose proof (quiet_load F HF o i a _ (st_loader s) Hs) as Hs' end.
  rewrite Hload in Hs'.
  assert (∀ msg v t, well_formed pacto (stamp t (failed_pacto msg v p1))) as Hfail
    by (intros; apply failed_well_formed; [by destruct Hf1|by apply (fresh_unique pacto p1)]).
  rewrite <- Hw. cbv beta iota.
  destruct r as [lr|err]; [|by apply failReconciliation_ends].
  match goal with |- context [match ?a with Ok _ => _ | Err _ => _ end] =>
    destruct a as [[c keys]|e] end; [|by apply failReconciliation_ends].
  by apply (reconcile_contract_ends pacto p1 unmet auth lr c keys
    (mkRState w' l' (st_events s) (st_metrics s))).
Qed.

Lemma reconcile_reset_ends pacto p unmet (s : RState W L) :
  fresh_status pacto p → F (st_world s) →
  ends F (syncs_tags pacto) (grown pacto (revisions (st_world s))) (well_formed pacto)
    (reconcile_reset p unmet s).
Proof.
  intros Hf Hs. unfold reconcile_reset. cbv zeta.
  case_bool_decide; [|by apply reconcile_load_ends].
  rewrite M_bind_unfold. unfold resolveOCIAuth at 1. rewrite M_bind_unfold. cbn [ask gets].
  match goal with |- context [mret ?r s] => change (mret (M := M (RState W L)) r s) with (Ret r, s); destruct r end.
  all: cbv beta iota.
  - by apply reconcile_load_ends.
  - apply failReconciliation_ends; [done..|].
    apply failed_well_formed; [by destruct Hf|by apply (fresh_unique pacto p)].
Qed.

Lemma Reconcile_ends namespace name pacto (s : RState W L) :
  Get_Pacto namespace name (st_world s) = Ok pacto → F (st_world s) →
  ends F (syncs_tags pacto) (grown pacto (revisions (st_world s))) (well_formed pacto)
    (Reconcile namespace name s).
Proof.
  intros Hget Hs. unfold Reconcile. rewrite M_bind_unfold. cbn [ask gets]. rewrite Hget.
  by apply reconcile_reset_ends.
Qed.

End whole.

Section theorems.
Context `{UnicodeTables} `{PactoLib} `{GoMaps} `{ConditionStoreLaws}
  `{Credentials.DockerConfigCodec}.
Context {W L : Type} `{!Clock W} `{!KubeClient W} `{!ContractLoader W L}
  `{!Prober.HTTPTransport W} `{!RevisionLaws W} `{!NetworkFrame W}
  `{!ContractLoaderLaws W L} `{!LoaderFrame W L}.

Lemma Reconcile_missing namespace name e (s : RState W L) :
  Get_Pacto namespace name (st_world s) = Err e →
  Reconcile namespace name s = (Ret (if IsNotFound e then Ok 0 else Err e), s).
Proof.
  intros Hget. unfold Reconcile. rewrite M_bind_unfold. cbn [ask gets]. rewrite Hget.
  by destruct (IsNotFound e).
Qed.

Lemma quiet_True : quiet (W := W) L (λ _, True).
Proof. by constructor. Qed.

(** C1 (invariant). Every reconcile of an existing Pacto ends by writing one well-formed
    status: of the same object and its observed generation, with one of the five contract
    statuses, at most one condition per type, a summary that adds up (and counts no failure
    when the status is Compliant), a ContractValid condition that is only false for
    NonCompliant, Reference only for references, and Compliant only with every condition
    true. When the write succeeds the next reconcile is scheduled and the metrics show the
    status written; when it fails its error is returned. The only way not to get there is a
    panic, possible only for a Pacto whose tags are synchronised. Either way no stored
    revision was lost or rewritten, and new ones belong to the Pacto. A missing Pacto is not
    an error, and nothing is done. *)
Theorem Reconcile_writes_well_formed namespace name (s : RState W L) :
  match Get_Pacto namespace name (st_world s) with
  | Err e => Reconcile namespace name s =
               (Ret (if IsNotFound e then Ok 0 else Err e), s)
  | Ok pacto =>
      finishes (syncs_tags pacto) (grown pacto (revisions (st_world s))) (well_formed pacto)
        (Reconcile namespace name s)
  end.
Proof.
  destruct (Get_Pacto namespace name (st_world s)) as [pacto|e] eqn:Hget.
  - apply (ends_finishes (λ _, True)).
    by apply (Reconcile_ends (λ _, True) quiet_True).
  - by apply Reconcile_missing.
Qed.

(** Why the contract of a Pacto cannot be loaded: its pull secret is of no use, or the
    loader fails with the credentials of the Pacto. With the message, the validation result
    that reports it, and what the attempt left behind. *)
Inductive cannot_load (pacto : Pacto) (s : RState W L)
    : string → ValidationResult → W → L → Prop :=
| no_credentials e :
    credentials pacto (st_world s) = Err e →
    cannot_load pacto s
      ("failed to read pull secret " +:+ Quote (PullSecretRef (sp_ContractRef (p_Spec pacto)))
       +:+ ": " +:+ err_text e)
      (issue "spec.contractRef.pullSecretRef" (err_text e)) (st_world s) (st_loader s)
| load_fails a e w' l' :
    credentials pacto (st_world s) = Ok a →
    cl_Load (OCI (sp_ContractRef (p_Spec pacto))) (Inline (sp_ContractRef (p_Spec pacto))) a
      (st_world s, st_loader s) = (Ret (Err e), (w', l')) →
    cannot_load pacto s (err_text e) (issue "" (err_text e)) w' l'.

(** What [failReconciliation] does, as one expression. *)
Lemma failReconciliation_run p msg v (s : RState W L) :
  failReconciliation p msg v None s =
  (let p' := stamp (now (st_world s)) (failed_pacto msg v p) in
   let '(statusErr, w') := Update_Pacto_Status p' (st_world s) in
   match statusErr with
   | Some err => (Ret (Err err), mkRState w' (st_loader s) (st_events s) (st_metrics s))
   | None =>
       (Ret (Ok (Status.requeueInterval p)),
        mkRState w' (st_loader s)
          (st_events s ++ [mkEvent (p_Namespace p, p_Name p) EventTypeWarning
                             "ContractInvalid" msg])
          (st_metrics s ++ Metrics.RecordContractStatus (p_Namespace p) (p_Name p)
             ContractStatusNonCompliant))
   end).
Proof.
  unfold failReconciliation. cbv zeta. rewrite M_bind_unfold. cbn [ask gets].
  rewrite M_bind_unfold. unfold kube, Kube.on_world, zoom, lift_op. cbn [fst snd].
  fold (failed_pacto msg v p).
  by destruct (Update_Pacto_Status _ _) as [[err|] w'']; cbn [fst snd].
Qed.

(** The reset stage reads the credentials, and fails or loads with them. *)
Lemma reconcile_reset_run p u (s : RState W L) :
  reconcile_reset p u s =
  match credentials p (st_world s) with
  | Err e => failReconciliation p
      ("failed to read pull secret " +:+ Quote (PullSecretRef (sp_ContractRef (p_Spec p)))
       +:+ ": " +:+ err_text e)
      (issue "spec.contractRef.pullSecretRef" (err_text e)) None s
  | Ok a => reconcile_load p u a s
  end.
Proof.
  unfold reconcile_reset, credentials, resolveOCIAuth. cbv zeta.
  case_bool_decide; [|done]. rewrite !M_bind_unfold. cbn [ask gets].
  destruct (Get_Secret _ _ _) as [secret|e]; [|done]. cbn.
  by destruct (Credentials.FromSecret _ _) as [auth|e].
Qed.

(** Up to the failure nothing but the loader has been called. *)
Lemma cannot_load_run namespace name (s : RState W L) pacto msg v w' l' :
  Get_Pacto namespace name (st_world s) = Ok pacto → cannot_load pacto s msg v w' l' →
  ∃ p1, Reconcile namespace name s =
      failReconciliation p1 msg v None (mkRState w' l' (st_events s) (st_metrics s)) ∧
    same_object p1 pacto ∧ conditions p1 = [].
Proof.
  intros Hget Hcannot.
  assert (s = mkRState (st_world s) (st_loader s) (st_events s) (st_metrics s)) as Es
    by by destruct s.
  set (p0 := Status.resetDerivedStatus pacto).
  set (p1 := with_status (set_ResolutionPolicy
    (Status.resolutionPolicy (OCI (sp_ContractRef (p_Spec pacto))))) p0).
  unfold Reconcile. rewrite M_bind_unfold. cbn [ask gets]. rewrite Hget. cbv zeta.
  rewrite reconcile_reset_run. fold p0.
  change (credentials p0 (st_world s)) with (credentials pacto (st_world s)).
  destruct Hcannot as [e Hc|a e w' l' Hc Hl]; rewrite Hc.
  - exists p0. by rewrite <- Es.
  - exists p1. split; [|done]. unfold reconcile_load. cbv zeta.
    change (p_Spec p0) with (p_Spec pacto).
    rewrite M_bind_unfold. unfold on_loader, zoom. by rewrite Hl.
Qed.

(** C27 (error). When the contract cannot be loaded, be it that the pull secret of the Pacto
    cannot be read or used, or that the loader fails (with the credentials of that secret,
    or without any if the Pacto names none), the reconcile does nothing but report it: the
    one write says NonCompliant, with a false ContractValid condition carrying the message,
    one failed check out of one and the error as validation error; if the write succeeds, a
    ContractInvalid warning is recorded and the next reconcile is scheduled at the configured
    interval instead of being retried with back-off. *)
Theorem Reconcile_reports_load_failure namespace name (s : RState W L) pacto msg v w' l' :
  Get_Pacto namespace name (st_world s) = Ok pacto → cannot_load pacto s msg v w' l' →
  ∃ p', Reconcile namespace name s =
    (let '(statusErr, w'') := Update_Pacto_Status p' w' in
     match statusErr with
     | Some err => (Ret (Err err), mkRState w'' l' (st_events s) (st_metrics s))
     | None =>
         (Ret (Ok (Status.requeueInterval pacto)),
          mkRState w'' l'
            (st_events s ++ [mkEvent (p_Namespace pacto, p_Name pacto) EventTypeWarning
                               "ContractInvalid" msg])
            (st_metrics s ++ Metrics.RecordContractStatus (p_Namespace pacto) (p_Name pacto)
               ContractStatusNonCompliant))
     end) ∧
    same_object p' pacto ∧
    ContractStatus (p_Status p') = ContractStatusNonCompliant ∧
    Summary (p_Status p') =
      Some {| V1alpha1.Total := 1; V1alpha1.Passed := 0; V1alpha1.Failed := 1 |} ∧
    Validation (p_Status p') = Some v ∧
    ∃ d, condition_of p' ConditionContractValid = Some d ∧
      cond_Status d = ConditionFalse ∧ cond_Message d = msg ∧
      ∀ d', d' ∈ conditions p' → d' = d.
Proof.
  intros Hget Hcannot.
  destruct (cannot_load_run namespace name s pacto msg v w' l' Hget Hcannot)
    as (p1 & Hrun & Hso & Hnil).
  exists (stamp (now w') (failed_pacto msg v p1)).
  destruct (failed_pacto_condition (now w') msg v p1 Hnil) as (d & Hd & Hst & Hmsg & Honly).
  split; [|split_and!; [exact Hso|done..|]; exists d; by split_and!].
  rewrite Hrun, failReconciliation_run. cbv zeta. cbn [st_world st_loader st_events st_metrics].
  destruct Hso as (Hn & Hns & _ & Hspec). unfold Status.requeueInterval.
  by rewrite Hn, Hns, Hspec.
Qed.

End theorems.

(** *** Witnesses on the in-memory cluster *)

Section examples.
Import Cluster.

Definition run (loader : ContractLoader cluster unit) : outcome (result Z) * RState cluster unit :=
  @Reconcile latin1_tables example_lib canonical_order list_store Credentials.example_codec
    cluster unit cluster_clock cluster_client loader cluster_network "prod" "api" small_state.

Lemma Reconcile_writes_well_formed_witness :
  @finishes cluster unit cluster_client cluster_laws (syncs_tags example_pacto)
    (grown example_pacto ∅) (@well_formed list_store example_pacto)
    (run (fixed_loader (Ok loaded) ["1.0.0"])).
Proof.
  apply (@Reconcile_writes_well_formed latin1_tables example_lib canonical_order list_store
    list_store_laws Credentials.example_codec cluster unit cluster_clock cluster_client
    (fixed_loader (Ok loaded) ["1.0.0"]) cluster_network cluster_laws cluster_network_frame
    (fixed_loader_laws _ _) (fixed_loader_frame _ _) "prod" "api" small_state).
Defined.

Lemma Reconcile_reports_load_failure_witness :
  ∃ p', run (fixed_loader (Err (Errorf "no such image")) []) =
      (Ret (Ok (Status.requeueInterval example_pacto)),
       mkRState (Update_Pacto_Status (KubeClient := cluster_client) p' small_cluster).2 tt
         [mkEvent ("prod", "api") EventTypeWarning "ContractInvalid" "no such image"]
         (Metrics.RecordContractStatus "prod" "api" ContractStatusNonCompliant)) ∧
    ContractStatus (p_Status p') = ContractStatusNonCompliant.
Proof.
  destruct (@Reconcile_reports_load_failure latin1_tables example_lib canonical_order
    list_store list_store_laws Credentials.example_codec cluster unit cluster_clock
    cluster_client (fixed_loader (Err (Errorf "no such image")) []) cluster_network
    cluster_laws cluster_network_frame (fixed_loader_laws _ _) (fixed_loader_frame _ _)
    "prod" "api" small_state example_pacto "no such image" (issue "" "no such image")
    small_cluster tt eq_refl
    (load_fails (ContractLoader0 := fixed_loader (Err (Errorf "no such image")) [])
      example_pacto small_state None (Errorf "no such image") small_cluster tt
      eq_refl eq_refl)) as (p' & Hrun & (Hn & Hns & _) & Hst & _).
  exists p'. split; [|exact Hst]. unfold run. rewrite Hrun.
  cbn [Update_Pacto_Status cluster_client]. unfold update_pacto. rewrite Hn, Hns.
  reflexivity.
Defined.

(** The workload does not exist, so the stored Pacto is NonCompliant; the revision of the
    contract has been created. *)
Example run_ex :
  let s' := (run (fixed_loader (Ok loaded) ["1.0.0"])).2 in
  (ContractStatus ∘ p_Status <$> cl_pactos (st_world s') !! ("prod", "api")) =
    Some ContractStatusNonCompliant ∧
  size (cl_revisions (st_world s')) = 1%nat ∧
  (ev_Reason <$> st_events s') = ["RevisionCreated"; "ValidationFailed"].
Proof. vm_compute. auto. Qed.
End examples.

End Reconcile.
