(* ===== verification/Isolation.v ===== *)
(** * Contracts with credentials are reconciled in isolation

    A Pacto with a pull secret may name an artefact that others must not see, and the
    loader is shared by all workers. [Reconcile] on the loader of [internal/loader] asks the
    registry with the credentials of this Pacto only, in whatever it loads (the contract,
    the list of its tags, the contract of every tag), and with a pull secret it neither
    reads the shared caches nor leaves anything in them. Both are statements about two runs:
    the proof is a relational logic of computations on two loaders, in the style of the
    noninterference proofs of programming languages. *)

From S2P Require Import Prelude GoStrings GoMaps GoFmt Contract V1alpha1 Conditions.
From S2P Require Import Observer Images Validator Credentials Prober Metrics Loader.
From S2P Require Import Overrides Kube Cluster Readiness Status Verdict Revisions Reconcile.
From stdpp Require Import options.
#[local] Set Default Proof Using "Type*".

Module Isolation.
Import Reconcile.
Import Credentials(AuthConfig).

(** ** Runs on two loaders *)

Definition with_loader {W L} (l : L) (s : RState W L) : RState W L :=
  mkRState (st_world s) l (st_events s) (st_metrics s).

Lemma with_own_loader {W L} (s : RState W L) : with_loader (st_loader s) s = s.
Proof. by destruct s. Qed.

Section relation.
Context {W L : Type} (R : L → L → Prop).
Implicit Types s : RState W L.

(** From the same state up to related loaders, both computations have the same outcome and
    end in the same state, up to related loaders. *)
Definition unaware {A} (m k : M (RState W L) A) : Prop :=
  ∀ s l, R (st_loader s) l →
    ∃ l', k (with_loader l s) = ((m s).1, with_loader l' (m s).2) ∧
          R (st_loader (m s).2) l'.

Lemma unaware_ret {A} (a : A) : unaware (mret a) (mret a).
Proof. intros s l HR. by exists l. Qed.

Lemma unaware_panic {A} msg : unaware (panic (A := A) msg) (panic msg).
Proof. intros s l HR. by exists l. Qed.

Lemma unaware_bind {A B} (m k : M (RState W L) A) (f g : A → M (RState W L) B) :
  unaware m k → (∀ a, unaware (f a) (g a)) → unaware (m ≫= f) (k ≫= g).
Proof.
  intros Hm Hf s l HR. destruct (Hm s l HR) as (l1 & Hk & HR1).
  rewrite !M_bind_unfold, Hk. destruct (m s) as [[a|msg] s1]; cbn [fst snd] in *.
  - by apply Hf.
  - by exists l1.
Qed.

Lemma unaware_ask {A} (f : W → A) : unaware (ask f) (ask f).
Proof. intros s l HR. by exists l. Qed.

Lemma unaware_kube {A} (f : W → A * W) : unaware (kube f) (kube f).
Proof. intros s l HR. by exists l. Qed.

Lemma unaware_on_world {A} (m : M W A) : unaware (on_world m) (on_world m).
Proof.
  intros s l HR. exists l. unfold on_world, zoom. cbn. by destruct (m (st_world s)).
Qed.

Lemma unaware_emit p typ r msg : unaware (emit p typ r msg) (emit p typ r msg).
Proof. intros s l HR. by exists l. Qed.

Lemma unaware_record ms : unaware (record ms) (record ms).
Proof. intros s l HR. by exists l. Qed.

Lemma unaware_for_range {A} (f g : A → M (RState W L) unit) l :
  (∀ a, unaware (f a) (g a)) → unaware (for_range f l) (for_range g l).
Proof.
  intros Hf. induction l as [|a l IH]; [apply unaware_ret|].
  apply unaware_bind; [apply Hf|by intros _].
Qed.

(** A call of the loader, on the world and on either loader. *)
Lemma unaware_on_loader {A} (m k : M (W * L) A) :
  (∀ w l1 l2, R l1 l2 → ∃ l1' l2', R l1' l2' ∧
     m (w, l1) = ((m (w, l1)).1, ((m (w, l1)).2.1, l1')) ∧
     k (w, l2) = ((m (w, l1)).1, ((m (w, l1)).2.1, l2'))) →
  unaware (on_loader m) (on_loader k).
Proof.
  intros Hmk s l HR.
  destruct (Hmk (st_world s) _ _ HR) as (l1' & l2' & HR' & Hm & Hk). exists l2'.
  unfold on_loader, zoom. cbn [with_loader st_world st_loader]. by rewrite Hk, Hm.
Qed.
End relation.

(** In particular, two calls that agree. *)
Lemma on_loader_unaware {W L A} (m k : M (W * L) A) :
  (∀ s, m s = k s) → unaware eq (on_loader m) (on_loader k).
Proof.
  intros Hmk. apply unaware_on_loader. intros w l ? <-.
  exists (m (w, l)).2.2, (m (w, l)).2.2. rewrite <- Hmk.
  by destruct (m (w, l)) as [o [w' l']].
Qed.

#[local] Ltac in_step :=
  repeat first
    [ apply unaware_ret | apply unaware_panic | apply unaware_ask | apply unaware_kube
    | apply unaware_on_world | apply unaware_emit | apply unaware_record
    | apply unaware_for_range; intros ?
    | solve [auto with unaware]
    | apply unaware_bind; [|intros ?]
    | progress cbv zeta
    | match goal with
      | |- unaware _ (match ?x with _ => _ end) _ => destruct x
      end ].

Create HintDb unaware discriminated.

(** ** The handlers

    What does not call the loader cannot tell two of them apart; the rest is the same code
    on two implementations of the loader's interface, of which the calls with the
    credentials [a] are unaware of the difference. *)

Section code.
Context `{UnicodeTables} `{PactoLib} `{GoMaps} `{ConditionStore}.
Context {W L : Type} `{!Clock W} `{!KubeClient W} `{!Prober.HTTPTransport W}
  (R : L → L → Prop).

Lemma ensureRevision_unaware p lr :
  unaware R (Revisions.ensureRevision (W := W) (L := L) p lr) (Revisions.ensureRevision p lr).
Proof. unfold Revisions.ensureRevision. in_step. Qed.

Lemma reconcileReadiness_unaware p c b :
  unaware R (Readiness.reconcileReadiness (W := W) (L := L) p c b)
    (Readiness.reconcileReadiness p c b).
Proof. unfold Readiness.reconcileReadiness, Readiness.emit_transition. in_step. Qed.

Lemma probe_and_apply_unaware pr spec p cs :
  unaware R (Verdict.probe_and_apply (W := W) (L := L) pr spec p cs)
    (Verdict.probe_and_apply pr spec p cs).
Proof. unfold Verdict.probe_and_apply, Verdict.probeOneEndpoint. in_step. Qed.
#[local] Hint Resolve probe_and_apply_unaware : unaware.

Lemma runtime_part_unaware p c snap hs svc wn wk :
  unaware R (Verdict.runtime_part (W := W) (L := L) p c snap hs svc wn wk)
    (Verdict.runtime_part p c snap hs svc wn wk).
Proof. unfold Verdict.runtime_part, Verdict.probeEndpoints. in_step. Qed.

Lemma record_outcome_unaware p c cs :
  unaware R (record_outcome (W := W) (L := L) p c cs) (record_outcome p c cs).
Proof. unfold record_outcome. in_step. Qed.
#[local] Hint Resolve record_outcome_unaware : unaware.

Lemma failReconciliation_unaware p msg v c :
  unaware R (failReconciliation (W := W) (L := L) p msg v c) (failReconciliation p msg v c).
Proof. unfold failReconciliation. in_step. Qed.

Lemma finishReconciliation_unaware p c cs :
  unaware R (finishReconciliation (W := W) (L := L) p c cs) (finishReconciliation p c cs).
Proof. unfold finishReconciliation. in_step. Qed.
#[local] Hint Resolve runtime_part_unaware finishReconciliation_unaware : unaware.

Lemma reconcile_target_unaware p c :
  unaware R (reconcile_target (W := W) (L := L) p c) (reconcile_target p c).
Proof. unfold reconcile_target. in_step. Qed.

End code.

#[local] Hint Resolve ensureRevision_unaware reconcileReadiness_unaware
  failReconciliation_unaware reconcile_target_unaware : unaware.

Section handlers.
Context `{UnicodeTables} `{PactoLib} `{GoMaps} `{ConditionStore}
  `{Credentials.DockerConfigCodec}.
Context {W L : Type} `{!Clock W} `{!KubeClient W} `{!Prober.HTTPTransport W}.
Context (C1 C2 : ContractLoader W L) (R : L → L → Prop) (a : option AuthConfig).
Hypothesis load_unaware : ∀ o i,
  unaware R (on_loader (cl_Load (ContractLoader := C1) o i a))
    (on_loader (cl_Load (ContractLoader := C2) o i a)).
Hypothesis tags_unaware : ∀ o,
  unaware R (on_loader (cl_ListTags (ContractLoader := C1) o a))
    (on_loader (cl_ListTags (ContractLoader := C2) o a)).

#[local] Hint Resolve load_unaware tags_unaware : unaware.

Lemma sync_tag_unaware p ref tag :
  unaware R (Revisions.sync_tag (ContractLoader0 := C1) p ref a tag)
    (Revisions.sync_tag (ContractLoader0 := C2) p ref a tag).
Proof. unfold Revisions.sync_tag. in_step. Qed.
#[local] Hint Resolve sync_tag_unaware : unaware.

Lemma syncAllRevisions_unaware p ref :
  unaware R (Revisions.syncAllRevisions (ContractLoader0 := C1) p ref a)
    (Revisions.syncAllRevisions (ContractLoader0 := C2) p ref a).
Proof. unfold Revisions.syncAllRevisions. in_step. Qed.
#[local] Hint Resolve syncAllRevisions_unaware : unaware.

Lemma reconcile_revisions_unaware p lr :
  unaware R (reconcile_revisions (ContractLoader0 := C1) p lr a)
    (reconcile_revisions (ContractLoader0 := C2) p lr a).
Proof. unfold reconcile_revisions. in_step. Qed.
#[local] Hint Resolve reconcile_revisions_unaware : unaware.

Lemma reconcile_contract_unaware p b lr c keys :
  unaware R (reconcile_contract (ContractLoader0 := C1) p b a lr c keys)
    (reconcile_contract (ContractLoader0 := C2) p b a lr c keys).
Proof. unfold reconcile_contract. in_step. Qed.
#[local] Hint Resolve reconcile_contract_unaware : unaware.

Lemma reconcile_load_unaware p b :
  unaware R (reconcile_load (ContractLoader0 := C1) p b a)
    (reconcile_load (ContractLoader0 := C2) p b a).
Proof. unfold reconcile_load. in_step. Qed.
End handlers.

(** ** The loader of the operator *)

(** Two registry clients that answer alike to one keychain. *)
Record agree_on {W} (kc : Loader.Keychain) (c1 c2 : Loader.OCIClient W) : Prop := {
  agree_ref ref w : Loader.oci_ResolveRef (OCIClient := c1) kc ref w =
                    Loader.oci_ResolveRef (OCIClient := c2) kc ref w;
  agree_pull ref w : Loader.client_Pull (OCIClient := c1) kc ref w =
                     Loader.client_Pull (OCIClient := c2) kc ref w;
  agree_digest ref w : Loader.client_Resolve (OCIClient := c1) kc ref w =
                       Loader.client_Resolve (OCIClient := c2) kc ref w;
  agree_tags ref w : Loader.client_ListTags (OCIClient := c1) kc ref w =
                     Loader.client_ListTags (OCIClient := c2) kc ref w
}.

Section registry.
Context `{UnicodeTables} `{PactoLib} {W : Type} `{!Clock W} (c1 c2 : Loader.OCIClient W).

Lemma loadUncached_agree o i a (w : W) :
  agree_on (Loader.effectiveKeychain a) c1 c2 →
  Loader.loadUncached (OCIClient0 := c1) o i a w =
  Loader.loadUncached (OCIClient0 := c2) o i a w.
Proof.
  intros [Href Hpull Hdigest _].
  unfold Loader.loadUncached, Loader.Pull. cbv zeta. repeat case_bool_decide; try done.
  rewrite !M_bind_unfold. unfold lift_op. rewrite Href.
  destruct (Loader.oci_ResolveRef _ _ w) as [r w1]. cbn [fst snd].
  rewrite !M_bind_unfold, Hpull. destruct (Loader.client_Pull _ _ w1) as [[b|e] w2]; cbn; [|done].
  by rewrite !M_bind_unfold, Hdigest.
Qed.

Lemma OCIPuller_ListTags_agree o a (w : W) :
  agree_on (Loader.effectiveKeychain a) c1 c2 →
  Loader.OCIPuller_ListTags (OCIClient0 := c1) o a w =
  Loader.OCIPuller_ListTags (OCIClient0 := c2) o a w.
Proof.
  intros Hagree. unfold Loader.OCIPuller_ListTags, lift_op. cbv zeta.
  by rewrite !M_bind_unfold, (agree_tags _ _ _ Hagree).
Qed.

Lemma Load_agree o i a (s : W * Loader.Loader) :
  agree_on (Loader.effectiveKeychain a) c1 c2 →
  Loader.Load (OCIClient0 := c1) o i a s = Loader.Load (OCIClient0 := c2) o i a s.
Proof.
  intros Hagree. unfold Loader.Load, Loader.on_world, zoom. destruct a as [auth|].
  - by rewrite (loadUncached_agree _ _ _ _ Hagree).
  - cbv zeta. rewrite !M_bind_unfold. cbn [gets]. destruct (Loader.cached _ _ _); [done|].
    by rewrite !M_bind_unfold, (loadUncached_agree _ _ _ _ Hagree).
Qed.

Lemma ListTags_agree o a (s : W * Loader.Loader) :
  agree_on (Loader.effectiveKeychain a) c1 c2 →
  Loader.ListTags (OCIClient0 := c1) o a s = Loader.ListTags (OCIClient0 := c2) o a s.
Proof.
  intros Hagree. unfold Loader.ListTags, Loader.on_world, zoom. case_bool_decide; [done|].
  destruct a as [auth|].
  - by rewrite (OCIPuller_ListTags_agree _ _ _ Hagree).
  - cbv zeta. rewrite !M_bind_unfold. cbn [gets]. destruct (Loader.cached _ _ _); [done|].
    by rewrite !M_bind_unfold, (OCIPuller_ListTags_agree _ _ _ Hagree).
Qed.

(** With credentials, neither cache is read nor written. *)
Lemma Load_private o i auth (w : W) l l' :
  agree_on (Loader.effectiveKeychain (Some auth)) c1 c2 →
  Loader.Load (OCIClient0 := c1) o i (Some auth) (w, l) =
    ((Loader.Load (OCIClient0 := c1) o i (Some auth) (w, l')).1,
     ((Loader.Load (OCIClient0 := c1) o i (Some auth) (w, l')).2.1, l)) ∧
  Loader.Load (OCIClient0 := c2) o i (Some auth) (w, l) =
    ((Loader.Load (OCIClient0 := c1) o i (Some auth) (w, l')).1,
     ((Loader.Load (OCIClient0 := c1) o i (Some auth) (w, l')).2.1, l)).
Proof.
  intros Hagree. rewrite <- (Load_agree _ _ _ (w, l) Hagree).
  rewrite !(Loader.Load_auth (OCIClient0 := c1)). done.
Qed.

Lemma ListTags_private o auth (w : W) l l' :
  agree_on (Loader.effectiveKeychain (Some auth)) c1 c2 →
  Loader.ListTags (OCIClient0 := c1) o (Some auth) (w, l) =
    ((Loader.ListTags (OCIClient0 := c1) o (Some auth) (w, l')).1,
     ((Loader.ListTags (OCIClient0 := c1) o (Some auth) (w, l')).2.1, l)) ∧
  Loader.ListTags (OCIClient0 := c2) o (Some auth) (w, l) =
    ((Loader.ListTags (OCIClient0 := c1) o (Some auth) (w, l')).1,
     ((Loader.ListTags (OCIClient0 := c1) o (Some auth) (w, l')).2.1, l)).
Proof.
  intros Hagree. rewrite <- (ListTags_agree _ _ (w, l) Hagree).
  unfold Loader.ListTags, Loader.on_world, zoom. case_bool_decide; [done|]. cbn [fst snd].
  by destruct (Loader.OCIPuller_ListTags _ _ w).
Qed.

Lemma private_load_unaware l1 l2 auth o i :
  agree_on (Loader.effectiveKeychain (Some auth)) c1 c2 →
  unaware (λ x y, x = l1 ∧ y = l2)
    (on_loader (Loader.Load (OCIClient0 := c1) o i (Some auth)))
    (on_loader (Loader.Load (OCIClient0 := c2) o i (Some auth))).
Proof.
  intros Hagree. apply unaware_on_loader. intros w ? ? [-> ->]. exists l1, l2.
  split_and!; [done..| |]; by apply Load_private.
Qed.

Lemma private_tags_unaware l1 l2 auth o :
  agree_on (Loader.effectiveKeychain (Some auth)) c1 c2 →
  unaware (λ x y, x = l1 ∧ y = l2)
    (on_loader (Loader.ListTags (OCIClient0 := c1) o (Some auth)))
    (on_loader (Loader.ListTags (OCIClient0 := c2) o (Some auth))).
Proof.
  intros Hagree. apply unaware_on_loader. intros w ? ? [-> ->]. exists l1, l2.
  split_and!; [done..| |]; by apply ListTags_private.
Qed.
End registry.

(** ** Reconciles *)

Section reconcile.
Context `{UnicodeTables} `{PactoLib} `{GoMaps} `{ConditionStore}
  `{Credentials.DockerConfigCodec}.
Context {W : Type} `{!Clock W} `{!KubeClient W} `{!Prober.HTTPTransport W}.

Context (c1 c2 : Loader.OCIClient W).

(** [Reconcile] of an operator that talks to the registry through [c], with the loader of
    [internal/loader]. *)
Definition reconcile_with (c : Loader.OCIClient W) (ns n : string)
    : M (RState W Loader.Loader) (result Z) :=
  Reconcile (ContractLoader0 := loader_ContractLoader (H1 := c)) ns n.

Definition reset_with (c : Loader.OCIClient W) (p : Pacto)
    : M (RState W Loader.Loader) (result Z) :=
  reconcile_reset (ContractLoader0 := loader_ContractLoader (H1 := c))
    (Status.resetDerivedStatus p) (Readiness.readinessWasUnmet p).

Lemma reconcile_with_run c ns n p (s : RState W Loader.Loader) :
  Get_Pacto ns n (st_world s) = Ok p → reconcile_with c ns n s = reset_with c p s.
Proof.
  intros Hget. unfold reconcile_with, Reconcile. rewrite M_bind_unfold. cbn [ask gets].
  by rewrite Hget.
Qed.

Lemma reset_public p (s : RState W Loader.Loader) :
  PullSecretRef (sp_ContractRef (p_Spec p)) = "" → agree_on Loader.DefaultKeychain c1 c2 →
  reset_with c2 p s = reset_with c1 p s.
Proof.
  intros Hno Hagree. unfold reset_with, reconcile_reset.
  change (p_Spec (Status.resetDerivedStatus p)) with (p_Spec p).
  rewrite (bool_decide_eq_false_2 (_ ≠ "")) by (by intros []).
  assert (unaware eq
    (reconcile_load (ContractLoader0 := loader_ContractLoader (H1 := c1))
       (Status.resetDerivedStatus p) (Readiness.readinessWasUnmet p) None)
    (reconcile_load (ContractLoader0 := loader_ContractLoader (H1 := c2))
       (Status.resetDerivedStatus p) (Readiness.readinessWasUnmet p) None)) as Hload.
  { apply reconcile_load_unaware; intros; apply on_loader_unaware; intros;
      [by apply Load_agree|by apply ListTags_agree]. }
  destruct (Hload s (st_loader s) eq_refl) as (l' & Hrun & Hl').
  rewrite with_own_loader in Hrun. rewrite Hrun, <- Hl', with_own_loader.
  match goal with |- _ = ?run => by destruct run end.
Qed.

Lemma reset_private p l (s : RState W Loader.Loader) :
  PullSecretRef (sp_ContractRef (p_Spec p)) ≠ "" →
  (∀ a, credentials p (st_world s) = Ok a → agree_on (Loader.effectiveKeychain a) c1 c2) →
  reset_with c2 p (with_loader l s) =
    ((reset_with c1 p s).1, with_loader l (reset_with c1 p s).2) ∧
  st_loader (reset_with c1 p s).2 = st_loader s.
Proof.
  intros Hsec Hagree. unfold reset_with, reconcile_reset.
  change (p_Spec (Status.resetDerivedStatus p)) with (p_Spec p).
  change (p_Namespace (Status.resetDerivedStatus p)) with (p_Namespace p).
  rewrite (bool_decide_eq_true_2 (_ ≠ "")) by done. unfold credentials in Hagree.
  rewrite bool_decide_eq_true_2 in Hagree by done.
  unfold resolveOCIAuth. rewrite !M_bind_unfold. cbn [ask gets].
  change (st_world (with_loader l s)) with (st_world s).
  set (R := λ x y : Loader.Loader, x = st_loader s ∧ y = l).
  assert (∀ m k : M (RState W Loader.Loader) (result Z), unaware R m k → k (with_loader l s) = ((m s).1, with_loader l (m s).2) ∧
    st_loader (m s).2 = st_loader s) as Hdone.
  { intros m k Hmk. by destruct (Hmk s l (conj eq_refl eq_refl)) as (? & ? & ? & ->). }
  revert Hagree. destruct (Get_Secret _ _ _) as [secret|e]; cbn.
  - destruct (Credentials.FromSecret _ _) as [auth|e]; cbn; intros Hagree.
    + apply Hdone, reconcile_load_unaware; intros;
        [apply private_load_unaware|apply private_tags_unaware]; by apply Hagree.
    + apply Hdone, failReconciliation_unaware.
  - intros _. apply Hdone, failReconciliation_unaware.
Qed.

(** C10 (safety). A reconcile asks the registry with the credentials of its Pacto only: two
    registries that answer alike to the keychain with the Secret this Pacto names (to the
    operator's own keychain, if it names none) lead to the same outcome, writes, events,
    samples and caches, whatever they answer to any other credentials. With a pull secret
    it is also independent of the caches of the loader, which it leaves alone: nothing
    pulled with these credentials, be it the contract, the list of its tags or the contract
    of any tag, is there for another Pacto, and nothing pulled for others is used. *)
Theorem reconciles_isolated ns n p (s : RState W Loader.Loader) :
  Get_Pacto ns n (st_world s) = Ok p →
  (∀ a, credentials p (st_world s) = Ok a → agree_on (Loader.effectiveKeychain a) c1 c2) →
  reconcile_with c2 ns n s = reconcile_with c1 ns n s ∧
  (PullSecretRef (sp_ContractRef (p_Spec p)) ≠ "" →
   st_loader (reconcile_with c1 ns n s).2 = st_loader s ∧
   ∀ l, reconcile_with c2 ns n (with_loader l s) =
        ((reconcile_with c1 ns n s).1, with_loader l (reconcile_with c1 ns n s).2)).
Proof.
  intros Hget Hagree.
  rewrite (reconcile_with_run c1 _ _ _ _ Hget), (reconcile_with_run c2 _ _ _ _ Hget).
  destruct (decide (PullSecretRef (sp_ContractRef (p_Spec p)) = "")) as [Hno|Hsec].
  - split; [|done]. apply reset_public; [done|]. apply (Hagree None).
    unfold credentials. by rewrite (bool_decide_eq_false_2 (_ ≠ "")) by (by intros []).
  - destruct (reset_private p (st_loader s) s Hsec Hagree) as [Hrun Hl]. split; [|intros _; split].
    + rewrite with_own_loader in Hrun. rewrite Hrun, <- Hl, with_own_loader.
      by destruct (reset_with c1 p s).
    + done.
    + intros l. rewrite (reconcile_with_run c2 _ _ p (with_loader l s)) by done.
      by apply reset_private.
Qed.
End reconcile.

(** *** Witness: a private contract and a registry that shows others something else *)

Definition private_pacto : Pacto :=
  mkPacto "vault" "prod" 1
    {| sp_ContractRef := {| OCI := "oci://r/vault:1"; Inline := ""; PullSecretRef := "pull" |};
       sp_Target := {| tr_ServiceName := ""; tr_WorkloadRef := None |};
       sp_Overrides := None; sp_CheckIntervalSeconds := 0 |} empty_status.

Definition pull_secret : Credentials.Secret :=
  {| Credentials.sec_Name := "pull"; Credentials.sec_Type := "Opaque";
     Credentials.sec_Data := {[ "token" := "t0ken" ]} |}.

Definition private_cluster : Cluster.cluster :=
  Cluster.mkCluster 7 ∅ {[ ("prod", "vault") := private_pacto ]}
    {[ ("prod", "pull") := pull_secret ]} Cluster.empty_reader.

Definition private_state : RState Cluster.cluster Loader.Loader :=
  mkRState private_cluster Loader.New [] [].

(** Whoever comes without credentials is refused, or not. *)
Definition guarded_registry (public : bool) : Loader.OCIClient Cluster.cluster := {|
  Loader.oci_ResolveRef _ ref w := (Ok ref, w);
  Loader.client_Pull kc ref w :=
    (match kc with
     | Loader.DefaultKeychain =>
         if public then Ok {| Loader.bundle_Contract := example_contract "decoy";
                              Loader.bundle_RawYAML := "d"; Loader.bundle_FS := None |}
         else Err (Errorf "unauthorized")
     | Loader.MultiKeychain _ _ =>
         Ok {| Loader.bundle_Contract := example_contract "vault";
               Loader.bundle_RawYAML := "y"; Loader.bundle_FS := None |}
     end, w);
  Loader.client_Resolve _ _ w := (Ok "sha256:0123456789abcdef", w);
  Loader.client_ListTags kc _ w :=
    (match kc with
     | Loader.DefaultKeychain => Err (Errorf "unauthorized")
     | Loader.MultiKeychain _ _ => Ok ["1.0.0"; "1.1.0"]
     end, w) |}.

#[local] Existing Instances latin1_tables example_lib canonical_order list_store
  Credentials.example_codec Cluster.cluster_clock Cluster.cluster_client
  Cluster.cluster_network.

Lemma reconciles_isolated_witness :
  reconcile_with (guarded_registry true) "prod" "vault" private_state =
    reconcile_with (guarded_registry false) "prod" "vault" private_state ∧
  ("pull" ≠ "" →
   st_loader (reconcile_with (guarded_registry false) "prod" "vault" private_state).2 =
     Loader.New ∧
   ∀ l, reconcile_with (guarded_registry true) "prod" "vault" (with_loader l private_state) =
     ((reconcile_with (guarded_registry false) "prod" "vault" private_state).1,
      with_loader l (reconcile_with (guarded_registry false) "prod" "vault" private_state).2)).
Proof.
  apply (reconciles_isolated (guarded_registry false) (guarded_registry true) "prod" "vault"
    private_pacto private_state).
  - reflexivity.
  - intros a Ha. vm_compute in Ha. injection Ha as <-. split; intros; reflexivity.
Defined.

(** Contract and tags are pulled with the token, their common revision is created, and
    nothing is cached. *)
Example private_reconcile_ex :
  let '(o, s) := reconcile_with (guarded_registry false) "prod" "vault" private_state in
  o = Ret (Ok 300000000000) ∧ st_loader s = Loader.New ∧
  size (Cluster.cl_revisions (st_world s)) = 1%nat.
Proof. vm_compute. split_and!; reflexivity. Qed.

End Isolation.
