(* ===== verification/Schema.v ===== *)
(** * The published schema

    The custom resource definitions generated from the [kubebuilder] markers of
    [api/v1alpha1] are what the API server validates a write against: an object that does
    not conform is refused. This file states the constraints on the status of a Pacto and
    on the spec of a revision, and shows that the operator never writes anything else,
    given that the contract library keeps to its own vocabularies. *)

From S2P Require Import Prelude GoStrings GoMaps GoFmt Contract V1alpha1 Conditions.
From S2P Require Import Observer Images Validator Credentials Prober Metrics Loader.
From S2P Require Import Overrides Kube Cluster Readiness Status Verdict Revisions Reconcile.
From stdpp Require Import options.
#[local] Set Default Proof Using "Type*".

Module Schema.
Import Reconcile.
Import Loader(LoadResult).
Import Credentials(AuthConfig).
Import Validator(Check, Name, Passed, Reason, Checks, check_table).
Import Verdict(condition_status, set_check, applyCheck).
Import Observer(WorkloadExists, ServiceExists).

(** ** Patterns *)

(** [first (middle* last)?]: a string whose first, last and other characters are of the
    given classes. *)
Definition pattern (first middle last : ascii → bool) (s : string) : bool :=
  match String.list_ascii_of_string s with
  | [] => false
  | [c] => first c
  | c :: cs => first c && forallb middle cs &&
      match list.last cs with Some d => last d | None => false end
  end.

(** The [pattern] of [metav1.Condition.Reason], and of [metav1.Condition.Type] without a
    domain prefix. *)
Definition reason_pattern : string → bool :=
  pattern is_letter
    (λ c, is_alnum c || has_byte c "_,:")
    (λ c, is_alnum c || has_byte c "_").

Definition type_pattern : string → bool :=
  pattern is_alnum
    (λ c, is_alnum c || has_byte c "-_.") is_alnum.

(** ** The constraints *)

Definition interface_types : list string := ["http"; "grpc"; "event"].
Definition readiness_statuses : list string := ["done"; "partial"; "not-done"; "deferred"].
Definition resolution_policies : list string :=
  [ResolutionPolicyLatest; ResolutionPolicyPinnedTag; ResolutionPolicyPinnedDigest].

(** [metav1.Condition]. The schema also bounds the length of the message, by 32768
    characters. *)
Record condition_conforms (c : Condition) : Prop := {
  cc_status : cond_Status c ∈ [ConditionTrue; ConditionFalse; "Unknown"];
  cc_generation : 0 ≤ cond_ObservedGeneration c;
  cc_reason : (1 ≤ len (cond_Reason c) ≤ 1024)%nat ∧ reason_pattern (cond_Reason c) = true;
  cc_type : (len (cond_Type c) ≤ 316)%nat ∧ type_pattern (cond_Type c) = true
}.

(** [OwnerInfo] has at least one property. *)
Definition owner_conforms (o : OwnerInfo) : Prop :=
  oi_Team o ≠ "" ∨ oi_DRI o ≠ "" ∨ oi_Contacts o ≠ [].

(** [PactoStatus]; an empty string is an omitted property, which no enumeration
    concerns. *)
Record status_conforms (st : PactoStatus) : Prop := {
  st_contract_status : ContractStatus st ≠ "" → is_contract_status (ContractStatus st);
  st_policy : ResolutionPolicy st ≠ "" → ResolutionPolicy st ∈ resolution_policies;
  st_conditions c : c ∈ Conditions st → condition_conforms c;
  st_condition_types : unique_types (Conditions st);
  st_interfaces i : i ∈ Interfaces st → ii_Type i ∈ interface_types;
  st_owner ci o : Contract_ st = Some ci → ci_Owner ci = Some o → owner_conforms o;
  st_checks rs k : Readiness_ st = Some rs → k ∈ rds_Checks rs →
    rcs_Status k ∈ readiness_statuses
}.

(** The documented vocabularies of the contract library: an owner is empty when it has no
    team, responsible individual or contact; a contract that passes validation declares
    interfaces of the three types, and evaluating its readiness reports the four declared
    states. *)
Class PactoLibLaws `{PactoLib} := {
  owner_not_empty o :
    Owner_IsEmpty o = false → o_Team o ≠ "" ∨ o_DRI o ≠ "" ∨ o_Contacts o ≠ [];
  valid_interfaces c raw fs i :
    vr_Errors (validation_Validate c raw fs) = [] → i ∈ c_Interfaces c →
    if_Type i ∈ interface_types;
  valid_readiness c raw fs t eval k :
    vr_Errors (validation_Validate c raw fs) = [] →
    readiness_Evaluate (c_Readiness c) t = Some eval → k ∈ res_Checks eval →
    cr_Status k ∈ readiness_statuses
}.
#[global] Hint Mode PactoLibLaws - : typeclass_instances.

(** ** Proofs *)

(** What a check must be like for its condition to conform. *)
Definition reason_fine (reason : string) : bool :=
  (1 <=? len reason)%nat && (len reason <=? 1024)%nat && reason_pattern reason.
Definition type_fine (type : string) : bool :=
  (len type <=? 316)%nat && type_pattern type.
Definition presentable (reason type : string) : bool := reason_fine reason && type_fine type.

Definition check_presentable (k : Check) : Prop := presentable (Reason k) (Name k) = true.

Lemma presentable_conforms t st g r m :
  presentable r t = true → st ∈ [ConditionTrue; ConditionFalse; "Unknown"] → 0 ≤ g →
  condition_conforms {| cond_Type := t; cond_Status := st; cond_ObservedGeneration := g;
                        cond_Reason := r; cond_Message := m |}.
Proof.
  unfold presentable, reason_fine, type_fine. rewrite !andb_true_iff, !Nat.leb_le.
  intros (((? & ?) & ?) & ? & ?) Hst Hg. by constructor.
Qed.

Section stages.
Context `{ConditionStoreLaws}.

(** A Pacto whose status conforms, with the generation of a stored object. *)
Definition conforms (p : Pacto) : Prop :=
  status_conforms (p_Status p) ∧ 0 ≤ p_Generation p.

(** The constrained fields are untouched. *)
Definition frames (f : PactoStatus → PactoStatus) : Prop := ∀ st,
  ContractStatus (f st) = ContractStatus st ∧ ResolutionPolicy (f st) = ResolutionPolicy st ∧
  Conditions (f st) = Conditions st ∧ Interfaces (f st) = Interfaces st ∧
  Contract_ (f st) = Contract_ st ∧ Readiness_ (f st) = Readiness_ st.

Lemma conforms_frame f p : frames f → conforms p → conforms (with_status f p).
Proof.
  intros Hf [[H1 H2 H3 H4 H5 H6 H7] Hg]. split; [|done].
  destruct (Hf (p_Status p)) as (E1 & E2 & E3 & E4 & E5 & E6).
  constructor; cbn; rewrite ?E1, ?E2, ?E3, ?E4, ?E5, ?E6; done.
Qed.

Lemma conforms_contract_status f v p :
  is_contract_status v → frames f →
  conforms p → conforms (with_status (λ st, f (set_ContractStatus v st)) p).
Proof.
  intros Hv Hf [[H1 H2 H3 H4 H5 H6 H7] Hg].
  apply (conforms_frame f (with_status (set_ContractStatus v) p)); [done|].
  split; [|done]. constructor; done.
Qed.

Lemma conforms_condition t st r m p :
  presentable r t = true → st ∈ [ConditionTrue; ConditionFalse; "Unknown"] →
  conforms p → conforms (setCondition t st r m p).
Proof.
  intros Hp Hst [[H1 H2 H3 H4 H5 H6 H7] Hg]. split; [|done]. constructor; try done.
  - intros c. cbn. rewrite set_condition_elem by done. intros [->|[Hc _]]; [|by apply H3].
    by apply presentable_conforms.
  - cbn. by apply set_condition_unique.
Qed.

Lemma condition_status_elem b :
  condition_status b ∈ [ConditionTrue; ConditionFalse; "Unknown"].
Proof. destruct b; [by left|by right; left]. Qed.

Lemma conforms_set_check k p : check_presentable k → conforms p → conforms (set_check p k).
Proof. intros Hk Hp. apply conforms_condition; [done|apply condition_status_elem|done]. Qed.

Lemma conforms_applyCheck k p : check_presentable k → conforms p → conforms (applyCheck p k).
Proof.
  intros Hk Hp. apply (conforms_frame (λ st, set_Summary _ st) (set_check p k)); [done|].
  by apply conforms_set_check.
Qed.

Lemma conforms_set_checks ks p :
  Forall check_presentable ks → conforms p → conforms (foldl set_check p ks).
Proof.
  intros Hks. revert p. induction Hks as [|k ks Hk _ IH]; intros p Hp; [done|].
  cbn [foldl]. by apply IH, conforms_set_check.
Qed.

(** *** The checks *)

Section checks.
Context `{UnicodeTables}.

Lemma table_presentable c snap hs k :
  Some k ∈ check_table c snap hs → check_presentable k.
Proof.
  unfold check_table, Validator.when. cbv zeta.
  generalize (if WorkloadExists snap then c_Runtime c else None) as rt. intros rt Hk.
  repeat (apply elem_of_cons in Hk as [Hk|Hk]); [..|by apply elem_of_nil in Hk];
    symmetry in Hk; simplify_option_eq; repeat case_match; simplify_eq;
    unfold check_presentable, Validator.checkServiceExists, Validator.checkWorkloadExists,
      Validator.checkPorts, Validator.checkWorkloadType, Validator.checkStateModel,
      Validator.checkUpgradeStrategy, Validator.checkGracefulShutdown, Validator.checkImage,
      Validator.checkHealthTiming; cbv zeta; repeat case_match; vm_compute; reflexivity.
Qed.

Lemma Validate_presentable c snap hs : Forall check_presentable (Checks (Validator.Validate c snap hs)).
Proof.
  rewrite Validator.Validate_checks_table. apply Forall_forall. intros k.
  rewrite list_elem_of_omap. intros (o & Ho & Hid). cbn in Hid. subst.
  by apply (table_presentable c snap hs).
Qed.

Lemma conforms_applyValidationResult p r snap svc wn wk :
  Forall check_presentable (Checks r) → conforms p →
  conforms (Verdict.applyValidationResult p r snap svc wn wk).
Proof.
  intros Hr Hp. unfold Verdict.applyValidationResult. cbv zeta.
  set (p1 := with_status _ p).
  assert (conforms p1) as Hp1 by (by apply conforms_frame).
  set (p2 := if _ || _ then _ else _).
  assert (conforms p2) as Hp2 by (subst p2; case_match; [by apply conforms_frame|done]).
  pose proof (conforms_set_checks (Checks r) p2 Hr Hp2) as Hp3.
  destruct (foldl _ (1, 0) _) as [passed failed]. by apply conforms_frame.
Qed.

Context {W L : Type} `{!Clock W} `{!Prober.HTTPTransport W}.

Lemma evaluateProbeResult_presentable r url spec :
  type_fine (Verdict.conditionType spec) = true →
  check_presentable (Verdict.evaluateProbeResult r url spec).1.
Proof.
  intros Ht. unfold check_presentable, presentable, Verdict.evaluateProbeResult. cbv zeta.
  repeat case_match; cbn [fst Validator.Reason Validator.Name]; by rewrite Ht, andb_true_r.
Qed.

Lemma probeOneEndpoint_returns p spec :
  type_fine (Verdict.conditionType spec) = true →
  returns (λ kr, check_presentable kr.1) (Verdict.probeOneEndpoint (W := W) (L := L) p spec).
Proof.
  intros Ht. unfold Verdict.probeOneEndpoint.
  assert (∀ r m, reason_fine r = true →
    check_presentable (Validator.mkCheck (Verdict.conditionType spec) false r m "")) as Hk
    by (intros r m Hr; unfold check_presentable, presentable; cbn; by rewrite Hr, Ht).
  destruct (negb _); [by apply returns_ret, Hk|].
  destruct (Verdict.ifacePort spec !! _); [|by apply returns_ret, Hk]. cbv zeta.
  apply returns_then. intros r. apply returns_ret. by apply evaluateProbeResult_presentable.
Qed.

Lemma probe_and_apply_returns p spec pacto ks :
  type_fine (Verdict.conditionType spec) = true → conforms pacto →
  returns (λ pkr, conforms pkr.1.1)
    (Verdict.probe_and_apply (W := W) (L := L) p spec pacto ks).
Proof.
  intros Ht Hp. unfold Verdict.probe_and_apply.
  eapply returns_bind; [by apply probeOneEndpoint_returns|]. intros [k r] Hk.
  apply returns_ret. by apply conforms_applyCheck.
Qed.

Lemma probeEndpoints_returns pacto c svc :
  conforms pacto →
  returns (λ pk, conforms pk.1) (Verdict.probeEndpoints (W := W) (L := L) pacto c svc).
Proof.
  intros Hp. unfold Verdict.probeEndpoints.
  destruct (c_Runtime c) as [rt|]; [|by apply returns_ret].
  destruct (Verdict.iface_lookups _) as [ex po]. cbv zeta.
  apply (returns_bind (λ pkr, conforms pkr.1.1)).
  { repeat case_match; try (by apply returns_ret); by apply probe_and_apply_returns. }
  intros [[p1 ks1] r1] Hp1. cbn in Hp1.
  apply (returns_bind (λ pkr, conforms pkr.1.1)).
  { repeat case_match; try (by apply returns_ret); by apply probe_and_apply_returns. }
  intros [[p2 ks2] r2] Hp2. cbn in Hp2. apply returns_ret. cbn [fst].
  case_match; [done|by apply conforms_frame].
Qed.

Lemma runtime_part_returns pacto c snap hs svc wn wk :
  conforms pacto →
  returns (λ pk, conforms pk.1)
    (Verdict.runtime_part (W := W) (L := L) pacto c snap hs svc wn wk).
Proof.
  intros Hp. unfold Verdict.runtime_part. cbv zeta.
  apply (returns_bind (λ pk, conforms pk.1)); [|by intros pk Hpk; apply returns_ret].
  assert (conforms (Verdict.applyValidationResult pacto (Validator.Validate c snap hs) snap svc
    wn wk)) as Hp1 by (apply conforms_applyValidationResult, Hp; apply Validate_presentable).
  case_match; [by apply probeEndpoints_returns|by apply returns_ret].
Qed.
End checks.
End stages.

(** *** The whole reconcile *)

Lemma computeFinalContractStatus_is p :
  is_contract_status (Verdict.computeFinalContractStatus p).
Proof.
  pose proof (computeFinalContractStatus_values p) as Hv. unfold is_contract_status. set_solver.
Qed.

Section whole.
Context `{UnicodeTables} `{PactoLib} `{!PactoLibLaws} `{GoMaps} `{ConditionStoreLaws}
  `{Credentials.DockerConfigCodec}.
Context {W L : Type} `{!Clock W} `{!KubeClient W} `{!ContractLoader W L}
  `{!Prober.HTTPTransport W} `{!RevisionLaws W}.

(** A run that ends with the write of a status that conforms, or panics before. *)
Definition concludes (m : M (RState W L) (result Z)) : Prop :=
  ∀ s, finishes True (λ _, True) (λ p, status_conforms (p_Status p)) (m s).

Lemma concludes_bind {A} (P : A → Prop) (m : M (RState W L) A) f :
  returns P m → (∀ a, P a → concludes (f a)) → concludes (m ≫= f).
Proof.
  intros Hm Hf s. specialize (Hm s). rewrite M_bind_unfold.
  destruct (m s) as [[a|msg] s']; [by apply Hf|]. left. split; [done|]. by exists msg, s'.
Qed.

Lemma concludes_then {A} (m : M (RState W L) A) f :
  (∀ a, concludes (f a)) → concludes (m ≫= f).
Proof. intros Hf. eapply concludes_bind; [apply returns_any|auto]. Qed.

Lemma finishReconciliation_concludes p c checks :
  conforms p → concludes (finishReconciliation p c checks).
Proof.
  intros Hp s. apply (ends_finishes (λ _, True)), finishReconciliation_ends; [done..|].
  by apply (conforms_frame (λ st, set_ObservedGeneration _ (set_LastReconciledAt _ st))).
Qed.

Lemma failReconciliation_concludes p msg v c :
  conforms p → concludes (failReconciliation p msg v c).
Proof.
  intros Hp s. apply (ends_finishes (λ _, True)), failReconciliation_ends; [done..|].
  apply (conforms_frame (λ st, set_ObservedGeneration _ (set_LastReconciledAt _ st))); [done|].
  unfold failed_pacto. apply (conforms_contract_status (λ st, set_Validation _ (set_Summary _ st)));
    [by apply (bool_decide_unpack _)|done|]. apply conforms_condition; [by vm_compute| |done].
  apply (condition_status_elem false).
Qed.

Lemma reconcile_target_concludes p c : conforms p → concludes (reconcile_target p c).
Proof.
  intros Hp. unfold reconcile_target. destruct (IsReference p).
  { apply finishReconciliation_concludes, (conforms_contract_status (λ st, set_Summary _ st));
      [by apply (bool_decide_unpack _)|done|].
    apply conforms_condition; [by vm_compute|apply (condition_status_elem true)|done]. }
  destruct (ResolvedWorkload p) as [wn wk]. cbv zeta. apply concludes_then. intros [snap|err].
  - apply (concludes_bind (λ pk, conforms pk.1)).
    + apply runtime_part_returns. unfold observed_runtime.
      case_match; [by apply conforms_frame|done].
    + intros [p1 ks] Hp1. apply finishReconciliation_concludes.
      by apply (conforms_contract_status id), Hp1; [apply computeFinalContractStatus_is|].
  - apply concludes_then. intros _.
    apply finishReconciliation_concludes, (conforms_contract_status (λ st, set_Summary _ st));
      [by apply (bool_decide_unpack _)|done|].
    apply conforms_condition; [by vm_compute|apply (condition_status_elem false)|done].
Qed.

Lemma reconcile_revisions_returns p lr auth :
  conforms p → returns conforms (reconcile_revisions (W := W) (L := L) p lr auth).
Proof.
  intros Hp. unfold reconcile_revisions. apply returns_then. intros r. cbv zeta.
  apply returns_then. intros _. apply returns_ret.
  destruct r; [by apply conforms_frame|done].
Qed.

(** A contract that passed validation. *)
Definition valid_contract (c : Contract) : Prop :=
  ∃ raw fs, vr_Errors (validation_Validate c raw fs) = [].

Lemma readinessCondition_presentable eval :
  presentable (Readiness.readinessCondition eval).1.2 ConditionReadinessSatisfied = true.
Proof.
  unfold Readiness.readinessCondition.
  destruct (res_Passing eval), (res_Expired eval); vm_compute; reflexivity.
Qed.

Lemma readiness_conforms p rs :
  (∀ k, k ∈ rds_Checks rs → rcs_Status k ∈ readiness_statuses) →
  conforms p → conforms (with_status (set_Readiness_ (Some rs)) p).
Proof.
  intros Hks [[Sst Spol Scond Stypes Sif Sown Schk] Sgen]. split; [|done]. constructor; try done.
  intros rs' k [= <-]. apply Hks.
Qed.

Lemma reconcileReadiness_returns p c unmet :
  valid_contract c → conforms p →
  returns conforms (Readiness.reconcileReadiness (W := W) (L := L) p c unmet).
Proof.
  intros (raw & fs & Hv) Hp. unfold Readiness.reconcileReadiness. intros s.
  rewrite M_bind_unfold. cbn [ask gets].
  destruct (readiness_Evaluate _ _) as [eval|] eqn:He; [|done]. cbv zeta.
  generalize dependent (now (st_world s)). intros t He.
  pose proof (readinessCondition_presentable eval) as Hpres.
  pose proof (Readiness.readinessCondition_status eval) as Hst.
  destruct (Readiness.readinessCondition eval) as [[status reason] msg]. cbn in Hpres, Hst.
  revert s. apply returns_then. intros _. apply returns_then. intros _. apply returns_ret.
  apply conforms_condition; [done|..].
  { rewrite Hst. destruct (res_Passing eval); [by left|by right; left]. }
  apply readiness_conforms; [|done]. intros k. cbn. rewrite list_elem_of_fmap.
  intros (ch & -> & Hch). by apply (valid_readiness c raw fs _ _ _ Hv He).
Qed.

(** What [populateContractStatus] does to the constrained fields. *)
Lemma populate_fields p lr :
  let st := p_Status p in let st' := p_Status (Status.populateContractStatus p lr) in
  ContractStatus st' = ContractStatus st ∧ ResolutionPolicy st' = ResolutionPolicy st ∧
  Conditions st' = Conditions st ∧
  Interfaces st' = Interfaces st ++ (Status.interface_info <$> c_Interfaces (Loader.lr_Contract lr)) ∧
  Contract_ st' = Some (Status.contract_info lr) ∧ Readiness_ st' = Readiness_ st.
Proof.
  cbv zeta. unfold Status.populateContractStatus. cbv zeta.
  by destruct (c_Runtime _), (c_Scaling _), (bool_decide _).
Qed.

Lemma owner_conforms_info lr o :
  ci_Owner (Status.contract_info lr) = Some o → owner_conforms o.
Proof.
  cbn. destruct (Owner_IsEmpty _) eqn:He; [done|]. unfold Status.mapOwnerToInfo.
  rewrite He. intros [= <-]. unfold owner_conforms. cbn.
  apply owner_not_empty in He as [?|[?|Hc]]; [by left|by right; left|].
  right; right. by destruct (o_Contacts _).
Qed.

Lemma populateContractStatus_conforms p lr :
  valid_contract (Loader.lr_Contract lr) → conforms p →
  conforms (Status.populateContractStatus p lr).
Proof.
  intros (raw & fs & Hv) [[Sst Spol Scond Stypes Sif Sown Schk] Sgen]. split; [|done].
  destruct (populate_fields p lr) as (E1 & E2 & E3 & E4 & E5 & E6).
  constructor; rewrite ?E1, ?E2, ?E3, ?E4, ?E5, ?E6; try done.
  - intros i [Hi|Hi]%elem_of_app; [by apply Sif|]. apply list_elem_of_fmap in Hi as (d & -> & Hd).
    by apply (valid_interfaces (Loader.lr_Contract lr) raw fs).
  - intros ci o [= <-]. apply owner_conforms_info.
Qed.

Lemma populate_contract_conforms p lr c keys :
  valid_contract c → conforms p → conforms (populate_contract p lr c keys).
Proof.
  intros Hv Hp. unfold populate_contract.
  apply (conforms_frame (λ st, set_Configurations _ st)); [done|].
  apply populateContractStatus_conforms; [done|].
  apply conforms_frame; [done|].
  apply conforms_condition; [by vm_compute|apply (condition_status_elem true)|done].
Qed.

Lemma reconcile_contract_concludes p unmet auth lr c keys :
  conforms p → concludes (reconcile_contract p unmet auth lr c keys).
Proof.
  intros Hp. unfold reconcile_contract. cbv zeta.
  set (p1 := with_status _ p). assert (conforms p1) as Hp1 by (by apply conforms_frame).
  case_bool_decide as Hlen; [by apply failReconciliation_concludes|].
  assert (valid_contract c) as Hv.
  { exists (Loader.RawYAML lr), (Loader.BundleFS lr). by destruct (vr_Errors _); [|cbn in Hlen; lia]. }
  eapply concludes_bind; [apply reconcileReadiness_returns; [done|]|].
  { by apply populate_contract_conforms. }
  intros p2 Hp2. eapply concludes_bind; [by apply reconcile_revisions_returns|].
  intros p3 Hp3. by apply reconcile_target_concludes.
Qed.

Lemma conforms_policy p v :
  (v ≠ "" → v ∈ resolution_policies) → conforms p → conforms (with_status (set_ResolutionPolicy v) p).
Proof. intros Hv [[Sst Spol Scond Stypes Sif Sown Schk] Sgen]. by split; [constructor|]. Qed.

Lemma resolutionPolicy_conforms ref :
  Status.resolutionPolicy ref ≠ "" → Status.resolutionPolicy ref ∈ resolution_policies.
Proof.
  unfold Status.resolutionPolicy, resolution_policies.
  case_bool_decide; [done|]. intros _. repeat case_match; rewrite !elem_of_cons; auto.
Qed.

Lemma reconcile_load_concludes p unmet auth :
  conforms p → concludes (reconcile_load p unmet auth).
Proof.
  intros Hp. unfold reconcile_load. cbv zeta.
  set (p1 := with_status _ p).
  assert (conforms p1) as Hp1 by (apply conforms_policy, Hp; apply resolutionPolicy_conforms).
  apply concludes_then. intros [lr|err]; [|by apply failReconciliation_concludes].
  match goal with |- context [match ?a with Ok _ => _ | Err _ => _ end] =>
    destruct a as [[c keys]|e] end; [|by apply failReconciliation_concludes].
  by apply reconcile_contract_concludes.
Qed.

Lemma reconcile_reset_concludes p unmet :
  conforms p → concludes (reconcile_reset p unmet).
Proof.
  intros Hp. unfold reconcile_reset. cbv zeta.
  case_bool_decide; [|by apply reconcile_load_concludes].
  apply concludes_then. intros [auth|e]; [by apply reconcile_load_concludes|].
  by apply failReconciliation_concludes.
Qed.

Lemma reset_conforms p : 0 ≤ p_Generation p → conforms (Status.resetDerivedStatus p).
Proof.
  intros Hg. split; [|done]. constructor; try done; cbn.
  - intros c []%elem_of_nil.
  - apply NoDup_nil_2.
  - intros i []%elem_of_nil.
Qed.

(** C11 (type). Whatever the stored status was, and whatever fails, the status a reconcile
    writes conforms to the schema of the resource, with the vocabularies of the contract
    library as hypothesis: the contract status, the resolution policy, the interface types
    and the states of readiness checks are of their enumerations, an owner is not empty,
    and every condition has its own well-formed type, a well-formed reason, a status and a
    generation. (The length of a message is not bounded by the code.) *)
Theorem Reconcile_writes_conforming namespace name pacto (s : RState W L) :
  Get_Pacto namespace name (st_world s) = Ok pacto → 0 ≤ p_Generation pacto →
  finishes True (λ _, True) (λ p, status_conforms (p_Status p)) (Reconcile namespace name s).
Proof.
  intros Hget Hg. unfold Reconcile. rewrite M_bind_unfold. cbn [ask gets]. rewrite Hget.
  by apply reconcile_reset_concludes, reset_conforms.
Qed.
End whole.

(** *** Witness: a library that checks its interfaces *)

Section examples.
Import Cluster.

Definition checking_lib : PactoLib := {|
  Owner_IsEmpty o := bool_decide (o_Team o = "");
  Owner_DisplayString o := o_Team o;
  contract_Parse yaml := Ok (example_contract yaml);
  validation_Validate c _ _ :=
    {| vr_Errors := if forallb (λ i, bool_decide (if_Type i ∈ interface_types)) (c_Interfaces c)
                    then []
                    else [{| ve_Code := "enum"; ve_Path := "interfaces"; ve_Message := "bad type" |}];
       vr_Warnings := [] |};
  readiness_Evaluate _ _ := None;
  schemax_Values _ := [];
  schemax_Properties _ _ := [];
  schemax_Meta _ _ := ("", "");
  oci_HasExplicitTag ref := LastIndex ref "/" <? LastIndex ref ":";
  oci_FilterSemverTags tags := tags |}.

Lemma checking_lib_laws : @PactoLibLaws checking_lib.
Proof.
  constructor; cbn.
  - intros o Ho%bool_decide_eq_false. by left.
  - intros c _ _ i Hv Hi. destruct (forallb _ _) eqn:Hall; [|done].
    rewrite forallb_elem in Hall. by apply (bool_decide_eq_true_1 _ (Hall i Hi)).
  - done.
Qed.

(** A contract with an interface of each kind, and one that is refused. *)
Definition interface (ty : string) : Interface :=
  {| if_Name := ty; if_Type := ty; if_Port := None; if_Visibility := ""; if_Contract := "" |}.

Definition loaded_with (types : list string) : LoadResult :=
  Loader.mkLoadResult
    (mkContract (example_identity "api") (interface <$> types) [] [] [] None None ∅ None)
    "yaml" None "r/a:1.0.0" "sha256:0123456789".

Definition schema_run (types : list string) : outcome (result Z) * RState cluster unit :=
  @Reconcile latin1_tables checking_lib canonical_order list_store Credentials.example_codec
    cluster unit cluster_clock cluster_client (fixed_loader (Ok (loaded_with types)) [])
    cluster_network "prod" "api" small_state.

Definition written (types : list string) : option PactoStatus :=
  p_Status <$> cl_pactos (st_world (schema_run types).2) !! ("prod", "api").

Example written_ex :
  (length ∘ Interfaces <$> written interface_types) = Some 3%nat ∧
  (length ∘ Interfaces <$> written ["tcp"]) = Some 0%nat.
Proof. split; vm_compute; reflexivity. Qed.

Lemma Reconcile_writes_conforming_witness :
  @finishes cluster unit cluster_client cluster_laws True (λ _, True)
    (λ p, status_conforms (p_Status p)) (schema_run interface_types).
Proof.
  apply (@Reconcile_writes_conforming latin1_tables checking_lib checking_lib_laws
    canonical_order list_store list_store_laws Credentials.example_codec cluster unit
    cluster_clock cluster_client (fixed_loader (Ok (loaded_with interface_types)) [])
    cluster_network cluster_laws "prod" "api" example_pacto small_state);
    [reflexivity|cbn; lia].
Defined.
End examples.
End Schema.
