(* ===== verification/Names.v ===== *)
(** * Names of revisions

    The name and the labels [ensureRevision] gives a revision, against what the API server
    accepts as the name of an object and as the value of a label. *)

From S2P Require Import Prelude GoStrings GoMaps GoFmt Sha256 Contract V1alpha1.
From S2P Require Import Conditions Loader Kube Cluster Revisions Schema.
From stdpp Require Import options.
#[local] Set Default Proof Using "Type*".

Module Names.
Import Loader(LoadResult).
Import Revisions Schema.

Definition chars (s : string) : list ascii := String.list_ascii_of_string s.

(** First and last characters of one class, all characters of another. *)
Definition bounded_by (outer inner : ascii → bool) (s : string) : bool :=
  match head (chars s), last (chars s) with
  | Some a, Some b => outer a && outer b && forallb inner (chars s)
  | _, _ => false
  end.

Definition lower_alnum (c : ascii) : bool := is_lower c || is_digit c.
Definition label_char (c : ascii) : bool := lower_alnum c || Ascii.eqb c "-".

(** RFC 1123: the name of an object is a sequence of labels separated by dots. *)
Definition dns_label : string → bool := bounded_by lower_alnum label_char.
Definition dns_subdomain (s : string) : bool :=
  (len s <=? 253)%nat && forallb dns_label (Split s ".").

(** The value of a label. *)
Definition label_value (s : string) : bool :=
  bool_decide (s = "") ||
  (len s <=? 63)%nat && bounded_by is_alnum (λ c, is_alnum c || has_byte c "-_.") s.

(** What the API server checks of a revision: its name, its labels and the [MinLength]
    markers of its spec. *)
Definition acceptable (r : PactoRevision) : bool :=
  dns_subdomain (rev_Name r) &&
  forallb (λ kv, label_value kv.2) (map_to_list (rev_Labels r)) &&
  negb (bool_decide (rev_Version (rev_Spec r) = "")) &&
  negb (bool_decide (rev_PactoRef (rev_Spec r) = "")).

(** The characters a version may have to end up in a name. *)
Definition version_char (c : ascii) : bool := label_char c || Ascii.eqb c ".".

(** ** Proofs *)

Lemma chars_app a b : chars (a +:+ b) = chars a ++ chars b.
Proof.
  unfold chars. induction a as [|c a IH]; [done|]. rewrite app_cons.
  cbn [String.list_ascii_of_string app]. by f_equal.
Qed.

Lemma chars_nil s : chars s = [] ↔ s = "".
Proof. by destruct s. Qed.

Lemma chars_length s : length (chars s) = len s.
Proof. induction s as [|c s IH]; [done|]. cbn. by rewrite <- IH. Qed.

Lemma bounded_by_spec outer inner s :
  bounded_by outer inner s = true ↔
  (∃ a, head (chars s) = Some a ∧ outer a = true) ∧
  (∃ b, last (chars s) = Some b ∧ outer b = true) ∧ forallb inner (chars s) = true.
Proof.
  unfold bounded_by. destruct (head (chars s)) as [a|], (last (chars s)) as [b|];
    rewrite ?andb_true_iff; naive_solver.
Qed.

(** A suffix without a dot ends up in the last label. *)
Lemma Split_suffix s y :
  has_byte "." y = false →
  ∃ ls l p, Split s "." = ls ++ [l] ∧ Split (s +:+ y) "." = ls ++ [l +:+ y] ∧
    s = p +:+ l ∧ (ls = [] → p = "").
Proof.
  intros Hy. induction s as [|c s (ls & l & p & E1 & E2 & Es & Hp)].
  - exists [], "", "". split_and!; [done| |done|done]. rewrite !app_empty_l. by apply Split_none.
  - rewrite app_cons. cbn [Split]. rewrite E1, E2. destruct (Ascii.eqb c ".").
    + exists ("" :: ls), l, (String c p). by rewrite app_cons, <- Es.
    + destruct ls as [|w ls]; cbn [app].
      * exists [], (String c l), "". split_and!; [done|done| |done]. by rewrite Es, Hp.
      * exists (String c w :: ls), l, (String c p). by rewrite app_cons, <- Es.
Qed.

Lemma Split_head s w ws :
  Split s "." = w :: ws → w ≠ "" → head (chars s) = head (chars w).
Proof.
  destruct s as [|c s]; cbn [Split]; [by intros [= <-]|].
  destruct (Ascii.eqb c "."); [by intros [= <-]|].
  by destruct (Split s "."); intros [= <-].
Qed.

Lemma Split_forallb f s :
  forallb (λ w, forallb f (chars w)) (Split s ".") = true →
  forallb (λ c, f c || Ascii.eqb c ".") (chars s) = true.
Proof.
  induction s as [|c s IH]; [done|]. cbn [Split chars String.list_ascii_of_string forallb].
  destruct (Ascii.eqb c ".") eqn:E.
  - rewrite orb_true_r. apply IH.
  - destruct (Split s ".") as [|w ws] eqn:Es; [by apply Split_not_nil in Es|].
    cbn [forallb chars String.list_ascii_of_string]. rewrite !andb_true_iff, orb_false_r.
    intros [[? ?] ?]. split; [done|]. apply IH, andb_true_iff. done.
Qed.

Lemma dns_label_not_empty w : dns_label w = true → w ≠ "".
Proof. by intros H ->. Qed.

(** A subdomain of up to 63 bytes is a label value. *)
Lemma subdomain_label_value s :
  dns_subdomain s = true → label_value s = true ↔ (len s ≤ 63)%nat.
Proof.
  unfold dns_subdomain. rewrite andb_true_iff. intros [_ Hs].
  destruct (Split_suffix s "" eq_refl) as (ls & l & p & E & _ & Hp & _).
  assert (dns_label l = true) as Hl.
  { rewrite forallb_elem in Hs. apply Hs. rewrite E. apply elem_of_app. right. by left. }
  assert (s ≠ "") as Hne.
  { intros ->. apply dns_label_not_empty in Hl. by destruct p, l. }
  unfold label_value. rewrite (bool_decide_eq_false_2 _ Hne). cbn [orb].
  rewrite andb_true_iff, Nat.leb_le. split; [tauto|]. intros Hlen. split; [done|].
  apply bounded_by_spec. apply bounded_by_spec in Hl as (_ & (b & Hb & Hlo) & _).
  assert (∀ c, lower_alnum c = true → is_alnum c = true) as Hal.
  { intros c. unfold lower_alnum, is_alnum, is_letter. rewrite !orb_true_iff. tauto. }
  split_and!.
  - destruct (Split s ".") as [|w ws] eqn:Ew; [by apply Split_not_nil in Ew|].
    cbn in Hs. apply andb_true_iff in Hs as [Hw _].
    rewrite (Split_head s w ws Ew) by by apply dns_label_not_empty.
    apply bounded_by_spec in Hw as ((a & Ha & Hlo') & _). exists a. auto.
  - exists b. split; [|auto]. rewrite Hp, chars_app.
    apply last_Some in Hb as [l' ->]. by rewrite app_assoc, last_snoc.
  - assert (forallb (λ c, label_char c || Ascii.eqb c ".") (chars s) = true) as Hall.
    { apply Split_forallb. rewrite forallb_elem in Hs |- *. intros w Hw.
      by apply Hs, bounded_by_spec in Hw as (_ & _ & ?). }
    rewrite forallb_elem in Hall |- *. intros c Hc. apply Hall in Hc. revert Hc.
    unfold label_char. rewrite !orb_true_iff. intros [[Hc|Hc]|Hc].
    + left. by apply Hal.
    + right. apply Ascii.eqb_eq in Hc as ->. done.
    + right. apply Ascii.eqb_eq in Hc as ->. done.
Qed.

(** *** The hash *)

Lemma forallb_app {A} (f : A → bool) l k : forallb f (l ++ k) = forallb f l && forallb f k.
Proof. apply List.forallb_app. Qed.

Lemma forallb_chars_app f a b :
  forallb f (chars (a +:+ b)) = forallb f (chars a) && forallb f (chars b).
Proof. by rewrite chars_app, forallb_app. Qed.

Lemma lowerhex_alnum z : lower_alnum (lowerhex (Z.land z 15)) = true.
Proof.
  assert (Z.land z 15 ∈ Z.of_nat <$> seq 0 16) as Hin.
  { change 15 with (Z.ones 4). rewrite Z.land_ones by lia.
    pose proof (Z.mod_pos_bound z (2 ^ 4) ltac:(lia)).
    apply list_elem_of_fmap. exists (Z.to_nat (z mod 2 ^ 4)). rewrite elem_of_seq. lia. }
  revert Hin. generalize (Z.land z 15). apply Forall_forall.
  apply (bool_decide_unpack _). by vm_compute.
Qed.

Lemma hex_digits_alnum n z : forallb lower_alnum (chars (hex_digits n z)) = true.
Proof.
  revert z. induction n as [|n IH]; intros z; [done|]. cbn [hex_digits].
  rewrite forallb_chars_app, IH. cbn [chars String.list_ascii_of_string forallb andb].
  by rewrite lowerhex_alnum.
Qed.

Lemma fmt_x_alnum bs : forallb lower_alnum (chars (fmt_x bs)) = true.
Proof.
  induction bs as [|b bs IH]; [done|]. unfold fmt_x in *. cbn [foldr].
  by rewrite forallb_chars_app, hex_digits_alnum.
Qed.

Lemma forallb_str_take f n s :
  forallb f (chars s) = true → forallb f (chars (str_take n s)) = true.
Proof.
  rewrite <- (str_take_drop n s) at 1. rewrite forallb_chars_app, andb_true_iff. tauto.
Qed.

Lemma forallb_weaken {A} (f g : A → bool) l :
  (∀ x, f x = true → g x = true) → forallb f l = true → forallb g l = true.
Proof. rewrite !forallb_elem. auto. Qed.

Lemma forallb_last {A} (f : A → bool) l x : forallb f l = true → last l = Some x → f x = true.
Proof. rewrite forallb_elem. intros Hf Hl. apply Hf, last_Some_elem_of, Hl. Qed.

(** A short hash: seven characters a label may begin and end with. *)
Definition short_hash (lr : LoadResult) : string := str_take 7 (contract_hash lr).

Lemma short_hash_spec lr :
  len (short_hash lr) = 7%nat ∧ forallb lower_alnum (chars (short_hash lr)) = true.
Proof.
  split.
  - unfold short_hash, contract_hash. apply str_take_length.
    rewrite hex_Sum256_length. lia.
  - apply forallb_str_take, fmt_x_alnum.
Qed.

(** *** The version *)

Lemma ReplaceAll_no_byte s c d : c ≠ d → has_byte c (ReplaceAll s c d) = false.
Proof.
  intros Hne. induction s as [|e s IH]; [done|]. cbn [ReplaceAll has_byte]. rewrite IH, orb_false_r.
  destruct (Ascii.eqb e c) eqn:E; [by apply Ascii.eqb_neq|by rewrite Ascii.eqb_sym].
Qed.

Lemma ReplaceAll_dots v :
  forallb label_char (chars (ReplaceAll v "." "-")) = forallb version_char (chars v).
Proof.
  induction v as [|c v IH]; [done|]. cbn [ReplaceAll chars String.list_ascii_of_string forallb].
  unfold chars in IH. rewrite IH. f_equal. unfold version_char.
  destruct (Ascii.eqb c "."); [by rewrite orb_true_r|by rewrite orb_false_r].
Qed.

Lemma ReplaceAll_length s c d : len (ReplaceAll s c d) = len s.
Proof. induction s as [|e s IH]; [done|]. cbn. by rewrite IH. Qed.

(** *** The name *)

Lemma no_dot_label_char x :
  forallb label_char (chars x) = true → has_byte "." x = false.
Proof.
  induction x as [|c x IH]; [done|]. cbn [chars String.list_ascii_of_string forallb has_byte].
  rewrite andb_true_iff. intros [Hc Hx]. rewrite (IH Hx), orb_false_r.
  destruct (Ascii.eqb "." c) eqn:E; [|done]. apply Ascii.eqb_eq in E as <-. done.
Qed.

(** Appending to a subdomain, after a hyphen. *)
Lemma dns_subdomain_suffix s x b :
  dns_subdomain s = true → has_byte "." x = false →
  last (chars x) = Some b → lower_alnum b = true → (len s + 1 + len x ≤ 253)%nat →
  dns_subdomain (s +:+ "-" +:+ x) = forallb label_char (chars x).
Proof.
  intros Hs Hdot Hb Hlo Hlen. unfold dns_subdomain in Hs |- *.
  apply andb_true_iff in Hs as [_ Hs].
  assert ((len (s +:+ "-" +:+ x) <=? 253)%nat = true) as ->
    by (apply Nat.leb_le; rewrite !len_app; cbn [len String.length]; lia).
  destruct (Split_suffix s ("-" +:+ x) Hdot) as (ls & l & p & E1 & E2 & _).
  rewrite E1, forallb_app in Hs. rewrite E2, forallb_app. apply andb_true_iff in Hs as [-> Hl].
  cbn [forallb andb] in Hl |- *. rewrite andb_true_r in Hl |- *.
  apply bounded_by_spec in Hl as ((a & Ha & Hlo') & _ & Hall).
  apply eq_true_iff_eq. unfold dns_label. rewrite bounded_by_spec, !forallb_chars_app, Hall.
  rewrite !chars_app. cbn [andb].
  assert (forallb label_char (chars "-") = true) as -> by done. cbn [andb].
  split; [tauto|]. intros Hx. split_and!; [| |done].
  - exists a. split; [|done]. revert Ha. by destruct (chars l).
  - exists b. split; [|done]. apply last_Some in Hb as [x' ->].
    by rewrite !app_assoc, last_snoc.
Qed.

Lemma labels_accepted (f : string → bool) x y :
  forallb (λ kv, f kv.2)
    (map_to_list ({[ LabelPactoName := x; LabelRevisionVersion := y ]} : gmap string string))
  = true ↔ f x = true ∧ f y = true.
Proof.
  assert (LabelPactoName ≠ LabelRevisionVersion) as Hne by done.
  rewrite forallb_elem. split.
  - intros Hall. split.
    + apply (Hall (LabelPactoName, x)), elem_of_map_to_list, lookup_insert_eq.
    + apply (Hall (LabelRevisionVersion, y)), elem_of_map_to_list.
      rewrite lookup_insert_ne by done. apply lookup_singleton_eq.
  - intros [Hx Hy] [k v] Hkv. apply elem_of_map_to_list in Hkv. cbn.
    apply lookup_insert_Some in Hkv as [[_ <-]|[_ Hkv]]; [done|].
    by apply lookup_singleton_Some in Hkv as [_ <-].
Qed.

Lemma label_value_length s : label_value s = true → (len s ≤ 63)%nat.
Proof.
  unfold label_value. rewrite orb_true_iff, andb_true_iff, Nat.leb_le, bool_decide_eq_true.
  intros [-> | [? _]]; [cbn; lia|done].
Qed.

Lemma contract_version_not_empty lr : contract_version lr ≠ "".
Proof. unfold contract_version. cbv zeta. by case_bool_decide. Qed.

(** With two short parts there is no cut, and the name is accepted when every character of
    the version is. *)
Lemma revision_name_accepted pacto lr :
  dns_subdomain (p_Name pacto) = true →
  (len (p_Name pacto) ≤ 63)%nat → (len (contract_version lr) ≤ 63)%nat →
  dns_subdomain (revision_name pacto lr) =
    forallb version_char (chars (contract_version lr)).
Proof.
  intros Hs Hn Hv. destruct (short_hash_spec lr) as [Hlen Hhash].
  unfold revision_name. cbv zeta. fold (short_hash lr).
  set (v := ReplaceAll (contract_version lr) "." "-").
  assert (len v = len (contract_version lr)) as Hlv by apply ReplaceAll_length.
  rewrite bool_decide_eq_false_2
    by (rewrite !len_app, Hlen, Hlv; cbn [len String.length]; lia).
  destruct (last (chars (short_hash lr))) as [b|] eqn:Hb.
  2:{ apply last_None, chars_nil in Hb. by rewrite Hb in Hlen. }
  assert (forallb label_char (chars (short_hash lr)) = true) as Hlab.
  { eapply forallb_weaken, Hhash. unfold label_char. intros c ->. done. }
  rewrite (dns_subdomain_suffix _ _ b).
  - rewrite !forallb_chars_app, Hlab, andb_true_r. unfold v. by rewrite ReplaceAll_dots.
  - done.
  - rewrite !has_byte_app, (no_dot_label_char _ Hlab). unfold v.
    by rewrite (ReplaceAll_no_byte (contract_version lr) "." "-").
  - rewrite !chars_app. apply last_Some in Hb as [x' ->]. by rewrite !app_assoc, last_snoc.
  - by apply (forallb_last _ _ _ Hhash Hb).
  - rewrite !len_app, Hlen, Hlv. cbn [len String.length]. lia.
Qed.

(** C18 (bounds). The API server accepts the revision that [ensureRevision] builds for a
    Pacto exactly when the name of the Pacto has at most 63 bytes and the version of the
    contract is the value of a label made of lower-case letters, digits, hyphens and dots.
    The cut at 253 bytes is never reached by an accepted revision. *)
Theorem revision_accepted_iff pacto lr :
  dns_subdomain (p_Name pacto) = true →
  acceptable (new_revision pacto lr) = true ↔
    (len (p_Name pacto) ≤ 63)%nat ∧ label_value (contract_version lr) = true ∧
    forallb version_char (chars (contract_version lr)) = true.
Proof.
  intros Hs. unfold acceptable. cbn [new_revision rev_Name rev_Labels rev_Spec rev_Version
    rev_PactoRef]. rewrite !andb_true_iff, labels_accepted, (subdomain_label_value _ Hs).
  rewrite (bool_decide_eq_false_2 _ (contract_version_not_empty lr)).
  assert (p_Name pacto ≠ "") as Hne by by intros E; rewrite E in Hs.
  rewrite (bool_decide_eq_false_2 _ Hne). cbn [negb].
  split.
  - intros [[[Hname [Hn Hv]] _] _]. split_and!; [done..|].
    by rewrite revision_name_accepted in Hname by auto using label_value_length.
  - intros (Hn & Hv & Hc). split_and!; [|done..].
    by rewrite revision_name_accepted by auto using label_value_length.
Qed.

(** The contract [loaded] with another version: a build suffix, which semantic versions
    may have, and an upper-case pre-release tag are both refused. *)
Definition with_version (v : string) : LoadResult :=
  Loader.mkLoadResult
    (mkContract {| si_Name := "api"; si_Version := v;
       si_Owner := si_Owner (example_identity "api");
       si_Image := None |} [] [] [] [] None None ∅
       None)
    "yaml" None "" "".

Example accepted_ex :
  (λ v, acceptable (new_revision example_pacto (with_version v))) <$>
    ["1.0.0"; "1.0.0-rc.1"; "1.0.0+build"; "1.0.0-RC1"; ""] = [true; true; false; false; true].
Proof. vm_compute. reflexivity. Qed.

Lemma revision_accepted_iff_witness :
  acceptable (new_revision example_pacto (with_version "1.0.0")) = true ↔
    (len (p_Name example_pacto) ≤ 63)%nat ∧
    label_value (contract_version (with_version "1.0.0")) = true ∧
    forallb version_char (chars (contract_version (with_version "1.0.0"))) = true.
Proof. apply revision_accepted_iff. vm_compute. reflexivity. Defined.

End Names.
