(* ===== verification/LevelTriggered.v ===== *)
(** * Reconciles are level-triggered

    A reconcile depends on the spec of its Pacto, the cluster, the registry and the
    endpoints, and not on what earlier reconciles left in the status: two states that differ
    in the statuses of Pactos only lead to the same writes, samples and answers. The proof is
    a relational logic for the handlers of [Reconcile], in which two runs go in step. *)

From S2P Require Import Prelude GoStrings GoMaps GoFmt Contract V1alpha1 Conditions.
From S2P Require Import Observer Images Validator Credentials Prober Metrics Loader.
From S2P Require Import Overrides Kube Cluster Readiness Status Verdict Revisions Reconcile.
From stdpp Require Import options.
#[local] Set Default Proof Using "Type*".

Module LevelTriggered.
Import Reconcile.
Import Loader(LoadResult).

(** ** What may differ *)

(** Two copies of a Pacto whose statuses name different current revisions, at most. *)
Definition same_but_revision (p q : Pacto) : Prop :=
  same_object p q ∧
  p_Status p = set_CurrentRevision (CurrentRevision (p_Status p)) (p_Status q).

(** The events other than those about transitions of the readiness gate. *)
Definition gate_free (events : list Event) : list Event :=
  filter (λ ev, ev_Reason ev ≠ EventReadinessGateUnmet ∧
                ev_Reason ev ≠ EventReadinessRecovered) events.

Lemma gate_free_app l k : gate_free (l ++ k) = gate_free l ++ gate_free k.
Proof. apply filter_app. Qed.

(** A relation on worlds that looks away from the statuses of Pactos: what is read or
    answered is the same on both sides, and the calls keep the sides related. *)
Record status_blind {W L} `{!Clock W} `{!KubeClient W} `{!ContractLoader W L}
    `{!Prober.HTTPTransport W} (alike : W → W → Prop) : Prop := {
  blind_now w v : alike w v → now w = now v;
  blind_reader w v : alike w v → kube_reader w = kube_reader v;
  blind_secret ns n w v : alike w v → Get_Secret ns n w = Get_Secret ns n v;
  blind_revision ns n w v : alike w v → Get_Revision ns n w = Get_Revision ns n v;
  blind_list ns ls w v : alike w v → List_Revisions ns ls w = List_Revisions ns ls v;
  blind_pacto ns n w v : alike w v →
    match Get_Pacto ns n w, Get_Pacto ns n v with
    | Ok p, Ok q => same_object p q
    | Err e, Err d => e = d
    | _, _ => False
    end;
  blind_reference p q r :
    same_object p q → SetControllerReference p r = SetControllerReference q r;
  blind_create r w v : alike w v →
    (Create_Revision r w).1 = (Create_Revision r v).1 ∧
    alike (Create_Revision r w).2 (Create_Revision r v).2;
  blind_update r w v : alike w v →
    (Update_Revision_Status r w).1 = (Update_Revision_Status r v).1 ∧
    alike (Update_Revision_Status r w).2 (Update_Revision_Status r v).2;
  blind_write p q w v : same_but_revision p q → alike w v →
    (Update_Pacto_Status p w).1 = (Update_Pacto_Status q v).1 ∧
    alike (Update_Pacto_Status p w).2 (Update_Pacto_Status q v).2;
  blind_http t u w v : alike w v →
    (Prober.http_Do t u w).1 = (Prober.http_Do t u v).1 ∧
    alike (Prober.http_Do t u w).2 (Prober.http_Do t u v).2;
  blind_load o i a w v l : alike w v →
    (cl_Load o i a (w, l)).1 = (cl_Load o i a (v, l)).1 ∧
    alike (cl_Load o i a (w, l)).2.1 (cl_Load o i a (v, l)).2.1 ∧
    (cl_Load o i a (w, l)).2.2 = (cl_Load o i a (v, l)).2.2;
  blind_tags o a w v l : alike w v →
    (cl_ListTags o a (w, l)).1 = (cl_ListTags o a (v, l)).1 ∧
    alike (cl_ListTags o a (w, l)).2.1 (cl_ListTags o a (v, l)).2.1 ∧
    (cl_ListTags o a (w, l)).2.2 = (cl_ListTags o a (v, l)).2.2
}.
Arguments status_blind {W} L {_ _ _ _} alike.

(** ** Two runs in step *)

Section lockstep.
Context {W L : Type} (alike : W → W → Prop).
Implicit Types s t : RState W L.

Record alike_states (s t : RState W L) : Prop := {
  as_world : alike (st_world s) (st_world t);
  as_loader : st_loader s = st_loader t;
  as_events : gate_free (st_events s) = gate_free (st_events t);
  as_metrics : st_metrics s = st_metrics t }.

(** Both return, values related by [R], or both panic, with the same message. *)
Definition in_step {A B} (R : A → B → Prop) (x : outcome A * RState W L)
    (y : outcome B * RState W L) : Prop :=
  alike_states x.2 y.2 ∧
  match x.1, y.1 with
  | Ret a, Ret b => R a b
  | Panic m, Panic k => m = k
  | _, _ => False
  end.

Definition lockstep {A B} (R : A → B → Prop) (m : M (RState W L) A) (k : M (RState W L) B)
    : Prop := ∀ s t, alike_states s t → in_step R (m s) (k t).

Lemma lockstep_ret {A B} (R : A → B → Prop) a b : R a b → lockstep R (mret a) (mret b).
Proof. by intros HR s t Hst. Qed.

Lemma lockstep_panic {A B} (R : A → B → Prop) msg : lockstep R (panic msg) (panic msg).
Proof. by intros s t Hst. Qed.

Lemma lockstep_bind {A A' B B'} (R : A → A' → Prop) (Q : B → B' → Prop)
    (m : M (RState W L) A) (k : M (RState W L) A') f g :
  lockstep R m k → (∀ a b, R a b → lockstep Q (f a) (g b)) → lockstep Q (m ≫= f) (k ≫= g).
Proof.
  intros Hm Hf s t Hst. destruct (Hm s t Hst) as [Hst1 Hr]. rewrite !M_bind_unfold.
  destruct (m s) as [[a|e] s1], (k t) as [[b|d] t1]; cbn in *; try done. by apply Hf.
Qed.

(** The common case: the same value on both sides. *)
Lemma lockstep_then {A B B'} (Q : B → B' → Prop) (m k : M (RState W L) A) f g :
  lockstep eq m k → (∀ a, lockstep Q (f a) (g a)) → lockstep Q (m ≫= f) (k ≫= g).
Proof. intros Hm Hf. eapply lockstep_bind; [exact Hm|]. by intros a b <-. Qed.

Lemma lockstep_ask {A} (f : W → A) :
  (∀ w v, alike w v → f w = f v) → lockstep eq (ask (L := L) f) (ask f).
Proof. intros Hf s t Hst. split; [done|]. cbn. apply Hf, Hst. Qed.

Lemma lockstep_kube {A} (f g : W → A * W) :
  (∀ w v, alike w v → (f w).1 = (g v).1 ∧ alike (f w).2 (g v).2) →
  lockstep eq (kube (L := L) f) (kube g).
Proof.
  intros Hf s t [Hw Hl He Hm]. destruct (Hf _ _ Hw) as [Ha Hw'].
  by split; [constructor|].
Qed.

Lemma lockstep_on_loader {A} (m : M (W * L) A) :
  (∀ w v l, alike w v → (m (w, l)).1 = (m (v, l)).1 ∧
     alike (m (w, l)).2.1 (m (v, l)).2.1 ∧ (m (w, l)).2.2 = (m (v, l)).2.2) →
  lockstep eq (on_loader m) (on_loader m).
Proof.
  intros Hm s t [Hw Hl He Hms]. destruct (Hm _ _ (st_loader s) Hw) as (Ha & Hw' & Hl').
  unfold on_loader, zoom, in_step. rewrite <- Hl.
  destruct (m (st_world s, _)) as [a [w1 l1]], (m (st_world t, _)) as [b [v1 k1]].
  cbn in *. subst. split; [by constructor|]. by destruct b.
Qed.

Lemma lockstep_on_world {A} (m : M W A) :
  (∀ w v, alike w v → (m w).1 = (m v).1 ∧ alike (m w).2 (m v).2) →
  lockstep eq (on_world (L := L) m) (on_world m).
Proof.
  intros Hm s t [Hw Hl He Hms]. destruct (Hm _ _ Hw) as (Ha & Hw').
  unfold on_world, zoom, in_step.
  destruct (m (st_world s)) as [a w1], (m (st_world t)) as [b v1]. cbn in *. subst.
  split; [by constructor|]. by destruct b.
Qed.

Lemma lockstep_emit p q typ r msg :
  p_Namespace p = p_Namespace q → p_Name p = p_Name q →
  lockstep eq (emit (W := W) (L := L) p typ r msg) (emit q typ r msg).
Proof.
  intros Hns Hn s t [Hw Hl He Hm]. split; [|done]. constructor; [done..| |done].
  cbn. by rewrite !gate_free_app, He, Hns, Hn.
Qed.

Lemma lockstep_record ms : lockstep eq (record (W := W) (L := L) ms) (record ms).
Proof.
  intros s t [Hw Hl He Hm]. split; [|done]. constructor; [done..|]. cbn. by rewrite Hm.
Qed.

Lemma lockstep_for_range {A} (f g : A → M (RState W L) unit) l :
  (∀ a, lockstep eq (f a) (g a)) → lockstep eq (for_range f l) (for_range g l).
Proof.
  intros Hf. induction l as [|a l IH]; [by apply lockstep_ret|].
  cbn. apply lockstep_then; [apply Hf|by intros _].
Qed.
End lockstep.

Arguments alike_states {W L} alike s t.
Arguments lockstep {W L} alike {A B} R m k.

(** ** What the reset keeps

    [resetDerivedStatus] keeps three fields of the old status; no step up to the final
    [stamp] reads them. *)
Definition kept : Type := string * option Time * Z.

Definition carry (c : kept) (p : Pacto) : Pacto :=
  with_status (λ st, set_CurrentRevision c.1.1
    (set_LastReconciledAt c.1.2 (set_ObservedGeneration c.2 st))) p.

(** A Pacto on its way through two reconciles: equal but for the kept fields, and for the
    current revision only if [E] does not hold. *)
Definition twins (E : Prop) (p q : Pacto) : Prop :=
  ∃ r c d, p = carry c r ∧ q = carry d r ∧ (E → c.1.1 = d.1.1).

Section twins.
Context (E : Prop).

Lemma twins_map (f : Pacto → Pacto) p q :
  (∀ c r, f (carry c r) = carry c (f r)) → twins E p q → twins E (f p) (f q).
Proof. intros Hf (r & c & d & -> & -> & Hcd). exists (f r), c, d. by rewrite !Hf. Qed.

Lemma twins_read {A} (f : Pacto → A) p q :
  (∀ c r, f (carry c r) = f r) → twins E p q → f p = f q.
Proof. intros Hf (r & c & d & -> & -> & _). by rewrite !Hf. Qed.

Lemma twins_status (f : PactoStatus → PactoStatus) p q :
  (∀ a b c st, f (set_CurrentRevision a (set_LastReconciledAt b (set_ObservedGeneration c st))) =
     set_CurrentRevision a (set_LastReconciledAt b (set_ObservedGeneration c (f st)))) →
  twins E p q → twins E (with_status f p) (with_status f q).
Proof.
  intros Hf. apply twins_map. intros [[a b] c] [? ? ? ? st]. unfold carry, with_status. cbn.
  f_equal. apply Hf.
Qed.

Lemma twins_setCondition `{ConditionStore} t st r m p q :
  twins E p q → twins E (setCondition t st r m p) (setCondition t st r m q).
Proof. by apply twins_map. Qed.

Lemma twins_reset p q :
  same_object p q → (E → CurrentRevision (p_Status p) = CurrentRevision (p_Status q)) →
  twins E (Status.resetDerivedStatus p) (Status.resetDerivedStatus q).
Proof.
  intros (Hn & Hns & Hg & Hs) Hcr.
  exists (mkPacto (p_Name p) (p_Namespace p) (p_Generation p) (p_Spec p) empty_status),
    (CurrentRevision (p_Status p), LastReconciledAt (p_Status p), ObservedGeneration (p_Status p)),
    (CurrentRevision (p_Status q), LastReconciledAt (p_Status q), ObservedGeneration (p_Status q)).
  split_and!; [done| |done]. rewrite Hn, Hns, Hg, Hs. done.
Qed.

Lemma twins_set_CurrentRevision n p q :
  twins E p q →
  twins E (with_status (set_CurrentRevision n) p) (with_status (set_CurrentRevision n) q).
Proof.
  intros (r & [[a b] c] & [[a' b'] c'] & -> & -> & _). by exists r, (n, b, c), (n, b', c').
Qed.

Lemma twins_object p q : twins E p q → same_object p q.
Proof. by intros (r & c & d & -> & -> & _). Qed.

(** What is finally written. *)
Lemma twins_stamp t p q :
  twins E p q →
  same_but_revision (stamp t p) (stamp t q) ∧ (E → stamp t p = stamp t q).
Proof.
  intros (r & [[a b] c] & [[a' b'] c'] & -> & -> & Haa). split; [by split|].
  intros HE. cbn in Haa. by rewrite (Haa HE).
Qed.

Lemma same_but_revision_read {A} (f : Pacto → A) p q :
  (∀ n r, f (with_status (set_CurrentRevision n) r) = f r) → same_but_revision p q → f p = f q.
Proof.
  intros Hf [(Hn & Hns & Hg & Hs) Hst].
  rewrite <- (Hf (CurrentRevision (p_Status p)) q). f_equal.
  unfold with_status. rewrite <- Hst, <- Hn, <- Hns, <- Hg, <- Hs. by destruct p.
Qed.
End twins.

(** ** The handlers, step by step *)

Section handlers.
Context `{UnicodeTables} `{PactoLib} `{GoMaps} `{ConditionStore}
  `{Credentials.DockerConfigCodec}.
Context {W L : Type} `{!Clock W} `{!KubeClient W} `{!ContractLoader W L}
  `{!Prober.HTTPTransport W}.
Context (alike : W → W → Prop) (Hblind : status_blind L alike) (E : Prop).

Notation "m ∥ k" := (lockstep alike eq m k) (at level 70).
Notation "p ≈ q" := (twins E p q) (at level 70).

Lemma step_load o i a : on_loader (cl_Load o i a) ∥ on_loader (cl_Load o i a).
Proof. apply lockstep_on_loader. intros w v l. apply (blind_load _ Hblind). Qed.

Lemma step_tags o a : on_loader (cl_ListTags o a) ∥ on_loader (cl_ListTags o a).
Proof. apply lockstep_on_loader. intros w v l. apply (blind_tags _ Hblind). Qed.

Lemma step_create r : kube (Create_Revision r) ∥ kube (L := L) (Create_Revision r).
Proof. apply lockstep_kube, (blind_create _ Hblind). Qed.

Lemma step_update r :
  kube (Update_Revision_Status r) ∥ kube (L := L) (Update_Revision_Status r).
Proof. apply lockstep_kube, (blind_update _ Hblind). Qed.

Lemma step_now : ask now ∥ ask (L := L) now.
Proof. apply lockstep_ask, (blind_now _ Hblind). Qed.

Lemma step_secret ns n : ask (Get_Secret ns n) ∥ ask (L := L) (Get_Secret ns n).
Proof. apply lockstep_ask, (blind_secret _ Hblind). Qed.

Lemma step_get ns n : ask (Get_Revision ns n) ∥ ask (L := L) (Get_Revision ns n).
Proof. apply lockstep_ask, (blind_revision _ Hblind). Qed.

Lemma step_list ns ls : ask (List_Revisions ns ls) ∥ ask (L := L) (List_Revisions ns ls).
Proof. apply lockstep_ask, (blind_list _ Hblind). Qed.

Lemma step_probe p url : on_world (Prober.Probe p url) ∥ on_world (L := L) (Prober.Probe p url).
Proof.
  apply lockstep_on_world. intros w v Hw. unfold Prober.Probe.
  destruct (Prober.http_NewRequest url); [done|].
  destruct (blind_http _ Hblind (Prober.client_Timeout p) url w v Hw) as [Ha Hw'].
  unfold mbind, M_bind, gets, lift_op. cbn.
  rewrite Ha, (blind_now _ Hblind _ _ Hw), (blind_now _ Hblind _ _ Hw').
  by destruct (Prober.http_Do _ _ v).1.
Qed.

(** Goes through code that is the same on both sides. *)
Ltac step :=
  repeat first
    [ apply lockstep_ret; reflexivity
    | apply lockstep_panic
    | apply lockstep_emit; reflexivity
    | apply lockstep_record
    | apply lockstep_then;
        [ first [ apply step_load | apply step_tags | apply step_create | apply step_update
                | apply step_now | apply step_secret | apply step_get | apply step_list
                | apply step_probe | apply lockstep_record
                | apply lockstep_emit; reflexivity ]
        | intros ? ]
    | progress cbv zeta
    | match goal with
      | |- lockstep _ _ (match ?x with _ => _ end) (match ?x with _ => _ end) => destruct x
      end ].

Lemma step_ensureRevision p q lr :
  p ≈ q → Revisions.ensureRevision p lr ∥ Revisions.ensureRevision (L := L) q lr.
Proof.
  intros (r & c & d & -> & -> & _). unfold Revisions.ensureRevision.
  rewrite (blind_reference _ Hblind (carry c r) (carry d r)) by done.
  change (Revisions.revision_name (carry ?e r) lr) with (Revisions.revision_name r lr).
  change (Revisions.new_revision (carry ?e r) lr) with (Revisions.new_revision r lr).
  step.
Qed.

Lemma step_sync_tag p q baseRef ociAuth tag :
  p ≈ q →
  Revisions.sync_tag p baseRef ociAuth tag ∥ Revisions.sync_tag (L := L) q baseRef ociAuth tag.
Proof.
  intros Hpq. assert (∀ lr, (Revisions.ensureRevision p lr ≫= λ _, mret tt) ∥
    (Revisions.ensureRevision (L := L) q lr ≫= λ _, mret tt)) as Hensure.
  { intros lr. apply lockstep_then; [by apply step_ensureRevision|]. intros _. step. }
  destruct Hpq as (r & c & d & -> & -> & _). unfold Revisions.sync_tag.
  step; apply Hensure.
Qed.

Lemma step_syncAllRevisions p q baseRef ociAuth :
  p ≈ q →
  Revisions.syncAllRevisions p baseRef ociAuth ∥
  Revisions.syncAllRevisions (L := L) q baseRef ociAuth.
Proof.
  intros Hpq. unfold Revisions.syncAllRevisions. step.
  apply lockstep_then; [|intros; step]. apply lockstep_for_range.
  intros tag. by apply step_sync_tag.
Qed.

Lemma step_reconcile_revisions p q lr ociAuth :
  p ≈ q →
  lockstep alike (twins E) (reconcile_revisions (L := L) p lr ociAuth)
    (reconcile_revisions q lr ociAuth).
Proof.
  intros Hpq. unfold reconcile_revisions.
  apply lockstep_then; [by apply step_ensureRevision|]. intros ensured. cbv zeta.
  set (p1 := match ensured with Ok _ => _ | Err _ => p end).
  set (q1 := match ensured with Ok _ => _ | Err _ => q end).
  assert (p1 ≈ q1) as Hp1.
  { subst p1 q1. destruct ensured; [by apply twins_set_CurrentRevision|done]. }
  clearbody p1 q1. assert (p_Spec p1 = p_Spec q1) as -> by by apply (twins_read E).
  apply lockstep_then; [|intros _; by apply lockstep_ret].
  destruct (_ && _); [|step]. apply lockstep_then; [by apply step_syncAllRevisions|].
  intros ?. step.
Qed.

(** The transition events depend on the old condition. *)
Lemma step_emit_transition p q status msg b b' :
  Readiness.emit_transition (W := W) (L := L) p status msg b ∥
  Readiness.emit_transition q status msg b'.
Proof.
  assert (∀ p status msg b (s : RState W L), ∃ evs,
    Readiness.emit_transition p status msg b s =
      (Ret tt, mkRState (st_world s) (st_loader s) (st_events s ++ evs) (st_metrics s)) ∧
    gate_free evs = []) as Hone.
  { clear. intros p status msg b s. unfold Readiness.emit_transition.
    repeat case_match; [by eexists [_]..|]. exists []. split; [|done].
    rewrite app_nil_r. by destruct s. }
  intros s t [Hw Hl He Hm].
  destruct (Hone p status msg b s) as (es & -> & Hes).
  destruct (Hone q status msg b' t) as (et & -> & Het).
  split; [|done]. constructor; [done..| |done]. cbn.
  by rewrite !gate_free_app, He, Hes, Het.
Qed.

Lemma step_readiness p q c b b' :
  p ≈ q →
  lockstep alike (twins E) (Readiness.reconcileReadiness (L := L) p c b)
    (Readiness.reconcileReadiness q c b').
Proof.
  intros Hpq. unfold Readiness.reconcileReadiness.
  apply lockstep_then; [apply step_now|]. intros t.
  destruct (readiness_Evaluate (c_Readiness c) t) as [eval|]; [|by apply lockstep_ret].
  cbv zeta. destruct (Readiness.readinessCondition eval) as [[status reason] msg].
  pose proof (twins_object E p q Hpq) as (Hn & Hns & _).
  apply lockstep_then.
  { cbn. rewrite Hn, Hns. apply lockstep_record. }
  intros _. apply lockstep_then; [apply step_emit_transition|]. intros _.
  apply lockstep_ret. apply twins_setCondition, twins_status; [|done]. by intros ? ? ? [].
Qed.

(** *** Verdict *)

Lemma twins_applyCheck k p q :
  p ≈ q → Verdict.applyCheck p k ≈ Verdict.applyCheck q k.
Proof. by apply (twins_map E (λ p, Verdict.applyCheck p k)). Qed.

Lemma twins_foldl {A} (f : Pacto → A → Pacto) l p q :
  (∀ a p q, p ≈ q → f p a ≈ f q a) → p ≈ q → foldl f p l ≈ foldl f q l.
Proof.
  intros Hf. revert p q. induction l as [|a l IH]; intros p q Hpq; [done|]. by apply IH, Hf.
Qed.

Lemma twins_applyValidationResult r snap svc wn wk p q :
  p ≈ q →
  Verdict.applyValidationResult p r snap svc wn wk ≈
  Verdict.applyValidationResult q r snap svc wn wk.
Proof.
  intros Hpq. unfold Verdict.applyValidationResult. cbv zeta.
  destruct (foldl _ (1, 0) _) as [passed failed].
  apply twins_status; [by intros ? ? ? []|]. apply twins_foldl.
  { intros k ? ?. apply twins_setCondition. }
  destruct (_ || _); repeat (apply twins_status; [by intros ? ? ? []|]); done.
Qed.

Abbreviation probed := (λ x y : Pacto * list Validator.Check * option EndpointCheckResult,
  x.1.1 ≈ y.1.1 ∧ x.1.2 = y.1.2 ∧ x.2 = y.2).

Lemma step_probe_and_apply pr spec p q checks :
  p ≈ q →
  lockstep alike probed (Verdict.probe_and_apply (L := L) pr spec p checks)
    (Verdict.probe_and_apply pr spec q checks).
Proof.
  intros Hpq. unfold Verdict.probe_and_apply.
  apply lockstep_then; [unfold Verdict.probeOneEndpoint; step|]. intros [check r].
  apply lockstep_ret. cbn. split_and!; [by apply twins_applyCheck|done..].
Qed.

Abbreviation checked := (λ x y : Pacto * list Validator.Check, x.1 ≈ y.1 ∧ x.2 = y.2).

Lemma step_probeEndpoints p q c svc :
  p ≈ q →
  lockstep alike checked (Verdict.probeEndpoints (L := L) p c svc)
    (Verdict.probeEndpoints q c svc).
Proof.
  intros Hpq. unfold Verdict.probeEndpoints.
  destruct (c_Runtime c) as [rt|]; [|by apply lockstep_ret].
  destruct (Verdict.iface_lookups (c_Interfaces c)) as [ex po]. cbv zeta.
  pose proof (twins_object E p q Hpq) as (_ & -> & _).
  apply (lockstep_bind _ probed).
  { repeat case_match; solve [by apply step_probe_and_apply|by apply lockstep_ret]. }
  intros [[p1 l1] r1] [[q1 l2] r2] (Hp1 & Hl & Hr). cbn in Hp1, Hl, Hr. subst l2 r2.
  apply (lockstep_bind _ probed).
  { repeat case_match; solve [by apply step_probe_and_apply|by apply lockstep_ret]. }
  intros [[p2 l2] r2] [[q2 l3] r3] (Hp2 & Hl & Hr). cbn in Hp2, Hl, Hr. subst l3 r3.
  apply lockstep_ret. cbn. split; [|done]. destruct (_ && _); [done|].
  apply twins_status; [by intros ? ? ? []|done].
Qed.

Lemma step_runtime_part p q c snap hs svc wn wk :
  p ≈ q →
  lockstep alike checked (Verdict.runtime_part (L := L) p c snap hs svc wn wk)
    (Verdict.runtime_part q c snap hs svc wn wk).
Proof.
  intros Hpq. unfold Verdict.runtime_part. cbv zeta.
  apply (twins_applyValidationResult (Validator.Validate c snap hs) snap svc wn wk) in Hpq.
  apply (lockstep_bind _ checked).
  { destruct (Observer.ServiceExists snap); [by apply step_probeEndpoints|by apply lockstep_ret]. }
  intros [p1 l1] [q1 l2] [Hp1 Hl]. cbn in Hp1, Hl. subst l2. by apply lockstep_ret.
Qed.

(** *** The end of a reconcile *)

(** Both runs end alike: with the same answer, and unless they panic with the write of
    statuses that differ in the current revision at most. *)
Definition end_alike {A} (x y : outcome A * RState W L) : Prop :=
  alike_states alike x.2 y.2 ∧ x.1 = y.1 ∧
  ((∃ msg, x.1 = Panic msg) ∨
   ∃ p q w v e,
     Update_Pacto_Status p w = (e, st_world x.2) ∧
     Update_Pacto_Status q v = (e, st_world y.2) ∧
     same_but_revision p q ∧ (E → p = q)).

Definition ending {A} (m k : M (RState W L) A) : Prop :=
  ∀ s t, alike_states alike s t → end_alike (m s) (k t).

Lemma ending_bind {A B C} (R : A → B → Prop) (m : M (RState W L) A) (k : M (RState W L) B)
    (f : A → M (RState W L) C) g :
  lockstep alike R m k → (∀ a b, R a b → ending (f a) (g b)) → ending (m ≫= f) (k ≫= g).
Proof.
  intros Hm Hf s t Hst. destruct (Hm s t Hst) as [Hst1 Hr]. rewrite !M_bind_unfold.
  destruct (m s) as [[a|e] s1], (k t) as [[b|d] t1]; cbn in *; try done; [by apply (Hf a b Hr)|].
  split_and!; [done|by rewrite Hr|]. left. by eexists.
Qed.

Lemma ending_then {A C} (m k : M (RState W L) A) (f g : A → M (RState W L) C) :
  m ∥ k → (∀ a, ending (f a) (g a)) → ending (m ≫= f) (k ≫= g).
Proof. intros Hm Hf. eapply ending_bind; [exact Hm|]. by intros a b <-. Qed.

Lemma ending_write {A} p q (f g : option error → M (RState W L) A) :
  same_but_revision p q → (E → p = q) →
  (∀ e, f e ∥ g e) → (∀ e P, keeps P (f e)) → (∀ e P, keeps P (g e)) →
  ending (kube (Update_Pacto_Status p) ≫= f) (kube (Update_Pacto_Status q) ≫= g).
Proof.
  intros Hpq HE Hfg Hf Hg s t [Hw Hl He Hm].
  destruct (blind_write _ Hblind p q _ _ Hpq Hw) as [Ha Hw'].
  rewrite !M_bind_unfold. unfold kube, on_world, zoom, lift_op.
  destruct (Update_Pacto_Status p (st_world s)) as [e w'] eqn:Hup.
  destruct (Update_Pacto_Status q (st_world t)) as [e2 v'] eqn:Huq.
  cbn in Ha, Hw' |- *. subst e2.
  set (s1 := mkRState w' _ _ _). set (t1 := mkRState v' _ _ _).
  destruct (Hfg e s1 t1 ltac:(by constructor)) as [Hst1 Hr].
  pose proof (Hf e (λ w, w = w') s1 eq_refl) as Hs1.
  pose proof (Hg e (λ v, v = v') t1 eq_refl) as Ht1.
  destruct (f e s1) as [[a|m] s2], (g e t1) as [[b|k] t2]; cbn in *; try done; subst.
  - split_and!; [done|done|]. right. by exists p, q, (st_world s), (st_world t), e.
  - split_and!; [done|done|]. left. by eexists.
Qed.

Lemma step_record_outcome p q c checks :
  same_but_revision p q → record_outcome (W := W) (L := L) p c checks ∥ record_outcome q c checks.
Proof.
  intros Hpq. unfold record_outcome.
  assert (p_Namespace p = p_Namespace q) as -> by by apply same_but_revision_read.
  assert (p_Name p = p_Name q) as -> by by apply same_but_revision_read.
  assert (ContractStatus (p_Status p) = ContractStatus (p_Status q)) as ->
    by by apply (same_but_revision_read (λ p, ContractStatus (p_Status p))).
  step.
Qed.

Lemma record_outcome_keeps P p c checks : keeps P (record_outcome (W := W) (L := L) p c checks).
Proof.
  assert (∀ ms, keeps P (record (W := W) (L := L) ms)) as Hrec by by intros ms s.
  unfold record_outcome. keep_going.
Qed.

Lemma same_but_revision_requeue p q :
  same_but_revision p q → Status.requeueInterval p = Status.requeueInterval q.
Proof. by apply same_but_revision_read. Qed.

Lemma end_failReconciliation p q msg vr c :
  p ≈ q →
  ending (failReconciliation (W := W) (L := L) p msg vr c) (failReconciliation q msg vr c).
Proof.
  intros Hpq. unfold failReconciliation. cbv zeta.
  set (p1 := with_status _ (setCondition _ _ _ _ p)).
  set (q1 := with_status _ (setCondition _ _ _ _ q)).
  assert (p1 ≈ q1) as Hpq1.
  { apply twins_status; [by intros ? ? ? []|]. by apply twins_setCondition. }
  clearbody p1 q1. clear Hpq. apply ending_then; [apply step_now|]. intros t.
  destruct (twins_stamp E t p1 q1 Hpq1) as [Hsame HE].
  pose proof Hsame as [(Hn & Hns & _) _].
  apply ending_write; [done..| | |].
  - intros [e|]; [step|]. apply lockstep_then; [by apply lockstep_emit|]. intros _.
    apply lockstep_then; [by apply step_record_outcome|]. intros _.
    rewrite (same_but_revision_requeue _ _ Hsame). step.
  - intros e P. pose proof (record_outcome_keeps P). keep_going.
  - intros e P. pose proof (record_outcome_keeps P). keep_going.
Qed.

Lemma end_finishReconciliation p q c checks :
  p ≈ q →
  ending (finishReconciliation (W := W) (L := L) p c checks) (finishReconciliation q c checks).
Proof.
  intros Hpq. unfold finishReconciliation.
  apply ending_then; [apply step_now|]. intros t. cbv zeta.
  destruct (twins_stamp E t p q Hpq) as [Hsame HE].
  pose proof Hsame as [(Hn & Hns & _) _].
  apply ending_write; [done..| | |].
  - intros [e|]; [step|].
    assert (ContractStatus (p_Status (stamp t p)) = ContractStatus (p_Status (stamp t q))) as ->
      by by apply (same_but_revision_read (λ p, ContractStatus (p_Status p))).
    assert (Summary (p_Status (stamp t p)) = Summary (p_Status (stamp t q))) as ->
      by by apply (same_but_revision_read (λ p, Summary (p_Status p))).
    apply lockstep_then.
    { repeat case_match; first [by apply lockstep_emit|step]. }
    intros _. apply lockstep_then; [by apply step_record_outcome|]. intros _.
    rewrite (same_but_revision_requeue _ _ Hsame). step.
  - intros e P. pose proof (record_outcome_keeps P). keep_going.
  - intros e P. pose proof (record_outcome_keeps P). keep_going.
Qed.

Lemma end_reconcile_target p q c :
  p ≈ q →
  ending (reconcile_target (W := W) (L := L) p c) (reconcile_target q c).
Proof.
  intros Hpq. pose proof (twins_object E p q Hpq) as Hso.
  pose proof Hso as (Hn & Hns & _ & Hspec). unfold reconcile_target.
  assert (IsReference p = IsReference q) as -> by by apply IsReference_same.
  assert (ResolvedWorkload p = ResolvedWorkload q) as -> by by apply (twins_read E).
  destruct (IsReference q).
  { apply end_finishReconciliation, twins_status; [by intros ? ? ? []|].
    by apply twins_setCondition. }
  destruct (ResolvedWorkload q) as [wn wk]. cbv zeta. rewrite Hns, Hspec.
  apply ending_then.
  { apply lockstep_ask. intros w v Hw. by rewrite (blind_reader _ Hblind _ _ Hw). }
  intros [snap|err].
  - set (p1 := observed_runtime snap p). set (q1 := observed_runtime snap q).
    assert (p1 ≈ q1) as Hpq1.
    { subst p1 q1. unfold observed_runtime. destruct (Observer.WorkloadExists snap); [|done].
      apply twins_status; [by intros ? ? ? []|done]. }
    eapply ending_bind; [by apply step_runtime_part|].
    intros [p2 l1] [q2 l2] [Hpq2 Hl]. cbn in Hpq2, Hl. subst l2.
    apply end_finishReconciliation.
    assert (Verdict.computeFinalContractStatus p2 = Verdict.computeFinalContractStatus q2) as ->
      by by apply (twins_read E).
    apply twins_status; [by intros ? ? ? []|done].
  - apply ending_then; [by apply lockstep_emit|]. intros _.
    apply end_finishReconciliation, twins_status; [by intros ? ? ? []|].
    by apply twins_setCondition.
Qed.

Lemma twins_mark_overridden keys p q :
  p ≈ q → Status.mark_overridden keys p ≈ Status.mark_overridden keys q.
Proof. unfold Status.mark_overridden. apply twins_status. by intros ? ? ? []. Qed.

Lemma twins_populateContractStatus lr p q :
  p ≈ q → Status.populateContractStatus p lr ≈ Status.populateContractStatus q lr.
Proof.
  unfold Status.populateContractStatus. cbv zeta.
  destruct (c_Runtime _), (c_Scaling _), (bool_decide _);
    apply twins_status; by intros ? ? ? [].
Qed.

Lemma twins_populate_contract p q lr c keys :
  p ≈ q → populate_contract p lr c keys ≈ populate_contract q lr c keys.
Proof.
  intros Hpq. unfold populate_contract. cbv zeta.
  apply twins_mark_overridden, twins_populateContractStatus.
  apply twins_status; [by intros ? ? ? []|]. by apply twins_setCondition.
Qed.

Lemma end_reconcile_contract p q b b' ociAuth lr c keys :
  p ≈ q →
  ending (reconcile_contract (W := W) (L := L) p b ociAuth lr c keys)
    (reconcile_contract q b' ociAuth lr c keys).
Proof.
  intros Hpq. unfold reconcile_contract. cbv zeta.
  set (vr := validation_Validate _ _ _).
  set (p1 := with_status _ p). set (q1 := with_status _ q).
  assert (p1 ≈ q1) as Hpq1 by (apply twins_status; [by intros ? ? ? []|done]).
  clearbody p1 q1. case_bool_decide; [by apply end_failReconciliation|].
  apply (twins_populate_contract p1 q1 lr c keys) in Hpq1.
  eapply ending_bind; [by apply step_readiness|]. intros p2 q2 Hpq2.
  eapply ending_bind; [by apply step_reconcile_revisions|]. intros p3 q3.
  apply end_reconcile_target.
Qed.

Lemma end_reconcile_load p q b b' ociAuth :
  p ≈ q →
  ending (reconcile_load (W := W) (L := L) p b ociAuth) (reconcile_load q b' ociAuth).
Proof.
  intros Hpq. pose proof (twins_object E p q Hpq) as (Hn & Hns & _ & Hspec).
  unfold reconcile_load. cbv zeta. cbn [with_status p_Spec]. rewrite Hspec.
  set (p1 := with_status _ p). set (q1 := with_status _ q).
  assert (p1 ≈ q1) as Hpq1 by (apply twins_status; [by intros ? ? ? []|done]).
  clearbody p1 q1. apply ending_then; [apply step_load|].
  intros [lr|err]; [|by apply end_failReconciliation].
  destruct (sp_Overrides (p_Spec q)) as [ovs|].
  - destruct (Overrides.applyConfigurationOverrides _ _) as [[c keys]|err];
      [by apply end_reconcile_contract|by apply end_failReconciliation].
  - by apply end_reconcile_contract.
Qed.

Lemma end_reconcile_reset p q b b' :
  p ≈ q →
  ending (reconcile_reset (W := W) (L := L) p b) (reconcile_reset q b').
Proof.
  intros Hpq. pose proof (twins_object E p q Hpq) as (_ & Hns & _ & Hspec).
  unfold reconcile_reset. cbv zeta. rewrite Hns, Hspec.
  case_bool_decide; [|by apply end_reconcile_load].
  apply ending_then.
  - unfold resolveOCIAuth. apply lockstep_then; [apply step_secret|]. intros ?. step.
  - intros [auth|err]; [by apply end_reconcile_load|by apply end_failReconciliation].
Qed.
End handlers.
Section result.
Context `{UnicodeTables} `{PactoLib} `{GoMaps} `{ConditionStore}
  `{Credentials.DockerConfigCodec}.
Context {W L : Type} `{!Clock W} `{!KubeClient W} `{!ContractLoader W L}
  `{!Prober.HTTPTransport W}.
Context (alike : W → W → Prop) (Hblind : status_blind L alike).
Implicit Types s t : RState W L.

(** C5 (equivalence). Reconciles are level-triggered: run from two states that differ only
    in the statuses of Pactos, whatever stale or foreign data these hold, a reconcile gives
    the same answer, talks to the cluster, the loader and the metrics in the same way, and
    emits the same events but for those about transitions of the readiness gate. The two
    statuses it writes are equal, except that a revision that could not be recorded leaves
    the current revision as it was. *)
Theorem Reconcile_level_triggered ns n s t :
  alike_states alike s t →
  let x := Reconcile ns n s in
  let y := Reconcile ns n t in
  x.1 = y.1 ∧ alike_states alike x.2 y.2 ∧
  ∀ p q, Get_Pacto ns n (st_world s) = Ok p → Get_Pacto ns n (st_world t) = Ok q →
    (∃ msg, x.1 = Panic msg) ∨
    ∃ p' q' w v e,
      Update_Pacto_Status p' w = (e, st_world x.2) ∧
      Update_Pacto_Status q' v = (e, st_world y.2) ∧
      same_but_revision p' q' ∧
      (CurrentRevision (p_Status p) = CurrentRevision (p_Status q) → p' = q').
Proof.
  intros Hst. cbv zeta. pose proof (blind_pacto _ Hblind ns n _ _ (as_world _ _ _ Hst)) as Hget.
  unfold Reconcile, ask. rewrite !M_bind_unfold. unfold gets.
  destruct (Get_Pacto ns n (st_world s)) as [p|e], (Get_Pacto ns n (st_world t)) as [q|d];
    try done.
  - cbv zeta.
    destruct (end_reconcile_reset alike Hblind
      (CurrentRevision (p_Status p) = CurrentRevision (p_Status q))
      (Status.resetDerivedStatus p) (Status.resetDerivedStatus q)
      (Readiness.readinessWasUnmet p) (Readiness.readinessWasUnmet q)
      (twins_reset _ p q Hget (λ Hcr, Hcr)) s t Hst) as (Hs' & Ho & Hend).
    split_and!; [done|done|]. by intros ? ? [= <-] [= <-].
  - subst d. destruct (IsNotFound e); split_and!; done.
Qed.
End result.

(** *** Witness on the in-memory cluster *)

Section examples.
Import Cluster.
#[local] Existing Instances cluster_clock cluster_client cluster_network.

Definition level_loader : ContractLoader cluster unit := fixed_loader (Ok loaded) ["1.0.0"].
#[local] Existing Instance level_loader.

(** Clusters that differ in the statuses of their Pactos. *)
Definition clusters_alike (w v : cluster) : Prop :=
  cl_clock w = cl_clock v ∧ cl_revisions w = cl_revisions v ∧ cl_secrets w = cl_secrets v ∧
  cl_reader w = cl_reader v ∧
  ∀ k, option_Forall2 same_object (cl_pactos w !! k) (cl_pactos v !! k).

Lemma cluster_status_blind : status_blind unit clusters_alike.
Proof.
  constructor; unfold clusters_alike; try (by intros; destruct_and?); cbn.
  - intros ns n w v (_ & _ & E & _). by rewrite E.
  - intros ns n w v (_ & E & _). by rewrite E.
  - intros ns ls w v (_ & E & _). by rewrite E.
  - intros ns n w v (_ & _ & _ & _ & Hp). unfold lookup_object. by destruct (Hp (ns, n)).
  - intros p q r (E & _). by rewrite E.
  - intros r w v (Ec & E & Es & Er & Hp). unfold create. rewrite E.
    by destruct (cl_revisions v !! _).
  - intros r w v (Ec & E & Es & Er & Hp). unfold update_revision. rewrite E.
    by destruct (cl_revisions v !! _).
  - intros p q w v [(En & Ens & _) Est] (Ec & E & Es & Er & Hp).
    unfold update_pacto. rewrite En, Ens.
    destruct (Hp (p_Namespace q, p_Name q)) as [old old' Hold|]; [|done]. cbn.
    split_and!; [done..|]. intros k. destruct (decide (k = (p_Namespace q, p_Name q))) as [->|Hk].
    + rewrite !lookup_insert_eq. by constructor.
    + by rewrite !lookup_insert_ne.
Qed.

(** The example Pacto, left by someone as unready and Compliant with version 9. *)
Definition stale : Pacto :=
  with_status (λ st, set_ContractStatus ContractStatusCompliant (set_ContractVersion "9"
    (set_Conditions [{| cond_Type := ConditionReadinessSatisfied; cond_Status := ConditionFalse;
      cond_ObservedGeneration := 0; cond_Reason := ""; cond_Message := "" |}] st)))
    example_pacto.

Definition stale_state : RState cluster unit :=
  mkRState (with_pactos {[ ("prod", "api") := stale ]} small_cluster) tt [] [].

Abbreviation level_run := (@Reconcile latin1_tables example_lib canonical_order list_store
  Credentials.example_codec cluster unit cluster_clock cluster_client level_loader
  cluster_network "prod" "api").

Example level_run_ex :
  (λ s, match (level_run s).1 with Ret (Ok _) => true | _ => false end) <$>
    [small_state; stale_state] = [true; true].
Proof. vm_compute. reflexivity. Qed.

Lemma stale_alike : alike_states clusters_alike small_state stale_state.
Proof.
  constructor; [|done..]. split_and!; [done..|]. intros k. cbn.
  destruct (decide (k = ("prod", "api"))) as [->|Hk].
  - rewrite !lookup_singleton_eq. by constructor.
  - rewrite !lookup_singleton_ne by done. constructor.
Qed.

Lemma Reconcile_level_triggered_witness :
  (level_run small_state).1 = (level_run stale_state).1 ∧
  alike_states clusters_alike (level_run small_state).2 (level_run stale_state).2.
Proof.
  destruct (@Reconcile_level_triggered latin1_tables example_lib canonical_order list_store
    Credentials.example_codec cluster unit cluster_clock cluster_client level_loader
    cluster_network clusters_alike cluster_status_blind "prod" "api" small_state stale_state
    stale_alike) as (Ho & Hs & _).
  split; [exact Ho|exact Hs].
Defined.
End examples.
End LevelTriggered.
