(* ===== verification/System.v ===== *)
(** * The operator over time

    Reconciles, one after the other as the work queue hands them out, with arbitrary
    changes by users and other controllers in between. The operator is a transition system
    over the state of [Reconcile]; what the API server stores of it refines an abstract
    machine that only ever publishes well-formed statuses, and the invariants of every
    reachable state follow by induction on the steps. *)

From S2P Require Import Prelude GoStrings GoMaps GoFmt Contract V1alpha1 Conditions.
From S2P Require Import Observer Images Validator Credentials Prober Metrics Loader.
From S2P Require Import Overrides Kube Cluster Readiness Status Verdict Revisions Reconcile.
From stdpp Require Import options.
#[local] Set Default Proof Using "Type*".

Module System.
Import Reconcile.
Import Revisions(grown, grown_extends, grown_new).

Definition pacto_key (p : Pacto) : string * string := (p_Namespace p, p_Name p).

(** The documented behaviour of the API server on Pacto objects, whose status is a
    subresource: a read finds what is stored, a not-found error means that there is
    nothing, a successful status update replaces the status only, one that fails changes
    nothing, and no other call of the reconciler writes to a Pacto. *)
Class PactoLaws (W L : Type) `{!KubeClient W} `{!ContractLoader W L}
    `{!Prober.HTTPTransport W} := {
  pactos : W → gmap (string * string) Pacto;
  pacto_found ns n w p : Get_Pacto ns n w = Ok p → pactos w !! (ns, n) = Some p;
  pacto_missing ns n w e :
    Get_Pacto ns n w = Err e → IsNotFound e = true → pactos w !! (ns, n) = None;
  status_done p w w' :
    Update_Pacto_Status p w = (None, w') →
    ∃ old, pactos w !! pacto_key p = Some old ∧
      pactos w' = <[pacto_key p := with_status (λ _, p_Status p) old]> (pactos w);
  status_refused p w w' e : Update_Pacto_Status p w = (Some e, w') → pactos w' = pactos w;
  pactos_quiet P : quiet L (λ w, pactos w = P)
}.

(** ** The abstract machine *)

(** What the API server stores of the operator's resources. *)
Record view := mkView {
  v_pactos : gmap (string * string) Pacto;
  v_revisions : gmap (string * string) PactoRevision }.

(** What users and other controllers may do between two reconciles: create Pactos without a
    status, delete them, and edit their spec, which raises the generation; delete revisions
    and write their status. They neither write the status of a Pacto nor create or
    rewrite a revision. *)
Record rely (v v' : view) : Prop := {
  rely_pactos k p' : v_pactos v' !! k = Some p' →
    pacto_key p' = k ∧
    (LastReconciledAt (p_Status p') = None ∨
     ∃ p, v_pactos v !! k = Some p ∧ p_Status p' = p_Status p ∧
       p_Generation p ≤ p_Generation p' ∧
       (p_Generation p = p_Generation p' → p_Spec p = p_Spec p'));
  rely_revisions k r' : v_revisions v' !! k = Some r' →
    ∃ r, v_revisions v !! k = Some r ∧ r' = with_revision_status (rev_Status r') r
}.

(** One reconcile of a Pacto either publishes a well-formed status of it or leaves the
    Pactos alone; it may add revisions of its own. *)
Inductive abs_step `{ConditionStore} : view → view → Prop :=
| abs_idle v : abs_step v v
| abs_publish P R R' p p' :
    P !! pacto_key p = Some p → well_formed p p' → grown p R R' →
    abs_step (mkView P R) (mkView (<[pacto_key p := p']> P) R')
| abs_give_up P R R' p :
    P !! pacto_key p = Some p → grown p R R' → abs_step (mkView P R) (mkView P R')
| abs_environment v v' : rely v v' → abs_step v v'.

(** What an observer is told of a step: which request was handled and how that ended, or
    that others were at work. *)
Inductive label :=
| Handled (namespace name : string) (o : outcome (result Z))
| Others.

(** The abstract machine with labels. Handling a request of a stored Pacto publishes one
    well-formed status, of that Pacto, exactly when it succeeds, and adds revisions of that
    Pacto whether it succeeds or not; a request of no Pacto, and one whose Pacto cannot be
    read, do nothing. Only the label [Others] stands for changes by others. *)
Inductive abs_does `{ConditionStore} : label → view → view → Prop :=
| does_publish namespace name P R R' p p' :
    P !! (namespace, name) = Some p → well_formed p p' → grown p R R' →
    abs_does (Handled namespace name (Ret (Ok (Status.requeueInterval p'))))
      (mkView P R) (mkView (<[(namespace, name) := p']> P) R')
| does_fail namespace name P R R' p o :
    P !! (namespace, name) = Some p → (∀ d, o ≠ Ret (Ok d)) → grown p R R' →
    abs_does (Handled namespace name o) (mkView P R) (mkView P R')
| does_nothing namespace name v :
    v_pactos v !! (namespace, name) = None →
    abs_does (Handled namespace name (Ret (Ok 0))) v v
| does_not_read namespace name v e :
    abs_does (Handled namespace name (Ret (Err e))) v v
| does_others v v' : rely v v' → abs_does Others v v'.

(** A run of a labelled machine. *)
Inductive trace {S} (step : label → S → S → Prop) : list label → S → S → Prop :=
| trace_nil s : trace step [] s s
| trace_cons l ls s s1 s2 : step l s s1 → trace step ls s1 s2 → trace step (l :: ls) s s2.

(** Every Pacto is stored under its own key. *)
Definition keyed (v : view) : Prop := ∀ k p, v_pactos v !! k = Some p → pacto_key p = k.

(** The status of a Pacto is one that a reconcile wrote for an earlier or the present
    state of the object. *)
Definition accounted `{ConditionStore} (p : Pacto) : Prop :=
  LastReconciledAt (p_Status p) = None ∨
  ∃ p0, pacto_key p0 = pacto_key p ∧ p_Generation p0 ≤ p_Generation p ∧
    (p_Generation p0 = p_Generation p → p_Spec p0 = p_Spec p) ∧
    well_formed p0 (with_status (λ _, p_Status p) p0).

(** A revision lies under its own key and belongs to the Pacto its spec names. *)
Definition owned (k : string * string) (r : PactoRevision) : Prop :=
  revision_key r = k ∧ rev_Owner r = Some (rev_PactoRef (rev_Spec r)).

Record good `{ConditionStore} (v : view) : Prop := {
  good_keys : keyed v;
  good_statuses k p : v_pactos v !! k = Some p → accounted p;
  good_revisions k r : v_revisions v !! k = Some r → owned k r
}.

(** *** Invariants of the abstract machine *)

Section abstract.
Context `{ConditionStore}.

Lemma published_status p p' :
  same_object p' p → with_status (λ _, p_Status p') p = p'.
Proof. destruct p, p'. intros (? & ? & ? & ?). cbn in *. by simplify_eq. Qed.

Lemma same_object_key p q : same_object q p → pacto_key q = pacto_key p.
Proof. intros (Hn & Hns & _). unfold pacto_key. congruence. Qed.

Lemma well_formed_key p p' : well_formed p p' → pacto_key p' = pacto_key p.
Proof. intros [(Hn & Hns & _) _ _ _ _ _ _ _ _]. unfold pacto_key. congruence. Qed.

Lemma well_formed_accounted p p' : well_formed p p' → accounted p'.
Proof.
  intros Hwf. right. exists p. pose proof (wf_object _ _ Hwf) as Hso.
  rewrite (well_formed_key p p' Hwf), (published_status p p' Hso).
  destruct Hso as (_ & _ & -> & ->). by split_and!.
Qed.

Lemma well_formed_same p q p' : same_object p q → well_formed p p' → well_formed q p'.
Proof.
  intros Hso [Hobj Hgen ? ? ? ? ? Href ?]. constructor; try done.
  - by etrans.
  - rewrite Hgen. apply Hso.
  - by rewrite <- (IsReference_same p q Hso).
Qed.

(** A status describes the object it was written for also when the object is looked at
    later, as long as the generation is the same. *)
Lemma accounted_current p :
  accounted p → LastReconciledAt (p_Status p) ≠ None →
  ObservedGeneration (p_Status p) ≤ p_Generation p ∧
  (ObservedGeneration (p_Status p) = p_Generation p → well_formed p p).
Proof.
  intros [?|(p0 & Hkey & Hle & Hspec & Hwf)] Hrec; [done|].
  pose proof (wf_generation _ _ Hwf) as Hgen. cbn in Hgen. split; [lia|]. intros Heq.
  assert (same_object p p0) as Hso.
  { unfold pacto_key in Hkey. injection Hkey as ? ?. split_and!; [done|done|lia|].
    symmetry. apply Hspec. lia. }
  apply (well_formed_same p0); [by symmetry|]. by rewrite <- (published_status p0 p Hso).
Qed.

Lemma accounted_later p p' :
  accounted p → pacto_key p' = pacto_key p → p_Status p' = p_Status p →
  p_Generation p ≤ p_Generation p' →
  (p_Generation p = p_Generation p' → p_Spec p = p_Spec p') → accounted p'.
Proof.
  intros [Hnever|(p0 & Hk & Hle & Hspec & Hwf)] Hkey Hst Hgen Hsame.
  - left. by rewrite Hst.
  - right. exists p0. rewrite Hst. split_and!; [congruence|lia| |done].
    intros Heq. rewrite Hspec by lia. apply Hsame. lia.
Qed.

Lemma owned_status k r st : owned k r → owned k (with_revision_status st r).
Proof. done. Qed.

Lemma grown_owned p R R' k r :
  grown p R R' → (∀ k r, R !! k = Some r → owned k r) → R' !! k = Some r → owned k r.
Proof.
  intros Hg Hall Hr. destruct (R !! k) as [old|] eqn:Hold.
  - destruct (grown_extends _ _ _ Hg _ _ Hold) as (new & Hnew & Heq).
    assert (new = r) as -> by congruence. rewrite Heq. by apply owned_status, Hall.
  - destruct (grown_new _ _ _ Hg _ _ Hold Hr) as (_ & Ho & Hp & Hk).
    split; [done|]. by rewrite Hp.
Qed.

Lemma abs_step_good v v' : abs_step v v' → good v → good v'.
Proof.
  destruct 1 as [v|P R R' p p' Hp Hwf Hg|P R R' p Hp Hg|v v' Hr]; intros [Hk Hs Ho]; [done|..].
  - constructor; unfold keyed; cbn [v_pactos v_revisions] in *.
    + intros k q. rewrite lookup_insert_Some. intros [[<- <-]|[_ Hq]]; [|by apply Hk].
      by apply well_formed_key.
    + intros k q. rewrite lookup_insert_Some. intros [[_ <-]|[_ Hq]]; [|by eapply Hs].
      by apply well_formed_accounted in Hwf.
    + intros k r. by apply (grown_owned p R).
  - constructor; [done..|]. intros k r. by apply (grown_owned p R).
  - constructor.
    + intros k q Hq. by destruct (rely_pactos _ _ Hr _ _ Hq).
    + intros k q Hq. destruct (rely_pactos _ _ Hr _ _ Hq) as (Hkq & [?|(p & Hp & Hst & Hge & Hsp)]);
        [by left|].
      apply (accounted_later p); [by eapply Hs| |done..]. by rewrite Hkq, (Hk _ _ Hp).
    + intros k r Hkr. destruct (rely_revisions _ _ Hr _ _ Hkr) as (r0 & Hr0 & ->).
      by apply owned_status, Ho.
Qed.

End abstract.

(** ** The operator *)

Section operator.
Context `{UnicodeTables} `{PactoLib} `{GoMaps} `{ConditionStoreLaws}
  `{Credentials.DockerConfigCodec}.
Context {W L : Type} `{!Clock W} `{!KubeClient W} `{!ContractLoader W L}
  `{!Prober.HTTPTransport W} `{!RevisionLaws W} `{!NetworkFrame W}
  `{!ContractLoaderLaws W L} `{!LoaderFrame W L} `{!PactoLaws W L}.
Implicit Types (w : W) (s : RState W L).

Definition view_of w : view := mkView (pactos w) (revisions w).

(** One step of the running operator: a request from the work queue is handled, or the
    rest of the world (and of the process: other users of the loader, of the event
    recorder and of the metrics) moves on. *)
Inductive op_step : RState W L → RState W L → Prop :=
| op_reconcile namespace name s : op_step s (Reconcile namespace name s).2
| op_environment s s' : rely (view_of (st_world s)) (view_of (st_world s')) → op_step s s'.

(** The same steps with their labels. *)
Inductive op_does : label → RState W L → RState W L → Prop :=
| op_handled namespace name s o s' :
    Reconcile namespace name s = (o, s') → op_does (Handled namespace name o) s s'
| op_others s s' :
    rely (view_of (st_world s)) (view_of (st_world s')) → op_does Others s s'.

(** A worker: requests handled one by one, whatever their outcomes. *)
Fixpoint serve (requests : list (string * string)) s
    : list (outcome (result Z)) * RState W L :=
  match requests with
  | [] => ([], s)
  | (namespace, name) :: requests =>
      let '(o, s1) := Reconcile namespace name s in
      let '(os, s2) := serve requests s1 in
      (o :: os, s2)
  end.

(** What a reconcile does to what is stored. *)
Definition published ns n p s o s' : Prop :=
  grown p (revisions (st_world s)) (revisions (st_world s')) ∧
  match o with
  | Ret (Ok d) => ∃ p', well_formed p p' ∧
      pactos (st_world s') = <[(ns, n) := p']> (pactos (st_world s)) ∧
      d = Status.requeueInterval p' ∧ metrics_show p' (st_metrics s')
  | Ret (Err _) => pactos (st_world s') = pactos (st_world s)
  | Panic _ => pactos (st_world s') = pactos (st_world s) ∧ syncs_tags p
  end.

Lemma Reconcile_published ns n p s :
  keyed (view_of (st_world s)) → Get_Pacto ns n (st_world s) = Ok p →
  ∃ o s', Reconcile ns n s = (o, s') ∧ published ns n p s o s'.
Proof.
  intros Hkeys Hget. pose proof (pacto_found _ _ _ _ Hget) as Hp.
  assert (pacto_key p = (ns, n)) as Hkey by by apply Hkeys.
  destruct (Reconcile_ends (λ w, pactos w = pactos (st_world s)) (pactos_quiet _)
    ns n p s Hget eq_refl)
    as [(Hsync & msg & s' & -> & HG & HF)|(p' & w & e & r & s' & -> & HG & [HF _] & HQ & Hup & He)].
  { by exists (Panic msg), s'. }
  exists (Ret r), s'. split; [done|]. split; [done|].
  destruct e as [err|].
  - subst r. by rewrite (status_refused _ _ _ _ Hup).
  - destruct He as [-> Hm]. exists p'. split; [done|]. split_and!; [|done..].
    pose proof (wf_object _ _ HQ) as Hso. pose proof Hso as (Hn & Hns & _).
    assert (pacto_key p' = (ns, n)) as Hkey'
      by (rewrite <- Hkey; unfold pacto_key; congruence).
    destruct (status_done _ _ _ Hup) as (old & Hold & ->). rewrite Hkey' in Hold |- *.
    rewrite HF in Hold |- *. rewrite Hp in Hold. injection Hold as <-.
    by rewrite published_status.
Qed.
(** A request either finds its Pacto and is [published], or changes nothing. *)
Lemma Reconcile_cases ns n s :
  keyed (view_of (st_world s)) →
  ∃ o s', Reconcile ns n s = (o, s') ∧
    ((∃ p, Get_Pacto ns n (st_world s) = Ok p ∧ published ns n p s o s') ∨
     (∃ e, Get_Pacto ns n (st_world s) = Err e ∧ s' = s ∧
        o = Ret (if IsNotFound e then Ok 0 else Err e))).
Proof.
  intros Hkeys. destruct (Get_Pacto ns n (st_world s)) as [p|e] eqn:Hget.
  - destruct (Reconcile_published ns n p s Hkeys Hget) as (o & s' & -> & Hp). eauto 10.
  - rewrite (Reconcile_missing ns n e s Hget). eauto 10.
Qed.

Lemma published_step ns n p s o s' :
  keyed (view_of (st_world s)) → Get_Pacto ns n (st_world s) = Ok p →
  published ns n p s o s' → abs_step (view_of (st_world s)) (view_of (st_world s')).
Proof.
  intros Hkeys Hp%pacto_found [Hg Ho].
  assert (pacto_key p = (ns, n)) as Hkey by by apply Hkeys.
  assert (pactos (st_world s) !! pacto_key p = Some p) as Hp' by by rewrite Hkey.
  unfold view_of.
  destruct o as [[d|e]|msg]; [destruct Ho as (p' & Hwf & -> & _)|rewrite Ho|destruct Ho as [-> _]].
  - rewrite <- Hkey. by apply abs_publish.
  - by apply (abs_give_up _ _ _ p).
  - by apply (abs_give_up _ _ _ p).
Qed.

Lemma op_step_abs s s' :
  keyed (view_of (st_world s)) → op_step s s' →
  abs_step (view_of (st_world s)) (view_of (st_world s')).
Proof.
  intros Hkeys. destruct 1 as [ns n s|s s' Hr]; [|by apply abs_environment].
  destruct (Reconcile_cases ns n s Hkeys) as (o & s' & -> & [(p & Hget & Hp)|(e & _ & -> & _)]).
  - by apply (published_step ns n p s o s').
  - apply abs_idle.
Qed.

Lemma op_steps_good s s' :
  rtc op_step s s' → good (view_of (st_world s)) → good (view_of (st_world s')).
Proof.
  induction 1 as [|s s1 s' Hstep _ IH]; intros Hg; [done|]. apply IH.
  by eapply abs_step_good, Hg; apply op_step_abs; [apply Hg|].
Qed.

Lemma op_does_step l s s' : op_does l s s' → op_step s s'.
Proof.
  destruct 1 as [ns n s o s' Hrun|s s' Hr]; [|by apply op_environment].
  pose proof (op_reconcile ns n s) as Hstep. by rewrite Hrun in Hstep.
Qed.

Lemma op_does_abs l s s' :
  keyed (view_of (st_world s)) → op_does l s s' →
  abs_does l (view_of (st_world s)) (view_of (st_world s')).
Proof.
  intros Hkeys. destruct 1 as [ns n s o s' Hrun|s s' Hr]; [|by apply does_others].
  destruct (Reconcile_cases ns n s Hkeys) as (o1 & s1 & Hrun1 & Hcases).
  rewrite Hrun in Hrun1. injection Hrun1 as <- <-.
  destruct Hcases as [(p & Hget & Hg & Ho)|(e & Hget & -> & ->)].
  - apply pacto_found in Hget. unfold view_of. destruct o as [[d|e]|msg].
    + destruct Ho as (p' & Hwf & -> & -> & _). by apply (does_publish _ _ _ _ _ p).
    + rewrite Ho. by apply (does_fail _ _ _ _ _ p).
    + destruct Ho as [-> _]. by apply (does_fail _ _ _ _ _ p).
  - destruct (IsNotFound e) eqn:Hnf; [|apply does_not_read].
    apply does_nothing. by apply (pacto_missing ns n _ e).
Qed.

(** C12 (refinement). The operator implements the abstract machine, label by label: every
    sequence of requests with their results, and of changes by others in between, is one of
    the abstract machine between the same stored objects. So all that a request changes of
    what the API server stores is one well-formed status of the Pacto it names, if and only
    if it succeeds for a stored Pacto, and revisions of that Pacto; no request acts as a
    user would. *)
Theorem operator_refines ls s s' :
  good (view_of (st_world s)) → trace op_does ls s s' →
  trace abs_does ls (view_of (st_world s)) (view_of (st_world s')).
Proof.
  intros Hg Hrun. revert Hg.
  induction Hrun as [s|l ls s s1 s2 Hstep _ IH]; intros Hg; [apply trace_nil|].
  eapply trace_cons; [apply op_does_abs; [apply Hg|done]|]. apply IH.
  apply (abs_step_good (view_of (st_world s))); [|done].
  apply op_step_abs; [apply Hg|by eapply op_does_step].
Qed.

(** C2 (invariant). In every state the operator reaches, through any sequence of
    reconciles and changes by others, a reconciled Pacto never claims to have observed a
    generation it does not have, and when it claims the present one its status is well
    formed for the present spec (so Compliant only with every condition true, Reference
    only for a reference, a summary that adds up, and so on). Every stored revision lies
    under its own key and is owned by the Pacto its spec names. *)
Theorem reachable_statuses_current s s' :
  good (view_of (st_world s)) → rtc op_step s s' →
  (∀ k p, pactos (st_world s') !! k = Some p → LastReconciledAt (p_Status p) ≠ None →
     ObservedGeneration (p_Status p) ≤ p_Generation p ∧
     (ObservedGeneration (p_Status p) = p_Generation p → well_formed p p)) ∧
  ∀ k r, revisions (st_world s') !! k = Some r →
    revision_key r = k ∧ rev_Owner r = Some (rev_PactoRef (rev_Spec r)).
Proof.
  intros Hg Hsteps. apply op_steps_good in Hsteps as [Hk Hs Ho]; [|done]. split; [|done].
  intros k p Hp. apply accounted_current. by eapply Hs.
Qed.

(** *** The work queue *)

(** The object [p] is stored, and with [settled] its status is up to date. *)
Definition present p w : Prop := ∃ q, pactos w !! pacto_key p = Some q ∧ same_object q p.
Definition settled p w : Prop := ∃ q, pactos w !! pacto_key p = Some q ∧ well_formed p q.

Lemma settled_present p w : settled p w → present p w.
Proof. intros (q & Hq & Hwf). exists q. split; [done|]. by apply wf_object in Hwf. Qed.

(** A request keeps the views keyed and every Pacto present or settled; a successful one
    settles its own. *)
Lemma Reconcile_settles ns n s o s' p :
  keyed (view_of (st_world s)) → Reconcile ns n s = (o, s') → present p (st_world s) →
  present p (st_world s') ∧ (settled p (st_world s) → settled p (st_world s')) ∧
  (pacto_key p = (ns, n) → (∃ d, o = Ret (Ok d)) → settled p (st_world s')).
Proof.
  intros Hkeys Hrun (q & Hq & Hso).
  destruct (Reconcile_cases ns n s Hkeys) as (o1 & s1 & Hrun1 & Hcases).
  rewrite Hrun in Hrun1. injection Hrun1 as <- <-.
  destruct Hcases as [(p1 & Hget & _ & Ho)|(e & Hget & -> & ->)].
  - apply pacto_found in Hget.
    assert (pactos (st_world s') = pactos (st_world s) ∧ (¬ ∃ d, o = Ret (Ok d)) ∨
      ∃ p', well_formed p1 p' ∧ pactos (st_world s') = <[(ns, n) := p']> (pactos (st_world s)))
      as [[Heq Hno]|(p' & Hwf & Heq)].
    { destruct o as [[d|e]|msg]; [right|left|left].
      - destruct Ho as (p' & ? & ? & _). eauto.
      - split; [done|]. by intros [].
      - destruct Ho. split; [done|]. by intros []. }
    + unfold present, settled. rewrite Heq. split_and!; [by exists q|done|done].
    + destruct (decide (pacto_key p = (ns, n))) as [Hk|Hk].
      * assert (settled p (st_world s')) as Hset; [|split_and!; [by apply settled_present|done..]].
        exists p'. rewrite Heq, Hk, lookup_insert_eq. split; [done|].
        apply (well_formed_same p1); [|done]. rewrite Hk in Hq. by simplify_eq.
      * unfold present, settled. rewrite Heq, lookup_insert_ne by done.
        split_and!; [by exists q|done|done].
  - split_and!; [by exists q|done|]. intros Hk [d Hd].
    destruct (IsNotFound e) eqn:Hnf; [|done].
    apply pacto_missing in Hget; [|done]. rewrite Hk in Hq. congruence.
Qed.

Lemma Reconcile_keyed ns n s :
  keyed (view_of (st_world s)) → keyed (view_of (st_world (Reconcile ns n s).2)).
Proof.
  intros Hkeys.
  destruct (Reconcile_cases ns n s Hkeys) as (o & s' & -> & [(p & Hget & Hg & Ho)|(e & _ & -> & _)]);
    [|done].
  apply pacto_found, Hkeys in Hget. unfold keyed, view_of. cbn [v_pactos snd].
  destruct o as [[d|e]|msg]; [destruct Ho as (p' & Hwf & -> & _)|by rewrite Ho|by destruct Ho as [-> _]].
  intros k q. rewrite lookup_insert_Some. intros [[<- <-]|[_ Hq]]; [|by apply Hkeys].
  by rewrite (well_formed_key p p' Hwf).
Qed.

Lemma serve_settles requests s p :
  keyed (view_of (st_world s)) → present p (st_world s) →
  (settled p (st_world s) → settled p (st_world (serve requests s).2)) ∧
  ∀ i d, requests !! i = Some (pacto_key p) → (serve requests s).1 !! i = Some (Ret (Ok d)) →
    settled p (st_world (serve requests s).2).
Proof.
  revert s. induction requests as [|[ns n] requests IH]; intros s Hkeys Hp; [done|].
  cbn [serve]. pose proof (Reconcile_keyed ns n s Hkeys) as Hkeys1.
  destruct (Reconcile ns n s) as [o s1] eqn:Hrun. cbn [snd] in Hkeys1.
  destruct (Reconcile_settles ns n s o s1 p Hkeys Hrun Hp) as (Hp1 & Hkeep & Hnew).
  destruct (IH s1 Hkeys1 Hp1) as [Hkeep1 Hnew1].
  destruct (serve requests s1) as [os s2]. cbn [fst snd] in *. split; [auto|].
  intros [|i] d; cbn [lookup list_lookup]; [|by apply Hnew1].
  intros [= ? ?] [= ->]. apply Hkeep1, Hnew; [|by exists d]. unfold pacto_key. by subst.
Qed.

(** C20 (liveness). The operator catches up: once nobody else interferes, a worker that
    handles any sequence of requests leaves every Pacto, for which one of them succeeded,
    with a status that is well formed for its present spec and generation, no matter which
    requests failed or panicked before or after it. *)
Theorem served_requests_settle requests s p i d :
  keyed (view_of (st_world s)) → pactos (st_world s) !! pacto_key p = Some p →
  requests !! i = Some (pacto_key p) → (serve requests s).1 !! i = Some (Ret (Ok d)) →
  ∃ p', pactos (st_world (serve requests s).2) !! pacto_key p = Some p' ∧
    same_object p' p ∧ ObservedGeneration (p_Status p') = p_Generation p ∧ well_formed p p'.
Proof.
  intros Hkeys Hp Hi Ho.
  assert (present p (st_world s)) as Hpres by by exists p.
  destruct (serve_settles requests s p Hkeys Hpres) as [_ Hset].
  destruct (Hset i d Hi Ho) as (p' & Hp' & Hwf). exists p'.
  split_and!; [done|by apply wf_object in Hwf|by apply wf_generation in Hwf|done].
Qed.
End operator.

(** *** Witnesses: the in-memory cluster *)

Section examples.
Import Cluster.
#[local] Existing Instances cluster_clock cluster_client cluster_network cluster_laws.

Definition system_loader : ContractLoader cluster unit := fixed_loader (Ok loaded) ["1.0.0"].
#[local] Existing Instance system_loader.

Definition cluster_pactos : PactoLaws cluster unit.
Proof.
  refine {| pactos := cl_pactos |}; cbn.
  - intros ns n w p. apply lookup_object_Ok.
  - intros ns n w e. unfold lookup_object. by destruct (cl_pactos w !! _).
  - intros p w w'. unfold update_pacto, pacto_key.
    destruct (cl_pactos w !! _) as [old|] eqn:E; [|done]. intros [= <-]. by exists old.
  - intros p w w' e. unfold update_pacto. destruct (cl_pactos w !! _) eqn:E; [done|].
    by intros [= _ <-].
  - intros P. constructor; cbn; try done; intros r w <-.
    + unfold create. by case_match.
    + unfold update_revision. by case_match.
Defined.

#[local] Existing Instances latin1_tables example_lib canonical_order list_store
  Credentials.example_codec list_store_laws cluster_network_frame cluster_pactos.
#[local] Instance system_loader_laws : ContractLoaderLaws cluster unit := fixed_loader_laws _ _.
#[local] Instance system_loader_frame : LoaderFrame cluster unit := fixed_loader_frame _ _.

Lemma small_good : good (view_of (L := unit) (st_world small_state)).
Proof.
  assert (∀ k p, ({[ ("prod", "api") := example_pacto ]} : gmap _ _) !! k = Some p →
    k = pacto_key example_pacto ∧ p = example_pacto) as Hall
    by (intros k p [<- <-]%lookup_singleton_Some; done).
  constructor; [..|done]; intros k p [-> ->]%Hall; [done|by left].
Qed.

(** A reconcile, an edit of the spec by a user, a second reconcile. *)
Definition edited_pacto (p : Pacto) : Pacto :=
  mkPacto (p_Name p) (p_Namespace p) (p_Generation p + 1)
    {| sp_ContractRef := sp_ContractRef (p_Spec p);
       sp_Target := {| tr_ServiceName := "other"; tr_WorkloadRef := None |};
       sp_Overrides := None; sp_CheckIntervalSeconds := 0 |} (p_Status p).

Definition edit (s : RState cluster unit) : RState cluster unit :=
  mkRState (with_pactos (edited_pacto <$> cl_pactos (st_world s)) (st_world s))
    (st_loader s) (st_events s) (st_metrics s).

Lemma edit_rely s :
  keyed (view_of (L := unit) (st_world s)) →
  rely (view_of (L := unit) (st_world s)) (view_of (L := unit) (st_world (edit s))).
Proof.
  intros Hkeys. constructor; cbn [view_of v_pactos v_revisions].
  - intros k p'. cbn. rewrite lookup_fmap_Some. intros (p & <- & Hp).
    split; [apply (Hkeys k p Hp)|]. right. exists p. split_and!; [done|done|cbn; lia|cbn; lia].
  - intros k r. cbn. intros Hr. exists r. split; [done|]. by destruct r.
Qed.

Definition edited_state : RState cluster unit :=
  (Reconcile "prod" "api" (edit (Reconcile "prod" "api" small_state).2)).2.

Lemma edited_steps : rtc op_step small_state edited_state.
Proof.
  pose proof (op_reconcile "prod" "api" small_state) as H1.
  eapply rtc_l; [exact H1|]. eapply rtc_l; [apply op_environment, edit_rely|apply rtc_once, op_reconcile].
  apply Reconcile_keyed, small_good.
Qed.

Definition edited_labels : list label :=
  [Handled "prod" "api" (Reconcile "prod" "api" small_state).1; Others;
   Handled "prod" "api" (Reconcile "prod" "api" (edit (Reconcile "prod" "api" small_state).2)).1].

Lemma edited_trace : trace op_does edited_labels small_state edited_state.
Proof.
  eapply trace_cons; [apply op_handled, surjective_pairing|].
  eapply trace_cons; [apply op_others; apply edit_rely, Reconcile_keyed, small_good|].
  eapply trace_cons; [apply op_handled, surjective_pairing|apply trace_nil].
Qed.

Lemma operator_refines_witness :
  trace abs_does edited_labels (view_of (L := unit) (st_world small_state))
    (view_of (L := unit) (st_world edited_state)).
Proof. apply operator_refines; [apply small_good|apply edited_trace]. Defined.

Example edited_ex :
  (λ p, (p_Generation p, ObservedGeneration (p_Status p))) <$>
    pactos (L := unit) (st_world edited_state) !! ("prod", "api") = Some (2, 2).
Proof. vm_compute. reflexivity. Qed.

Lemma reachable_statuses_current_witness :
  (∀ k p, pactos (L := unit) (st_world edited_state) !! k = Some p →
     LastReconciledAt (p_Status p) ≠ None →
     ObservedGeneration (p_Status p) ≤ p_Generation p ∧
     (ObservedGeneration (p_Status p) = p_Generation p → well_formed p p)) ∧
  ∀ k r, revisions (st_world edited_state) !! k = Some r →
    revision_key r = k ∧ rev_Owner r = Some (rev_PactoRef (rev_Spec r)).
Proof. apply (reachable_statuses_current small_state edited_state small_good edited_steps). Defined.

Lemma served_requests_settle_witness :
  ∃ p', pactos (L := unit) (st_world (serve [("prod", "gone"); ("prod", "api")] small_state).2)
          !! ("prod", "api") = Some p' ∧
    same_object p' example_pacto ∧ ObservedGeneration (p_Status p') = 1 ∧
    well_formed example_pacto p'.
Proof.
  apply (served_requests_settle [("prod", "gone"); ("prod", "api")] small_state example_pacto
    1 (Status.requeueInterval example_pacto)); [apply small_good|reflexivity..| ].
  vm_compute. reflexivity.
Defined.
End examples.
End System.
