(* ===== verification/Gate.v ===== *)
(** * The readiness gate over time

    What the events of the operator say about the readiness gate of one Pacto. Most of the
    reconcile says nothing about it ([tells]); the readiness stage says what changed since
    the status that was stored when the reconcile began; and the status a successful
    reconcile writes carries the state the next one compares with. *)

From S2P Require Import Prelude GoStrings GoMaps GoFmt Contract V1alpha1 Conditions.
From S2P Require Import Observer Images Validator Credentials Prober Metrics Loader.
From S2P Require Import Overrides Kube Cluster Readiness Status Verdict Revisions Reconcile.
From S2P Require Import System.
From stdpp Require Import options.
#[local] Set Default Proof Using "Type*".

Module Gate.
Import Reconcile.
Import System(pacto_key, PactoLaws, pactos, pacto_found, status_done, status_refused,
  pactos_quiet, keyed, view_of, rely).

(** ** The events of the gate *)

Definition gate_reasons : list string := [EventReadinessGateUnmet; EventReadinessRecovered].

(** What the recorded events say about the gate of the Pacto stored under [k]. *)
Definition gate_events (k : string * string) (events : list Event) : list string :=
  ev_Reason <$> filter (λ e, ev_Object e = k ∧ ev_Reason e ∈ gate_reasons) events.

Lemma gate_events_app k l l' : gate_events k (l ++ l') = gate_events k l ++ gate_events k l'.
Proof. unfold gate_events. by rewrite filter_app, fmap_app. Qed.

(** An event about the object under [k] that does not concern its gate. *)
Definition plain (k : string * string) (e : Event) : Prop :=
  ev_Object e = k ∧ ev_Reason e ∉ gate_reasons.

Lemma gate_events_plain k k' l : Forall (plain k) l → gate_events k' l = [].
Proof.
  intros Hl. unfold gate_events.
  rewrite (proj2 (filter_nil_iff (λ e, ev_Object e = k' ∧ ev_Reason e ∈ gate_reasons) l)); [done|].
  intros e He [_ Hr]. rewrite Forall_forall in Hl. by destruct (Hl e He) as [_ []].
Qed.

(** The gate according to a status: nothing without the condition, otherwise whether it is
    unmet. *)
Definition gate_state `{ConditionStore} (p : Pacto) : option bool :=
  (λ d, bool_decide (cond_Status d = ConditionFalse)) <$>
    condition_of p ConditionReadinessSatisfied.

(** What is said when the gate, [unmet] or not before, is found in a state. *)
Definition change (unmet : bool) (found : option bool) : list string :=
  match found, unmet with
  | Some true, false => [EventReadinessGateUnmet]
  | Some false, true => [EventReadinessRecovered]
  | _, _ => []
  end.

(** ** Saying nothing about the gate *)

Section tells.
Context {W L : Type} (k : string * string).

(** All events that [m] records are about [k], and none concerns the gate. *)
Definition tells {A} (m : M (RState W L) A) : Prop :=
  ∀ s, ∃ new, st_events (m s).2 = st_events s ++ new ∧ Forall (plain k) new.

Lemma tells_nothing {A} (m : M (RState W L) A) :
  (∀ s, st_events (m s).2 = st_events s) → tells m.
Proof. intros Hm s. exists []. by rewrite Hm, app_nil_r. Qed.

Lemma tells_ret {A} (a : A) : tells (mret a).
Proof. by apply tells_nothing. Qed.

Lemma tells_panic {A} msg : tells (A := A) (panic msg).
Proof. by apply tells_nothing. Qed.

Lemma tells_ask {A} (f : W → A) : tells (ask f).
Proof. by apply tells_nothing. Qed.

Lemma tells_on_world {A} (m : M W A) : tells (on_world m).
Proof. apply tells_nothing. intros s. unfold on_world, zoom. by destruct (m _). Qed.

Lemma tells_kube {A} (f : W → A * W) : tells (kube f).
Proof. apply tells_on_world. Qed.

Lemma tells_on_loader {A} (m : M (W * L) A) : tells (on_loader m).
Proof. apply tells_nothing. intros s. unfold on_loader, zoom. by destruct (m _). Qed.

Lemma tells_record ms : tells (record ms).
Proof. by apply tells_nothing. Qed.

Lemma tells_emit p t r msg :
  pacto_key p = k → bool_decide (r ∈ gate_reasons) = false → tells (emit p t r msg).
Proof.
  intros Hk Hr%bool_decide_eq_false_1 s. eexists. split; [done|]. by repeat constructor.
Qed.

(** After a part whose result is known to satisfy [P]. *)
Lemma tells_bind_ret {A B} (P : A → Prop) (m : M (RState W L) A) (f : A → M (RState W L) B) :
  tells m → returns P m → (∀ a, P a → tells (f a)) → tells (m ≫= f).
Proof.
  intros Hm HP Hf s. destruct (Hm s) as (new & E & Hnew). specialize (HP s).
  rewrite M_bind_unfold. destruct (m s) as [[a|msg] s']; cbn [fst snd] in *; [|eauto].
  destruct (Hf a HP s') as (new' & E' & Hnew'). exists (new ++ new').
  rewrite E', E, <- (assoc (++)). split; [done|]. by apply Forall_app.
Qed.

Lemma tells_bind {A B} (m : M (RState W L) A) (f : A → M (RState W L) B) :
  tells m → (∀ a, tells (f a)) → tells (m ≫= f).
Proof. intros Hm Hf. by apply (tells_bind_ret (λ _, True)); [|apply returns_any|]. Qed.

Lemma tells_for_range {A} (f : A → M (RState W L) unit) l :
  (∀ a, tells (f a)) → tells (for_range f l).
Proof.
  intros Hf. induction l as [|a l IH]; [apply tells_ret|].
  apply tells_bind; [apply Hf|by intros _].
Qed.
End tells.

Create HintDb tells discriminated.
#[export] Hint Resolve tells_ret tells_panic tells_ask tells_on_world tells_kube
  tells_on_loader tells_record tells_for_range : tells.
#[export] Hint Extern 1 (tells _ (emit _ _ _ _)) =>
  apply tells_emit; [solve [eauto]|reflexivity] : tells.

(** Goes through the code, like [keep_going]. *)
Ltac tell_going :=
  repeat first
    [ progress eauto with tells
    | apply tells_bind; [|intros ?]
    | progress cbv zeta
    | match goal with
      | |- tells _ (match ?x with _ => _ end) => destruct x
      | |- tells _ (let '(_, _) := ?x in _) => destruct x
      end ].

Section quiet_code.
Context `{UnicodeTables} `{PactoLib} `{GoMaps} `{ConditionStoreLaws}.
Context {W L : Type} `{!Clock W} `{!KubeClient W} `{!ContractLoader W L}
  `{!Prober.HTTPTransport W}.

Lemma ensureRevision_tells k p lr :
  pacto_key p = k → tells k (Revisions.ensureRevision (W := W) (L := L) p lr).
Proof. intros Hk. unfold Revisions.ensureRevision. tell_going. Qed.

Lemma sync_tag_tells k p ref auth tag :
  pacto_key p = k → tells k (Revisions.sync_tag (W := W) (L := L) p ref auth tag).
Proof.
  intros Hk. pose proof (ensureRevision_tells k p) as He.
  unfold Revisions.sync_tag. tell_going.
Qed.

Lemma syncAllRevisions_tells k p ref auth :
  pacto_key p = k → tells k (Revisions.syncAllRevisions (W := W) (L := L) p ref auth).
Proof.
  intros Hk. unfold Revisions.syncAllRevisions. tell_going.
  apply tells_for_range. intros tag. by apply sync_tag_tells.
Qed.

Lemma record_outcome_tells k p c checks :
  tells k (record_outcome (W := W) (L := L) p c checks).
Proof. unfold record_outcome. tell_going. Qed.

Lemma failReconciliation_tells k p msg v c :
  pacto_key p = k → tells k (failReconciliation (W := W) (L := L) p msg v c).
Proof.
  intros Hk. pose proof (record_outcome_tells k) as Ho.
  unfold failReconciliation. tell_going.
Qed.

Lemma finishReconciliation_tells k p c checks :
  pacto_key p = k → tells k (finishReconciliation (W := W) (L := L) p c checks).
Proof.
  intros Hk. pose proof (record_outcome_tells k) as Ho.
  unfold finishReconciliation. tell_going.
Qed.

Lemma reconcile_revisions_tells k p lr auth :
  pacto_key p = k → tells k (reconcile_revisions (W := W) (L := L) p lr auth).
Proof.
  intros Hk. unfold reconcile_revisions. apply tells_bind; [by apply ensureRevision_tells|].
  intros r. cbv zeta. set (p1 := match r with Ok n => _ | Err _ => p end).
  assert (pacto_key p1 = k) as Hk1 by (subst p1; by destruct r).
  apply tells_bind; [|intros; apply tells_ret].
  destruct (_ && _); [|apply tells_ret].
  apply tells_bind; [by apply syncAllRevisions_tells|intros; apply tells_ret].
Qed.
End quiet_code.

(** ** The gate in the status *)

Section state.
Context `{ConditionStoreLaws}.

Lemma gate_state_set t st r msg p :
  unique_types (conditions p) → t ≠ ConditionReadinessSatisfied →
  gate_state (setCondition t st r msg p) = gate_state p.
Proof. intros Hu Ht. unfold gate_state. by rewrite condition_of_set_ne. Qed.

Lemma gate_state_wasUnmet p : Readiness.readinessWasUnmet p = default false (gate_state p).
Proof.
  unfold Readiness.readinessWasUnmet, gate_state, condition_of, conditions.
  by destruct (FindStatusCondition _ _).
Qed.

Lemma gate_state_assessed p c eval :
  unique_types (conditions p) →
  gate_state (Readiness.assessed p c eval) = Some (negb (res_Passing eval)).
Proof.
  intros Hu. pose proof (Readiness.assessed_wasUnmet p c eval Hu) as Hw.
  rewrite gate_state_wasUnmet in Hw. revert Hw. unfold gate_state, Readiness.assessed.
  destruct (Readiness.readinessCondition eval) as [[st r] msg].
  rewrite condition_of_set_eq by done. cbn. by intros ->.
Qed.

(** The readiness stage says what changed. *)
Lemma transition_says p passing msg unmet :
  gate_events (pacto_key p) (Readiness.transition p passing msg unmet) =
    change unmet (Some (negb passing)).
Proof.
  unfold gate_events, pacto_key. destruct passing, unmet; try reflexivity.
  all: cbn; by rewrite decide_True by (split; [done|by apply (bool_decide_unpack _)]).
Qed.
End state.

Section target.
Context `{UnicodeTables} `{ConditionStoreLaws} {W L : Type} `{!Clock W} `{!KubeClient W}
  `{!Prober.HTTPTransport W} `{!RevisionLaws W}.
Context `{!ContractLoader W L} (F : W → Prop) (HF : quiet L F).

(** What is recorded of checks leaves the conditions of other types alone. *)
Lemma recorded_other p p' checks t :
  Verdict.recorded p p' checks → unique_types (conditions p) → unique_types (conditions p') →
  t ∉ Validator.Name <$> checks → condition_of p' t = condition_of p t.
Proof.
  intros Hrec Hu Hu' Ht. destruct (condition_of p t) as [d|] eqn:E.
  - apply find_condition_spec in E as [Hd <-]; [|done].
    apply find_condition_spec; [done|]. split; [|done]. apply Hrec. by right.
  - apply find_condition_None; [done|]. intros d [(k & Hk & ->)|[Hd _]]%Hrec.
    + cbn. intros <-. apply Ht. by apply list_elem_of_fmap_2.
    + by eapply find_condition_None in E.
Qed.

(** The gate is none of the checks of the runtime part. *)
Lemma runtime_part_gate p c snap hs svc wn wk (s : RState W L) :
  unique_types (conditions p) →
  ∃ p' checks s', Verdict.runtime_part p c snap hs svc wn wk s = (Ret (p', checks), s') ∧
    gate_state p' = gate_state p ∧ same_object p' p ∧ Verdict.only_world s s'.
Proof.
  intros Hu. destruct (Verdict.runtime_part_run p c snap hs svc wn wk s Hu)
    as (p' & checks & s' & Hrun & (probes & Hch & Hsub) & _ & _ & Hu' & Hrec & Hw & Hso).
  exists p', checks, s'. split_and!; [done| |done..]. unfold gate_state.
  rewrite (recorded_other p p' checks); [done..|]. subst checks.
  intros Hin%Verdict.runtime_names_elem; [|done]. revert Hin. by apply (bool_decide_unpack _).
Qed.

(** From the target on, nothing is said about the gate, and the status that is written
    has the gate as it is. *)
Definition wrote_gate (k : string * string) (g : option bool)
    (o : outcome (result Z) * RState W L) : Prop :=
  ends F True (λ _, True) (λ p', pacto_key p' = k ∧ gate_state p' = g) o.

Lemma reconcile_target_gate p c (s : RState W L) :
  unique_types (conditions p) → F (st_world s) →
  wrote_gate (pacto_key p) (gate_state p) (reconcile_target p c s) ∧
  ∃ new, st_events (reconcile_target p c s).2 = st_events s ++ new ∧
    Forall (plain (pacto_key p)) new.
Proof.
  intros Hu Hs. unfold reconcile_target.
  destruct (IsReference p).
  { cbv zeta. split; [|by apply finishReconciliation_tells].
    apply finishReconciliation_ends; [done..|]. split; [done|]. by apply gate_state_set. }
  destruct (ResolvedWorkload p) as [wn wk]. cbv zeta. rewrite M_bind_unfold. cbn [ask gets].
  destruct (Observer.Observe _ _ _ _ _) as [snap|err].
  - set (p1 := observed_runtime snap p).
    assert (gate_state p1 = gate_state p ∧ unique_types (conditions p1) ∧
      pacto_key p1 = pacto_key p) as (Hg1 & Hu1 & Hk1)
      by (subst p1; unfold observed_runtime; by case_match).
    rewrite M_bind_unfold.
    match goal with |- context [Verdict.runtime_part ?p ?c ?sn ?hs ?sv ?wn ?wk ?s] =>
      destruct (runtime_part_gate p c sn hs sv wn wk s Hu1)
        as (p2 & checks & s2 & -> & Hg2 & (Hn2 & Hns2 & _) & (Hreq & _ & Hev & _)) end.
    cbv beta iota. rewrite <- Hev, <- Hg1, <- Hg2, <- Hk1.
    assert (pacto_key p2 = pacto_key p1) as Hk2 by (unfold pacto_key; congruence). split.
    + apply finishReconciliation_ends; [done|by apply (requests_quiet F _ _ HF Hreq)|done].
    + by apply finishReconciliation_tells.
  - rewrite M_bind_unfold. cbn [emit modify]. split.
    + apply finishReconciliation_ends; [done..|]. split; [done|]. by apply gate_state_set.
    + match goal with |- context [finishReconciliation ?p1 ?c1 ?ks ?s1] =>
        destruct (finishReconciliation_tells (pacto_key p) p1 c1 ks eq_refl s1)
          as (new & -> & Hnew) end.
      eexists (_ :: new). cbn [st_events]. rewrite <- (assoc (++)). split; [done|].
      constructor; [|done]. split; [done|]. by apply (bool_decide_unpack _).
Qed.
End target.

(** ** A whole reconcile *)

(** The events recorded between two states of the trace are about [k], and say of the gate
    what changed. *)
Definition told (k : string * string) (unmet : bool) (g : option bool) (E E' : list Event)
    : Prop :=
  ∃ new, E' = E ++ new ∧ Forall (λ e, ev_Object e = k) new ∧
    gate_events k new = change unmet g.

Lemma told_plain k unmet g E new :
  Forall (plain k) new → change unmet g = [] → told k unmet g E (E ++ new).
Proof.
  intros Hnew Hg. exists new. split; [done|]. split.
  - eapply Forall_impl; [exact Hnew|]. by intros e [].
  - by rewrite Hg, (gate_events_plain k).
Qed.

Lemma told_app k unmet g E E' new :
  told k unmet g E E' → Forall (plain k) new → told k unmet g E (E' ++ new).
Proof.
  intros (first & -> & Hobj & Hg) Hnew. exists (first ++ new).
  rewrite <- (assoc (++)), gate_events_app, Hg, (gate_events_plain k k new), app_nil_r by done.
  split; [done|]. split; [|done]. apply Forall_app. split; [done|].
  eapply Forall_impl; [exact Hnew|]. by intros e [].
Qed.

Section whole.
Context `{UnicodeTables} `{PactoLib} `{GoMaps} `{ConditionStoreLaws}
  `{Credentials.DockerConfigCodec}.
Context {W L : Type} `{!Clock W} `{!KubeClient W} `{!ContractLoader W L}
  `{!Prober.HTTPTransport W} `{!RevisionLaws W} `{!NetworkFrame W}
  `{!ContractLoaderLaws W L} `{!LoaderFrame W L}.
Context (F : W → Prop) (HF : quiet L F).

Lemma gate_state_fresh p : conditions p = [] → gate_state p = None.
Proof.
  intros Hp. unfold gate_state, condition_of. rewrite Hp.
  rewrite (proj2 (find_condition_None [] ConditionReadinessSatisfied (NoDup_nil_2))); [done|].
  intros d Hd. by apply elem_of_nil in Hd.
Qed.

Lemma populate_contract_gate p lr c keys :
  conditions p = [] → gate_state (populate_contract p lr c keys) = None.
Proof.
  intros Hp. assert (unique_types (conditions p)) as Hu by (rewrite Hp; apply NoDup_nil_2).
  set (p1 := setCondition ConditionContractValid ConditionTrue ReasonContractParsed
    ("Contract " +:+ si_Name (c_Service c) +:+ " v" +:+ si_Version (c_Service c) +:+
     " is valid") p).
  assert (conditions (populate_contract p lr c keys) = conditions p1) as Hc
    by (unfold populate_contract, Status.mark_overridden, Status.populateContractStatus,
          conditions; cbn; by repeat case_match).
  transitivity (gate_state p1); [unfold gate_state, condition_of; by rewrite Hc|].
  unfold p1. rewrite gate_state_set by done. by apply gate_state_fresh.
Qed.

Lemma failReconciliation_gate pacto p unmet msg v c (s : RState W L) :
  fresh_status pacto p → F (st_world s) →
  wrote_gate F (pacto_key pacto) None (failReconciliation p msg v c s) ∧
  told (pacto_key pacto) unmet None (st_events s)
    (st_events (failReconciliation p msg v c s).2).
Proof.
  intros Hf Hs. pose proof (fresh_unique _ _ Hf) as Hu. destruct Hf as [(Hn & Hns & _) Hnil].
  assert (pacto_key p = pacto_key pacto) as Hk by (unfold pacto_key; congruence). split.
  - apply failReconciliation_ends; [done..|]. split; [done|].
    rewrite <- (gate_state_fresh p Hnil).
    by apply (gate_state_set ConditionContractValid ConditionFalse ReasonContractInvalid msg p).
  - destruct (failReconciliation_tells (pacto_key pacto) p msg v c Hk s) as (new & -> & Hnew).
    by apply told_plain.
Qed.

Lemma reconcile_revisions_conditions p lr auth :
  returns (λ p', conditions p' = conditions p ∧ pacto_key p' = pacto_key p)
    (reconcile_revisions (W := W) (L := L) p lr auth).
Proof.
  unfold reconcile_revisions. apply returns_then. intros r. cbv zeta.
  apply returns_then. intros _ s. by destruct r.
Qed.

Lemma reconcileReadiness_gate p c unmet (s : RState W L) :
  unique_types (conditions p) → gate_state p = None →
  ∃ p' s', Readiness.reconcileReadiness p c unmet s = (Ret p', s') ∧
    told (pacto_key p) unmet (gate_state p') (st_events s) (st_events s').
Proof.
  intros Hu Hg. rewrite Readiness.reconcileReadiness_run.
  destruct (readiness_Evaluate _ _) as [eval|].
  - eexists _, _. split; [done|]. rewrite gate_state_assessed by done.
    eexists. split; [done|]. split; [|apply transition_says].
    unfold Readiness.transition, pacto_key. destruct (res_Passing eval), unmet; by repeat constructor.
  - exists p, s. split; [done|]. exists []. by rewrite Hg, app_nil_r.
Qed.

(** What a run from the status before [unmet] does: the status it writes, if it gets there,
    has the gate that the events tell of. *)
Definition gated (k : string * string) (unmet : bool) (E : list Event)
    (o : outcome (result Z) * RState W L) : Prop :=
  ∃ g, wrote_gate F k g o ∧ told k unmet g E (st_events o.2).

Lemma reconcile_contract_gate pacto p unmet auth lr c keys (s : RState W L) :
  fresh_status pacto p → F (st_world s) →
  gated (pacto_key pacto) unmet (st_events s)
    (reconcile_contract p unmet auth lr c keys s).
Proof.
  intros Hf Hs. unfold reconcile_contract. cbv zeta. case_bool_decide.
  { exists None. by apply failReconciliation_gate. }
  rewrite M_bind_unfold.
  match goal with |- context [Readiness.reconcileReadiness ?p1 ?c1 ?u ?s1] =>
    destruct (reconcileReadiness_validated pacto p1 c1 u s1) as (p2 & s2 & Hrun & Hva & Hw);
    [by apply populate_contract_validated|];
    destruct (reconcileReadiness_gate p1 c1 u s1) as (p2' & s2' & Hrun' & Htold);
    [by apply (va_unique pacto), populate_contract_validated
    |by apply populate_contract_gate; destruct Hf|] end.
  rewrite Hrun in Hrun' |- *. injection Hrun' as <- <-. cbv beta iota.
  pose proof (va_object _ _ Hva) as (Hn & Hns & _).
  assert (pacto_key p2 = pacto_key pacto) as Hk2 by (unfold pacto_key; congruence).
  assert (told (pacto_key pacto) unmet (gate_state p2) (st_events s) (st_events s2)) as Htold2.
  { destruct Hf as [(Hn' & Hns' & _) _]. revert Htold. unfold pacto_key.
    rewrite <- Hn', <- Hns'. done. }
  rewrite <- Hw in Hs. exists (gate_state p2). rewrite M_bind_unfold.
  destruct (reconcile_revisions_run F HF pacto p2 lr auth s2 Hva Hs)
    as (o & s3 & Hrev & _ & Hs3 & _).
  pose proof (reconcile_revisions_conditions p2 lr auth s2) as Hret.
  destruct (reconcile_revisions_tells (pacto_key pacto) p2 lr auth Hk2 s2) as (new & Ev & Hnew).
  rewrite Hrev in Hret, Ev |- *. cbn [fst snd] in Hret, Ev.
  pose proof (told_app _ _ _ _ _ _ Htold2 Hnew) as Htold3. rewrite <- Ev in Htold3.
  destruct o as [p3|msg].
  - destruct Hret as [Hc3 Hk3].
    destruct (reconcile_target_gate F HF p3 c s3) as (Hwrote & new' & Ev' & Hnew');
      [rewrite Hc3; apply Hva|done|].
    split; [|rewrite Ev'; apply told_app; [done|by rewrite <- Hk2, <- Hk3]].
    revert Hwrote. unfold gate_state, condition_of. by rewrite Hc3, Hk3, Hk2.
  - split; [|done]. left. split; [done|]. by exists msg, s3.
Qed.

Lemma reconcile_load_gate pacto p unmet auth (s : RState W L) :
  fresh_status pacto p → F (st_world s) →
  gated (pacto_key pacto) unmet (st_events s) (reconcile_load p unmet auth s).
Proof.
  intros Hf Hs. unfold reconcile_load. cbv zeta.
  set (p1 := with_status _ p). assert (fresh_status pacto p1) as Hf1 by done.
  rewrite M_bind_unfold.
  match goal with |- context [on_loader (cl_Load ?o ?i ?a) s] =>
    destruct (Revisions.load_run o i a s) as (r & w' & l' & -> & Hload & _);
    pose proof (quiet_load F HF o i a _ (st_loader s) Hs) as Hs' end.
  rewrite Hload in Hs'. cbv beta iota.
  set (s1 := mkRState w' l' (st_events s) (st_metrics s)).
  change (st_events s) with (st_events s1).
  destruct r as [lr|err]; [|exists None; by apply failReconciliation_gate].
  match goal with |- context [match ?a with Ok _ => _ | Err _ => _ end] =>
    destruct a as [[c keys]|e] end; [|exists None; by apply failReconciliation_gate].
  by apply reconcile_contract_gate.
Qed.

Lemma Reconcile_gate ns n pacto (s : RState W L) :
  Get_Pacto ns n (st_world s) = Ok pacto → F (st_world s) →
  gated (pacto_key pacto) (Readiness.readinessWasUnmet pacto) (st_events s)
    (Reconcile ns n s).
Proof.
  intros Hget Hs. unfold Reconcile. rewrite M_bind_unfold. cbn [ask gets]. rewrite Hget.
  cbv zeta. pose proof (reset_fresh pacto) as Hf. rewrite reconcile_reset_run.
  destruct (credentials _ _) as [a|e]; [by apply reconcile_load_gate|].
  exists None. by apply failReconciliation_gate.
Qed.
End whole.

(** ** Over time *)

(** Warnings and recoveries take turns; the flag says whether the gate is unmet before the
    first of them. *)
Fixpoint alternating (unmet : bool) (said : list string) : Prop :=
  match said with
  | [] => True
  | r :: said =>
      r = (if unmet then EventReadinessRecovered else EventReadinessGateUnmet) ∧
      alternating (negb unmet) said
  end.

Lemma alternating_app u l l' :
  alternating u l → alternating (xorb u (Nat.odd (length l))) l' → alternating u (l ++ l').
Proof.
  revert u. induction l as [|r l IH]; intros u; cbn [app alternating length].
  { by rewrite xorb_false_r. }
  intros [-> Hl] Hl'. split; [done|]. apply IH; [done|].
  rewrite Nat.odd_succ, <- Nat.negb_odd in Hl'. by destruct u, (Nat.odd (length l)).
Qed.

Lemma change_alternating u u' :
  alternating u (change u (Some u')) ∧
  u' = xorb u (Nat.odd (length (change u (Some u')))).
Proof. by destruct u, u'. Qed.

Section history.
Context `{UnicodeTables} `{PactoLib} `{GoMaps} `{ConditionStoreLaws}
  `{Credentials.DockerConfigCodec}.
Context {W L : Type} `{!Clock W} `{!KubeClient W} `{!ContractLoader W L}
  `{!Prober.HTTPTransport W} `{!RevisionLaws W} `{!NetworkFrame W}
  `{!ContractLoaderLaws W L} `{!LoaderFrame W L} `{!PactoLaws W L}.
Implicit Types s : RState W L.

(** The gate of a stored Pacto: nothing without a Pacto or without the condition. *)
Definition stored_gate (k : string * string) (w : W) : option bool :=
  pactos w !! k ≫= gate_state.

Definition unmet (k : string * string) (w : W) : bool := default false (stored_gate k w).

(** A successful request of a stored Pacto says what changed between the stored statuses. *)
Lemma own_request ns n s d s' :
  keyed (view_of (st_world s)) → is_Some (pactos (st_world s) !! (ns, n)) →
  Reconcile ns n s = (Ret (Ok d), s') →
  gate_events (ns, n) (st_events s') =
    gate_events (ns, n) (st_events s) ++
    change (unmet (ns, n) (st_world s)) (stored_gate (ns, n) (st_world s')).
Proof.
  intros Hkeys [p Hp] Hrun.
  destruct (Get_Pacto ns n (st_world s)) as [p0|e] eqn:Hget; cycle 1.
  { rewrite (Reconcile_missing ns n e s Hget) in Hrun.
    destruct (IsNotFound e) eqn:Hnf; [|done].
    apply System.pacto_missing in Hget; [|done]. congruence. }
  pose proof (pacto_found _ _ _ _ Hget) as Hp0. rewrite Hp in Hp0. injection Hp0 as <-.
  assert (pacto_key p = (ns, n)) as Hk by by apply Hkeys.
  destruct (Reconcile_gate (λ w, pactos w = pactos (st_world s)) (pactos_quiet _)
    ns n p s Hget eq_refl) as (g & Hwrote & new & Ev & _ & Hnew).
  rewrite Hrun, Hk in *. cbn [snd] in Ev. rewrite Ev, gate_events_app, Hnew. f_equal.
  destruct Hwrote as [(_ & msg & s1 & [=] & _)|(p' & w & e & r & s1 & [= <- <-] & _ & [HF _] & [Hkey Hg] & Hup & He)].
  destruct e as [e|]; [done|].
  destruct (status_done _ _ _ Hup) as (old & Hold & Hnew'). rewrite HF in Hold, Hnew'.
  unfold unmet, stored_gate. rewrite Hp. cbn [mbind option_bind].
  rewrite <- gate_state_wasUnmet. f_equal. rewrite <- Hg.
  by rewrite Hnew', Hkey, lookup_insert_eq.
Qed.
(** A request of another Pacto says nothing of this one's gate, and leaves it alone. *)
Lemma other_request k ns n s :
  keyed (view_of (st_world s)) → (ns, n) ≠ k →
  let s' := (Reconcile ns n s).2 in
  pactos (st_world s') !! k = pactos (st_world s) !! k ∧
  gate_events k (st_events s') = gate_events k (st_events s).
Proof.
  intros Hkeys Hne. cbv zeta.
  destruct (System.Reconcile_cases ns n s Hkeys)
    as (o & s' & Hrun & [(p & Hget & _ & Ho)|(e & _ & -> & _)]); rewrite Hrun; cbn [snd];
    [|done].
  split.
  - destruct o as [[d|e]|msg]; [|by rewrite Ho|by destruct Ho as [-> _]].
    destruct Ho as (p' & _ & -> & _). by rewrite lookup_insert_ne.
  - assert (pacto_key p = (ns, n)) as Hk by by apply Hkeys, pacto_found.
    destruct (Reconcile_gate (λ _, True) quiet_True ns n p s Hget I)
      as (g & _ & new & Ev & Hobj & _).
    rewrite Hrun, Hk in *. cbn [snd] in Ev. rewrite Ev, gate_events_app.
    enough (gate_events k new = []) as -> by apply app_nil_r.
    unfold gate_events.
    rewrite (proj2 (filter_nil_iff (λ e, ev_Object e = k ∧ ev_Reason e ∈ gate_reasons) new));
      [done|].
    intros e He [Hek _]. rewrite Forall_forall in Hobj. rewrite (Hobj e He) in Hek. done.
Qed.

(** What may happen while the gate of [k] is watched: changes by others that leave its
    status and the events about its gate alone, requests of other Pactos with any outcome,
    and requests of its own that succeed with a status that has the condition. *)
Inductive watched (k : string * string) : RState W L → RState W L → Prop :=
| watched_others s s' :
    rely (view_of (st_world s)) (view_of (st_world s')) →
    p_Status <$> pactos (st_world s') !! k = p_Status <$> pactos (st_world s) !! k →
    gate_events k (st_events s') = gate_events k (st_events s) → watched k s s'
| watched_other ns n s : (ns, n) ≠ k → watched k s (Reconcile ns n s).2
| watched_own s d s' :
    Reconcile k.1 k.2 s = (Ret (Ok d), s') → stored_gate k (st_world s') ≠ None →
    watched k s s'.

Lemma stored_gate_status k w w' :
  p_Status <$> pactos w' !! k = p_Status <$> pactos w !! k → stored_gate k w' = stored_gate k w.
Proof.
  unfold stored_gate, gate_state, condition_of, conditions.
  destruct (pactos w' !! k), (pactos w !! k); cbn; [by intros [= ->]|done..].
Qed.

Lemma watched_says k s s' :
  keyed (view_of (st_world s)) → watched k s s' →
  keyed (view_of (st_world s')) ∧
  ∃ new, gate_events k (st_events s') = gate_events k (st_events s) ++ new ∧
    alternating (unmet k (st_world s)) new ∧
    unmet k (st_world s') = xorb (unmet k (st_world s)) (Nat.odd (length new)).
Proof.
  intros Hkeys. destruct 1 as [s s' Hr Hst Hev|ns n s Hne|s d s' Hrun Hg].
  - split; [intros k' p Hp; apply (System.rely_pactos _ _ Hr _ _ Hp)|].
    exists []. rewrite Hev, app_nil_r. unfold unmet. rewrite (stored_gate_status _ _ _ Hst).
    by rewrite xorb_false_r.
  - split; [by apply System.Reconcile_keyed|].
    destruct (other_request k ns n s Hkeys Hne) as [Hp ->]. exists [].
    rewrite app_nil_r. unfold unmet, stored_gate. rewrite Hp. by rewrite xorb_false_r.
  - pose proof (System.Reconcile_keyed k.1 k.2 s Hkeys) as Hkeys'.
    destruct k as [ns n]. cbn [fst snd] in *. rewrite Hrun in Hkeys'. split; [done|].
    exists (change (unmet (ns, n) (st_world s)) (stored_gate (ns, n) (st_world s'))).
    split.
    + apply (own_request ns n s d); [done| |done].
      destruct (System.Reconcile_cases ns n s Hkeys)
        as (o & s1 & Hrun1 & [(p & Hget%pacto_found & _)|(e & _ & -> & _)]); [by exists p|].
      rewrite Hrun in Hrun1. injection Hrun1 as _ <-. revert Hg. unfold stored_gate.
      destruct (pactos _ !! _); [by eexists|done].
    + unfold unmet at 3. destruct (stored_gate (ns, n) (st_world s')) as [u'|]; [|done].
      apply change_alternating.
Qed.

(** C22 (safety). The gate events of a Pacto take turns: over any number of requests of it
    that succeed and publish a ReadinessSatisfied condition, with requests of other Pactos
    (failing or not) and edits by others in between, the operator records a warning when the
    gate becomes unmet and a recovery when it is met again, never two of a kind in a row,
    and the last one tells the state that the stored status shows. (A request that fails
    after the assessment, or publishes a status without the condition, is not among them:
    after such a one an event may be repeated.) *)
Theorem gate_events_alternate k s s' :
  keyed (view_of (st_world s)) → rtc (watched k) s s' →
  ∃ new, gate_events k (st_events s') = gate_events k (st_events s) ++ new ∧
    alternating (unmet k (st_world s)) new ∧
    unmet k (st_world s') = xorb (unmet k (st_world s)) (Nat.odd (length new)).
Proof.
  intros Hkeys Hsteps. revert Hkeys.
  induction Hsteps as [s|s s1 s2 Hstep _ IH]; intros Hkeys.
  { exists []. by rewrite app_nil_r, xorb_false_r. }
  destruct (watched_says k s s1 Hkeys Hstep) as (Hkeys1 & new & E & Halt & Hu).
  destruct (IH Hkeys1) as (new' & E' & Halt' & Hu'). exists (new ++ new').
  rewrite E', E, (assoc (++)). rewrite Hu in Halt', Hu'.
  split_and!; [done|by apply alternating_app|].
  rewrite Hu', length_app, Nat.odd_add. by rewrite xorb_assoc.
Qed.
End history.

(** *** Witness: a gate that is met at odd times *)

Section examples.
Import Cluster.
#[local] Existing Instances cluster_clock cluster_client cluster_network cluster_laws
  System.system_loader latin1_tables Readiness.readiness_lib canonical_order list_store
  Credentials.example_codec list_store_laws cluster_network_frame System.cluster_pactos
  System.system_loader_laws System.system_loader_frame.

(** Time passes. *)
Definition tick (s : RState cluster unit) : RState cluster unit :=
  let w := st_world s in
  mkRState (mkCluster (cl_clock w + 1) (cl_revisions w) (cl_pactos w) (cl_secrets w)
    (cl_reader w)) (st_loader s) (st_events s) (st_metrics s).

Definition gate_run : RState cluster unit → RState cluster unit :=
  λ s, (Reconcile "prod" "api" s).2.

(** Met, unmet, another request, still unmet, met again. *)
Definition gate_state1 := gate_run small_state.
Definition gate_state2 := gate_run (tick gate_state1).
Definition gate_state3 := gate_run (Reconcile "prod" "gone" gate_state2).2.
Definition gate_state4 := gate_run (tick gate_state3).

Lemma tick_watched k s :
  keyed (view_of (L := unit) (st_world s)) → watched k s (tick s).
Proof.
  intros Hkeys. apply watched_others; [|done..]. constructor; cbn.
  - intros k' p' Hp'. split; [by apply Hkeys|]. right. by exists p'.
  - intros k' r Hr. exists r. split; [done|]. by destruct r.
Qed.

Lemma run_watched s d :
  (Reconcile "prod" "api" s).1 = Ret (Ok d) →
  stored_gate (L := unit) ("prod", "api") (st_world (gate_run s)) ≠ None →
  watched ("prod", "api") s (gate_run s).
Proof.
  intros Hrun Hg. apply (watched_own ("prod", "api") s d); [|done].
  cbn [fst snd]. rewrite <- Hrun. apply surjective_pairing.
Qed.

Lemma gate_runs : rtc (watched ("prod", "api")) small_state gate_state4.
Proof.
  pose proof (System.small_good) as [Hk0 _ _].
  assert (∀ s s', keyed (view_of (L := unit) (st_world s)) → watched ("prod", "api") s s' →
    keyed (view_of (L := unit) (st_world s'))) as Hkeep
    by (intros; by eapply watched_says).
  assert (watched ("prod", "api") small_state gate_state1) as H1
    by (eapply run_watched; [vm_compute; reflexivity|vm_compute; discriminate]).
  pose proof (Hkeep _ _ Hk0 H1) as Hk1.
  pose proof (Hkeep _ _ Hk1 (tick_watched ("prod", "api") _ Hk1)) as Hk1'.
  assert (watched ("prod", "api") (tick gate_state1) gate_state2) as H2
    by (eapply run_watched; [vm_compute; reflexivity|vm_compute; discriminate]).
  assert (watched ("prod", "api") gate_state2 (Reconcile "prod" "gone" gate_state2).2) as H3
    by (apply watched_other; discriminate).
  assert (watched ("prod", "api") (Reconcile "prod" "gone" gate_state2).2 gate_state3) as H4
    by (eapply run_watched; [vm_compute; reflexivity|vm_compute; discriminate]).
  pose proof (Hkeep _ _ (Hkeep _ _ (Hkeep _ _ Hk1' H2) H3) H4) as Hk3.
  assert (watched ("prod", "api") (tick gate_state3) gate_state4) as H5
    by (eapply run_watched; [vm_compute; reflexivity|vm_compute; discriminate]).
  eapply rtc_l; [exact H1|]. eapply rtc_l; [exact (tick_watched _ _ Hk1)|].
  eapply rtc_l; [exact H2|]. eapply rtc_l; [exact H3|]. eapply rtc_l; [exact H4|].
  eapply rtc_l; [exact (tick_watched _ _ Hk3)|]. apply rtc_once. exact H5.
Qed.

Example gate_events_ex :
  gate_events ("prod", "api") (st_events gate_state4) =
    [EventReadinessGateUnmet; EventReadinessRecovered].
Proof. vm_compute. reflexivity. Qed.

Lemma gate_events_alternate_witness :
  ∃ new, gate_events ("prod", "api") (st_events gate_state4) = [] ++ new ∧
    alternating (unmet (L := unit) ("prod", "api") (st_world small_state)) new ∧
    unmet (L := unit) ("prod", "api") (st_world gate_state4) =
      xorb (unmet (L := unit) ("prod", "api") (st_world small_state)) (Nat.odd (length new)).
Proof.
  apply (gate_events_alternate ("prod", "api") small_state gate_state4);
    [apply System.small_good|apply gate_runs].
Defined.
End examples.

End Gate.
