(* ===== verification/Interference.v ===== *)
(** * Reconciles among others

    [System] lets others act between two reconciles only. Here they also act inside one:
    several workers reconcile at the same time, users edit and delete objects, the cache of
    the client lags behind. Every call of the reconciler that writes, or that takes time
    (a load, a probe), is preceded by arbitrary steps [others] of the rest of the world,
    and nothing is known of what a read returns. What the reconciler has to rely on is the
    optimistic locking of the API server alone: a status update carries the resource version
    of the Pacto that was read and is refused if the object has changed since.

    The proof is a program logic for computations among others, in the rely-guarantee
    style; the sequential facts about the stages are those of [Reconcile] and [Verdict]. *)

From S2P Require Import Prelude GoStrings GoMaps GoFmt Contract V1alpha1 Conditions.
From S2P Require Import Observer Images Validator Credentials Prober Metrics Loader.
From S2P Require Import Overrides Kube Cluster Readiness Status Verdict Revisions Reconcile.
From S2P Require Import System.
From stdpp Require Import options.
#[local] Set Default Proof Using "Type*".

Module Interference.
Import Reconcile System.
Import Revisions(grown, extends, extends_new, extends_status, new_revision).
#[local] Existing Instance Revisions.grown_preorder.

(** ** The shared world *)

(** The documented behaviour of an API server that others use at the same time: a call sees
    the objects after some steps of the [others] and then has its own effect, which is the
    one of [RevisionLaws] and [PactoLaws]; a call that fails has none. The status of a Pacto
    is stored only if the object is still the one that was read. A read, possibly from a
    cache that lags behind, is only known to return an object of the name asked for. *)
Class SharedLaws (W L : Type) `{!KubeClient W} `{!ContractLoader W L}
    `{!Prober.HTTPTransport W} (others : view → view → Prop) := {
  shared_view : W → view;
  shared_get ns n w p : Get_Pacto ns n w = Ok p → pacto_key p = (ns, n);
  shared_load o i a w l : others (shared_view w) (shared_view (cl_Load o i a (w, l)).2.1);
  shared_tags o a w l : others (shared_view w) (shared_view (cl_ListTags o a (w, l)).2.1);
  shared_http t u w : others (shared_view w) (shared_view (Prober.http_Do t u w).2);
  shared_reference p r r' : SetControllerReference p r = Ok r' → r' = with_owner (p_Name p) r;
  shared_create r w :
    match Create_Revision r w with
    | (None, w') => ∃ v st, others (shared_view w) v ∧ v_revisions v !! revision_key r = None ∧
        shared_view w' = mkView (v_pactos v)
          (<[revision_key r := with_revision_status st r]> (v_revisions v))
    | (Some _, w') => others (shared_view w) (shared_view w')
    end;
  shared_update r w :
    match Update_Revision_Status r w with
    | (None, w') => ∃ v old, others (shared_view w) v ∧
        v_revisions v !! revision_key r = Some old ∧
        shared_view w' = mkView (v_pactos v)
          (<[revision_key r := with_revision_status (rev_Status r) old]> (v_revisions v))
    | (Some _, w') => others (shared_view w) (shared_view w')
    end;
  shared_status p w :
    match Update_Pacto_Status p w with
    | (None, w') => ∃ v old, others (shared_view w) v ∧
        v_pactos v !! pacto_key p = Some old ∧ same_object old p ∧
        shared_view w' = mkView (<[pacto_key p := with_status (λ _, p_Status p) old]>
          (v_pactos v)) (v_revisions v)
    | (Some _, w') => others (shared_view w) (shared_view w')
    end
}.

(** While a reconcile of [p] runs, others step and it adds revisions of its own. *)
Inductive meanwhile (others : view → view → Prop) (p : Pacto) : view → view → Prop :=
| mw_others v v' : others v v' → meanwhile others p v v'
| mw_snapshot P R R' : grown p R R' → meanwhile others p (mkView P R) (mkView P R').

(** It ends by publishing a status for the object [old] that is stored then. *)
Record publishes `{ConditionStore} (p p' : Pacto) (v v' : view) : Prop := {
  pub_stored : ∃ old, v_pactos v !! pacto_key p = Some old ∧ same_object old p ∧
                 well_formed old p';
  pub_effect : v' = mkView (<[pacto_key p := p']> (v_pactos v)) (v_revisions v)
}.

(** ** Computations among others *)

Section logic.
Context {W L : Type} `{!KubeClient W} `{!ContractLoader W L} `{!Prober.HTTPTransport W}.
Context (others : view → view → Prop) `{!SharedLaws W L others}.
Context (p : Pacto) (B : Prop).
Implicit Types s : RState W L.

#[local] Abbreviation seen s := (shared_view (L := L) (st_world s)).

(** [m] publishes nothing; what it returns satisfies [Q], and it panics only if [B]. *)
Definition proceeds {A} (Q : A → Prop) (m : M (RState W L) A) : Prop :=
  ∀ s, rtc (meanwhile others p) (seen s) (seen (m s).2) ∧
    match (m s).1 with Ret a => Q a | Panic _ => B end.

Lemma proceeds_ret {A} (Q : A → Prop) a : Q a → proceeds Q (mret a).
Proof. intros HQ s. split; [apply rtc_refl|done]. Qed.

Lemma proceeds_bind {A C} (Q : A → Prop) (Q' : C → Prop) (m : M (RState W L) A) f :
  proceeds Q m → (∀ a, Q a → proceeds Q' (f a)) → proceeds Q' (m ≫= f).
Proof.
  intros Hm Hf s. destruct (Hm s) as [Hpath HQ]. rewrite M_bind_unfold.
  destruct (m s) as [[a|msg] s1]; cbn [fst snd] in *; [|done].
  destruct (Hf a HQ s1) as [Hpath' HQ']. split; [by etrans|done].
Qed.

Lemma proceeds_then {A C} (Q' : C → Prop) (m : M (RState W L) A) f :
  proceeds (λ _, True) m → (∀ a, proceeds Q' (f a)) → proceeds Q' (m ≫= f).
Proof. intros Hm Hf. by eapply proceeds_bind; [exact Hm|]. Qed.

Lemma proceeds_weaken {A} (Q Q' : A → Prop) (m : M (RState W L) A) :
  proceeds Q m → (∀ a, Q a → Q' a) → proceeds Q' m.
Proof. intros Hm HQ s. destruct (Hm s) as [? Ho]. split; [done|]. destruct (m s).1; auto. Qed.

Lemma proceeds_panic {A} (Q : A → Prop) msg : B → proceeds Q (panic msg).
Proof. intros HB s. split; [apply rtc_refl|done]. Qed.

Lemma proceeds_ask {A} (f : W → A) : proceeds (λ _, True) (ask f).
Proof. intros s. split; [apply rtc_refl|done]. Qed.

Lemma proceeds_emit q typ r msg : proceeds (λ _, True) (emit q typ r msg).
Proof. intros s. split; [apply rtc_refl|done]. Qed.

Lemma proceeds_for_range {A} (f : A → M (RState W L) unit) l :
  (∀ a, proceeds (λ _, True) (f a)) → proceeds (λ _, True) (for_range f l).
Proof.
  intros Hf. induction l as [|a l IH]; [by apply proceeds_ret|].
  apply proceeds_then; [apply Hf|by intros _].
Qed.

(** A computation that only makes requests on the network, and returns. *)
Lemma proceeds_requests {A} (Q : A → Prop) (m : M (RState W L) A) :
  (∀ s, ∃ a s', m s = (Ret a, s') ∧ Q a ∧ rtc Prober.request (st_world s) (st_world s')) →
  proceeds Q m.
Proof.
  intros Hm s. destruct (Hm s) as (a & s' & -> & HQ & Hreq). split; [|done]. cbn [snd].
  induction Hreq as [w|w w1 w2 (t & u & ->) _ IH]; [apply rtc_refl|].
  eapply rtc_l; [|exact IH]. apply mw_others, shared_http.
Qed.

Lemma meanwhile_snapshot v P R R' :
  meanwhile others p v (mkView P R) → grown p R R' → rtc (meanwhile others p) v (mkView P R').
Proof. intros Hv HR. eapply rtc_l; [exact Hv|]. by apply rtc_once, mw_snapshot. Qed.

Lemma proceeds_update r : proceeds (λ _, True) (kube (Update_Revision_Status r)).
Proof.
  intros s. split; [|done]. cbn. pose proof (shared_update r (st_world s)) as Hup.
  destruct (Update_Revision_Status r _) as [[e|] w']; cbn; [by apply rtc_once, mw_others|].
  destruct Hup as ([P R] & old & Ho & Hold & ->). cbn [v_pactos v_revisions] in *.
  eapply meanwhile_snapshot; [by apply mw_others|].
  constructor; [by apply extends_status|]. intros k new Hn.
  by rewrite lookup_insert_ne by congruence; rewrite Hn.
Qed.

(** The creation of a revision of [p]. *)
Lemma proceeds_create q lr r :
  same_object q p → SetControllerReference q (new_revision q lr) = Ok r →
  proceeds (λ _, True) (kube (Create_Revision r)).
Proof.
  intros (Hname & Hns & _) ->%(shared_reference (W := W) (L := L)) s. split; [|done]. cbn.
  pose proof (shared_create (with_owner (p_Name q) (new_revision q lr)) (st_world s)) as Hcr.
  destruct (Create_Revision _ _) as [[e|] w']; cbn; [by apply rtc_once, mw_others|].
  destruct Hcr as ([P R] & st & Ho & Hnone & ->). cbn [v_pactos v_revisions] in *.
  eapply meanwhile_snapshot; [by apply mw_others|].
  constructor; [by apply extends_new|]. intros k new Hn.
  rewrite lookup_insert_Some. intros [[<- <-]|[_ ?]]; [|congruence].
  cbn. by rewrite Hname, Hns.
Qed.

Context `{!ContractLoaderLaws W L}.

Lemma proceeds_load o i a : proceeds (λ _, True) (on_loader (cl_Load o i a)).
Proof.
  intros s. pose proof (shared_load o i a (st_world s) (st_loader s)) as Ho.
  destruct (cl_Load_returns o i a (st_world s, st_loader s)) as (r & [w' l'] & Hrun).
  unfold on_loader, zoom. rewrite Hrun in Ho |- *. split; [|done].
  by apply rtc_once, mw_others.
Qed.

Lemma proceeds_tags o a : proceeds (λ _, True) (on_loader (cl_ListTags o a)).
Proof.
  intros s. pose proof (shared_tags o a (st_world s) (st_loader s)) as Ho.
  destruct (cl_ListTags_returns o a (st_world s, st_loader s)) as (r & [w' l'] & Hrun).
  unfold on_loader, zoom. rewrite Hrun in Ho |- *. split; [|done].
  by apply rtc_once, mw_others.
Qed.
End logic.

Create HintDb proceeds discriminated.
#[export] Hint Resolve proceeds_ask proceeds_emit proceeds_update proceeds_load
  proceeds_tags proceeds_for_range : proceeds.

(** Goes through code that is not asked to return anything in particular. *)
Ltac proceed :=
  repeat first
    [ solve [auto with proceeds]
    | apply proceeds_ret; exact I
    | apply proceeds_then; [|intros ?]
    | progress cbv zeta
    | match goal with
      | |- ∀ _, proceeds _ _ _ _ _ => intros ?
      | |- proceeds _ _ _ _ (match ?x with _ => _ end) => destruct x
      end ].

(** ** The handlers *)

Section handlers.
Context `{UnicodeTables} `{PactoLib} `{GoMaps} `{ConditionStoreLaws}
  `{Credentials.DockerConfigCodec}.
Context {W L : Type} `{!Clock W} `{!KubeClient W} `{!ContractLoader W L}
  `{!Prober.HTTPTransport W} `{!ContractLoaderLaws W L}.
Context (others : view → view → Prop) `{!SharedLaws W L others}.
Context (p : Pacto).

#[local] Abbreviation seen s := (shared_view (L := L) (st_world s)).
#[local] Abbreviation runs Q m := (proceeds (L := L) others p (syncs_tags p) Q m).

Lemma ensureRevision_proceeds q lr :
  same_object q p → runs (λ _, True) (Revisions.ensureRevision q lr).
Proof.
  intros Hso. unfold Revisions.ensureRevision. cbv zeta. apply proceeds_then; [proceed|].
  intros [existing|err]; [proceed|]. destruct (negb _); [proceed|].
  apply proceeds_then; [proceed|intros t].
  destruct (SetControllerReference _ _) as [r|e] eqn:Href; [|proceed].
  apply proceeds_then; [by eapply proceeds_create|proceed].
Qed.

#[local] Hint Resolve ensureRevision_proceeds : proceeds.

Lemma sync_tag_proceeds q ref a tag :
  same_object q p → syncs_tags p → runs (λ _, True) (Revisions.sync_tag q ref a tag).
Proof.
  intros Hso Hsync. unfold Revisions.sync_tag. proceed; by apply proceeds_panic.
Qed.

Lemma syncAllRevisions_proceeds q ref a :
  same_object q p → syncs_tags p → runs (λ _, True) (Revisions.syncAllRevisions q ref a).
Proof.
  intros Hso Hsync. unfold Revisions.syncAllRevisions.
  apply proceeds_then; [proceed|]. intros [tags|e]; [|proceed].
  apply proceeds_then; [|proceed]. apply proceeds_for_range. intros tag.
  by apply sync_tag_proceeds.
Qed.

Lemma reconcile_revisions_proceeds q lr a :
  validated p q → runs (validated p) (reconcile_revisions q lr a).
Proof.
  intros Hva. pose proof (va_object _ _ Hva) as Hso. unfold reconcile_revisions. cbv zeta.
  apply proceeds_then; [by apply ensureRevision_proceeds|]. intros r.
  set (q1 := match r with Ok n => _ | Err _ => q end).
  assert (validated p q1) as Hva1 by (subst q1; destruct r; [by apply validated_same|done]).
  pose proof (va_object _ _ Hva1) as Hso1.
  apply proceeds_then; [|intros _; by apply proceeds_ret].
  destruct (_ && _) eqn:Hsync; [|proceed].
  apply proceeds_then; [|proceed]. apply syncAllRevisions_proceeds; [done|].
  destruct Hso1 as (_ & _ & _ & Hspec). unfold syncs_tags. rewrite <- Hspec.
  by reflect_bools.
Qed.

Lemma reconcileReadiness_proceeds q c unmet :
  validated p q → runs (validated p) (Readiness.reconcileReadiness q c unmet).
Proof.
  intros Hva. apply proceeds_requests. intros s.
  destruct (reconcileReadiness_validated p q c unmet s Hva) as (q' & s' & Hrun & Hva' & Hw).
  exists q', s'. by rewrite Hw.
Qed.

(** The runtime part, up to the final status. *)
Lemma runtime_part_proceeds q c snap hs svc wn wk :
  validated p q →
  runs (λ pc, ∀ t, well_formed p (stamp t (with_status
          (set_ContractStatus (Verdict.computeFinalContractStatus pc.1)) pc.1)))
    (Verdict.runtime_part q c snap hs svc wn wk).
Proof.
  intros Hva. apply proceeds_requests. intros s.
  destruct (Verdict.runtime_part_run q c snap hs svc wn wk s)
    as (q' & checks & s' & -> & (probes & Hch & Hsub) & Hsum & _ & Hu' & Hrec
        & (Hreq & _) & Hso'); [apply Hva|].
  exists (q', checks), s'. split_and!; [done| |done]. intros t. by eapply runtime_well_formed.
Qed.

(** *** The end *)

(** A run ends a reconcile of [p]: by publishing one well-formed status, which its result
    and the metrics go with, or, if it fails or panics, without publishing anything. *)
Definition ended_among (s : RState W L) (run : outcome (result Z) * RState W L) : Prop :=
  match run.1 with
  | Ret (Ok d) => ∃ v p', rtc (meanwhile others p) (seen s) v ∧
      publishes p p' v (seen run.2) ∧
      d = Status.requeueInterval p' ∧ metrics_show p' (st_metrics run.2)
  | Ret (Err _) => rtc (meanwhile others p) (seen s) (seen run.2)
  | Panic _ => syncs_tags p ∧ rtc (meanwhile others p) (seen s) (seen run.2)
  end.

Definition ends_among (m : M (RState W L) (result Z)) : Prop := ∀ s, ended_among s (m s).

Lemma ends_among_bind {A} (Q : A → Prop) (m : M (RState W L) A) f :
  runs Q m → (∀ a, Q a → ends_among (f a)) → ends_among (m ≫= f).
Proof.
  intros Hm Hf s. destruct (Hm s) as [Hpath HQ]. rewrite M_bind_unfold.
  destruct (m s) as [[a|msg] s1]; cbn [fst snd] in *; [|done].
  specialize (Hf a HQ s1). unfold ended_among in *.
  destruct (f a s1) as [[[d|e]|msg] s2]; cbn [fst snd] in *.
  - destruct Hf as (v & p' & Hv & Hrest). exists v, p'. split; [by etrans|done].
  - by etrans.
  - destruct Hf. split; [done|by etrans].
Qed.

Lemma ends_among_then {A} (m : M (RState W L) A) f :
  runs (λ _, True) m → (∀ a, ends_among (f a)) → ends_among (m ≫= f).
Proof. intros Hm Hf. by eapply ends_among_bind; [exact Hm|]. Qed.

(** A successful status update publishes. *)
Lemma status_publishes q w :
  well_formed p q →
  match Update_Pacto_Status q w with
  | (None, w') => ∃ v, others (shared_view (L := L) w) v ∧ publishes p q v (shared_view (L := L) w')
  | (Some _, w') => others (shared_view (L := L) w) (shared_view (L := L) w')
  end.
Proof.
  intros Hwf. pose proof (shared_status (L := L) q w) as Hup.
  destruct (Update_Pacto_Status q w) as [[e|] w']; [done|].
  destruct Hup as (v & old & Ho & Hold & Hso & ->). exists v. split; [done|].
  assert (same_object q p) as Hqp by apply Hwf.
  assert (same_object old p) as Hop by (by etrans).
  rewrite (published_status old q) by (by symmetry).
  rewrite (same_object_key p q Hqp) in Hold |- *. constructor; [|done].
  exists old. split_and!; [done..|]. by apply (well_formed_same p).
Qed.

(** What both ends of a reconcile have in common: the write, and what follows it if it went
    through. *)
Lemma write_ends_among q c checks (tell : M (RState W L) unit) :
  well_formed p q → (∀ s, ∃ evs, tell s = (Ret tt, mkRState (st_world s) (st_loader s) evs
                                                   (st_metrics s))) →
  ends_among (kube (Update_Pacto_Status q) ≫= λ e,
    match e with
    | Some e => mret (Err e)
    | None => tell ≫= λ _, record_outcome q c checks ≫= λ _,
              mret (Ok (Status.requeueInterval q))
    end).
Proof.
  intros Hwf Htell s. unfold ended_among. rewrite M_bind_unfold.
  unfold kube, Kube.on_world, zoom, lift_op. cbn [fst snd].
  pose proof (status_publishes q (st_world s) Hwf) as Hup.
  destruct (Update_Pacto_Status q (st_world s)) as [[e|] w']; cbn [fst snd].
  - by apply rtc_once, mw_others.
  - destruct Hup as (v & Ho & Hpub). rewrite M_bind_unfold.
    match goal with |- context [tell ?t] => destruct (Htell t) as (evs & ->) end.
    rewrite M_bind_unfold.
    match goal with |- context [record_outcome q c checks ?t] =>
      destruct (record_outcome_run q c checks t) as (ms & -> & Hms) end.
    exists v, q. split_and!; [by apply rtc_once, mw_others|done..].
Qed.

Lemma finishReconciliation_ends_among q c checks :
  (∀ t, well_formed p (stamp t q)) → ends_among (finishReconciliation q c checks).
Proof.
  intros Hwf. unfold finishReconciliation. apply ends_among_then; [proceed|intros t].
  apply (write_ends_among (stamp t q) (Some c) checks); [done|].
  intros []. case_match; [case_match|]; by eexists.
Qed.

Lemma failReconciliation_ends_among q msg v c :
  (∀ t, well_formed p (stamp t (failed_pacto msg v q))) →
  ends_among (failReconciliation q msg v c).
Proof.
  intros Hwf. unfold failReconciliation. cbv zeta. fold (failed_pacto msg v q).
  apply ends_among_then; [proceed|intros t].
  apply (write_ends_among (stamp t (failed_pacto msg v q)) c); [done|].
  intros s. by eexists.
Qed.

(** *** The whole loop *)

Lemma failure_ends_among q msg v c :
  fresh_status p q → ends_among (failReconciliation q msg v c).
Proof.
  intros Hf. apply failReconciliation_ends_among. intros t.
  apply failed_well_formed; [by destruct Hf|by apply (fresh_unique p q)].
Qed.

Lemma reconcile_target_ends_among q c :
  validated p q → ends_among (reconcile_target q c).
Proof.
  intros Hva. unfold reconcile_target. rewrite (IsReference_same q p) by apply Hva.
  destruct (IsReference p) eqn:Href.
  { apply finishReconciliation_ends_among. intros t. by apply reference_well_formed. }
  destruct (ResolvedWorkload q) as [wn wk]. cbv zeta.
  apply ends_among_then; [proceed|]. intros [snap|err].
  - eapply ends_among_bind; [apply runtime_part_proceeds|
      intros [q' checks] Hwf; by apply finishReconciliation_ends_among]. unfold observed_runtime.
    case_match; [by apply validated_same|done].
  - apply ends_among_then; [proceed|intros _]. apply finishReconciliation_ends_among.
    intros t. by apply unobserved_well_formed.
Qed.

Lemma reconcile_contract_ends_among q unmet a lr c keys :
  fresh_status p q → ends_among (reconcile_contract q unmet a lr c keys).
Proof.
  intros Hf. unfold reconcile_contract. cbv zeta. case_bool_decide.
  { by apply failure_ends_among. }
  eapply ends_among_bind; [by apply reconcileReadiness_proceeds, populate_contract_validated|].
  intros q1 Hva1. eapply ends_among_bind; [by apply reconcile_revisions_proceeds|].
  intros q2 Hva2. by apply reconcile_target_ends_among.
Qed.

Lemma reconcile_load_ends_among q unmet a :
  fresh_status p q → ends_among (reconcile_load q unmet a).
Proof.
  intros Hf. unfold reconcile_load. cbv zeta.
  match goal with |- ends_among (_ ≫= ?f) => set (continue := f) end.
  apply ends_among_then; [proceed|]. subst continue. intros [lr|err].
  - match goal with |- context [match ?r with Ok _ => _ | Err _ => _ end] =>
      destruct r as [[c keys]|e] end; [|by apply failure_ends_among].
    by apply reconcile_contract_ends_among.
  - by apply failure_ends_among.
Qed.

Lemma reconcile_reset_ends_among q unmet :
  fresh_status p q → ends_among (reconcile_reset q unmet).
Proof.
  intros Hf. unfold reconcile_reset. cbv zeta.
  case_bool_decide; [|by apply reconcile_load_ends_among].
  apply ends_among_then; [unfold resolveOCIAuth; proceed|]. intros [a|e].
  - by apply reconcile_load_ends_among.
  - by apply failure_ends_among.
Qed.
End handlers.

(** ** The operator among others *)

Section operator.
Context `{UnicodeTables} `{PactoLib} `{GoMaps} `{ConditionStoreLaws}
  `{Credentials.DockerConfigCodec}.
Context {W L : Type} `{!Clock W} `{!KubeClient W} `{!ContractLoader W L}
  `{!Prober.HTTPTransport W} `{!ContractLoaderLaws W L}.
Context (others : view → view → Prop) `{!SharedLaws W L others}.
Implicit Types s : RState W L.

#[local] Abbreviation seen s := (shared_view (L := L) (st_world s)).

Lemma Reconcile_ended_among ns n p s :
  Get_Pacto ns n (st_world s) = Ok p →
  pacto_key p = (ns, n) ∧ ended_among others p s (Reconcile ns n s).
Proof.
  intros Hget. split; [by apply (shared_get (L := L) ns n (st_world s))|].
  unfold Reconcile. rewrite M_bind_unfold. cbn [ask gets]. rewrite Hget.
  by apply reconcile_reset_ends_among, reset_fresh.
Qed.

(** A request is handled, among others, or only others step. *)
Inductive shared_step : RState W L → RState W L → Prop :=
| shared_reconcile ns n s : shared_step s (Reconcile ns n s).2
| shared_others s s' : others (seen s) (seen s') → shared_step s s'.

Section invariant.
Hypothesis others_good : ∀ v v', others v v' → good v → good v'.

Lemma meanwhile_good p v v' : rtc (meanwhile others p) v v' → good v → good v'.
Proof.
  induction 1 as [v|v v1 v' Hstep _ IH]; [done|]. intros Hg. apply IH. clear IH.
  destruct Hstep as [v v1 Ho|P R R' Hgrown]; [by eapply others_good|].
  destruct Hg as [Hk Hs Hr]. constructor; [done..|].
  intros k r. by apply (grown_owned p R).
Qed.

Lemma publishes_good p p' v v' : publishes p p' v v' → good v → good v'.
Proof.
  intros [(old & Hold & Hso & Hwf) ->] Hg. destruct v as [P R]. cbn in *.
  rewrite <- (same_object_key p old Hso) in Hold |- *.
  by apply (abs_step_good _ _ (abs_publish P R R old p' Hold Hwf (reflexivity _))).
Qed.

Lemma shared_step_good s s' : shared_step s s' → good (seen s) → good (seen s').
Proof.
  destruct 1 as [ns n s|s s' Ho]; [|by apply others_good]. intros Hg.
  destruct (Get_Pacto ns n (st_world s)) as [p|e] eqn:Hget.
  - destruct (Reconcile_ended_among ns n p s Hget) as [_ Hend]. unfold ended_among in Hend.
    destruct (Reconcile ns n s).1 as [[d|e]|msg].
    + destruct Hend as (v & p' & Hpath & Hpub & _).
      eapply publishes_good; [exact Hpub|]. by eapply meanwhile_good.
    + by eapply meanwhile_good.
    + destruct Hend as [_ Hpath]. by eapply meanwhile_good.
  - unfold Reconcile. rewrite M_bind_unfold. cbn [ask gets]. rewrite Hget.
    by destruct (IsNotFound e).
Qed.

Lemma shared_steps_good s s' : rtc shared_step s s' → good (seen s) → good (seen s').
Proof.
  induction 1 as [s|s s1 s' Hstep _ IH]; [done|]. intros Hg.
  apply IH. by eapply shared_step_good.
Qed.
End invariant.

(** C3 (refinement). A reconcile among others, whatever they do to the cluster during any
    of its calls and whatever its reads return. If it succeeds, it ends by publishing, in
    one step, a status that is well formed for the Pacto that is stored at that moment, the
    one that was read; before that it has only added revisions of its own. If it fails or
    panics it has published nothing: an edit made meanwhile is never overwritten, nor is it
    credited with a status computed for the spec before it. *)
Theorem Reconcile_among_others ns n s :
  match Get_Pacto ns n (st_world s) with
  | Err e => Reconcile ns n s = (Ret (if IsNotFound e then Ok 0 else Err e), s)
  | Ok p =>
      pacto_key p = (ns, n) ∧
      match (Reconcile ns n s).1 with
      | Ret (Ok d) => ∃ v old p',
          rtc (meanwhile others p) (seen s) v ∧
          v_pactos v !! (ns, n) = Some old ∧ same_object old p ∧ well_formed old p' ∧
          seen (Reconcile ns n s).2 = mkView (<[(ns, n) := p']> (v_pactos v)) (v_revisions v) ∧
          d = Status.requeueInterval p' ∧ metrics_show p' (st_metrics (Reconcile ns n s).2)
      | Ret (Err _) => rtc (meanwhile others p) (seen s) (seen (Reconcile ns n s).2)
      | Panic _ =>
          syncs_tags p ∧ rtc (meanwhile others p) (seen s) (seen (Reconcile ns n s).2)
      end
  end.
Proof.
  destruct (Get_Pacto ns n (st_world s)) as [p|e] eqn:Hget.
  - destruct (Reconcile_ended_among ns n p s Hget) as [Hkey Hend]. split; [done|].
    unfold ended_among in Hend. destruct (Reconcile ns n s).1 as [[d|e]|msg]; [|done..].
    destruct Hend as (v & p' & Hpath & [(old & Hold & Hso & Hwf) Heff] & Hd & Hm).
    rewrite Hkey in Hold, Heff. by exists v, old, p'.
  - unfold Reconcile. rewrite M_bind_unfold. cbn [ask gets]. rewrite Hget.
    by destruct (IsNotFound e).
Qed.

(** C4 (invariant). Nor do concurrent workers break what holds of the stored objects: as
    long as the others keep it (as users do by [rely], and other workers by this very
    statement), after any sequence of steps with reconciles interleaved call by call, every
    reconciled Pacto has a status that claims no generation it does not have, and is well
    formed for the present spec if it claims the present one; every revision is owned by the
    Pacto it names. *)
Theorem concurrent_statuses_current s s' :
  (∀ v v', others v v' → good v → good v') →
  good (seen s) → rtc shared_step s s' →
  (∀ k p, v_pactos (seen s') !! k = Some p → LastReconciledAt (p_Status p) ≠ None →
     ObservedGeneration (p_Status p) ≤ p_Generation p ∧
     (ObservedGeneration (p_Status p) = p_Generation p → well_formed p p)) ∧
  ∀ k r, v_revisions (seen s') !! k = Some r →
    revision_key r = k ∧ rev_Owner r = Some (rev_PactoRef (rev_Spec r)).
Proof.
  intros Hothers Hg Hsteps.
  destruct (shared_steps_good Hothers s s' Hsteps Hg) as [Hk Hs Ho]. split; [|done].
  intros k p Hp. apply accounted_current. by eapply Hs.
Qed.
End operator.

(** ** An instance: a cluster with users and a second worker *)

#[local] Instance ContractRef_eq_dec : EqDecision ContractRef.
Proof. solve_decision. Defined.
#[local] Instance WorkloadRef_eq_dec : EqDecision WorkloadRef.
Proof. solve_decision. Defined.
#[local] Instance TargetRef_eq_dec : EqDecision TargetRef.
Proof. solve_decision. Defined.
#[local] Instance ConfigurationOverride_eq_dec : EqDecision ConfigurationOverride.
Proof. solve_decision. Defined.
#[local] Instance ContractOverrides_eq_dec : EqDecision ContractOverrides.
Proof. solve_decision. Defined.
#[local] Instance PactoSpec_eq_dec : EqDecision PactoSpec.
Proof. solve_decision. Defined.
#[local] Instance same_object_dec p q : Decision (same_object p q).
Proof. unfold same_object. apply _. Defined.

Section examples.
Import Cluster.
#[local] Existing Instances latin1_tables example_lib canonical_order list_store
  Credentials.example_codec list_store_laws.

(** What others do in one turn: a user edits the spec of a Pacto or deletes it, a clean-up
    deletes a revision, a second worker of the operator serves a request. *)
Inductive turn :=
| Edit (key : string * string) (spec : PactoSpec)
| Delete (key : string * string)
| Forget (key : string * string)
| Serve (namespace name : string).

Definition edited (spec : PactoSpec) (p : Pacto) : Pacto :=
  mkPacto (p_Name p) (p_Namespace p) (p_Generation p + 1) spec (p_Status p).

(** The second worker has the cluster to itself during its turn. *)
Definition served (namespace name : string) (w : cluster) : cluster :=
  st_world (Reconcile (Clock0 := cluster_clock) (KubeClient0 := cluster_client)
    (ContractLoader0 := system_loader) (H4 := cluster_network) namespace name
    (mkRState w tt [] [])).2.

Definition take_turn (t : turn) (w : cluster) : cluster :=
  match t with
  | Edit k spec => with_pactos (alter (edited spec) k (cl_pactos w)) w
  | Delete k => with_pactos (delete k (cl_pactos w)) w
  | Forget k => with_revisions (delete k (cl_revisions w)) w
  | Serve ns n => served ns n w
  end.

Definition cluster_view (w : cluster) : view := mkView (cl_pactos w) (cl_revisions w).

(** Every turn keeps the invariants; that of the second worker by the theorems about a
    worker on its own. *)
Lemma take_turn_good t w : good (cluster_view w) → good (cluster_view (take_turn t w)).
Proof.
  intros Hg. pose proof Hg as [Hk Hs Ho]. destruct t as [k spec|k|k|ns n]; cbn.
  - apply (abs_step_good (cluster_view w)); [apply abs_environment|done].
    constructor; cbn; [|intros k' r Hr; exists r; split; [done|by destruct r]].
    intros k' p' [(-> & p & Hp & ->)|[_ Hp]]%lookup_alter_Some.
    + split; [by apply (Hk k' p)|right]. exists p. split_and!; [done|done|cbn; lia|cbn; lia].
    + split; [by apply Hk|right]. by exists p'.
  - constructor; unfold keyed; cbn; [|..|done]; intros k' p [_ Hp]%lookup_delete_Some;
      [by apply Hk|by eapply Hs].
  - constructor; cbn; [done..|]. intros k' r [_ Hr]%lookup_delete_Some. by apply Ho.
  - apply (abs_step_good (cluster_view w)); [|done].
    apply (op_step_abs (Clock0 := cluster_clock) (KubeClient0 := cluster_client)
      (ContractLoader0 := system_loader) (H5 := cluster_network)
      (RevisionLaws0 := cluster_laws) (NetworkFrame0 := cluster_network_frame)
      (ContractLoaderLaws0 := fixed_loader_laws _ _) (LoaderFrame0 := fixed_loader_frame _ _)
      (PactoLaws0 := cluster_pactos) (mkRState w tt [] [])); [done|].
    apply op_reconcile.
Qed.

(** The shared world: the cluster as it is now, and the turns still to come, of which one
    is taken before every call that writes or takes time. *)
Record shared := mkShared { sh_cluster : cluster; sh_turns : list turn }.

Definition next (w : shared) : shared :=
  match sh_turns w with
  | [] => w
  | t :: turns => mkShared (take_turn t (sh_cluster w)) turns
  end.

Definition after_turn {A} (f : cluster → A * cluster) (w : shared) : A * shared :=
  let w := next w in
  let '(a, c) := f (sh_cluster w) in (a, mkShared c (sh_turns w)).

Definition Conflict : error := mkError KOther "the object has been modified".

(** A status update with optimistic locking. *)
Definition locked_update (p : Pacto) (c : cluster) : option error * cluster :=
  match cl_pactos c !! pacto_key p with
  | Some old => if decide (same_object old p) then update_pacto p c else (Some Conflict, c)
  | None => (Some NotFound, c)
  end.

#[local] Instance shared_clock : Clock shared := λ w, cl_clock (sh_cluster w).

(** The cache of the client never returns an object of another name. *)
#[local] Instance shared_client : KubeClient shared := {|
  kube_reader w := cl_reader (sh_cluster w);
  Get_Pacto ns n w :=
    match lookup_object (cl_pactos (sh_cluster w)) ns n with
    | Ok p => if decide (pacto_key p = (ns, n)) then Ok p else Err NotFound
    | Err e => Err e
    end;
  Get_Secret ns n w := lookup_object (cl_secrets (sh_cluster w)) ns n;
  Get_Revision ns n w := lookup_object (cl_revisions (sh_cluster w)) ns n;
  List_Revisions ns labels w := List_Revisions (KubeClient := cluster_client) ns labels
                                  (sh_cluster w);
  Create_Revision r := after_turn (create r);
  Update_Revision_Status r := after_turn (update_revision r);
  Update_Pacto_Status p := after_turn (locked_update p);
  SetControllerReference p r := Ok (with_owner (p_Name p) r) |}.

#[local] Instance shared_loader : ContractLoader shared unit := {|
  cl_Load _ _ _ s := (Ret (Ok loaded), (next s.1, s.2));
  cl_ListTags _ _ s := (Ret (Ok ["1.0.0"]), (next s.1, s.2)) |}.

#[local] Instance shared_loader_laws : ContractLoaderLaws shared unit.
Proof. constructor; cbn; eauto. Qed.

#[local] Instance shared_network : Prober.HTTPTransport shared := {|
  Prober.http_NewRequest _ := None;
  Prober.http_Do _ _ w :=
    (Ok {| Prober.resp_StatusCode := 200; Prober.resp_Body := "ok" |}, next w) |}.

(** What the turns guarantee, and a reconcile relies on. *)
Definition keeps_good (v v' : view) : Prop := good v → good v'.

Lemma next_good w : keeps_good (cluster_view (sh_cluster w)) (cluster_view (sh_cluster (next w))).
Proof.
  intros Hg. unfold next. destruct (sh_turns w); [done|]. by apply take_turn_good.
Qed.

#[local] Instance shared_laws : SharedLaws shared unit keeps_good.
Proof.
  refine {| shared_view := λ w, cluster_view (sh_cluster w) |}.
  - intros ns n w p. cbn. destruct (lookup_object _ _ _); [|done]. by case_decide; intros [= ->].
  - intros o i a w l. apply next_good.
  - intros o a w l. apply next_good.
  - intros t u w. apply next_good.
  - by intros p r r' [= <-].
  - intros r w. cbn. unfold after_turn, create. pose proof (next_good w) as Hn.
    destruct (cl_revisions _ !! _) eqn:Hr; [done|].
    exists (cluster_view (sh_cluster (next w))), empty_rev_status. by split_and!.
  - intros r w. cbn. unfold after_turn, update_revision. pose proof (next_good w) as Hn.
    destruct (cl_revisions _ !! _) as [old|] eqn:Hr; [|done].
    by exists (cluster_view (sh_cluster (next w))), old.
  - intros p w. cbn. unfold after_turn, locked_update. pose proof (next_good w) as Hn.
    destruct (cl_pactos _ !! _) as [old|] eqn:Hp; [|done]. case_decide; [|done].
    unfold update_pacto. unfold pacto_key in Hp. rewrite Hp.
    by exists (cluster_view (sh_cluster (next w))), old.
Defined.

(** A reconcile during which [turns] are taken. *)
Definition start_with (turns : list turn) : RState shared unit :=
  mkRState (mkShared small_cluster turns) tt [] [].

Definition other_target : PactoSpec :=
  {| sp_ContractRef := sp_ContractRef (p_Spec example_pacto);
     sp_Target := {| tr_ServiceName := "other"; tr_WorkloadRef := None |};
     sp_Overrides := None; sp_CheckIntervalSeconds := 0 |}.

(** The user edits the Pacto while its contract is loaded: the status is refused and the
    edit stays. A second worker that serves the same Pacto meanwhile, and a clean-up of its
    revision, do no harm. *)
Example edited_meanwhile_ex :
  let '(o, s) := Reconcile "prod" "api" (start_with [Edit ("prod", "api") other_target]) in
  o = Ret (Err Conflict) ∧
  (λ p, (p_Generation p, ContractStatus (p_Status p))) <$>
    cl_pactos (sh_cluster (st_world s)) !! ("prod", "api") = Some (2, "").
Proof. vm_compute. split; reflexivity. Qed.

Definition revision_of_api : string * string :=
  ("prod", Revisions.revision_name example_pacto loaded).

Definition busy : RState shared unit :=
  start_with [Serve "prod" "api"; Forget revision_of_api].

Definition busy_end : RState shared unit := (Reconcile "prod" "api" busy).2.

(** The second worker publishes and creates the revision, the clean-up deletes it; this
    reconcile creates it again and publishes in its turn. *)
Example busy_ex :
  (λ p, ContractStatus (p_Status p)) <$>
    cl_pactos (sh_cluster (st_world busy_end)) !! ("prod", "api") =
      Some ContractStatusNonCompliant ∧
  dom (cl_revisions (sh_cluster (st_world busy_end))) = {[ revision_of_api ]}.
Proof. vm_compute. split; reflexivity. Qed.

Lemma busy_run :
  (Reconcile "prod" "api" busy).1 = Ret (Ok (Status.requeueInterval example_pacto)).
Proof. vm_compute. reflexivity. Qed.

Lemma busy_good : good (shared_view (L := unit) (st_world busy)).
Proof. apply small_good. Qed.

Lemma Reconcile_among_others_witness :
  ∃ v old p',
    rtc (meanwhile keeps_good example_pacto) (shared_view (L := unit) (st_world busy)) v ∧
    v_pactos v !! ("prod", "api") = Some old ∧ same_object old example_pacto ∧
    well_formed old p' ∧
    shared_view (L := unit) (st_world (Reconcile "prod" "api" busy).2) =
      mkView (<[("prod", "api") := p']> (v_pactos v)) (v_revisions v).
Proof.
  pose proof (Reconcile_among_others keeps_good "prod" "api" busy) as Hend.
  replace (Get_Pacto "prod" "api" (st_world busy)) with (Ok example_pacto) in Hend
    by reflexivity.
  destruct Hend as [_ Hend]. rewrite busy_run in Hend.
  destruct Hend as (v & old & p' & Hpath & Hold & Hso & Hwf & Heff & _).
  exists v, old, p'. exact (conj Hpath (conj Hold (conj Hso (conj Hwf Heff)))).
Defined.

Lemma concurrent_statuses_current_witness :
  (∀ k p, v_pactos (shared_view (L := unit) (st_world busy_end)) !! k = Some p →
     LastReconciledAt (p_Status p) ≠ None →
     ObservedGeneration (p_Status p) ≤ p_Generation p ∧
     (ObservedGeneration (p_Status p) = p_Generation p → well_formed p p)) ∧
  ∀ k r, v_revisions (shared_view (L := unit) (st_world busy_end)) !! k = Some r →
    revision_key r = k ∧ rev_Owner r = Some (rev_PactoRef (rev_Spec r)).
Proof.
  apply (concurrent_statuses_current keeps_good busy busy_end);
    [by intros v v' Ho Hg; apply Ho|apply busy_good|].
  apply rtc_once. exact (shared_reconcile keeps_good "prod" "api" busy).
Defined.
End examples.

End Interference.
