(* ===== verification/EventHandler.v ===== *)
(** * Watch events

    [internal/controller/event_handler.go] and [SetupWithManager] of
    [pacto_controller.go]: which Pactos an event on a watched object makes the manager
    reconcile. The theorems relate this to what a reconcile reads: an object nobody is
    enqueued for cannot have changed what a reconcile observes. *)

From S2P Require Import Prelude GoStrings GoMaps GoFmt Contract V1alpha1.
From S2P Require Import Conditions Observer Credentials Loader Kube Cluster Reconcile.
From stdpp Require Import options.
#[local] Set Default Proof Using "Type*".

Module EventHandler.

(** [client.Client.List] on Pactos, in one namespace. *)
Class PactoLister (W : Type) := List_Pactos : string → W → result (list Pacto).

(** The documented behaviour of the API: a list that succeeds has exactly the objects a
    read by name finds, each once, under their own keys. *)
Class PactoListerLaws (W : Type) `{!KubeClient W} `{!PactoLister W} := {
  list_keys ns w l : List_Pactos ns w = Ok l → NoDup (p_Name <$> l);
  list_namespace ns w l p : List_Pactos ns w = Ok l → p ∈ l → p_Namespace p = ns;
  list_get ns w l n p :
    List_Pactos ns w = Ok l → Get_Pacto ns n w = Ok p ↔ p ∈ l ∧ p_Name p = n
}.

(** [reconcile.Request]: namespace and name. *)
Abbreviation Request := (string * string)%type.

Definition request (p : Pacto) : Request := (p_Namespace p, p_Name p).

Section handlers.
Context {W : Type} `{!PactoLister W}.

(** [mapSecretToPactos]. *)
Definition mapSecretToPactos (objNamespace objName : string) (w : W) : list Request :=
  match List_Pactos objNamespace w with
  | Err _ => []
  | Ok items =>
      foldl (λ requests p,
          if bool_decide (PullSecretRef (sp_ContractRef (p_Spec p)) = objName)
          then requests ++ [request p] else requests)
        [] items
  end.

(** [mapObjectToPactos]. *)
Definition mapObjectToPactos (objNamespace objName : string) (w : W) : list Request :=
  match List_Pactos objNamespace w with
  | Err _ => []
  | Ok items =>
      foldl (λ requests p,
          let nn := request p in
          if bool_decide (tr_ServiceName (sp_Target (p_Spec p)) = objName)
          then requests ++ [nn]
          else
            let '(workloadName, _) := ResolvedWorkload p in
            if bool_decide (workloadName = objName)
            then requests ++ [nn] else requests)
        [] items
  end.

(** The handlers of the watches: [For] and [Owns] are the library's, the other two map
    functions are [enqueueForTarget] and [enqueueForPullSecret]. *)
Inductive handler := EnqueueObject | EnqueueOwner | enqueueForTarget | enqueueForPullSecret.

(** [SetupWithManager]: the watched kinds and their handlers. *)
Definition SetupWithManager : list (string * handler) :=
  [("Pacto", EnqueueObject); ("PactoRevision", EnqueueOwner);
   ("Service", enqueueForTarget); ("Secret", enqueueForPullSecret);
   ("Deployment", enqueueForTarget); ("StatefulSet", enqueueForTarget);
   ("ReplicaSet", enqueueForTarget); ("Job", enqueueForTarget);
   ("CronJob", enqueueForTarget)].

(** What a watch event on an object enqueues; [owner] is the name of its controller. *)
Definition handle (h : handler) (ns name : string) (owner : option string) (w : W)
    : list Request :=
  match h with
  | EnqueueObject => [(ns, name)]
  | EnqueueOwner => match owner with Some o => [(ns, o)] | None => [] end
  | enqueueForTarget => mapObjectToPactos ns name w
  | enqueueForPullSecret => mapSecretToPactos ns name w
  end.

Definition enqueued (kind ns name : string) (owner : option string) (w : W)
    : list Request :=
  mjoin ((λ '(k, h), if bool_decide (k = kind) then handle h ns name owner w else [])
           <$> SetupWithManager).
End handlers.

(** ** Specification *)

(** The Pactos an object of this name concerns, as a target and as a pull secret. *)
Definition targets (p : Pacto) (name : string) : Prop :=
  tr_ServiceName (sp_Target (p_Spec p)) = name ∨ (ResolvedWorkload p).1 = name.

Definition pulls_with (p : Pacto) (name : string) : Prop :=
  PullSecretRef (sp_ContractRef (p_Spec p)) = name.

#[export] Instance targets_dec p name : Decision (targets p name).
Proof. unfold targets. apply _. Defined.
#[export] Instance pulls_with_dec p name : Decision (pulls_with p name).
Proof. unfold pulls_with. apply _. Defined.

(** The kinds whose events concern the Pactos that target the object. *)
Definition target_kinds : list string :=
  ["Service"; "Deployment"; "StatefulSet"; "ReplicaSet"; "Job"; "CronJob"].

Section proofs.
Context {W : Type} `{!KubeClient W} `{!PactoLister W} `{!PactoListerLaws W}.

(** Both loops are filters. *)
Lemma collect_filter (P : Pacto → Prop) `{!∀ p, Decision (P p)} step items acc :
  (∀ acc p, step acc p = if decide (P p) then acc ++ [request p] else acc) →
  foldl step acc items = acc ++ (request <$> filter P items).
Proof.
  intros Hstep. revert acc.
  induction items as [|p items IH]; intros acc; cbn [foldl]; [by rewrite app_nil_r|].
  rewrite IH, Hstep, filter_cons. destruct (decide (P p)); [|done].
  by rewrite <- app_assoc.
Qed.

Lemma mapObjectToPactos_filter ns name (w : W) items :
  List_Pactos ns w = Ok items →
  mapObjectToPactos ns name w = request <$> filter (λ p, targets p name) items.
Proof.
  intros Hl. unfold mapObjectToPactos. rewrite Hl.
  etrans; [apply (collect_filter (λ p, targets p name))|done]. intros acc p. cbn.
  destruct (decide (targets p name)) as [Ht|Ht]; unfold targets in Ht;
    destruct (ResolvedWorkload p) as [wl kind]; cbn in Ht; repeat case_bool_decide; tauto.
Qed.

Lemma mapSecretToPactos_filter ns name (w : W) items :
  List_Pactos ns w = Ok items →
  mapSecretToPactos ns name w = request <$> filter (λ p, pulls_with p name) items.
Proof.
  intros Hl. unfold mapSecretToPactos. rewrite Hl.
  etrans; [apply (collect_filter (λ p, pulls_with p name))|done]. intros acc p.
  unfold pulls_with.
  by case_bool_decide; destruct (decide _).
Qed.

(** What a filter on the listed Pactos enqueues. *)
Lemma requests_spec (P : Pacto → Prop) `{!∀ p, Decision (P p)} ns (w : W) items :
  List_Pactos ns w = Ok items →
  NoDup (request <$> filter P items) ∧
  ∀ r, r ∈ request <$> filter P items ↔
    r.1 = ns ∧ ∃ p, Get_Pacto ns r.2 w = Ok p ∧ P p.
Proof.
  intros Hl. split.
  - apply (NoDup_fmap_1 snd). rewrite <- list_fmap_compose.
    eapply sublist_NoDup; [apply (list_keys ns w items Hl)|].
    apply (fmap_sublist p_Name), sublist_filter.
  - intros [rns rn]. cbn. rewrite list_elem_of_fmap.
    setoid_rewrite list_elem_of_filter. setoid_rewrite (list_get ns w items _ _ Hl). split.
    + intros (p & [= -> ->] & HP & Hp).
      split; [by apply (list_namespace ns w items)|]. by exists p.
    + intros [-> (p & [Hp <-] & HP)]. exists p. split; [|done].
      unfold request. by rewrite (list_namespace ns w items p Hl Hp).
Qed.

Lemma enqueued_target kind ns name owner (w : W) :
  kind ∈ target_kinds → enqueued kind ns name owner w = mapObjectToPactos ns name w.
Proof.
  unfold target_kinds. rewrite !elem_of_cons, elem_of_nil. intros Hk.
  destruct_or?; subst; try done; unfold enqueued; cbn; by rewrite ?app_nil_r.
Qed.

Lemma enqueued_pacto ns name owner (w : W) : enqueued "Pacto" ns name owner w = [(ns, name)].
Proof. reflexivity. Qed.

Lemma enqueued_secret ns name owner (w : W) :
  enqueued "Secret" ns name owner w = mapSecretToPactos ns name w.
Proof. unfold enqueued. cbn. by rewrite app_nil_r. Qed.

(** C32 (functional). An event on a Service or a workload enqueues each existing Pacto of its
    namespace that names it as its service or as its resolved workload, once, and no other;
    an event on a Secret those whose pull secret it is. The kind of the workload is not
    compared. When the Pactos cannot be listed nothing is enqueued, so the event is lost
    until the periodic requeue. *)
Theorem events_enqueue_exactly kind ns name owner (w : W) :
  kind ∈ target_kinds ∨ kind = "Secret" →
  let concerns p := if decide (kind = "Secret") then pulls_with p name else targets p name in
  match List_Pactos ns w with
  | Err _ => enqueued kind ns name owner w = []
  | Ok _ =>
      NoDup (enqueued kind ns name owner w) ∧
      ∀ r, r ∈ enqueued kind ns name owner w ↔
        r.1 = ns ∧ ∃ p, Get_Pacto ns r.2 w = Ok p ∧ concerns p
  end.
Proof.
  intros Hkind. cbv zeta. destruct (decide (kind = "Secret")) as [->|Hne].
  - rewrite enqueued_secret. destruct (List_Pactos ns w) as [items|e] eqn:Hl.
    + rewrite (mapSecretToPactos_filter ns name w items Hl). by apply requests_spec.
    + unfold mapSecretToPactos. by rewrite Hl.
  - destruct Hkind as [Hk|?]; [|done]. rewrite enqueued_target by done.
    destruct (List_Pactos ns w) as [items|e] eqn:Hl.
    + rewrite (mapObjectToPactos_filter ns name w items Hl). by apply requests_spec.
    + unfold mapObjectToPactos. by rewrite Hl.
Qed.

(** Two states of the cluster show the same object of a watched kind under a name. *)
Definition agree (kind ns name : string) (w w' : W) : Prop :=
  let o := kube_reader w in let o' := kube_reader w' in
  (kind = "Service" → Observer.GetService o ns name = Observer.GetService o' ns name) ∧
  (kind = "Deployment" → Observer.GetDeployment o ns name = Observer.GetDeployment o' ns name) ∧
  (kind = "StatefulSet" →
     Observer.GetStatefulSet o ns name = Observer.GetStatefulSet o' ns name) ∧
  (kind = "ReplicaSet" → Observer.GetReplicaSet o ns name = Observer.GetReplicaSet o' ns name) ∧
  (kind = "Job" → Observer.GetJob o ns name = Observer.GetJob o' ns name) ∧
  (kind = "CronJob" → Observer.GetCronJob o ns name = Observer.GetCronJob o' ns name) ∧
  (kind = "Secret" → Get_Secret ns name w = Get_Secret ns name w').

(** Objects that [p] targets, or pulls with, do enqueue it. *)
Lemma target_enqueued p kind name (w : W) items :
  Get_Pacto (p_Namespace p) (p_Name p) w = Ok p →
  List_Pactos (p_Namespace p) w = Ok items →
  kind ∈ target_kinds → targets p name →
  request p ∈ enqueued kind (p_Namespace p) name None w.
Proof.
  intros Hget Hl Hk Ht. rewrite enqueued_target by done.
  rewrite (mapObjectToPactos_filter _ _ _ _ Hl).
  apply (requests_spec (λ p, targets p name) _ _ _ Hl). split; [done|]. by exists p.
Qed.

Lemma secret_enqueued p (w : W) items :
  Get_Pacto (p_Namespace p) (p_Name p) w = Ok p →
  List_Pactos (p_Namespace p) w = Ok items →
  request p ∈ enqueued "Secret" (p_Namespace p) (PullSecretRef (sp_ContractRef (p_Spec p)))
                None w.
Proof.
  intros Hget Hl. rewrite enqueued_secret, (mapSecretToPactos_filter _ _ _ _ Hl).
  apply (requests_spec (λ q, pulls_with q (PullSecretRef (sp_ContractRef (p_Spec p)))) _ _ _ Hl).
  split; [done|]. by exists p.
Qed.

(** What the observer sees depends only on the target Service and the target workload. *)
Lemma Observe_reads ns svc wl kind (w w' : W) :
  (∀ k, k ∈ target_kinds → agree k ns svc w w') →
  (∀ k, k ∈ target_kinds → agree k ns wl w w') →
  Observer.Observe (kube_reader w) ns svc wl kind =
  Observer.Observe (kube_reader w') ns svc wl kind.
Proof.
  intros Hsvc Hwl. unfold target_kinds in *.
  assert (∀ k, k ∈ target_kinds → ∀ name, name = svc ∨ name = wl → agree k ns name w w')
    as Hag by (intros k Hk name [-> | ->]; auto).
  clear Hsvc Hwl. unfold target_kinds in Hag.
  destruct (Hag "Service" ltac:(set_solver) svc ltac:(by left)) as (Hs & _).
  destruct (Hag "Deployment" ltac:(set_solver) wl ltac:(by right)) as (_ & Hd & _).
  destruct (Hag "StatefulSet" ltac:(set_solver) wl ltac:(by right)) as (_ & _ & Hss & _).
  destruct (Hag "ReplicaSet" ltac:(set_solver) wl ltac:(by right)) as (_ & _ & _ & Hr & _).
  destruct (Hag "Job" ltac:(set_solver) wl ltac:(by right)) as (_ & _ & _ & _ & Hj & _).
  destruct (Hag "CronJob" ltac:(set_solver) wl ltac:(by right)) as (_ & _ & _ & _ & _ & Hc & _).
  unfold Observer.Observe, Observer.observeWorkload, Observer.observeDeployment,
    Observer.observeStatefulSet, Observer.observeReplicaSet, Observer.observeJob,
    Observer.observeCronJob.
  by rewrite Hs, Hd, Hss, Hr, Hj, Hc by done.
Qed.

(** What a reconcile of [p] reads of watched objects: what the observer reports, and the
    pull secret. *)
Definition inputs_of (p : Pacto) (w : W) :
    result Observer.RuntimeSnapshot * result Credentials.Secret :=
  (Observer.Observe (kube_reader w) (p_Namespace p) (tr_ServiceName (sp_Target (p_Spec p)))
     (ResolvedWorkload p).1 (ResolvedWorkload p).2,
   Get_Secret (p_Namespace p) (PullSecretRef (sp_ContractRef (p_Spec p))) w).

Lemma inputs_watched p items (w w' : W) :
  Get_Pacto (p_Namespace p) (p_Name p) w = Ok p →
  List_Pactos (p_Namespace p) w = Ok items →
  (∀ kind name, request p ∈ enqueued kind (p_Namespace p) name None w →
     kind ∈ target_kinds ∨ kind = "Secret" → agree kind (p_Namespace p) name w w') →
  inputs_of p w = inputs_of p w'.
Proof.
  intros Hget Hl Hag. unfold inputs_of. f_equal.
  - apply Observe_reads; intros k Hk; (apply Hag; [|by left]);
      apply (target_enqueued p k _ w items); try done; [by left|by right].
  - destruct (Hag _ _ (secret_enqueued p w items Hget Hl)) as (_ & _ & _ & _ & _ & _ & Hs);
      [by right|by apply Hs].
Qed.

(** C23 (safety). The watches cover what a reconcile reads: if the cluster changed only in
    objects whose events do not enqueue a Pacto, its reconcile observes the same runtime
    state and finds the same pull secret as before. Hence every change that can alter the
    verdict of an existing Pacto, other than at the registry or the endpoints, is followed
    by a reconcile of it (as long as the Pactos can be listed). *)
Theorem events_cover_reads p items (w w' : W) :
  Get_Pacto (p_Namespace p) (p_Name p) w = Ok p →
  List_Pactos (p_Namespace p) w = Ok items →
  (∀ kind name, request p ∈ enqueued kind (p_Namespace p) name None w →
     agree kind (p_Namespace p) name w w') →
  Observer.Observe (kube_reader w) (p_Namespace p) (tr_ServiceName (sp_Target (p_Spec p)))
    (ResolvedWorkload p).1 (ResolvedWorkload p).2 =
  Observer.Observe (kube_reader w') (p_Namespace p) (tr_ServiceName (sp_Target (p_Spec p)))
    (ResolvedWorkload p).1 (ResolvedWorkload p).2 ∧
  Get_Secret (p_Namespace p) (PullSecretRef (sp_ContractRef (p_Spec p))) w =
  Get_Secret (p_Namespace p) (PullSecretRef (sp_ContractRef (p_Spec p))) w'.
Proof.
  intros Hget Hl Hag.
  assert (inputs_of p w = inputs_of p w') as Hin by (apply (inputs_watched p items); auto).
  unfold inputs_of in Hin. by injection Hin.
Qed.
End proofs.

(** *** Witnesses on the in-memory cluster *)

Section examples.
Import Cluster.
#[local] Existing Instance cluster_client.

(** The Pactos of one namespace, of a cluster that stores each under its own key. *)
Definition cluster_lister : PactoLister cluster := λ ns w,
  if decide (map_Forall (λ k p, k = request p) (cl_pactos w))
  then Ok (filter (λ p, p_Namespace p = ns) (map_to_list (cl_pactos w)).*2)
  else Err (Errorf "inconsistent cluster").

Lemma elem_of_stored (m : gmap (string * string) Pacto) p :
  map_Forall (λ k p, k = request p) m →
  p ∈ (map_to_list m).*2 ↔ m !! request p = Some p.
Proof.
  intros Hwf. rewrite list_elem_of_fmap. split.
  - intros ([k q] & -> & Hq%elem_of_map_to_list). cbn. by rewrite <- (Hwf _ _ Hq).
  - intros Hp. exists (request p, p). split; [done|]. by apply elem_of_map_to_list.
Qed.

Lemma NoDup_stored (m : gmap (string * string) Pacto) :
  map_Forall (λ k p, k = request p) m → NoDup (request <$> (map_to_list m).*2).
Proof.
  intros Hwf. rewrite <- list_fmap_compose.
  rewrite (list_fmap_ext _ fst); [apply NoDup_fst_map_to_list|].
  intros i [k p] Hi%list_elem_of_lookup_2. cbn. symmetry. apply Hwf.
  by apply elem_of_map_to_list in Hi.
Qed.

Lemma cluster_lister_laws : @PactoListerLaws cluster cluster_client cluster_lister.
Proof.
  assert (∀ ns w l, cluster_lister ns w = Ok l →
    map_Forall (λ k p, k = request p) (cl_pactos w) ∧
    l = filter (λ p, p_Namespace p = ns) (map_to_list (cl_pactos w)).*2) as Hinv.
  { intros ns w l. unfold cluster_lister. case_decide; [|done]. by intros [= <-]. }
  constructor.
  - intros ns w l [Hwf ->]%Hinv.
    pose proof (NoDup_stored _ Hwf) as Hnd. revert Hnd.
    generalize ((map_to_list (cl_pactos w)).*2). intros ps.
    induction ps as [|p ps IH]; [intros; apply NoDup_nil_2|]. intros Hnd.
    rewrite fmap_cons in Hnd. apply NoDup_cons in Hnd as [Hp Hnd].
    rewrite filter_cons. case_decide as Hns; [|by apply IH].
    rewrite fmap_cons. apply NoDup_cons. split; [|by apply IH].
    intros (q & Hq & [Hqns Hin]%list_elem_of_filter)%list_elem_of_fmap. apply Hp.
    apply list_elem_of_fmap. exists q. split; [|done]. unfold request. congruence.
  - intros ns w l p [_ ->]%Hinv [Hns _]%list_elem_of_filter. done.
  - intros ns w l n p [Hwf ->]%Hinv. cbn. unfold lookup_object.
    rewrite list_elem_of_filter, (elem_of_stored _ _ Hwf). split.
    + destruct (_ !! _) as [q|] eqn:Hq; [|done]. intros [= ->].
      pose proof (Hwf _ _ Hq) as Hk. unfold request in *. injection Hk as -> ->. done.
    + intros [[Hns Hp] Hn]. unfold request in Hp. rewrite Hns, Hn in Hp. by rewrite Hp.
Qed.

Definition api_pod : Observer.PodSpec := {|
  Observer.pod_TerminationGracePeriodSeconds := None;
  Observer.pod_Containers := []; Observer.pod_Volumes := [] |}.

(** The cluster after an unrelated Deployment appeared. *)
Definition changed_reader : Observer.KubeReader := {|
  Observer.GetService _ _ := Err NotFound;
  Observer.GetDeployment ns name :=
    if bool_decide (name = "other")
    then Ok {| Observer.d_StrategyType := ""; Observer.d_PodSpec := api_pod |}
    else Err NotFound;
  Observer.GetStatefulSet _ _ := Err NotFound;
  Observer.GetReplicaSet _ _ := Err NotFound;
  Observer.GetJob _ _ := Err NotFound;
  Observer.GetCronJob _ _ := Err NotFound |}.

Definition changed_cluster : cluster :=
  mkCluster 8 ∅ (cl_pactos small_cluster) ∅ changed_reader.

Lemma events_enqueue_exactly_witness :
  NoDup (@enqueued cluster cluster_lister "Deployment" "prod" "api" None small_cluster) ∧
  ∀ r, r ∈ @enqueued cluster cluster_lister "Deployment" "prod" "api" None small_cluster ↔
    r.1 = "prod" ∧
    ∃ p, Get_Pacto (KubeClient := cluster_client) "prod" r.2 small_cluster = Ok p ∧
      targets p "api".
Proof.
  apply (@events_enqueue_exactly cluster cluster_client cluster_lister cluster_lister_laws
    "Deployment" "prod" "api" None small_cluster).
  left. apply (bool_decide_unpack _). reflexivity.
Defined.

Lemma other_enqueues_nothing :
  request example_pacto ∉ @enqueued cluster cluster_lister "Deployment"
    (p_Namespace example_pacto) "other" None small_cluster.
Proof.
  assert (@enqueued cluster cluster_lister "Deployment" (p_Namespace example_pacto) "other"
    None small_cluster = []) as -> by (vm_compute; reflexivity).
  apply not_elem_of_nil.
Qed.

Lemma events_cover_reads_witness :
  Observer.Observe empty_reader "prod" "api" "api" "Deployment" =
  Observer.Observe changed_reader "prod" "api" "api" "Deployment" ∧
  Get_Secret (KubeClient := cluster_client) "prod" "" small_cluster =
  Get_Secret (KubeClient := cluster_client) "prod" "" changed_cluster.
Proof.
  apply (@events_cover_reads cluster cluster_client cluster_lister cluster_lister_laws
    example_pacto [example_pacto] small_cluster changed_cluster).
  - reflexivity.
  - reflexivity.
  - intros kind name Hin. unfold agree. cbn. split_and!; try reflexivity.
    intros ->. case_bool_decide; [|reflexivity]. subst.
    by apply other_enqueues_nothing in Hin.
Defined.
End examples.

End EventHandler.
