(* ===== verification/Queue.v ===== *)
(** * The work queue

    The reconciler with its queue and its watches, composed: requests are handled one at a
    time, changes of the cluster, by others or by the reconciler itself, are announced
    through the watches of [SetupWithManager], and failed requests are retried. The only
    changes of what a reconcile reads from the cluster that are lost are those announced
    while the Pactos cannot be listed; the model says which Pactos missed one. *)

From S2P Require Import Prelude GoStrings GoMaps GoFmt Contract V1alpha1 Conditions.
From S2P Require Import Observer Images Validator Credentials Prober Metrics Loader.
From S2P Require Import Overrides Kube Cluster Readiness Status Verdict Revisions Reconcile.
From S2P Require Import System EventHandler.
From stdpp Require Import options.
#[local] Set Default Proof Using "Type*".

Module Queue.
Import Reconcile System EventHandler.

(** The calls of the reconciler change neither Services, workloads nor Secrets, and the clock
    does not run backwards during them. *)
Class WatchLaws (W L : Type) `{!Clock W} `{!KubeClient W} `{!ContractLoader W L}
    `{!Prober.HTTPTransport W} := {
  inputs_quiet o g :
    quiet L (λ w, kube_reader w = o ∧ ∀ ns n, Get_Secret ns n w = g ns n);
  inputs_write p w :
    kube_reader (Update_Pacto_Status p w).2 = kube_reader w ∧
    ∀ ns n, Get_Secret ns n (Update_Pacto_Status p w).2 = Get_Secret ns n w;
  clock_quiet t : quiet L (λ w, t ≤ now w)
}.

(** Whether the manager retries a request: [ctrl.Result] without an error is final, an error
    or a recovered panic is not. *)
Definition retried (o : outcome (result Z)) : bool :=
  match o with Ret (Ok _) => false | _ => true end.

Abbreviation inputs := (result Observer.RuntimeSnapshot * result Credentials.Secret)%type.

Section queue.
Context `{UnicodeTables} `{PactoLib} `{GoMaps} `{ConditionStoreLaws}
  `{Credentials.DockerConfigCodec}.
Context {W L : Type} `{!Clock W} `{!KubeClient W} `{!ContractLoader W L}
  `{!Prober.HTTPTransport W} `{!RevisionLaws W} `{!NetworkFrame W}
  `{!ContractLoaderLaws W L} `{!LoaderFrame W L} `{!PactoLaws W L}
  `{!PactoLister W} `{!PactoListerLaws W} `{!WatchLaws W L}.
Implicit Types (w : W) (s : RState W L) (Q : gset Request).

(** A running manager: the reconciler, the requests that are queued, delayed or to be
    retried, and, kept for the statements only, what the last handled request of each Pacto
    found in the cluster and the Pactos that have missed a change since. *)
Record QState := mkQState {
  q_run : RState W L; q_pending : gset Request; q_seen : gmap Request inputs;
  q_missed : gset Request }.

(** The watches turn a change of the world into requests: every watched object that
    changed, and every Pacto that was created, edited or had its status written, adds what
    its handler enqueues. (The informers' resyncs and the periodic requeues may add more.) *)
Record notified w w' Q Q' : Prop := {
  nt_queue : Q ⊆ Q';
  nt_objects kind ns name : kind ∈ target_kinds ∨ kind = "Secret" →
    agree kind ns name w' w ∨
    ∀ r, r ∈ enqueued kind ns name None w' → r ∈ Q';
  nt_pactos ns name :
    pactos (W := W) (L := L) w' !! (ns, name) = pactos (W := W) (L := L) w !! (ns, name) ∨
    ∀ r, r ∈ enqueued "Pacto" ns name None w' → r ∈ Q' }.

(** The client answers for this Pacto: its namespace can be listed, and it is found. *)
Definition served (k : Request) (p : Pacto) w : Prop :=
  is_ok (List_Pactos k.1 w) = true ∧ Get_Pacto k.1 k.2 w = Ok p.

(** [M'] adds to [M] exactly the Pactos that miss a change of what they read: the map
    functions drop an event when they cannot list. *)
Record missing w w' (M M' : gset Request) : Prop := {
  ms_old : M ⊆ M';
  ms_new k p : pactos (W := W) (L := L) w' !! k = Some p →
    served k p w' ∨ inputs_of p w' = inputs_of p w ∨ k ∈ M';
  ms_only k : k ∈ M' → k ∈ M ∨ ∃ p, pactos (W := W) (L := L) w' !! k = Some p ∧
    ¬ served k p w' ∧ inputs_of p w' ≠ inputs_of p w }.

Definition saw (ns n : string) w (S : gmap Request inputs) : gmap Request inputs :=
  match Get_Pacto ns n w with Ok p => <[(ns, n) := inputs_of p w]> S | Err _ => S end.

(** A successful request has looked at the cluster. *)
Definition caught_up (ns n : string) (o : outcome (result Z)) (M : gset Request)
    : gset Request := if retried o then M else M ∖ {[(ns, n)]}.

Inductive queue_step : QState → QState → Prop :=
| q_handle (ns n : string) s s' o Q Q' S M :
    (ns, n) ∈ Q → Reconcile ns n s = (o, s') →
    notified (st_world s) (st_world s') (if retried o then Q else Q ∖ {[(ns, n)]}) Q' →
    queue_step (mkQState s Q S M)
      (mkQState s' Q' (saw ns n (st_world s) S) (caught_up ns n o M))
| q_change s s' Q Q' S M M' :
    rely (view_of (L := L) (st_world s)) (view_of (L := L) (st_world s')) →
    notified (st_world s) (st_world s') Q Q' → missing (st_world s) (st_world s') M M' →
    queue_step (mkQState s Q S M) (mkQState s' Q' S M').

(** A stored Pacto is waiting to be reconciled, has missed a change, or its status is well
    formed for its present spec and was written after looking at the present cluster. *)
Definition tracked (q : QState) : Prop :=
  keyed (view_of (L := L) (st_world (q_run q))) ∧
  ∀ k p, pactos (W := W) (L := L) (st_world (q_run q)) !! k = Some p →
    k ∈ q_pending q ∨
    well_formed p p ∧
      (k ∈ q_missed q ∨ q_seen q !! k = Some (inputs_of p (st_world (q_run q)))).

(** ** Proofs *)

Lemma quiet_and (F G : W → Prop) : quiet L F → quiet L G → quiet L (λ w, F w ∧ G w).
Proof.
  intros HF HG. constructor.
  - intros r w [? ?]. split; [by apply (quiet_create F HF)|by apply (quiet_create G HG)].
  - intros r w [? ?]. split; [by apply (quiet_update F HF)|by apply (quiet_update G HG)].
  - intros o i a w l [? ?]. split; [by apply (quiet_load F HF)|by apply (quiet_load G HG)].
  - intros o a w l [? ?]. split; [by apply (quiet_tags F HF)|by apply (quiet_tags G HG)].
  - intros t u w [? ?]. split; [by apply (quiet_http F HF)|by apply (quiet_http G HG)].
Qed.

Lemma Reconcile_inputs ns n s p :
  inputs_of p (st_world (Reconcile ns n s).2) = inputs_of p (st_world s).
Proof.
  destruct (Get_Pacto ns n (st_world s)) as [p0|e] eqn:Hget;
    [|by rewrite (Reconcile_missing ns n e s Hget)].
  set (F w := kube_reader w = kube_reader (st_world s) ∧
    ∀ ns n, Get_Secret ns n w = Get_Secret ns n (st_world s)).
  assert (F (st_world (Reconcile ns n s).2)) as [Hr Hs].
  { destruct (Reconcile_ends F (inputs_quiet _ _) ns n p0 s Hget ltac:(by split))
      as [(_ & msg & s' & -> & _ & HF)|(p' & w & e & r & s' & -> & _ & [HF _] & _ & Hup & _)];
      [done|]. cbn. destruct (inputs_write p' w) as [Hr Hs]. rewrite Hup in Hr, Hs. cbn in *.
    destruct HF as [Hr0 Hs0]. split; [congruence|]. intros ns' n'. by rewrite Hs. }
  unfold inputs_of. by rewrite Hr, Hs.
Qed.

Lemma handled_tracked ns n s s' o Q Q' S M :
  (ns, n) ∈ Q → Reconcile ns n s = (o, s') →
  (if retried o then Q else Q ∖ {[(ns, n)]}) ⊆ Q' →
  tracked (mkQState s Q S M) →
  tracked (mkQState s' Q' (saw ns n (st_world s) S) (caught_up ns n o M)).
Proof.
  intros Hin Hrun HQ [Hkeys Htr].
  unfold tracked in *. cbn [q_run q_pending q_seen q_missed] in *.
  assert (s' = (Reconcile ns n s).2) as Es' by by rewrite Hrun.
  split; [rewrite Es'; by apply Reconcile_keyed|].
  assert (∀ p, inputs_of p (st_world s') = inputs_of p (st_world s)) as Hinp
    by (intros p; rewrite Es'; apply Reconcile_inputs).
  assert (∀ k p, k ≠ (ns, n) → pactos (L := L) (st_world s) !! k = Some p →
    k ∈ Q' ∨ well_formed p p ∧ (k ∈ caught_up ns n o M ∨
      saw ns n (st_world s) S !! k = Some (inputs_of p (st_world s')))) as Hother.
  { intros k p Hk Hp. destruct (Htr k p Hp) as [Hq|[Hwf [Hm|Hseen]]].
    - left. apply HQ. destruct (retried o); set_solver.
    - right. split; [done|left]. unfold caught_up. destruct (retried o); set_solver.
    - right. split; [done|right]. rewrite Hinp, <- Hseen. unfold saw.
      destruct (Get_Pacto ns n (st_world s)); [|done]. by rewrite lookup_insert_ne. }
  assert (retried o = true → (ns, n) ∈ Q') as Hretry by (intros Hr; rewrite Hr in HQ; auto).
  clear Es'. destruct (Reconcile_cases ns n s Hkeys) as (o1 & s1 & Hrun1 & Hcases).
  rewrite Hrun in Hrun1. injection Hrun1 as <- <-.
  intros k p Hp. destruct (decide (k = (ns, n))) as [->|Hk].
  - destruct Hcases as [(p1 & Hget & _ & Ho)|(e & Hget & -> & ->)].
    + destruct o as [[d|e]|msg]; [|by left; apply Hretry..]. right.
      destruct Ho as (p' & Hwf & Heq & _). rewrite Heq, lookup_insert_eq in Hp.
      injection Hp as <-. pose proof (wf_object _ _ Hwf) as Hso. split.
      * by apply (well_formed_same p1); [symmetry|].
      * right. unfold saw. rewrite Hget, lookup_insert_eq, Hinp. f_equal.
        destruct Hso as (Hn & Hns & _ & Hsp). unfold inputs_of, ResolvedWorkload.
        by rewrite Hns, Hsp.
    + destruct (IsNotFound e) eqn:Hnf; [|left; by apply Hretry].
      by rewrite (pacto_missing ns n _ e Hget Hnf) in Hp.
  - apply (Hother k p Hk).
    destruct Hcases as [(p1 & Hget & _ & Ho)|(e & _ & -> & _)]; [|done].
    destruct o as [[d|e]|msg].
    + destruct Ho as (p' & _ & Heq & _). by rewrite Heq, lookup_insert_ne in Hp.
    + by rewrite Ho in Hp.
    + destruct Ho as [Ho _]. by rewrite Ho in Hp.
Qed.

(** A change the client answers for does not alter the inputs of a Pacto unnoticed. *)
Lemma inputs_noticed w w' Q Q' ns n p :
  keyed (view_of (L := L) w') → notified w w' Q Q' →
  pactos (W := W) (L := L) w' !! (ns, n) = Some p → served (ns, n) p w' → (ns, n) ∉ Q' →
  inputs_of p w' = inputs_of p w.
Proof.
  intros Hkeys [_ Hobj _] Hp [Hlist Hget] Hno. cbn [fst snd] in *.
  pose proof (Hkeys _ _ Hp) as Hkey. injection Hkey as Hns Hn.
  destruct (List_Pactos ns w') as [items|] eqn:Hitems; [|done].
  apply (inputs_watched p items); rewrite Hns; [by rewrite Hn|done|].
  intros kind name Hin Hkind. destruct (Hobj kind ns name Hkind) as [?|Henq]; [done|].
  destruct Hno. specialize (Henq _ Hin). unfold request in Henq. by rewrite Hns, Hn in Henq.
Qed.

Lemma changed_tracked s s' Q Q' S M M' :
  rely (view_of (L := L) (st_world s)) (view_of (L := L) (st_world s')) →
  notified (st_world s) (st_world s') Q Q' → missing (st_world s) (st_world s') M M' →
  tracked (mkQState s Q S M) → tracked (mkQState s' Q' S M').
Proof.
  intros Hrely Hnot [Hold Hnew _] [Hkeys Htr]. pose proof Hnot as [HQ _ Hpac].
  unfold tracked in *. cbn [q_run q_pending q_seen q_missed] in *.
  assert (keyed (view_of (L := L) (st_world s'))) as Hkeys'
    by (intros k p Hp; by destruct (rely_pactos _ _ Hrely k p Hp)).
  split; [done|]. intros [ns n] p Hp. destruct (decide ((ns, n) ∈ Q')) as [?|Hno]; [by left|].
  right. destruct (Hpac ns n) as [Heq|Henq].
  2:{ destruct Hno. apply Henq. rewrite enqueued_pacto. by left. }
  rewrite Hp in Heq. destruct (Htr (ns, n) p (eq_sym Heq)) as [?|[Hwf Hseen]].
  { destruct Hno. by apply HQ. }
  split; [done|]. destruct Hseen as [Hm|Hseen]; [left; by apply Hold|].
  destruct (Hnew (ns, n) p Hp) as [Hserved|[Hsame|Hm]]; [right|right|by left].
  - rewrite Hseen. f_equal. symmetry. by apply (inputs_noticed _ _ Q Q' ns n).
  - by rewrite Hsame.
Qed.

Lemma queue_steps_tracked q q' : rtc queue_step q q' → tracked q → tracked q'.
Proof.
  induction 1 as [q|q q1 q2 Hstep _ IH]; [done|]. intros Htr. apply IH.
  destruct Hstep as [ns n s s' o Q Q' S M Hin Hrun Hnt|s s' Q Q' S M M' Hrely Hnt Hms].
  - by apply (handled_tracked ns n s s' o Q); [..|apply Hnt|].
  - by apply (changed_tracked s s' Q Q' S M).
Qed.

(** The step at which [k] missed a change: the client did not answer for it. *)
Definition missed_at (k : Request) q1 q2 : Prop :=
  queue_step q1 q2 ∧ ∃ p, pactos (W := W) (L := L) (st_world (q_run q2)) !! k = Some p ∧
    ¬ served k p (st_world (q_run q2)) ∧
    inputs_of p (st_world (q_run q2)) ≠ inputs_of p (st_world (q_run q1)).

(** A step that does not make up for it: no request of [k] succeeds. *)
Definition still_missing (k : Request) q1 q2 : Prop := queue_step q1 q2 ∧ k ∈ q_missed q2.

Lemma missed_somewhere k q q' :
  rtc queue_step q q' → k ∈ q_missed q' → k ∈ q_missed q ∨
    ∃ q1 q2, rtc queue_step q q1 ∧ missed_at k q1 q2 ∧ rtc (still_missing k) q2 q'.
Proof.
  intros Hsteps. revert q' Hsteps. refine (rtc_ind_r _ q _ _); [by left|].
  intros q1 q2 Hsteps Hstep IH Hk.
  assert (k ∈ q_missed q1 ∨ missed_at k q1 q2) as [Hk1|Hmiss].
  { pose proof Hstep as Hcase.
    destruct Hcase as [ns n s s' o Q Q' S M _ _ _|s s' Q Q' S M M' _ _ Hms];
      cbn [q_missed] in *.
    - left. unfold caught_up in Hk. destruct (retried o); set_solver.
    - destruct (ms_only _ _ _ _ Hms k Hk) as [?|(p & Hp & Hno & Hne)]; [by left|right].
      split; [done|]. by exists p. }
  - destruct (IH Hk1) as [?|(q3 & q4 & Hto & Hmiss & Hfrom)]; [by left|right].
    exists q3, q4. split_and!; [done..|]. by eapply rtc_r.
  - right. exists q1, q2. split_and!; [done..|]. apply rtc_refl.
Qed.

(** C6 (invariant). Which changes can be lost, and that no others are: from a start with
    every Pacto queued, through any sequence of requests, handled in any order, failing or
    panicking, and of changes by others, a stored Pacto is always either waiting to be
    reconciled or has a status that is well formed for its present spec; and that status was
    computed from the present state of its Service, its workload and its pull secret,
    unless at some step one of these changed while the Pactos of its namespace could not be
    listed or the Pacto could not be read (the handlers of the watches drop that event), and
    no request of the Pacto has succeeded since. *)
Theorem no_change_lost q q' :
  keyed (view_of (L := L) (st_world (q_run q))) →
  (∀ k p, pactos (W := W) (L := L) (st_world (q_run q)) !! k = Some p → k ∈ q_pending q) →
  q_missed q = ∅ → rtc queue_step q q' →
  ∀ k p, pactos (W := W) (L := L) (st_world (q_run q')) !! k = Some p →
    k ∈ q_pending q' ∨
    well_formed p p ∧
      (q_seen q' !! k = Some (inputs_of p (st_world (q_run q'))) ∨
       ∃ q1 q2, rtc queue_step q q1 ∧ missed_at k q1 q2 ∧ rtc (still_missing k) q2 q').
Proof.
  intros Hkeys Hall Hnone Hsteps k p Hp.
  assert (tracked q) as Htr by (split; [done|]; intros k' p' Hp'; left; by eapply Hall).
  destruct (queue_steps_tracked q q' Hsteps Htr) as [_ Htr'].
  destruct (Htr' k p Hp) as [?|[Hwf [Hm|?]]]; [by left|right..]; (split; [done|]); [|by left].
  destruct (missed_somewhere k q q' Hsteps Hm) as [Hk|?]; [|by right].
  rewrite Hnone in Hk. set_solver.
Qed.

(** Times are stored to the second. *)
Definition seconds (t : Z) : Z := t `div` 1000000000.

(** C21 (liveness). The watch on the Pactos has no predicate and every status carries the time
    of its write: a successful reconcile in a later second than the last one makes the same
    Pacto pending again at once, whatever its check interval. *)
Theorem reconcile_requeues_itself ns n p s d s' Q Q' :
  keyed (view_of (L := L) (st_world s)) →
  Get_Pacto ns n (st_world s) = Ok p → Reconcile ns n s = (Ret (Ok d), s') →
  (∀ t, LastReconciledAt (p_Status p) = Some t → seconds t < seconds (now (st_world s))) →
  notified (st_world s) (st_world s') Q Q' →
  d = Status.requeueInterval p ∧ (ns, n) ∈ Q'.
Proof.
  intros Hkeys Hget Hrun Hlate [_ _ Hpac].
  pose proof (pacto_found _ _ _ _ Hget) as Hp.
  set (F w := pactos (L := L) w = pactos (L := L) (st_world s) ∧ now (st_world s) ≤ now w).
  destruct (Reconcile_ends F (quiet_and _ _ (pactos_quiet _) (clock_quiet _)) ns n p s Hget
    ltac:(by split)) as [(_ & msg & s1 & E & _)|
      (p' & w & e & r & s1 & E & _ & [[HP Hnow] Hat] & Hwf & Hup & He)];
    rewrite Hrun in E; [done|]. injection E as <- <-.
  destruct e as [err|]; [done|]. destruct He as [[= ->] _].
  pose proof (wf_object _ _ Hwf) as (Hn & Hns & _ & Hsp). split.
  { unfold Status.requeueInterval. by rewrite Hsp. }
  destruct (Hpac ns n) as [Heq|Henq].
  2:{ apply Henq. rewrite enqueued_pacto. by left. }
  destruct (status_done _ _ _ Hup) as (old & Hold & Hnew).
  assert (pacto_key p' = (ns, n)) as Hkey
    by (pose proof (Hkeys _ _ Hp) as Hk; unfold pacto_key in *; by rewrite Hns, Hn).
  rewrite Hnew, Hkey, lookup_insert_eq, Hp in Heq. injection Heq as Heq.
  assert (LastReconciledAt (p_Status p) = Some (now w)) as Hlast by by rewrite <- Heq.
  apply Hlate in Hlast. unfold seconds in Hlast.
  pose proof (Z.div_le_mono (now (st_world s)) (now w) 1000000000 ltac:(lia) Hnow). lia.
Qed.
End queue.

(** *** Witnesses on the in-memory cluster *)

Section examples.
Import Cluster.
#[local] Existing Instances cluster_clock cluster_client cluster_network cluster_laws
  latin1_tables example_lib canonical_order list_store Credentials.example_codec
  list_store_laws cluster_network_frame cluster_pactos system_loader system_loader_laws
  system_loader_frame cluster_lister cluster_lister_laws.

#[local] Instance cluster_watch_laws : WatchLaws cluster unit.
Proof.
  constructor.
  - intros o g. constructor; cbn; try done; intros r w Hw.
    + unfold create. by destruct (cl_revisions w !! _).
    + unfold update_revision. by destruct (cl_revisions w !! _).
  - intros p w. cbn. unfold update_pacto. by destruct (cl_pactos w !! _).
  - intros t. constructor; cbn; try done; intros r w Hw.
    + unfold create. by destruct (cl_revisions w !! _).
    + unfold update_revision. by destruct (cl_revisions w !! _).
Qed.

Abbreviation api := ("prod", "api").
Abbreviation handle s := (Reconcile "prod" "api" s).

(** The first reconcile writes a status and enqueues its Pacto again; the second one, at
    the same time, changes nothing. *)
Definition first : RState cluster unit := Eval vm_compute in (handle small_state).2.
Definition second : RState cluster unit := Eval vm_compute in (handle first).2.
(** An unrelated Deployment appears in the namespace. *)
Definition other_reader : Observer.KubeReader := {|
  Observer.GetService _ _ := Err NotFound;
  Observer.GetDeployment ns name :=
    if bool_decide ((ns, name) = ("prod", "other"))
    then Ok {| Observer.d_StrategyType := ""; Observer.d_PodSpec := api_pod |}
    else Err NotFound;
  Observer.GetStatefulSet _ _ := Err NotFound;
  Observer.GetReplicaSet _ _ := Err NotFound;
  Observer.GetJob _ _ := Err NotFound;
  Observer.GetCronJob _ _ := Err NotFound |}.

Definition appear (s : RState cluster unit) : RState cluster unit :=
  mkRState (mkCluster (cl_clock (st_world s)) (cl_revisions (st_world s))
    (cl_pactos (st_world s)) (cl_secrets (st_world s)) other_reader)
    tt (st_events s) (st_metrics s).

Definition answered : outcome (result Z) := Ret (Ok 300000000000).

Lemma handle_small : handle small_state = (answered, first).
Proof. vm_compute. reflexivity. Qed.

Lemma handle_first : handle first = (answered, second).
Proof. vm_compute. reflexivity. Qed.

Definition seen_first : gmap Request inputs :=
  saw "prod" "api" (st_world first) (saw "prod" "api" small_cluster ∅).

Lemma small_keys k p : cl_pactos small_cluster !! k = Some p → k = api.
Proof.
  change (cl_pactos small_cluster) with ({[ api := example_pacto ]} : gmap _ Pacto).
  by intros [<- _]%lookup_singleton_Some.
Qed.

Lemma second_pactos : cl_pactos (st_world second) = cl_pactos (st_world first).
Proof. reflexivity. Qed.

Lemma same_reader w w' Q :
  cl_reader w' = cl_reader w → cl_secrets w' = cl_secrets w →
  (∀ ns name, cl_pactos w' !! (ns, name) = cl_pactos w !! (ns, name) ∨ (ns, name) ∈ Q) →
  notified (L := unit) w w' ∅ Q.
Proof.
  intros Hr Hs Hp. constructor; [set_solver|..].
  - intros kind ns name _. left. unfold agree. cbn. by rewrite Hr, Hs.
  - intros ns name. destruct (Hp ns name) as [?|Hin]; [by left|right].
    intros r. rewrite enqueued_pacto, list_elem_of_singleton. by intros ->.
Qed.

Lemma first_pactos :
  cl_pactos (st_world first) =
  <[api := default example_pacto (cl_pactos (st_world first) !! api)]> (cl_pactos small_cluster).
Proof. reflexivity. Qed.

Lemma all_caught_up : caught_up "prod" "api" answered ∅ = ∅.
Proof. unfold caught_up. cbn. set_solver. Qed.

Lemma first_step :
  queue_step (mkQState small_state {[api]} ∅ ∅)
    (mkQState first {[api]} (saw "prod" "api" small_cluster ∅) ∅).
Proof.
  rewrite <- all_caught_up at 2.
  apply (q_handle "prod" "api" small_state first answered); [set_solver|apply handle_small|].
  cbn [retried answered].
  assert ({[api]} ∖ {[api]} = (∅ : gset Request)) as -> by set_solver.
  apply same_reader; [reflexivity..|]. intros ns name.
  destruct (decide ((ns, name) = api)) as [->|Hne]; [right; set_solver|left].
  rewrite first_pactos. by apply lookup_insert_ne.
Qed.

Lemma second_step :
  queue_step (mkQState first {[api]} (saw "prod" "api" small_cluster ∅) ∅)
    (mkQState second ∅ seen_first ∅).
Proof.
  rewrite <- all_caught_up at 3.
  apply (q_handle "prod" "api" first second answered); [set_solver|apply handle_first|].
  cbn [retried answered].
  assert ({[api]} ∖ {[api]} = (∅ : gset Request)) as -> by set_solver.
  apply same_reader; [reflexivity..|]. intros ns name. left.
  by rewrite second_pactos.
Qed.

(** Every Pacto is stored under its own key, so all can be listed. *)
Lemma appear_missing s :
  keyed (view_of (L := unit) (st_world s)) →
  missing (L := unit) (st_world s) (st_world (appear s)) ∅ ∅.
Proof.
  intros Hkeys. constructor; [done| |by intros k ?%elem_of_empty].
  intros [ns n] p Hp. left. cbn in Hp. split; cbn.
  - unfold List_Pactos, cluster_lister. rewrite decide_True; [done|].
    intros k q Hq. symmetry. by apply Hkeys.
  - unfold lookup_object. by rewrite Hp.
Qed.

Lemma appear_rely s :
  keyed (view_of (L := unit) (st_world s)) →
  rely (view_of (L := unit) (st_world s)) (view_of (L := unit) (st_world (appear s))).
Proof.
  intros Hkeys. constructor; cbn.
  - intros k p Hp. split; [by apply Hkeys|]. right. exists p. by split_and!.
  - intros k r Hr. exists r. split; [done|]. by destruct r.
Qed.

Lemma appear_notified s :
  cl_reader (st_world s) = empty_reader →
  (∀ kind, kind ∈ target_kinds ∨ kind = "Secret" →
    enqueued kind "prod" "other" None (st_world (appear s)) = []) →
  notified (L := unit) (st_world s) (st_world (appear s)) ∅ ∅.
Proof.
  intros Hr Hnone. constructor; [done| |by left].
  intros kind ns name Hkind. destruct (decide ((ns, name) = ("prod", "other"))) as [[= -> ->]|Hne].
  - right. rewrite Hnone by done. by intros r ?%elem_of_nil.
  - left. unfold agree. cbn. rewrite Hr. by rewrite bool_decide_eq_false_2.
Qed.

Lemma first_keyed : keyed (view_of (L := unit) (st_world first)).
Proof.
  pose proof (Reconcile_keyed "prod" "api" small_state (good_keys _ small_good)) as Hk.
  by rewrite handle_small in Hk.
Qed.

Lemma second_keyed : keyed (view_of (L := unit) (st_world second)).
Proof.
  pose proof (Reconcile_keyed "prod" "api" first first_keyed) as Hk.
  by rewrite handle_first in Hk.
Qed.

Lemma third_step :
  queue_step (mkQState second ∅ seen_first ∅) (mkQState (appear second) ∅ seen_first ∅).
Proof.
  apply q_change; [apply appear_rely, second_keyed| |apply appear_missing, second_keyed].
  apply appear_notified; [vm_compute; reflexivity|].
  intros kind Hk. assert (kind ∈ "Secret" :: target_kinds) as Hkind
    by (rewrite elem_of_cons; tauto).
  clear Hk. revert kind Hkind. apply Forall_forall.
  apply (bool_decide_unpack _). vm_compute. reflexivity.
Qed.

Lemma no_change_lost_witness : ∃ p,
  pactos (L := unit) (st_world (appear second)) !! api = Some p ∧
  (api ∈ (∅ : gset Request) ∨
   well_formed p p ∧
     (seen_first !! api = Some (inputs_of p (st_world (appear second))) ∨
      ∃ q1 q2, rtc queue_step (mkQState small_state {[api]} ∅ ∅) q1 ∧ missed_at api q1 q2 ∧
        rtc (still_missing api) q2 (mkQState (appear second) ∅ seen_first ∅))).
Proof.
  exists (default example_pacto (cl_pactos (st_world first) !! api)).
  assert (pactos (L := unit) (st_world (appear second)) !! api =
    Some (default example_pacto (cl_pactos (st_world first) !! api))) as Hp
    by reflexivity.
  split; [exact Hp|].
  apply (no_change_lost (mkQState small_state {[api]} ∅ ∅)
    (mkQState (appear second) ∅ seen_first ∅)).
  - apply small_good.
  - intros k p Hk. apply small_keys in Hk as ->. set_solver.
  - reflexivity.
  - eapply rtc_l; [exact first_step|]. eapply rtc_l; [exact second_step|].
    apply rtc_once, third_step.
  - exact Hp.
Defined.

(** Two seconds later the same, settled Pacto is reconciled once more. *)
Definition advance (s : RState cluster unit) : RState cluster unit :=
  mkRState (mkCluster (2000000000 + cl_clock (st_world s)) (cl_revisions (st_world s))
    (cl_pactos (st_world s)) (cl_secrets (st_world s)) (cl_reader (st_world s)))
    tt (st_events s) (st_metrics s).

Lemma advance_keyed s :
  keyed (view_of (L := unit) (st_world s)) → keyed (view_of (L := unit) (st_world (advance s))).
Proof. done. Qed.

Definition later : RState cluster unit := Eval vm_compute in (handle (advance first)).2.

Lemma handle_advance : handle (advance first) = (answered, later).
Proof. vm_compute. reflexivity. Qed.

Definition settled_pacto : Pacto := default example_pacto (cl_pactos (st_world first) !! api).

Lemma later_pactos :
  cl_pactos (st_world later) =
  <[api := default example_pacto (cl_pactos (st_world later) !! api)]>
    (cl_pactos (st_world (advance first))).
Proof. reflexivity. Qed.

Lemma reconcile_requeues_itself_witness :
  300000000000 = Status.requeueInterval settled_pacto ∧ api ∈ ({[api]} : gset Request).
Proof.
  apply (reconcile_requeues_itself "prod" "api" settled_pacto (advance first) 300000000000
    later ∅ {[api]}).
  - apply advance_keyed, first_keyed.
  - reflexivity.
  - apply handle_advance.
  - assert (LastReconciledAt (p_Status settled_pacto) = Some 7) as -> by reflexivity.
    intros t [= <-]. assert (now (st_world (advance first)) = 2000000007) as -> by reflexivity.
    reflexivity.
  - apply same_reader; [reflexivity..|]. intros ns name.
    destruct (decide ((ns, name) = api)) as [->|Hne]; [right; set_solver|left].
    rewrite later_pactos. by apply lookup_insert_ne.
Defined.

End examples.

End Queue.
