(* ===== verification/DashConfig.v ===== *)
(** * The dashboard's configuration

    [internal/dashboard/config.go]: what the operator deploys as its dashboard, the checks
    at start-up and the resource requirements. Parsing a quantity is the Kubernetes
    library's business and a parameter. *)

From S2P Require Import Prelude GoStrings GoFmt Images.
From stdpp Require Import options.
#[local] Set Default Proof Using "Type*".

Module DashConfig.

(** [resource.ParseQuantity] and the type of its results. *)
Class QuantityParser := {
  Quantity : Type;
  ParseQuantity : string → result Quantity }.

(** The texts of the built-in defaults are quantities. *)
Class QuantityLaws `{!QuantityParser} := {
  parses_defaults s : s ∈ ["50m"; "128Mi"; "512Mi"] → is_ok (ParseQuantity s) = true }.

(** [ResourcesConfig]. *)
Record ResourcesConfig := mkResourcesConfig {
  CPURequest : string; CPULimit : string; MemoryRequest : string; MemoryLimit : string }.

(** The apply configuration of an owner reference. *)
Record OwnerReference := mkOwnerReference {
  own_APIVersion : string; own_Kind : string; own_Name : string; own_UID : string }.

(** [Config]. *)
Record Config := mkConfig {
  Enabled : bool;
  Image : string;
  Namespace : string;
  WatchNamespace : string;
  OCISecret : string;
  OCISecrets : list string;
  Resources : ResourcesConfig;
  OwnerRef : option OwnerReference }.

(** [corev1.ResourceRequirements]: quantities by resource name. *)
Record ResourceRequirements `{!QuantityParser} := mkRequirements {
  Requests : gmap string Quantity; Limits : gmap string Quantity }.

Arguments mkRequirements {_} _ _.
Arguments Requests {_} _.
Arguments Limits {_} _.

Definition ResourceCPU := "cpu".
Definition ResourceMemory := "memory".

(** [Config.EffectiveOCISecrets]. *)
Definition EffectiveOCISecrets (c : Config) : list string :=
  if bool_decide (0 < length (OCISecrets c))%nat then OCISecrets c
  else if bool_decide (OCISecret c ≠ "") then [OCISecret c] else [].

(** The loop of [hasLatestTag], at the byte before [n]. *)
Fixpoint latest_loop (image : string) (n : nat) : bool :=
  match n with
  | O => true
  | S i =>
      match String.get i image with
      | Some c =>
          if Ascii.eqb c ":" then bool_decide (str_drop (i + 1) image = "latest")
          else if Ascii.eqb c "/" then true
          else latest_loop image i
      | None => latest_loop image i
      end
  end.

(** [hasLatestTag]. *)
Definition hasLatestTag (image : string) : bool := latest_loop image (len image).

Section config.
Context `{UnicodeTables} `{QuantityParser}.

(** The loop of [ResourcesConfig.Validate]. *)
Fixpoint validate_quantities (qs : list (string * string)) : option error :=
  match qs with
  | [] => None
  | (name, val) :: qs =>
      if bool_decide (val = "") then validate_quantities qs
      else match ParseQuantity val with
           | Err e => Some (Wrap ("invalid dashboard " +:+ name +:+ " quantity " +:+
                                  Quote val +:+ ": ") e)
           | Ok _ => validate_quantities qs
           end
  end.

(** [ResourcesConfig.Validate]. *)
Definition ResourcesConfig_Validate (rc : ResourcesConfig) : option error :=
  validate_quantities
    [("cpu-request", CPURequest rc); ("cpu-limit", CPULimit rc);
     ("memory-request", MemoryRequest rc); ("memory-limit", MemoryLimit rc)].

(** [resource.MustParse]. *)
Definition MustParse {S} (s : string) : M S Quantity :=
  match ParseQuantity s with
  | Ok q => mret q
  | Err e => panic (err_text e)
  end.

(** [DefaultResources]. *)
Definition DefaultResources {S} : M S ResourceRequirements :=
  cpu ← MustParse (S := S) "50m";
  memory ← MustParse (S := S) "128Mi";
  limit ← MustParse (S := S) "512Mi";
  mret (mkRequirements {[ ResourceCPU := cpu; ResourceMemory := memory ]}
          {[ ResourceMemory := limit ]}).

(** One of the four overrides: parse the text, if any, and store it. *)
Definition override_quantity {S} (text name : string) (m : gmap string Quantity)
    : M S (gmap string Quantity) :=
  if bool_decide (text ≠ "") then q ← MustParse (S := S) text; mret (<[name := q]> m) else mret m.

(** [ResourcesConfig.BuildResources]. *)
Definition BuildResources {S} (rc : ResourcesConfig) : M S ResourceRequirements :=
  res ← DefaultResources (S := S);
  requests ← override_quantity (S := S) (CPURequest rc) ResourceCPU (Requests res);
  requests ← override_quantity (S := S) (MemoryRequest rc) ResourceMemory requests;
  limits ← override_quantity (S := S) (CPULimit rc) ResourceCPU (Limits res);
  limits ← override_quantity (S := S) (MemoryLimit rc) ResourceMemory limits;
  mret (mkRequirements requests limits).

(** [Config.Validate]. *)
Definition Validate (c : Config) : option error :=
  if negb (Enabled c) then None
  else if bool_decide (Image c = "") then
    Some (Errorf "dashboard image must be set at build time via ldflags")
  else if bool_decide (Namespace c = "") then
    Some (Errorf "dashboard namespace must be set (defaults to operator namespace)")
  else if hasLatestTag (Image c) then
    Some (Errorf ("dashboard image must not use 'latest' tag: " +:+ Image c))
  else ResourcesConfig_Validate (Resources c).
End config.

(** ** Specification *)

(** What follows the last colon of the last path segment, if there is one. *)
Definition tag_of (image : string) : option string :=
  let tail := str_drop (Z.to_nat (LastIndex image "/" + 1)) image in
  let i := LastIndex tail ":" in
  if bool_decide (0 ≤ i) then Some (str_drop (Z.to_nat (i + 1)) tail) else None.

Lemma get_app a c b : String.get (len a) (a +:+ String c b) = Some c.
Proof. induction a as [|d a IH]; [done|]. rewrite app_cons. apply IH. Qed.

Lemma len_snoc a c : len (a +:+ String c "") = S (len a).
Proof. rewrite len_app. cbn. lia. Qed.

Lemma app_snoc a c b : (a +:+ String c "") +:+ b = a +:+ String c b.
Proof. by rewrite app_assoc_str. Qed.

Lemma latest_loop_S image i c :
  String.get i image = Some c →
  latest_loop image (S i) =
  if Ascii.eqb c ":" then bool_decide (str_drop (i + 1) image = "latest")
  else if Ascii.eqb c "/" then true else latest_loop image i.
Proof. intros Hc. cbn [latest_loop]. by rewrite Hc. Qed.

Lemma str_drop_snoc p c q : str_drop (len p + 1) (p +:+ String c q) = q.
Proof.
  rewrite <- app_snoc. rewrite Nat.add_1_r, <- (len_snoc p c). apply str_drop_app.
Qed.

(** The loop passes over bytes that are neither a colon nor a slash. *)
Lemma latest_loop_skip q p b :
  has_byte ":" q = false → has_byte "/" q = false →
  latest_loop (p +:+ q +:+ b) (len p + len q) = latest_loop (p +:+ q +:+ b) (len p).
Proof.
  revert p. induction q as [|c q IH]; intros p; cbn [has_byte].
  - by rewrite Nat.add_0_r.
  - intros [Hc1 Hq1]%orb_false_iff [Hc2 Hq2]%orb_false_iff.
    rewrite app_cons, <- app_snoc.
    replace (len p + len (String c q))%nat with (len (p +:+ String c "") + len q)%nat
      by (rewrite len_snoc; cbn; lia).
    rewrite IH by done. rewrite len_snoc, app_snoc, (latest_loop_S _ _ c) by apply get_app.
    by rewrite (Ascii.eqb_sym c), Hc1, (Ascii.eqb_sym c), Hc2.
Qed.

Lemma latest_loop_tail p q :
  has_byte ":" q = false → has_byte "/" q = false →
  hasLatestTag (p +:+ q) = latest_loop (p +:+ q) (len p).
Proof.
  intros H1 H2. unfold hasLatestTag. rewrite len_app.
  pose proof (latest_loop_skip q p "" H1 H2) as Hs. by rewrite !app_empty_r in Hs.
Qed.

Lemma hasLatestTag_slash p q :
  has_byte ":" q = false → has_byte "/" q = false →
  hasLatestTag (p +:+ String "/" q) = true.
Proof.
  intros H1 H2. rewrite <- app_snoc, latest_loop_tail, len_snoc, app_snoc by done.
  cbn [latest_loop]. by rewrite get_app.
Qed.

Lemma hasLatestTag_colon p q :
  has_byte ":" q = false → has_byte "/" q = false →
  hasLatestTag (p +:+ String ":" q) = bool_decide (q = "latest").
Proof.
  intros H1 H2. rewrite <- app_snoc, latest_loop_tail, len_snoc, app_snoc by done.
  rewrite (latest_loop_S _ _ ":") by apply get_app. cbn [Ascii.eqb Bool.eqb].
  by rewrite str_drop_snoc.
Qed.

Lemma hasLatestTag_plain q :
  has_byte ":" q = false → has_byte "/" q = false → hasLatestTag q = true.
Proof. intros H1 H2. by rewrite <- (app_empty_l q), latest_loop_tail. Qed.

Lemma str_drop_last p c q :
  str_drop (Z.to_nat (Z.of_nat (len p) + 1)) (p +:+ String c q) = q.
Proof.
  replace (Z.to_nat (Z.of_nat (len p) + 1)) with (len p + 1)%nat by lia.
  apply str_drop_snoc.
Qed.

(** The backwards scan decides what it means to: an image is refused when the last path
    segment has no tag or the tag "latest"; a registry port is not taken for a tag. *)
Lemma hasLatestTag_tag_of image :
  hasLatestTag image =
  match tag_of image with None => true | Some t => bool_decide (t = "latest") end.
Proof.
  assert (∃ p tail, image = p +:+ tail ∧ has_byte "/" tail = false ∧
    str_drop (Z.to_nat (LastIndex image "/" + 1)) image = tail ∧
    (p = "" ∨ ∃ p', p = p' +:+ String "/" "")) as (p & tail & -> & Hs & Hdrop & Hp).
  { destruct (has_byte "/" image) eqn:E.
    - apply has_byte_split_last in E as (p & tail & -> & Ht).
      exists (p +:+ String "/" ""), tail. split_and!; [by rewrite app_snoc|done| |eauto].
      rewrite (LastIndex_app "/") by done. apply str_drop_last.
    - exists "", image. split_and!; [done|done| |by left].
      by rewrite (LastIndex_none "/"). }
  unfold tag_of. rewrite Hdrop. destruct (has_byte ":" tail) eqn:E.
  - apply has_byte_split_last in E as (a & t & -> & Ht).
    rewrite has_byte_app in Hs. apply orb_false_iff in Hs as [_ Hs]. cbn in Hs.
    rewrite <- app_assoc_str, hasLatestTag_colon by done.
    rewrite (LastIndex_app ":") by done.
    rewrite (bool_decide_eq_true_2 (0 ≤ Z.of_nat (len a))) by lia.
    by rewrite str_drop_last.
  - rewrite (LastIndex_none ":") by done. cbn. destruct Hp as [-> |[p' ->]].
    + by apply hasLatestTag_plain.
    + rewrite app_snoc. by apply hasLatestTag_slash.
Qed.

Section quantities.
Context `{UnicodeTables} `{QuantityParser}.

Definition quantity_of (text : string) : option Quantity :=
  match ParseQuantity text with Ok q => Some q | Err _ => None end.

(** The texts a user may set. *)
Definition quantity_texts (rc : ResourcesConfig) : list string :=
  [CPURequest rc; CPULimit rc; MemoryRequest rc; MemoryLimit rc].

Definition acceptable (text : string) : Prop := text ≠ "" → is_Some (quantity_of text).

Lemma validate_quantities_None qs :
  validate_quantities qs = None ↔ Forall acceptable qs.*2.
Proof.
  induction qs as [|[name val] qs IH]; cbn; [split; [constructor|done]|].
  rewrite Forall_cons. unfold acceptable at 1, quantity_of.
  case_bool_decide as Hv; [rewrite IH; naive_solver|].
  destruct (ParseQuantity val) as [q|e].
  - rewrite IH. split; [|tauto]. intros ?. split; [by eexists|done].
  - split; [done|]. intros [Hq _]. by destruct (Hq Hv).
Qed.

Lemma ResourcesConfig_Validate_None rc :
  ResourcesConfig_Validate rc = None ↔ Forall acceptable (quantity_texts rc).
Proof. unfold ResourcesConfig_Validate. by rewrite validate_quantities_None. Qed.

Lemma MustParse_run {S} text (s : S) :
  match quantity_of text with
  | Some q => MustParse text s = (Ret q, s)
  | None => ∃ msg, MustParse text s = (Panic msg, s)
  end.
Proof. unfold MustParse, quantity_of. destruct (ParseQuantity text); [done|by eexists]. Qed.

(** What an override leaves in a map of quantities. *)
Lemma override_quantity_run {S} text name m (s : S) :
  (acceptable text → ∃ m', override_quantity text name m s = (Ret m', s) ∧
     m' !! name = (if bool_decide (text = "") then m !! name else quantity_of text) ∧
     ∀ n, n ≠ name → m' !! n = m !! n) ∧
  (¬ acceptable text → ∃ msg, override_quantity text name m s = (Panic msg, s)).
Proof.
  unfold override_quantity, acceptable. destruct (decide (text = "")) as [->|Hne].
  - split; [intros _|]. { exists m. by split_and!. } intros Hno. by destruct Hno.
  - rewrite bool_decide_eq_true_2 by done. rewrite M_bind_unfold.
    rewrite (bool_decide_eq_false_2 (text = "")) by done.
    pose proof (MustParse_run text s) as Hm. destruct (quantity_of text) as [q|].
    + rewrite Hm. split; [intros _|]; [|intros Hno; destruct Hno; by eexists].
      eexists. split; [done|]. split; [by rewrite lookup_insert_eq|].
      intros n Hn. by rewrite lookup_insert_ne.
    + destruct Hm as [msg ->]. split; [|by eexists]. intros Hok. by destruct (Hok Hne).
Qed.

(** The requirements a configuration stands for. *)
Record built (rc : ResourcesConfig) (r : ResourceRequirements) : Prop := {
  built_cpu_request : Requests r !! ResourceCPU =
    quantity_of (if bool_decide (CPURequest rc = "") then "50m" else CPURequest rc);
  built_memory_request : Requests r !! ResourceMemory =
    quantity_of (if bool_decide (MemoryRequest rc = "") then "128Mi" else MemoryRequest rc);
  built_cpu_limit : Limits r !! ResourceCPU =
    if bool_decide (CPULimit rc = "") then None else quantity_of (CPULimit rc);
  built_memory_limit : Limits r !! ResourceMemory =
    quantity_of (if bool_decide (MemoryLimit rc = "") then "512Mi" else MemoryLimit rc);
  built_others n : n ≠ ResourceCPU → n ≠ ResourceMemory →
    Requests r !! n = None ∧ Limits r !! n = None
}.

#[export] Instance acceptable_dec text : Decision (acceptable text).
Proof. unfold acceptable. apply _. Defined.

(** One override inside a chain: it returns when its text is acceptable, and else ends
    the chain. *)
Lemma override_quantity_bind {S B} text name m (k : gmap string Quantity → M S B) (s : S) :
  (¬ acceptable text ∧ ∃ msg, (override_quantity text name m ≫= k) s = (Panic msg, s)) ∨
  (acceptable text ∧ ∃ m', (override_quantity text name m ≫= k) s = k m' s ∧
     m' !! name = (if bool_decide (text = "") then m !! name else quantity_of text) ∧
     ∀ n, n ≠ name → m' !! n = m !! n).
Proof.
  destruct (override_quantity_run text name m s) as [Hok Hno].
  destruct (decide (acceptable text)) as [Ha|Ha]; [right|left]; (split; [done|]).
  - destruct (Hok Ha) as (m' & Hrun & Hm'). exists m'. by rewrite M_bind_unfold, Hrun.
  - destruct (Hno Ha) as [msg Hrun]. exists msg. by rewrite M_bind_unfold, Hrun.
Qed.

(** [Config.Validate] accepts exactly a disabled dashboard, or an enabled one
    with a namespace, an image with a tag or digest other than "latest" in its last path
    segment (a registry port does not count), and only parseable quantities. *)
Theorem Validate_accepts c :
  Validate c = None ↔
  Enabled c = false ∨
  (Image c ≠ "" ∧ Namespace c ≠ "" ∧ (∃ t, tag_of (Image c) = Some t ∧ t ≠ "latest") ∧
   ∀ text, text ∈ quantity_texts (Resources c) → text ≠ "" → is_ok (ParseQuantity text) = true).
Proof.
  unfold Validate. rewrite hasLatestTag_tag_of.
  assert ((∀ text, text ∈ quantity_texts (Resources c) → text ≠ "" →
      is_ok (ParseQuantity text) = true) ↔ ResourcesConfig_Validate (Resources c) = None)
    as ->.
  { rewrite ResourcesConfig_Validate_None, Forall_forall. unfold acceptable, quantity_of.
    split; intros Hall text Hin Hne; specialize (Hall text Hin Hne);
      by destruct (ParseQuantity text). }
  destruct (Enabled c); cbn [negb]; [|tauto].
  repeat case_bool_decide; [naive_solver..|].
  destruct (tag_of (Image c)) as [t|]; [case_bool_decide|]; naive_solver.
Qed.
End quantities.

Section defaults.
Context `{UnicodeTables} `{QuantityLaws}.

Lemma default_quantity text :
  text ∈ ["50m"; "128Mi"; "512Mi"] → is_Some (quantity_of text).
Proof.
  intros Hd%parses_defaults. unfold quantity_of.
  destruct (ParseQuantity text); [by eexists|done].
Qed.

Lemma DefaultResources_run {S} (s : S) :
  ∃ cpu mem lim, quantity_of "50m" = Some cpu ∧ quantity_of "128Mi" = Some mem ∧
    quantity_of "512Mi" = Some lim ∧
    DefaultResources s = (Ret (mkRequirements {[ ResourceCPU := cpu; ResourceMemory := mem ]}
                                 {[ ResourceMemory := lim ]}), s).
Proof.
  destruct (default_quantity "50m" ltac:(set_solver)) as [cpu Hc].
  destruct (default_quantity "128Mi" ltac:(set_solver)) as [mem Hm].
  destruct (default_quantity "512Mi" ltac:(set_solver)) as [lim Hl].
  exists cpu, mem, lim. split_and!; [done..|]. unfold DefaultResources.
  pose proof (MustParse_run "50m" s) as E1. rewrite Hc in E1.
  pose proof (MustParse_run "128Mi" s) as E2. rewrite Hm in E2.
  pose proof (MustParse_run "512Mi" s) as E3. rewrite Hl in E3.
  rewrite (M_bind_Ret _ _ _ _ _ E1), (M_bind_Ret _ _ _ _ _ E2), (M_bind_Ret _ _ _ _ _ E3).
  done.
Qed.

(** Take the next override of the chain; the case that ends in a panic is closed. *)
Ltac next_override a r E F :=
  match goal with
  | |- context [(override_quantity ?t ?n ?m ≫= ?k) ?s] =>
      destruct (override_quantity_bind t n m k s) as [[a [? ->]]|(a & r & -> & E & F)];
      [left; split; [naive_solver|by eexists]|]
  end.

Lemma BuildResources_run {S} rc (s : S) :
  (¬ Forall acceptable (quantity_texts rc) ∧ ∃ msg, BuildResources rc s = (Panic msg, s)) ∨
  (Forall acceptable (quantity_texts rc) ∧ ∃ r, BuildResources rc s = (Ret r, s) ∧ built rc r).
Proof.
  unfold quantity_texts. rewrite !Forall_cons. unfold BuildResources.
  destruct (DefaultResources_run s) as (cpu & mem & lim & Hc & Hm & Hl & Hd).
  rewrite (M_bind_Ret _ _ _ _ _ Hd).
  next_override Ha r1 E1 F1. next_override Hb r2 E2 F2.
  next_override Hc' l1 E3 F3. next_override Hd' l2 E4 F4.
  right. split; [by rewrite Forall_nil|]. eexists. split; [done|]. cbn in *.
  constructor; cbn.
  - rewrite F2, E1 by done. by repeat case_bool_decide.
  - rewrite E2, F1 by done. by repeat case_bool_decide.
  - rewrite F4, E3 by done. by repeat case_bool_decide.
  - rewrite E4, F3 by done. by repeat case_bool_decide.
  - intros n Hcpu Hmem. rewrite F2, F1, F4, F3 by done.
    by rewrite !lookup_insert_ne, lookup_empty by done.
Qed.

(** C35 (error). Start-up validation of the resource overrides is exact: when it accepts
    them, building the requirements returns and yields the overridden or default request
    and limit of CPU and memory (no CPU limit unless one is set) and nothing else; when it
    rejects them, building them would panic. *)
Theorem resources_validated_iff_built {S} rc (s : S) :
  match ResourcesConfig_Validate rc with
  | None => ∃ r, BuildResources rc s = (Ret r, s) ∧ built rc r
  | Some _ => ∃ msg, BuildResources rc s = (Panic msg, s)
  end.
Proof.
  pose proof (ResourcesConfig_Validate_None rc) as Hv.
  destruct (BuildResources_run rc s) as [[Hno Hp]|[Hok Hr]];
    destruct (ResourcesConfig_Validate rc) as [e|]; try done; exfalso.
  - by apply Hno, Hv.
  - pose proof (proj2 Hv Hok). done.
Qed.
End defaults.

(** *** Witnesses: quantities that start with a digit *)

Definition starts_with_digit (s : string) : bool :=
  match s with
  | String c _ => bool_decide (48 ≤ nat_of_ascii c ≤ 57)%nat
  | "" => false
  end.

Definition example_quantities : QuantityParser := {|
  Quantity := string;
  ParseQuantity s := if starts_with_digit s then Ok s
                     else Err (Errorf "quantities must match the regular expression") |}.

Lemma example_quantity_laws : @QuantityLaws example_quantities.
Proof.
  constructor. intros s. rewrite !elem_of_cons, elem_of_nil. intros Hs.
  by destruct_or?; subst.
Qed.

Definition example_resources : ResourcesConfig := mkResourcesConfig "100m" "" "1Gi" "".

Definition example_config : Config :=
  mkConfig true "ghcr.io:443/pacto/dashboard:1.2.0" "pacto-system" "" "registry-creds" []
    example_resources (Some (mkOwnerReference "apps/v1" "Deployment" "pacto-operator" "u1")).

Lemma resources_validated_iff_built_witness :
  ∃ r, @BuildResources example_quantities unit example_resources tt = (Ret r, tt) ∧
    @built example_quantities example_resources r.
Proof.
  apply (@resources_validated_iff_built latin1_tables example_quantities
    example_quantity_laws unit example_resources tt).
Defined.

Example config_ex :
  @Validate latin1_tables example_quantities example_config = None ∧
  hasLatestTag "localhost:5000/dashboard" = true ∧
  hasLatestTag "localhost:5000/dashboard:latest" = true ∧
  hasLatestTag "dashboard@sha256:ab" = false.
Proof. by vm_compute. Qed.

End DashConfig.
