(* ===== verification/DashResources.v ===== *)
(** * The dashboard's objects

    [internal/dashboard/resources.go] and [apply.go]: the Kubernetes objects the operator
    deploys for its dashboard, once as typed objects ([Build...], what the unit tests
    examine) and once as server-side apply configurations ([...AC], what is applied).
    Both are values of the same records here, an unset field of an apply configuration
    being the zero value or [None]. *)

From S2P Require Import Prelude GoStrings GoFmt Credentials DashConfig.
From stdpp Require Import options.
#[local] Set Default Proof Using "Type*".

Module DashResources.
Import DashConfig.

(** ** The parts of the API objects the dashboard uses *)

Record ObjectMeta := mkMeta {
  om_Name : string; om_Namespace : string; om_Labels : gmap string string;
  om_OwnerReferences : list OwnerReference }.

Record PolicyRule := mkRule {
  pr_APIGroups : list string; pr_Resources : list string; pr_Verbs : list string }.

Record Subject := mkSubject { su_Kind : string; su_Name : string; su_Namespace : string }.

Record RoleRef := mkRoleRef { rr_APIGroup : string; rr_Kind : string; rr_Name : string }.

Record EnvVar := mkEnvVar { ev_Name : string; ev_Value : string }.

Record VolumeMount := mkMount { vm_Name : string; vm_MountPath : string; vm_ReadOnly : bool }.

Inductive VolumeSource :=
| EmptyDir
| SecretSource (secretName : string) (items : list (string * string)) (optional : option bool).

Record Volume := mkVolume { vo_Name : string; vo_Source : VolumeSource }.

Record Probe := mkProbe {
  po_Path : string; po_Port : Z; po_InitialDelaySeconds : Z; po_PeriodSeconds : Z }.

Record SecurityContext := mkSecurity {
  sc_ReadOnlyRootFilesystem : option bool; sc_AllowPrivilegeEscalation : option bool;
  sc_Drop : list string }.

Record ContainerPort := mkPort { cp_Name : string; cp_ContainerPort : Z; cp_Protocol : string }.

Record Container `{!QuantityParser} := mkContainer {
  co_Name : string; co_Image : string; co_Ports : list ContainerPort; co_Env : list EnvVar;
  co_VolumeMounts : list VolumeMount; co_LivenessProbe : option Probe;
  co_ReadinessProbe : option Probe; co_SecurityContext : option SecurityContext;
  co_Resources : ResourceRequirements }.

Record PodSpec `{!QuantityParser} := mkPodSpec {
  ps_ServiceAccountName : string; ps_RunAsNonRoot : option bool; ps_RunAsUser : option Z;
  ps_SeccompProfile : option string; ps_Containers : list Container;
  ps_Volumes : list Volume; ps_TerminationGracePeriodSeconds : option Z }.

Record DeploymentSpec `{!QuantityParser} := mkDeploymentSpec {
  ds_Replicas : option Z; ds_MatchLabels : gmap string string;
  ds_TemplateLabels : gmap string string; ds_Pod : PodSpec }.

Record ServicePort := mkServicePort {
  sp_Name : string; sp_Port : Z; sp_TargetPort : Z; sp_Protocol : string }.

Record ServiceSpec := mkServiceSpec {
  ss_Selector : gmap string string; ss_Ports : list ServicePort }.

Inductive Kind :=
| KNamespace | KServiceAccount | KClusterRole | KClusterRoleBinding | KSecret | KDeployment
| KService.

#[export] Instance Kind_eq_dec : EqDecision Kind.
Proof. solve_decision. Defined.

#[export] Instance Kind_countable : Countable Kind.
Proof.
  refine (inj_countable'
    (λ k, match k with
          | KNamespace => 0 | KServiceAccount => 1 | KClusterRole => 2
          | KClusterRoleBinding => 3 | KSecret => 4 | KDeployment => 5 | KService => 6 end)%nat
    (λ n, match n with
          | 0 => KNamespace | 1 => KServiceAccount | 2 => KClusterRole
          | 3 => KClusterRoleBinding | 4 => KSecret | 5 => KDeployment | _ => KService end)%nat
    _).
  by intros [].
Defined.

(** An object: its metadata and what its kind adds. *)
Inductive Body `{!QuantityParser} :=
| NamespaceBody
| ServiceAccountBody
| ClusterRoleBody (rules : list PolicyRule)
| ClusterRoleBindingBody (subjects : list Subject) (roleRef : RoleRef)
| SecretBody (typ : string) (data : gmap string string)
| DeploymentBody (spec : DeploymentSpec)
| ServiceBody (spec : ServiceSpec).

Record Object `{!QuantityParser} := mkObject { ob_Meta : ObjectMeta; ob_Body : Body }.

Arguments mkContainer {_}. Arguments mkPodSpec {_}. Arguments mkDeploymentSpec {_}.
Arguments NamespaceBody {_}. Arguments ServiceAccountBody {_}. Arguments ClusterRoleBody {_}.
Arguments ClusterRoleBindingBody {_}. Arguments SecretBody {_}. Arguments DeploymentBody {_}.
Arguments ServiceBody {_}. Arguments mkObject {_}.
Arguments ob_Meta {_}. Arguments ob_Body {_}.
Arguments co_Name {_}. Arguments co_Image {_}. Arguments co_Ports {_}. Arguments co_Env {_}.
Arguments co_VolumeMounts {_}. Arguments co_LivenessProbe {_}. Arguments co_ReadinessProbe {_}.
Arguments co_SecurityContext {_}. Arguments co_Resources {_}.
Arguments ps_ServiceAccountName {_}. Arguments ps_Containers {_}. Arguments ps_Volumes {_}.
Arguments ds_Replicas {_}. Arguments ds_MatchLabels {_}. Arguments ds_TemplateLabels {_}.
Arguments ds_Pod {_}.

Definition kind_of `{!QuantityParser} (o : Object) : Kind :=
  match ob_Body o with
  | NamespaceBody => KNamespace
  | ServiceAccountBody => KServiceAccount
  | ClusterRoleBody _ => KClusterRole
  | ClusterRoleBindingBody _ _ => KClusterRoleBinding
  | SecretBody _ _ => KSecret
  | DeploymentBody _ => KDeployment
  | ServiceBody _ => KService
  end.

(** ** Constants *)

Definition Name := "pacto-dashboard".
Definition ManagedSecretName := "pacto-dashboard-oci-creds".
Definition LabelManagedBy := "app.kubernetes.io/managed-by".
Definition LabelComponent := "app.kubernetes.io/component".
Definition LabelName := "app.kubernetes.io/name".
Definition ManagedByValue := "pacto-operator".
Definition ComponentValue := "dashboard".
Definition FieldManager := "pacto-operator-dashboard".
Definition DashboardPort : Z := 3000.
Definition HealthPath := "/health".
Definition ProtocolTCP := "TCP".
Definition SeccompRuntimeDefault := "RuntimeDefault".

(** [Labels]. *)
Definition Labels : gmap string string :=
  {[ LabelManagedBy := ManagedByValue; LabelComponent := ComponentValue; LabelName := Name ]}.

(** [SelectorLabels]. *)
Definition SelectorLabels : gmap string string :=
  {[ LabelComponent := ComponentValue; LabelName := Name ]}.

Section objects.
Context `{QuantityParser}.

(** ** Typed objects *)

(** [BuildServiceAccount]. *)
Definition BuildServiceAccount (cfg : Config) : Object :=
  mkObject (mkMeta Name (Namespace cfg) Labels []) ServiceAccountBody.

(** [BuildClusterRole]. *)
Definition BuildClusterRole : Object :=
  mkObject (mkMeta Name "" Labels [])
    (ClusterRoleBody
       [mkRule ["pacto.trianalab.io"] ["pactos"; "pactorevisions"] ["get"; "list"; "watch"];
        mkRule [""] ["services"] ["get"; "list"; "watch"]]).

(** [BuildClusterRoleBinding]. *)
Definition BuildClusterRoleBinding (cfg : Config) : Object :=
  mkObject (mkMeta Name "" Labels [])
    (ClusterRoleBindingBody [mkSubject "ServiceAccount" Name (Namespace cfg)]
       (mkRoleRef "rbac.authorization.k8s.io" "ClusterRole" Name)).

(** [BuildDeployment]; building the resource requirements may panic. *)
Definition BuildDeployment {S} (cfg : Config) : M S Object :=
  let env := [mkEnvVar "PACTO_DASHBOARD_PORT" "3000"; mkEnvVar "PACTO_NO_UPDATE_CHECK" "1"] in
  let env := if bool_decide (WatchNamespace cfg ≠ "")
             then env ++ [mkEnvVar "PACTO_WATCH_NAMESPACE" (WatchNamespace cfg)] else env in
  let volumeMounts := [mkMount "cache" "/home/pacto/.cache/pacto" false] in
  let volumes := [mkVolume "cache" EmptyDir] in
  let '(volumeMounts, volumes) :=
    if bool_decide (0 < length (EffectiveOCISecrets cfg))%nat
    then (volumeMounts ++ [mkMount "oci-creds" "/home/pacto/.docker" true],
          volumes ++ [mkVolume "oci-creds"
            (SecretSource ManagedSecretName [(Credentials.DockerConfigJsonKey, "config.json")]
               (Some true))])
    else (volumeMounts, volumes) in
  resources ← BuildResources (S := S) (Resources cfg);
  mret (mkObject (mkMeta Name (Namespace cfg) Labels [])
    (DeploymentBody (mkDeploymentSpec (Some 1) SelectorLabels Labels
      (mkPodSpec Name (Some true) (Some 65532) (Some SeccompRuntimeDefault)
         [mkContainer "dashboard" (Image cfg)
            [mkPort "http" DashboardPort ProtocolTCP] env volumeMounts
            (Some (mkProbe HealthPath DashboardPort 10 30))
            (Some (mkProbe HealthPath DashboardPort 5 10))
            (Some (mkSecurity (Some true) (Some false) ["ALL"])) resources]
         volumes (Some 10))))).

(** [BuildService]. *)
Definition BuildService (cfg : Config) : Object :=
  mkObject (mkMeta Name (Namespace cfg) Labels [])
    (ServiceBody (mkServiceSpec SelectorLabels
       [mkServicePort "http" DashboardPort DashboardPort ProtocolTCP])).

(** ** Apply configurations

    Each starts as a name and a namespace, and every [With...] call fills in a field or
    appends to a list. *)

Definition new_object (name namespace : string) (body : Body) : Object :=
  mkObject (mkMeta name namespace ∅ []) body.

Definition WithLabels (labels : gmap string string) (o : Object) : Object :=
  let m := ob_Meta o in
  mkObject (mkMeta (om_Name m) (om_Namespace m) (labels ∪ om_Labels m)
              (om_OwnerReferences m)) (ob_Body o).

Definition WithOwnerReferences (ref : OwnerReference) (o : Object) : Object :=
  let m := ob_Meta o in
  mkObject (mkMeta (om_Name m) (om_Namespace m) (om_Labels m)
              (om_OwnerReferences m ++ [ref])) (ob_Body o).

(** [if cfg.OwnerRef != nil { o.WithOwnerReferences(cfg.OwnerRef) }]. *)
Definition with_owner_ref (cfg : Config) (o : Object) : Object :=
  match OwnerRef cfg with Some ref => WithOwnerReferences ref o | None => o end.

(** [serviceAccountAC]. *)
Definition serviceAccountAC (cfg : Config) : Object :=
  with_owner_ref cfg (WithLabels Labels (new_object Name (Namespace cfg) ServiceAccountBody)).

(** [clusterRoleAC]. *)
Definition clusterRoleAC : Object :=
  WithLabels Labels (new_object Name "" (ClusterRoleBody
    [mkRule ["pacto.trianalab.io"] ["pactos"; "pactorevisions"] ["get"; "list"; "watch"];
     mkRule [""] ["services"] ["get"; "list"; "watch"]])).

(** [clusterRoleBindingAC]. *)
Definition clusterRoleBindingAC (cfg : Config) : Object :=
  WithLabels Labels (new_object Name "" (ClusterRoleBindingBody
    [mkSubject "ServiceAccount" Name (Namespace cfg)]
    (mkRoleRef "rbac.authorization.k8s.io" "ClusterRole" Name))).

(** [deploymentAC]. *)
Definition deploymentAC {S} (cfg : Config) : M S Object :=
  let env := [mkEnvVar "PACTO_DASHBOARD_PORT" "3000"; mkEnvVar "PACTO_NO_UPDATE_CHECK" "1"] in
  let env := if bool_decide (WatchNamespace cfg ≠ "")
             then env ++ [mkEnvVar "PACTO_WATCH_NAMESPACE" (WatchNamespace cfg)] else env in
  let volumeMounts := [mkMount "cache" "/home/pacto/.cache/pacto" false] in
  let volumes := [mkVolume "cache" EmptyDir] in
  let '(volumeMounts, volumes) :=
    if bool_decide (0 < length (EffectiveOCISecrets cfg))%nat
    then (volumeMounts ++ [mkMount "oci-creds" "/home/pacto/.docker" true],
          volumes ++ [mkVolume "oci-creds"
            (SecretSource ManagedSecretName [(Credentials.DockerConfigJsonKey, "config.json")]
               (Some true))])
    else (volumeMounts, volumes) in
  res ← BuildResources (S := S) (Resources cfg);
  let container :=
    mkContainer "dashboard" (Image cfg) [mkPort "http" DashboardPort ProtocolTCP]
      env volumeMounts
      (Some (mkProbe HealthPath DashboardPort 10 30))
      (Some (mkProbe HealthPath DashboardPort 5 10))
      (Some (mkSecurity (Some true) (Some false) ["ALL"]))
      (mkRequirements (Requests res) (Limits res)) in
  let pod :=
    mkPodSpec Name (Some true) (Some 65532) (Some SeccompRuntimeDefault) [container] volumes
      (Some 10) in
  mret (with_owner_ref cfg (WithLabels Labels (new_object Name (Namespace cfg)
    (DeploymentBody (mkDeploymentSpec (Some 1) SelectorLabels Labels pod))))).

(** [serviceAC]. *)
Definition serviceAC (cfg : Config) : Object :=
  with_owner_ref cfg (WithLabels Labels (new_object Name (Namespace cfg)
    (ServiceBody (mkServiceSpec SelectorLabels
       [mkServicePort "http" DashboardPort DashboardPort ProtocolTCP])))).

(** [ociSecretAC]. *)
Definition ociSecretAC (cfg : Config) (data : string) : Object :=
  with_owner_ref cfg (WithLabels Labels (new_object ManagedSecretName (Namespace cfg)
    (SecretBody Credentials.SecretTypeDockerConfigJson {[ Credentials.DockerConfigJsonKey := data ]}))).
End objects.

(** ** Specification *)

Section wiring.
Context `{QuantityParser}.

(** The managed-by and component labels every managed object carries. *)
Definition managed (labels : gmap string string) : Prop :=
  labels !! LabelManagedBy = Some ManagedByValue ∧
  labels !! LabelComponent = Some ComponentValue.

(** What holds the deployed objects together. *)
Record wired (cfg : Config) (d : DeploymentSpec) : Prop := {
  wired_selector : ds_MatchLabels d ⊆ ds_TemplateLabels d;
  wired_service : ∃ sel port, ob_Body (serviceAC cfg) = ServiceBody (mkServiceSpec sel [port]) ∧
    sel ⊆ ds_TemplateLabels d ∧
    ∀ c, c ∈ ps_Containers (ds_Pod d) →
      (∃ p, p ∈ co_Ports c ∧ cp_ContainerPort p = sp_TargetPort port) ∧
      (∀ pr, co_LivenessProbe c = Some pr ∨ co_ReadinessProbe c = Some pr →
         po_Port pr = sp_TargetPort port);
  wired_volumes : NoDup (vo_Name <$> ps_Volumes (ds_Pod d)) ∧
    ∀ c, c ∈ ps_Containers (ds_Pod d) →
      (vm_Name <$> co_VolumeMounts c) = (vo_Name <$> ps_Volumes (ds_Pod d));
  wired_account : ∃ role,
    ob_Body (clusterRoleBindingAC cfg) =
      ClusterRoleBindingBody
        [mkSubject "ServiceAccount" (ps_ServiceAccountName (ds_Pod d)) (Namespace cfg)]
        (mkRoleRef "rbac.authorization.k8s.io" "ClusterRole" role) ∧
    om_Name (ob_Meta (serviceAccountAC cfg)) = ps_ServiceAccountName (ds_Pod d) ∧
    om_Namespace (ob_Meta (serviceAccountAC cfg)) = Namespace cfg ∧
    om_Name (ob_Meta clusterRoleAC) = role;
  wired_credentials : ∀ v secret items opt, v ∈ ps_Volumes (ds_Pod d) →
    vo_Source v = SecretSource secret items opt →
    EffectiveOCISecrets cfg ≠ [] ∧ opt = Some true ∧
    ∀ data, ∃ m, ob_Body (ociSecretAC cfg data) =
        SecretBody Credentials.SecretTypeDockerConfigJson m ∧
      om_Name (ob_Meta (ociSecretAC cfg data)) = secret ∧
      ∀ kp, kp ∈ items → m !! kp.1 = Some data;
  wired_mounted : EffectiveOCISecrets cfg ≠ [] →
    ∃ v items opt, v ∈ ps_Volumes (ds_Pod d) ∧
      vo_Source v = SecretSource ManagedSecretName items opt
}.

(** The deployment of a configuration, once its resources are built. *)
Definition dashboard_spec (cfg : Config) (res : ResourceRequirements) : DeploymentSpec :=
  let credentials := bool_decide (EffectiveOCISecrets cfg ≠ []) in
  mkDeploymentSpec (Some 1) SelectorLabels Labels
    (mkPodSpec Name (Some true) (Some 65532) (Some SeccompRuntimeDefault)
       [mkContainer "dashboard" (Image cfg) [mkPort "http" DashboardPort ProtocolTCP]
          ([mkEnvVar "PACTO_DASHBOARD_PORT" "3000"; mkEnvVar "PACTO_NO_UPDATE_CHECK" "1"] ++
           (if bool_decide (WatchNamespace cfg ≠ "")
            then [mkEnvVar "PACTO_WATCH_NAMESPACE" (WatchNamespace cfg)] else []))
          ([mkMount "cache" "/home/pacto/.cache/pacto" false] ++
           (if credentials then [mkMount "oci-creds" "/home/pacto/.docker" true] else []))
          (Some (mkProbe HealthPath DashboardPort 10 30))
          (Some (mkProbe HealthPath DashboardPort 5 10))
          (Some (mkSecurity (Some true) (Some false) ["ALL"])) res]
       ([mkVolume "cache" EmptyDir] ++
        (if credentials then
           [mkVolume "oci-creds" (SecretSource ManagedSecretName
              [(Credentials.DockerConfigJsonKey, "config.json")] (Some true))] else []))
       (Some 10)).

Definition deployment (cfg : Config) (res : ResourceRequirements) : Object :=
  mkObject (mkMeta Name (Namespace cfg) Labels []) (DeploymentBody (dashboard_spec cfg res)).

Lemma nonempty_decide {A} `{EqDecision A} (l : list A) :
  bool_decide (0 < length l)%nat = bool_decide (l ≠ []).
Proof. destruct l; apply bool_decide_ext; cbn; split; intros ?; done || lia. Qed.

Lemma WithLabels_new name ns body :
  WithLabels Labels (new_object name ns body) = mkObject (mkMeta name ns Labels []) body.
Proof. unfold WithLabels, new_object. cbn. by rewrite (right_id_L ∅ (∪)). Qed.

Lemma BuildDeployment_run {S} cfg (s : S) :
  BuildDeployment cfg s = (BuildResources (Resources cfg) ≫= λ res, mret (deployment cfg res)) s.
Proof.
  unfold BuildDeployment, deployment, dashboard_spec. cbv zeta. rewrite nonempty_decide.
  by destruct (bool_decide (EffectiveOCISecrets cfg ≠ [])),
    (bool_decide (WatchNamespace cfg ≠ "")).
Qed.

Lemma deploymentAC_run {S} cfg (s : S) :
  deploymentAC cfg s =
  (BuildResources (Resources cfg) ≫= λ res, mret (with_owner_ref cfg (deployment cfg res))) s.
Proof.
  unfold deploymentAC, deployment, dashboard_spec. cbv zeta. rewrite nonempty_decide.
  destruct (bool_decide (EffectiveOCISecrets cfg ≠ [])),
    (bool_decide (WatchNamespace cfg ≠ "")).
  all: rewrite !M_bind_unfold; destruct (BuildResources (Resources cfg) s) as [[[]|] ?];
    [by rewrite WithLabels_new|done].
Qed.

(** What is applied to the cluster is what the typed constructors, which the
    unit tests examine, describe: each apply configuration is the typed object with the
    owner reference added (none for the cluster-scoped ones), and building the one panics
    exactly when building the other does. *)
Theorem applied_objects_are_built {S} cfg (s : S) :
  serviceAccountAC cfg = with_owner_ref cfg (BuildServiceAccount cfg) ∧
  clusterRoleAC = BuildClusterRole ∧
  clusterRoleBindingAC cfg = BuildClusterRoleBinding cfg ∧
  deploymentAC cfg s =
    (BuildDeployment cfg ≫= λ deploy, mret (with_owner_ref cfg deploy)) s ∧
  serviceAC cfg = with_owner_ref cfg (BuildService cfg).
Proof.
  unfold serviceAccountAC, clusterRoleAC, clusterRoleBindingAC, serviceAC.
  rewrite !WithLabels_new. split_and!; [done..| |done].
  rewrite deploymentAC_run, !M_bind_unfold, BuildDeployment_run, M_bind_unfold.
  by destruct (BuildResources (Resources cfg) s) as [[] ?].
Qed.

Lemma ob_Body_owner cfg o : ob_Body (with_owner_ref cfg o) = ob_Body o.
Proof. unfold with_owner_ref. by destruct (OwnerRef cfg). Qed.

Lemma ob_Meta_owner cfg o :
  om_Name (ob_Meta (with_owner_ref cfg o)) = om_Name (ob_Meta o) ∧
  om_Namespace (ob_Meta (with_owner_ref cfg o)) = om_Namespace (ob_Meta o) ∧
  om_Labels (ob_Meta (with_owner_ref cfg o)) = om_Labels (ob_Meta o).
Proof. unfold with_owner_ref. by destruct (OwnerRef cfg). Qed.

Lemma selector_in_labels : SelectorLabels ⊆ Labels.
Proof. apply (bool_decide_unpack _). by vm_compute. Qed.

Lemma dashboard_spec_wired cfg res : wired cfg (dashboard_spec cfg res).
Proof.
  assert (bool_decide (EffectiveOCISecrets cfg ≠ []) = true → EffectiveOCISecrets cfg ≠ [])
    as Hcreds by apply bool_decide_eq_true_1.
  constructor; unfold dashboard_spec; cbn [ds_MatchLabels ds_TemplateLabels ds_Pod
    ps_Containers ps_Volumes ps_ServiceAccountName].
  - apply selector_in_labels.
  - unfold serviceAC. rewrite ob_Body_owner, WithLabels_new. eexists _, _. split; [done|].
    split; [apply selector_in_labels|]. intros c ->%list_elem_of_singleton. cbn. split.
    + eexists. split; [by apply list_elem_of_singleton|done].
    + by intros pr [[= <-]|[= <-]].
  - split; [|intros c ->%list_elem_of_singleton; cbn; by destruct (bool_decide _)].
    apply (bool_decide_unpack _). by destruct (bool_decide (_ ≠ [])).
  - exists Name. unfold clusterRoleBindingAC, serviceAccountAC, clusterRoleAC.
    rewrite !WithLabels_new. destruct (ob_Meta_owner cfg (mkObject (mkMeta Name (Namespace cfg)
      Labels []) ServiceAccountBody)) as (-> & -> & _). done.
  - intros v secret items opt Hv Hsrc.
    destruct (bool_decide (EffectiveOCISecrets cfg ≠ [])) eqn:E; cbn in Hv;
      rewrite !elem_of_cons, elem_of_nil in Hv; destruct_or?; subst; try done.
    injection Hsrc as <- <- <-. split; [by apply Hcreds|]. split; [done|].
    intros data. unfold ociSecretAC. rewrite WithLabels_new.
    destruct (ob_Meta_owner cfg (mkObject (mkMeta ManagedSecretName (Namespace cfg) Labels [])
      (SecretBody Credentials.SecretTypeDockerConfigJson
         {[Credentials.DockerConfigJsonKey := data]}))) as (-> & _).
    rewrite ob_Body_owner. eexists. split; [done|]. split; [done|].
    intros kp ->%list_elem_of_singleton. apply lookup_singleton_eq.
  - intros Hne. rewrite bool_decide_eq_true_2 by done.
    eexists _, _, _. split; [by right; left|done].
Qed.

Lemma Labels_managed : managed Labels.
Proof. by split; vm_compute. Qed.

Lemma managed_new name ns body :
  managed (om_Labels (ob_Meta (WithLabels Labels (new_object name ns body)))).
Proof. rewrite WithLabels_new. apply Labels_managed. Qed.

Lemma managed_owner cfg name ns body :
  managed (om_Labels (ob_Meta (with_owner_ref cfg (WithLabels Labels (new_object name ns body))))).
Proof.
  destruct (ob_Meta_owner cfg (WithLabels Labels (new_object name ns body))) as (_ & _ & ->).
  apply managed_new.
Qed.

End wiring.

Section accepted.
Context `{UnicodeTables} `{QuantityLaws}.

(** C36 (invariant). The objects fit together for every accepted configuration: the selectors
    of the deployment and the service match the pod's labels, the service's target port is
    the container's and the probes', every mount names one of the volumes, the pod runs as
    the service account that the binding gives the role to, the credentials volume is there
    exactly when OCI secrets are configured and names the managed secret and its key, and
    every applied object carries the labels by which the clean-up recognises it. *)
Theorem dashboard_is_wired {S} cfg data (s : S) :
  ResourcesConfig_Validate (Resources cfg) = None →
  ∃ d res, deploymentAC cfg s =
      (Ret (with_owner_ref cfg (mkObject (mkMeta Name (Namespace cfg) Labels [])
              (DeploymentBody d))), s) ∧
    built (Resources cfg) res ∧
    (λ c, (co_Image c, co_Resources c)) <$> ps_Containers (ds_Pod d) = [(Image cfg, res)] ∧
    wired cfg d ∧
    ∀ o, o ∈ [serviceAccountAC cfg; clusterRoleAC; clusterRoleBindingAC cfg; serviceAC cfg;
              ociSecretAC cfg data; with_owner_ref cfg (deployment cfg res)] →
      managed (om_Labels (ob_Meta o)).
Proof.
  intros Hv%ResourcesConfig_Validate_None.
  destruct (BuildResources_run (Resources cfg) s) as [[Hno _]|(_ & res & Hr & Hb)]; [done|].
  exists (dashboard_spec cfg res), res.
  split; [by rewrite deploymentAC_run, (M_bind_Ret _ _ _ _ _ Hr)|].
  split_and!; [done|done|apply dashboard_spec_wired|].
  assert (managed (om_Labels (ob_Meta (with_owner_ref cfg (deployment cfg res))))) as Hd.
  { destruct (ob_Meta_owner cfg (deployment cfg res)) as (_ & _ & ->). apply Labels_managed. }
  apply Forall_forall. unfold serviceAccountAC, clusterRoleAC, clusterRoleBindingAC, serviceAC,
    ociSecretAC.
  apply Forall_cons_2; [apply managed_owner|].
  do 2 (apply Forall_cons_2; [apply managed_new|]).
  do 2 (apply Forall_cons_2; [apply managed_owner|]).
  apply Forall_cons_2; [exact Hd|apply Forall_nil_2].
Qed.
End accepted.

Lemma dashboard_is_wired_witness :
  ∃ d res, @deploymentAC example_quantities unit example_config tt =
      (Ret (with_owner_ref example_config (mkObject (mkMeta Name "pacto-system" Labels [])
              (DeploymentBody d))), tt) ∧
    @built example_quantities example_resources res ∧
    (λ c, (co_Image c, co_Resources c)) <$> ps_Containers (ds_Pod d) =
      [(Image example_config, res)] ∧
    wired example_config d ∧
    ∀ o, o ∈ [serviceAccountAC example_config; clusterRoleAC;
              clusterRoleBindingAC example_config; serviceAC example_config;
              ociSecretAC example_config "{}";
              with_owner_ref example_config (deployment example_config res)] →
      managed (om_Labels (ob_Meta o)).
Proof.
  apply (@dashboard_is_wired latin1_tables example_quantities example_quantity_laws unit
    example_config "{}" tt). reflexivity.
Defined.

End DashResources.
