(* ===== verification/Dashboard.v ===== *)
(** * The dashboard reconciler

    [internal/dashboard/reconciler.go]: keeps the dashboard's objects applied while the
    feature is enabled and removes them when it is not. The Kubernetes API is an
    interface over the world; building the deployment may panic. *)

From S2P Require Import Prelude GoStrings GoMaps GoFmt Credentials DashConfig DashResources.
From stdpp Require Import options.
#[local] Set Default Proof Using "Type*".

Module Dashboard.
Import DashConfig DashResources.

(** Kind, namespace (empty for cluster-scoped kinds) and name. *)
Abbreviation key := (Kind * string * string)%type.

Definition key_of `{!QuantityParser} (o : Object) : key :=
  (kind_of o, om_Namespace (ob_Meta o), om_Name (ob_Meta o)).

(** The calls of [client.Client] the reconciler makes: a read whose labels are looked at, a
    read of a source secret, and the writes. [Apply] is a forced server-side apply. *)
Class DashClient `{!QuantityParser} (W : Type) := {
  Get_Labels : key → W → result (gmap string string);
  Get_Source : string → string → W → result Credentials.Secret;
  Create : Object → W → option error * W;
  Apply : Object → W → option error * W;
  Delete : key → W → option error * W
}.

Definition minute : Z := 60 * 1000000000.

Section reconciler.
Context `{UnicodeTables} `{GoMaps} `{Credentials.DockerConfigCodec}.
Context `{!QuantityParser} {W : Type} `{!DashClient W} (cfg : Config).

(** [ensureNamespace]. *)
Definition namespace_object : Object :=
  mkObject (mkMeta (Namespace cfg) "" Labels []) NamespaceBody.

Definition ensureNamespace : M W (option error) :=
  got ← gets (Get_Labels (KNamespace, "", Namespace cfg));
  match got with
  | Ok _ => mret None
  | Err err =>
      if negb (IsNotFound err) then mret (Some err) else lift_op (Create namespace_object)
  end.

(** [reconcileServiceAccount], [reconcileClusterRole], [reconcileClusterRoleBinding],
    [reconcileDeployment] and [reconcileService]. *)
Definition reconcileServiceAccount : M W (option error) :=
  lift_op (Apply (serviceAccountAC cfg)).
Definition reconcileClusterRole : M W (option error) := lift_op (Apply clusterRoleAC).
Definition reconcileClusterRoleBinding : M W (option error) :=
  lift_op (Apply (clusterRoleBindingAC cfg)).
Definition reconcileDeployment : M W (option error) :=
  deploy ← deploymentAC cfg; lift_op (Apply deploy).
Definition reconcileService : M W (option error) := lift_op (Apply (serviceAC cfg)).

(** The loop that reads the source secrets. *)
Fixpoint read_sources (names : list string) (w : W) : result (list Credentials.Secret) :=
  match names with
  | [] => Ok []
  | name :: names =>
      match Get_Source (Namespace cfg) name w with
      | Err err => Err (Wrap ("reading OCI secret " +:+ Quote name +:+ ": ") err)
      | Ok secret => sources ← read_sources names w; Ok (secret :: sources)
      end
  end.

Definition managed_secret : key := (KSecret, Namespace cfg, ManagedSecretName).

(** [reconcileOCICredentials]. *)
Definition reconcileOCICredentials : M W (option error) :=
  let secretNames := EffectiveOCISecrets cfg in
  if bool_decide (length secretNames = 0%nat) then
    got ← gets (Get_Labels managed_secret);
    match got with
    | Err err => mret (if IsNotFound err then None else Some err)
    | Ok _ => lift_op (Delete managed_secret)
    end
  else
    sources ← gets (read_sources secretNames);
    match sources with
    | Err err => mret (Some err)
    | Ok sources =>
        match Credentials.MergeToDockerConfigJSON sources with
        | Err err => mret (Some (Wrap "merging OCI credentials: " err))
        | Ok merged => lift_op (Apply (ociSecretAC cfg merged))
        end
    end.

(** The objects of [cleanup], in the order of their removal. *)
Definition cleanup_keys : list (string * key) :=
  [("Service", (KService, Namespace cfg, Name));
   ("Deployment", (KDeployment, Namespace cfg, Name));
   ("Secret", managed_secret);
   ("ClusterRoleBinding", (KClusterRoleBinding, "", Name));
   ("ClusterRole", (KClusterRole, "", Name));
   ("ServiceAccount", (KServiceAccount, Namespace cfg, Name))].

Definition has_management_labels (labels : gmap string string) : bool :=
  negb (bool_decide (default "" (labels !! LabelManagedBy) ≠ ManagedByValue) ||
        bool_decide (default "" (labels !! LabelComponent) ≠ ComponentValue)).

(** The loop of [cleanup]. *)
Fixpoint cleanup_loop (resources : list (string * key)) : M W (option error) :=
  match resources with
  | [] => mret None
  | (name, k) :: resources =>
      got ← gets (Get_Labels k);
      match got with
      | Err err =>
          if IsNotFound err then cleanup_loop resources
          else mret (Some (Wrap ("failed to get " +:+ name +:+ ": ") err))
      | Ok labels =>
          if negb (has_management_labels labels) then cleanup_loop resources
          else
            deleted ← lift_op (Delete k);
            match deleted with
            | Some err =>
                if negb (IsNotFound err)
                then mret (Some (Wrap ("failed to delete " +:+ name +:+ ": ") err))
                else cleanup_loop resources
            | None => cleanup_loop resources
            end
      end
  end.

(** [cleanup]. *)
Definition cleanup : M W (option error) := cleanup_loop cleanup_keys.

(** [if err := step; err != nil { return ctrl.Result{}, fmt.Errorf(prefix + "%w", err) }]. *)
Definition or_fail (prefix : string) (step : M W (option error))
    (rest : M W (Z * option error)) : M W (Z * option error) :=
  err ← step;
  match err with
  | Some e => mret (0, Some (Wrap prefix e))
  | None => rest
  end.

(** [Reconciler.Reconcile]: the delay it asks for, which [Start] ignores, and the error. *)
Definition Reconcile : M W (Z * option error) :=
  if negb (Enabled cfg) then
    err ← cleanup;
    match err with
    | Some e => mret (minute, Some e)
    | None => mret (0, None)
    end
  else
    or_fail "namespace: " ensureNamespace
    (or_fail "service account: " reconcileServiceAccount
    (or_fail "cluster role: " reconcileClusterRole
    (or_fail "cluster role binding: " reconcileClusterRoleBinding
    (or_fail "oci credentials: " reconcileOCICredentials
    (or_fail "deployment: " reconcileDeployment
    (or_fail "service: " reconcileService
    (mret (5 * minute, None)))))))).

(** What wakes [Start] up: the ticker, with what others did to the world meanwhile, or
    the end of its context. *)
Inductive signal := Tick (meanwhile : W → W) | Done.

(** The loop of [Start]; [None] while it waits for the next signal. *)
Fixpoint tick_loop (signals : list signal) : M W (option (option error)) :=
  match signals with
  | [] => mret None
  | Done :: _ => mret (Some None)
  | Tick meanwhile :: signals =>
      modify meanwhile ≫= λ _, Reconcile ≫= λ _, tick_loop signals
  end.

(** [Reconciler.Start]. *)
Definition Start (signals : list signal) : M W (option (option error)) :=
  first ← Reconcile;
  match first.2 with
  | Some err => mret (Some (Some (Wrap "initial dashboard reconciliation failed: " err)))
  | None => if Enabled cfg then tick_loop signals else mret (Some None)
  end.
End reconciler.

(** ** What the API promises *)

(** An object in the state of the cluster, and whether it is being deleted (a foreground
    deletion keeps it until its dependents are gone). *)
Abbreviation entry := (option (Object * bool)).

Definition terminating `{!QuantityParser} (e : entry) : bool :=
  match e with Some (_, t) => t | None => false end.

(** The documented behaviour of the API. [conforms o o'] says that the stored object [o']
    has the fields [o] configures (the server fills in defaults, other managers own other
    fields), in particular its labels. A read shows what is stored (an idealisation where
    the client reads from a cache that lags behind); a write that succeeds has its effect on
    the one object named, and one that fails may have had it. *)
Class DashLaws (W : Type) `{!QuantityParser} `{!DashClient W} := {
  stored : W → gmap key (Object * bool);
  conforms : Object → Object → Prop;
  labels_found k w l : Get_Labels k w = Ok l →
    ∃ o t, stored w !! k = Some (o, t) ∧ om_Labels (ob_Meta o) = l;
  labels_missing k w e : Get_Labels k w = Err e → IsNotFound e = true → stored w !! k = None;
  create_effect o w r w' : Create o w = (r, w') →
    r ≠ None ∧ stored w' = stored w ∨
    stored w !! key_of o = None ∧
      ∃ o', conforms o o' ∧ stored w' = <[key_of o := (o', false)]> (stored w);
  apply_effect o w r w' : Apply o w = (r, w') →
    r ≠ None ∧ stored w' = stored w ∨
    ∃ o', conforms o o' ∧
      stored w' = <[key_of o := (o', terminating (stored w !! key_of o))]> (stored w);
  delete_effect k w r w' : Delete k w = (r, w') →
    r ≠ None ∧ stored w' = stored w ∨
    ∃ o t, stored w !! k = Some (o, t) ∧
      (stored w' = delete k (stored w) ∨ stored w' = <[k := (o, true)]> (stored w));
  delete_missing k w e w' : Delete k w = (Some e, w') → IsNotFound e = true →
    stored w' !! k = None
}.

(** ** Specification *)

Section proofs.
Context `{UnicodeTables} `{GoMaps} `{Credentials.DockerConfigCodec}.
Context `{!QuantityParser} `{!QuantityLaws} {W : Type} `{!DashClient W} `{!DashLaws W}.
Implicit Types (w : W) (cfg : Config).

(** The objects outside [ks] are as they were. *)
Definition touches (ks : list key) w w' : Prop :=
  ∀ k, k ∉ ks → stored w' !! k = stored w !! k.

Lemma touches_refl ks w : touches ks w w.
Proof. by intros k _. Qed.

Lemma touches_trans ks w1 w2 w3 : touches ks w1 w2 → touches ks w2 w3 → touches ks w1 w3.
Proof. intros H12 H23 k Hk. by rewrite H23, H12. Qed.

Lemma touches_mono ks ks' w w' : ks ⊆ ks' → touches ks w w' → touches ks' w w'.
Proof. intros Hsub Ht k Hk. apply Ht. set_solver. Qed.

Lemma touches_insert k w w' x : stored w' = <[k := x]> (stored w) → touches [k] w w'.
Proof. intros Hs k' Hk'. rewrite Hs. apply lookup_insert_ne. set_solver. Qed.

(** *** Steps in sequence *)

(** A step on one object: it returns, touches nothing else, and on success leaves the
    object as [after] says. *)
Record step_spec := mkStep {
  sp_prefix : string;
  sp_step : M W (option error);
  sp_key : key;
  sp_after : entry → Prop }.

Definition step_ok (st : step_spec) : Prop :=
  ∀ w, ∃ r w', sp_step st w = (Ret r, w') ∧ touches [sp_key st] w w' ∧
    (r = None → sp_after st (stored w' !! sp_key st)).

Definition chain (steps : list step_spec) (final : M W (Z * option error))
    : M W (Z * option error) :=
  foldr (λ st rest, or_fail (sp_prefix st) (sp_step st) rest) final steps.

(** A sequence of steps on different objects runs to its end, all of them done, or stops at
    the first that fails: the ones before it are done, the ones after it not begun. *)
Record chain_result (steps : list step_spec) w (r : Z * option error) w' : Prop := {
  cr_touches : touches (sp_key <$> steps) w w';
  cr_done : r.2 = None → r.1 = 5 * minute ∧
    ∀ st, st ∈ steps → sp_after st (stored w' !! sp_key st);
  cr_failed e : r.2 = Some e → r.1 = 0 ∧ ∃ pre st post e',
    steps = pre ++ st :: post ∧ e = Wrap (sp_prefix st) e' ∧
    (∀ st', st' ∈ pre → sp_after st' (stored w' !! sp_key st')) ∧
    touches (sp_key <$> pre ++ [st]) w w'
}.

Lemma chain_run steps w :
  Forall step_ok steps → NoDup (sp_key <$> steps) →
  ∃ r w', chain steps (mret (5 * minute, None)) w = (Ret r, w') ∧ chain_result steps w r w'.
Proof.
  revert w. induction steps as [|st steps IH]; intros w Hok Hnd.
  { exists (5 * minute, None), w. split; [done|].
    constructor; [apply touches_refl| |done]. intros _. split; [done|].
    by intros st ?%elem_of_nil. }
  apply Forall_cons in Hok as [Hst Hok]. rewrite fmap_cons in Hnd.
  apply NoDup_cons in Hnd as [Hnot Hnd].
  cbn [chain foldr]. fold (chain steps (mret (5 * minute, None))). unfold or_fail at 1.
  destruct (Hst w) as (r1 & w1 & Hrun & Ht1 & Hafter). rewrite (M_bind_Ret _ _ _ _ _ Hrun).
  destruct r1 as [e1|].
  - exists (0, Some (Wrap (sp_prefix st) e1)), w1. split; [done|]. constructor; [|done|].
    + eapply touches_mono; [|exact Ht1]. set_solver.
    + intros e [= <-]. split; [done|]. exists [], st, steps, e1. split_and!; [done|done| |done].
      by intros st' ?%elem_of_nil.
  - destruct (IH w1 Hok Hnd) as (r & w' & -> & [Ht Hdone Hfail]).
    assert (stored w' !! sp_key st = stored w1 !! sp_key st) as Hkeep by by apply Ht.
    exists r, w'. split; [done|]. constructor.
    + eapply touches_trans; eapply touches_mono; [|exact Ht1| |exact Ht]; set_solver.
    + intros Hr. destruct (Hdone Hr) as [? Hall]. split; [done|].
      intros st' [->|Hin]%elem_of_cons; [|by apply Hall]. rewrite Hkeep. by apply Hafter.
    + intros e Hr. destruct (Hfail e Hr) as (? & pre & st1 & post & e' & -> & -> & Hpre & Htp).
      split; [done|]. exists (st :: pre), st1, post, e'. split_and!; [done|done| |].
      * intros st' [->|Hin]%elem_of_cons; [|by apply Hpre]. rewrite Hkeep. by apply Hafter.
      * eapply touches_trans; eapply touches_mono; [|exact Ht1| |exact Htp]; set_solver.
Qed.

(** *** The steps of the reconciler *)

Definition applied (o : Object) (e : entry) : Prop :=
  ∃ o' t, e = Some (o', t) ∧ conforms o o'.

Lemma key_of_owner cfg o : key_of (with_owner_ref cfg o) = key_of o.
Proof. unfold with_owner_ref. by destruct (OwnerRef cfg). Qed.

Lemma apply_run o w :
  ∃ r w', lift_op (Apply o) w = (Ret r, w') ∧ touches [key_of o] w w' ∧
    (r = None → applied o (stored w' !! key_of o)).
Proof.
  unfold lift_op. destruct (Apply o w) as [r w'] eqn:E. cbn.
  exists r, w'. split; [done|].
  destruct (apply_effect _ _ _ _ E) as [[Hr Hs]|(o' & Hc & Hs)]; rewrite ?Hs.
  - split; [|done]. intros k _. by rewrite Hs.
  - split; [by eapply touches_insert|]. intros _. rewrite lookup_insert_eq.
    by exists o', (terminating (stored w !! key_of o)).
Qed.

Lemma apply_run_at o k w :
  key_of o = k →
  ∃ r w', lift_op (Apply o) w = (Ret r, w') ∧ touches [k] w w' ∧
    (r = None → applied o (stored w' !! k)).
Proof. intros <-. apply apply_run. Qed.

Lemma delete_run k w :
  ∃ r w', lift_op (Delete k) w = (Ret r, w') ∧ touches [k] w w' ∧
    (r = None → stored w' !! k = None ∨ ∃ o, stored w' !! k = Some (o, true)) ∧
    (∀ e, r = Some e → IsNotFound e = true → stored w' !! k = None).
Proof.
  unfold lift_op. destruct (Delete k w) as [r w'] eqn:E. cbn.
  exists r, w'. split; [done|].
  assert (∀ e, r = Some e → IsNotFound e = true → stored w' !! k = None) as Hgone
    by (intros e -> He; by apply (delete_missing k w e)).
  destruct (delete_effect _ _ _ _ E) as [[Hr Hs]|(o & t & Ho & [Hs|Hs])].
  - split_and!; [|done|done]. intros k' _. by rewrite Hs.
  - split_and!; [|intros _; left; by rewrite Hs, lookup_delete_eq|done].
    intros k' Hk'. rewrite Hs. apply lookup_delete_ne. set_solver.
  - split_and!; [by eapply touches_insert| |done]. intros _. right. exists o.
    by rewrite Hs, lookup_insert_eq.
Qed.

Lemma ensureNamespace_run cfg w :
  ∃ r w', ensureNamespace cfg w = (Ret r, w') ∧
    touches [(KNamespace, "", Namespace cfg)] w w' ∧
    (is_Some (stored w !! (KNamespace, "", Namespace cfg)) → stored w' = stored w) ∧
    (r = None → is_Some (stored w' !! (KNamespace, "", Namespace cfg))).
Proof.
  unfold ensureNamespace. rewrite M_bind_unfold. cbn [gets].
  destruct (Get_Labels (KNamespace, "", Namespace cfg) w) as [l|e] eqn:E.
  - exists None, w. split_and!; [done|apply touches_refl|done|]. intros _.
    destruct (labels_found _ _ _ E) as (o & t & -> & _). by eexists.
  - destruct (IsNotFound e) eqn:He; cbn [negb].
    + pose proof (labels_missing _ _ _ E He) as Hnone. unfold lift_op.
      destruct (Create (namespace_object cfg) w) as [r w'] eqn:Ec. cbn.
      exists r, w'. split; [done|].
      destruct (create_effect _ _ _ _ Ec) as [[Hr Hs]|(Hno & o' & _ & Hs)].
      * split_and!; [intros k _; by rewrite Hs|by rewrite Hnone; intros []|done].
      * split_and!; [by eapply touches_insert|by rewrite Hnone; intros []|].
        intros _. rewrite Hs. unfold key_of, namespace_object. cbn.
        rewrite lookup_insert_eq. by eexists.
    + exists (Some e), w. by split_and!; [|apply touches_refl|..].
Qed.

(** The managed secret after a successful step: gone (or going) without OCI secrets, and
    else carrying the merged credentials of the sources as they were read. *)
Definition credentials_after cfg (e : entry) : Prop :=
  match EffectiveOCISecrets cfg with
  | [] => e = None ∨ ∃ o, e = Some (o, true)
  | names => ∃ w1 sources merged, read_sources cfg names w1 = Ok sources ∧
      Credentials.MergeToDockerConfigJSON sources = Ok merged ∧
      applied (ociSecretAC cfg merged) e
  end.

Lemma reconcileOCICredentials_run cfg w :
  ∃ r w', reconcileOCICredentials cfg w = (Ret r, w') ∧ touches [managed_secret cfg] w w' ∧
    (r = None → credentials_after cfg (stored w' !! managed_secret cfg)).
Proof.
  unfold reconcileOCICredentials, credentials_after. cbv zeta.
  destruct (EffectiveOCISecrets cfg) as [|n ns].
  - rewrite (bool_decide_eq_true_2 (length [] = 0%nat)) by done.
    rewrite M_bind_unfold. cbn [gets].
    destruct (Get_Labels (managed_secret cfg) w) as [l|e] eqn:E.
    + destruct (delete_run (managed_secret cfg) w) as (r & w' & -> & Ht & Hr & _). by eexists _, _.
    + eexists _, w. split; [done|]. split; [apply touches_refl|].
      destruct (IsNotFound e) eqn:He; [|done]. intros _. left.
      by apply (labels_missing _ _ _ E).
  - rewrite (bool_decide_eq_false_2 (length (n :: ns) = 0%nat)) by done.
    rewrite M_bind_unfold. cbn [gets].
    destruct (read_sources cfg (n :: ns) w) as [sources|e] eqn:Er;
      [|eexists _, w; by split_and!; [|apply touches_refl|]].
    destruct (Credentials.MergeToDockerConfigJSON sources) as [merged|e] eqn:Em;
      [|eexists _, w; by split_and!; [|apply touches_refl|]].
    destruct (apply_run (ociSecretAC cfg merged) w) as (r & w' & -> & Ht & Hr).
    unfold ociSecretAC in Ht, Hr at 2. rewrite key_of_owner in Ht, Hr.
    exists r, w'. split_and!; [done|done|]. intros Hn. exists w, sources, merged.
    split_and!; [done|done|]. by apply Hr.
Qed.

Definition deployment_after cfg (e : entry) : Prop :=
  ∃ res, built (Resources cfg) res ∧ applied (with_owner_ref cfg (deployment cfg res)) e.

Lemma reconcileDeployment_run cfg w :
  ResourcesConfig_Validate (Resources cfg) = None →
  ∃ r w', reconcileDeployment cfg w = (Ret r, w') ∧
    touches [(KDeployment, Namespace cfg, Name)] w w' ∧
    (r = None → deployment_after cfg (stored w' !! (KDeployment, Namespace cfg, Name))).
Proof.
  intros Hv%ResourcesConfig_Validate_None.
  destruct (BuildResources_run (Resources cfg) w) as [[Hno _]|(_ & res & Hr & Hb)]; [done|].
  unfold reconcileDeployment. rewrite M_bind_unfold, deploymentAC_run.
  rewrite (M_bind_Ret _ _ _ _ _ Hr).
  change (mret (M := M W) (with_owner_ref cfg (deployment cfg res)) w) with
    (Ret (with_owner_ref cfg (deployment cfg res)), w). cbv beta iota.
  destruct (apply_run (with_owner_ref cfg (deployment cfg res)) w) as (r & w' & -> & Ht & Ha).
  rewrite key_of_owner in Ht, Ha. exists r, w'. split_and!; [done|done|].
  intros Hn. exists res. split; [done|]. by apply Ha.
Qed.

Definition reconcile_steps cfg : list step_spec := [
  mkStep "namespace: " (ensureNamespace cfg) (KNamespace, "", Namespace cfg) is_Some;
  mkStep "service account: " (reconcileServiceAccount cfg)
    (KServiceAccount, Namespace cfg, Name) (applied (serviceAccountAC cfg));
  mkStep "cluster role: " reconcileClusterRole (KClusterRole, "", Name) (applied clusterRoleAC);
  mkStep "cluster role binding: " (reconcileClusterRoleBinding cfg)
    (KClusterRoleBinding, "", Name) (applied (clusterRoleBindingAC cfg));
  mkStep "oci credentials: " (reconcileOCICredentials cfg) (managed_secret cfg)
    (credentials_after cfg);
  mkStep "deployment: " (reconcileDeployment cfg) (KDeployment, Namespace cfg, Name)
    (deployment_after cfg);
  mkStep "service: " (reconcileService cfg) (KService, Namespace cfg, Name)
    (applied (serviceAC cfg))].

Lemma Reconcile_enabled cfg :
  Enabled cfg = true →
  Reconcile cfg = chain (reconcile_steps cfg) (mret (5 * minute, None)).
Proof. intros He. unfold Reconcile. by rewrite He. Qed.

Lemma steps_ok cfg :
  ResourcesConfig_Validate (Resources cfg) = None → Forall step_ok (reconcile_steps cfg).
Proof.
  intros Hv. unfold reconcile_steps.
  repeat (apply Forall_cons; split); [..|by apply Forall_nil]; intros w; cbn.
  - destruct (ensureNamespace_run cfg w) as (r & w' & ? & ? & _ & ?). by exists r, w'.
  - by apply (apply_run_at (serviceAccountAC cfg)), key_of_owner.
  - by apply (apply_run_at clusterRoleAC).
  - by apply (apply_run_at (clusterRoleBindingAC cfg)).
  - apply reconcileOCICredentials_run.
  - by apply reconcileDeployment_run.
  - by apply (apply_run_at (serviceAC cfg)), key_of_owner.
Qed.

(** *** Clean-up *)

Definition labels_of (e : entry) : gmap string string :=
  match e with Some (o, _) => om_Labels (ob_Meta o) | None => ∅ end.

Lemma has_management_labels_spec labels :
  has_management_labels labels = true ↔ managed labels.
Proof.
  unfold has_management_labels, managed.
  rewrite negb_true_iff, orb_false_iff, !bool_decide_eq_false.
  destruct (labels !! LabelManagedBy) as [a|], (labels !! LabelComponent) as [b|]; cbn.
  - split; [intros [Ha Hb]; split; f_equal; by apply dec_stable|].
    intros [[= ->] [= ->]]. by split; intros [].
  - split; [intros [_ []]; by vm_compute|by intros [_ ?]].
  - split; [intros [[] _]; by vm_compute|by intros [? _]].
  - split; [intros [[] _]; by vm_compute|by intros [? _]].
Qed.

(** After a successful clean-up: absent, on its way out, or not the operator's. *)
Definition removed (e : entry) : Prop :=
  e = None ∨ terminating e = true ∨ ¬ managed (labels_of e).

(** What a pass over the objects [ks] keeps, and what it achieves. *)
Record cleanup_result (ks : list key) w (r : option error) w' : Prop := {
  cl_keeps k : k ∉ ks ∨ ¬ managed (labels_of (stored w !! k)) →
    stored w' !! k = stored w !! k;
  cl_done k : r = None → k ∈ ks → removed (stored w' !! k)
}.

(** The object [k] was dealt with, and the rest of the loop follows. *)
Lemma cleanup_next ks k w w1 r w' :
  k ∉ ks → touches [k] w w1 →
  (¬ managed (labels_of (stored w !! k)) → stored w1 !! k = stored w !! k) →
  removed (stored w1 !! k) →
  cleanup_result ks w1 r w' → cleanup_result (k :: ks) w r w'.
Proof.
  intros Hnot Ht Hman Hrem [Hkeep Hdone].
  assert (stored w' !! k = stored w1 !! k) as Hk by (apply Hkeep; by left).
  constructor.
  - intros k' Hk'. destruct (decide (k' = k)) as [->|Hkk].
    + rewrite Hk. apply Hman. destruct Hk' as [Hk'|?]; [|done]. destruct Hk'. by left.
    + assert (stored w1 !! k' = stored w !! k') as Hw1 by (apply Ht; set_solver).
      rewrite <- Hw1 in Hk' |- *. apply Hkeep.
      destruct Hk' as [Hk'|?]; [left; set_solver|by right].
  - intros k' Hr [->|Hin]%elem_of_cons; [by rewrite Hk|by apply Hdone].
Qed.

(** The loop stops at [k]. *)
Lemma cleanup_stop ks k w w1 e :
  touches [k] w w1 →
  (¬ managed (labels_of (stored w !! k)) → stored w1 !! k = stored w !! k) →
  cleanup_result (k :: ks) w (Some e) w1.
Proof.
  intros Ht Hman. constructor; [|done]. intros k' Hk'.
  destruct (decide (k' = k)) as [->|Hkk]; [|apply Ht; set_solver].
  apply Hman. destruct Hk' as [Hk'|?]; [|done]. destruct Hk'. by left.
Qed.

Lemma cleanup_loop_run rs w :
  NoDup rs.*2 →
  ∃ r w', cleanup_loop rs w = (Ret r, w') ∧ cleanup_result rs.*2 w r w'.
Proof.
  revert w. induction rs as [|[name k] rs IH]; intros w Hnd.
  { exists None, w. split; [done|]. constructor; [done|]. by intros k _ ?%elem_of_nil. }
  rewrite fmap_cons in Hnd |- *. cbn [snd] in *. apply NoDup_cons in Hnd as [Hnot Hnd].
  assert (∀ w1, touches [k] w w1 →
    (¬ managed (labels_of (stored w !! k)) → stored w1 !! k = stored w !! k) →
    removed (stored w1 !! k) →
    ∃ r w', cleanup_loop rs w1 = (Ret r, w') ∧ cleanup_result (k :: rs.*2) w r w') as Hnext.
  { intros w1 Ht Hman Hrem. destruct (IH w1 Hnd) as (r & w' & Hrun & Hres).
    exists r, w'. split; [done|]. by apply (cleanup_next _ _ _ w1). }
  cbn [cleanup_loop]. rewrite M_bind_unfold. cbn [gets].
  destruct (Get_Labels k w) as [l|e] eqn:E.
  - destruct (labels_found _ _ _ E) as (o & t & Ho & <-).
    destruct (has_management_labels _) eqn:Hm; cbn [negb].
    + apply has_management_labels_spec in Hm.
      assert (managed (labels_of (stored w !! k))) as Hman by by rewrite Ho.
      rewrite M_bind_unfold.
      destruct (delete_run k w) as (r & w1 & -> & Ht & Hr & Hgone).
      destruct r as [e|]; [destruct (IsNotFound e) eqn:He; cbn [negb]|].
      * apply Hnext; [done|done|]. left. by apply (Hgone e).
      * eexists _, _. split; [done|]. by apply cleanup_stop.
      * apply Hnext; [done|done|]. unfold removed.
        destruct (Hr eq_refl) as [-> |[o' ->]]; cbn; tauto.
    + apply Hnext; [apply touches_refl|done|]. right. right. rewrite Ho. cbn.
      by rewrite <- has_management_labels_spec, Hm.
  - destruct (IsNotFound e) eqn:He.
    + apply Hnext; [apply touches_refl|done|]. left. by apply (labels_missing _ _ e).
    + eexists _, _. split; [done|]. apply cleanup_stop; [apply touches_refl|done].
Qed.

(** *** The reconciler *)

(** The dashboard as configured is in the cluster. *)
Record deployed cfg w : Prop := {
  dep_namespace : is_Some (stored w !! (KNamespace, "", Namespace cfg));
  dep_account : applied (serviceAccountAC cfg)
    (stored w !! (KServiceAccount, Namespace cfg, Name));
  dep_role : applied clusterRoleAC (stored w !! (KClusterRole, "", Name));
  dep_binding : applied (clusterRoleBindingAC cfg)
    (stored w !! (KClusterRoleBinding, "", Name));
  dep_credentials : credentials_after cfg (stored w !! managed_secret cfg);
  dep_deployment : deployment_after cfg (stored w !! (KDeployment, Namespace cfg, Name));
  dep_service : applied (serviceAC cfg) (stored w !! (KService, Namespace cfg, Name))
}.

Definition managed_keys cfg : list key := sp_key <$> reconcile_steps cfg.

Lemma steps_deployed cfg w :
  (∀ st, st ∈ reconcile_steps cfg → sp_after st (stored w !! sp_key st)) → deployed cfg w.
Proof.
  unfold reconcile_steps. intros Hall. rewrite <- Forall_forall in Hall.
  rewrite !Forall_cons in Hall. destruct Hall as (? & ? & ? & ? & ? & ? & ? & _).
  by constructor.
Qed.

Lemma managed_keys_NoDup cfg : NoDup (managed_keys cfg).
Proof.
  apply (NoDup_fmap_1 (fst ∘ fst)). apply (bool_decide_unpack _). by vm_compute.
Qed.

Lemma Reconcile_enabled_run cfg w :
  Enabled cfg = true → ResourcesConfig_Validate (Resources cfg) = None →
  ∃ r w', Reconcile cfg w = (Ret r, w') ∧ chain_result (reconcile_steps cfg) w r w'.
Proof.
  intros He Hv. rewrite Reconcile_enabled by done.
  apply chain_run; [by apply steps_ok|apply managed_keys_NoDup].
Qed.

(** C15 (functional). With the dashboard enabled and its resources accepted, a reconcile never
    panics. If it reports no error the whole dashboard is in the cluster as configured. If it
    reports one, the message names the step that failed: the objects of the steps before it
    are in place, and those of the steps after it have not been touched. Nothing is touched
    under any other key than the seven of the dashboard (under these seven an object that
    somebody else put there is overwritten or, as the managed Secret, deleted). *)
Theorem Reconcile_deploys cfg w :
  Enabled cfg = true → ResourcesConfig_Validate (Resources cfg) = None →
  ∃ d e w', Reconcile cfg w = (Ret (d, e), w') ∧ touches (managed_keys cfg) w w' ∧
    match e with
    | None => d = 5 * minute ∧ deployed cfg w'
    | Some err => ∃ before failed after cause,
        reconcile_steps cfg = before ++ failed :: after ∧
        err = Wrap (sp_prefix failed) cause ∧
        (∀ st, st ∈ before → sp_after st (stored w' !! sp_key st)) ∧
        ∀ st, st ∈ after → stored w' !! sp_key st = stored w !! sp_key st
    end.
Proof.
  intros He Hv. destruct (Reconcile_enabled_run cfg w He Hv) as ([d e] & w' & Hrun & Hres).
  exists d, e, w'. split; [done|]. split; [apply (cr_touches _ _ _ _ Hres)|].
  destruct e as [err|].
  - destruct (cr_failed _ _ _ _ Hres err eq_refl)
      as (_ & before & st & after & cause & Hs & -> & Hbefore & Ht).
    exists before, st, after, cause. split_and!; [done..|]. intros st' Hin. apply Ht.
    pose proof (managed_keys_NoDup cfg) as Hnd. unfold managed_keys in Hnd.
    rewrite Hs, fmap_app, fmap_cons in Hnd. rewrite fmap_app. cbn.
    apply NoDup_app in Hnd as (_ & Hdisj & [Hst _]%NoDup_cons).
    assert (sp_key st' ∈ sp_key <$> after) as Hafter by by apply list_elem_of_fmap_2.
    rewrite elem_of_app, list_elem_of_singleton. intros [Hb|Heq]; [|congruence].
    apply (Hdisj _ Hb). by right.
  - destruct (cr_done _ _ _ _ Hres eq_refl) as [Hd Hall]. split; [done|].
    by apply steps_deployed.
Qed.

Lemma cleanup_run cfg w :
  ∃ r w', cleanup cfg w = (Ret r, w') ∧ cleanup_result (cleanup_keys cfg).*2 w r w'.
Proof.
  apply cleanup_loop_run. apply (NoDup_fmap_1 (fst ∘ fst)).
  apply (bool_decide_unpack _). by vm_compute.
Qed.

Lemma Reconcile_disabled cfg w :
  Enabled cfg = false →
  ∃ r w', Reconcile cfg w = (Ret (match r with Some _ => minute | None => 0 end, r), w') ∧
    cleanup_result (cleanup_keys cfg).*2 w r w'.
Proof.
  intros He. destruct (cleanup_run cfg w) as (r & w' & Hrun & Hres).
  exists r, w'. split; [|done]. unfold Reconcile. rewrite He. cbn [negb].
  rewrite (M_bind_Ret _ _ _ _ _ Hrun). by destruct r.
Qed.

(** C14 (safety). The clean-up of a disabled dashboard never panics and deletes only objects
    under the dashboard's six names that carry the operator's management labels when they
    are read, provided a read shows what is stored: whatever else is in the cluster, also
    under these names, stays as it is, the namespace included. When it reports no error,
    each of the six is gone, on its way out, or not the operator's. *)
Theorem cleanup_deletes_only_managed cfg w :
  Enabled cfg = false →
  ∃ d e w', Reconcile cfg w = (Ret (d, e), w') ∧
    (∀ k, k ∉ (cleanup_keys cfg).*2 ∨ ¬ managed (labels_of (stored w !! k)) →
       stored w' !! k = stored w !! k) ∧
    match e with
    | None => d = 0 ∧ ∀ k, k ∈ (cleanup_keys cfg).*2 → removed (stored w' !! k)
    | Some _ => d = minute
    end.
Proof.
  intros He. destruct (Reconcile_disabled cfg w He) as (r & w' & Hrun & [Hkeep Hdone]).
  eexists _, r, w'. split; [done|]. split; [done|]. destruct r; [done|].
  split; [done|]. intros k Hk. by apply Hdone.
Qed.

(** *** The loop *)

Lemma tick_loop_run cfg signals w :
  Enabled cfg = true → ResourcesConfig_Validate (Resources cfg) = None →
  ∃ r w', tick_loop cfg signals w = (Ret r, w') ∧
    (Done ∈ signals → r = Some None) ∧ (Done ∉ signals → r = None).
Proof.
  intros He Hv. revert w. induction signals as [|[f|] signals IH]; intros w; cbn [tick_loop].
  - exists None, w. split_and!; [done|by intros ?%elem_of_nil|done].
  - destruct (Reconcile_enabled_run cfg (f w) He Hv) as (r1 & w1 & Hrun & _).
    destruct (IH w1) as (r & w' & Hloop & Hdone & Hnot).
    exists r, w'. split.
    + rewrite M_bind_unfold. cbn [modify]. by rewrite (M_bind_Ret _ _ _ _ _ Hrun).
    + split; intros Hs; [apply Hdone|apply Hnot]; set_solver.
  - exists (Some None), w. split_and!; [done|done|]. intros Hno. destruct Hno. by left.
Qed.

(** C34 (termination). With the dashboard enabled and its resources accepted, [Start] returns
    an error exactly when the first reconcile fails; otherwise it keeps running, whatever
    later reconciles report, until its context is done, and then returns without an
    error. *)
Theorem Start_ends_with_its_context cfg signals w :
  Enabled cfg = true → ResourcesConfig_Validate (Resources cfg) = None →
  ∃ d e w1, Reconcile cfg w = (Ret (d, e), w1) ∧
    match e with
    | Some err => Start cfg signals w =
        (Ret (Some (Some (Wrap "initial dashboard reconciliation failed: " err))), w1)
    | None => ∃ r w', Start cfg signals w = (Ret r, w') ∧
        (Done ∈ signals → r = Some None) ∧ (Done ∉ signals → r = None)
    end.
Proof.
  intros He Hv. destruct (Reconcile_enabled_run cfg w He Hv) as ([d e] & w1 & Hrun & _).
  exists d, e, w1. split; [done|]. unfold Start. rewrite (M_bind_Ret _ _ _ _ _ Hrun). cbn [snd].
  destruct e as [err|]; [done|]. rewrite He. by apply tick_loop_run.
Qed.

End proofs.

(** *** Witnesses: a cluster in memory whose API never fails *)

Abbreviation dash_world := (gmap key (Object * bool)).

Section examples.
#[local] Existing Instance example_quantities.

Definition apply_object (o : Object) (w : dash_world) : dash_world :=
  <[key_of o := (o, terminating (w !! key_of o))]> w.

Definition NotFound : error := mkError KNotFound "not found".

Definition registry_secret : Credentials.Secret := Credentials.ghcr_secret.

Definition dash_client : DashClient dash_world := {|
  Get_Labels k w :=
    match w !! k with Some (o, _) => Ok (om_Labels (ob_Meta o)) | None => Err NotFound end;
  Get_Source _ name _ :=
    if bool_decide (name = "registry-creds") then Ok registry_secret else Err NotFound;
  Create o w :=
    match w !! key_of o with
    | Some _ => (Some (mkError KAlreadyExists "already exists"), w)
    | None => (None, <[key_of o := (o, false)]> w)
    end;
  Apply o w := (None, apply_object o w);
  Delete k w :=
    match w !! k with Some _ => (None, delete k w) | None => (Some NotFound, w) end |}.
#[local] Existing Instance dash_client.

Definition dash_laws : DashLaws dash_world.
Proof.
  refine {| stored := λ w : dash_world, w; conforms := λ o o', o = o' |}; cbn.
  - intros k w l. destruct (w !! k) as [[o t]|] eqn:E; [|done]. intros [= <-]. by exists o, t.
  - intros k w e. by destruct (w !! k) as [[o t]|] eqn:E.
  - intros o w r w'. destruct (w !! key_of o) as [x|] eqn:E; intros [= <- <-]; [by left|].
    right. split; [done|]. by exists o.
  - intros o w r w' [= <- <-]. right. by exists o.
  - intros k w r w'. destruct (w !! k) as [[o t]|] eqn:E; intros [= <- <-]; [|by left].
    right. exists o, t. split; [done|]. by left.
  - intros k w e w'. destruct (w !! k) as [[o t]|] eqn:E; [done|]. by intros [= <- <-] _.
Defined.

Definition dash_reconcile (cfg : Config) : M dash_world (Z * option error) :=
  @Reconcile latin1_tables canonical_order Credentials.example_codec _ dash_world _ cfg.

Definition disabled_config : Config :=
  mkConfig false "" "pacto-system" "" "" [] example_resources None.

(** An empty cluster gets six objects and a namespace; disabling the dashboard leaves the
    namespace and somebody else's service account. *)
Definition foreign_account : Object :=
  mkObject (mkMeta Name "pacto-system" ∅ []) ServiceAccountBody.

Example dashboard_ex :
  let w1 := (dash_reconcile example_config ∅).2 in
  let w := <[key_of foreign_account := (foreign_account, false)]> w1 in
  (dash_reconcile example_config ∅).1 = Ret (5 * minute, None) ∧ size w1 = 7%nat ∧
  (dash_reconcile disabled_config w).1 = Ret (0, None) ∧
  (map_to_list (dash_reconcile disabled_config w).2).*1.*1.*1 = [KNamespace; KServiceAccount].
Proof. cbv zeta. split_and!; vm_compute; reflexivity. Qed.

(** An enabled dashboard without OCI secrets removes a secret under the managed name that
    carries none of the management labels; the clean-up of a disabled one keeps it. *)
Definition foreign_secret : Object :=
  mkObject (mkMeta ManagedSecretName "pacto-system" ∅ []) (SecretBody "Opaque" ∅).

Example foreign_secret_ex :
  let w : dash_world := {[ key_of foreign_secret := (foreign_secret, false) ]} in
  let cfg := mkConfig true (Image example_config) "pacto-system" "" "" [] example_resources None in
  let kept w := bool_decide (key_of foreign_secret ∈ (map_to_list w).*1) in
  kept w = true ∧ kept (dash_reconcile cfg w).2 = false ∧
  kept (dash_reconcile disabled_config w).2 = true.
Proof. cbv zeta. split_and!; vm_compute; reflexivity. Qed.

#[local] Existing Instances latin1_tables canonical_order Credentials.example_codec.
#[local] Existing Instances example_quantity_laws dash_laws.

Lemma example_accepted : ResourcesConfig_Validate (Resources example_config) = None.
Proof. reflexivity. Qed.

Lemma first_reconcile_ok :
  (Reconcile example_config (∅ : dash_world)).1 = Ret (5 * minute, None).
Proof. vm_compute. reflexivity. Qed.

Lemma Reconcile_deploys_witness :
  deployed example_config (Reconcile example_config (∅ : dash_world)).2.
Proof.
  destruct (Reconcile_deploys example_config (∅ : dash_world) eq_refl example_accepted)
    as (d & e & w' & Hrun & _ & He).
  pose proof first_reconcile_ok as Hok. rewrite Hrun in Hok |- *.
  injection Hok as -> ->. apply He.
Defined.

Definition foreign_world : dash_world :=
  {[ key_of foreign_account := (foreign_account, false) ]}.

Lemma cleanup_deletes_only_managed_witness :
  stored (Reconcile disabled_config foreign_world).2 !! key_of foreign_account =
  Some (foreign_account, false).
Proof.
  destruct (cleanup_deletes_only_managed disabled_config foreign_world eq_refl)
    as (d & e & w' & -> & Hkeep & _).
  apply (Hkeep (key_of foreign_account)). right. by intros [? _].
Defined.

Lemma Start_ends_with_its_context_witness :
  ∃ r w', Start example_config [Tick (λ _, ∅); Done] (∅ : dash_world) = (Ret r, w') ∧
    r = Some None.
Proof.
  destruct (Start_ends_with_its_context example_config [Tick (λ _, ∅); Done] (∅ : dash_world)
    eq_refl example_accepted) as (d & e & w1 & Hrun & He).
  pose proof first_reconcile_ok as Hok. rewrite Hrun in Hok. injection Hok as -> ->.
  destruct He as (r & w' & Hstart & Hdone & _). exists r, w'. split; [exact Hstart|].
  apply Hdone. right. by left.
Defined.
End examples.

End Dashboard.
