(* ===== verification/Registration.v ===== *)
(** * Registration of the resource types

    What happens before [main]: [api/v1alpha1/groupversion_info.go] makes the builder of
    the group version, the [init] functions of the resource types register them with it,
    and [init] of [cmd/main.go] adds them and the built-in types to the process' scheme.
    The scheme and its builder are library types ([SchemeLib], with laws and an
    instance on sets of kinds). *)

From S2P Require Import Prelude Metrics.
From stdpp Require Import options.
#[local] Set Default Proof Using "Type*".

Module Registration.
Import Metrics.

(** [schema.GroupVersion]; with the name of a kind. *)
Record GroupVersion_t := mkGV { gv_Group : string; gv_Version : string }.

#[export] Instance GroupVersion_eq_dec : EqDecision GroupVersion_t.
Proof. solve_decision. Defined.

Definition GVK : Type := GroupVersion_t * string.

(** [runtime.Scheme], [scheme.Builder] and [clientgoscheme.AddToScheme]. A registered
    object is the name of its Go type, which is its kind. *)
Class SchemeLib := {
  Scheme : Type;
  Builder : Type;
  NewScheme : Scheme;
  new_Builder : GroupVersion_t → Builder;
  Register : list string → Builder → Builder;
  Builder_AddToScheme : Builder → Scheme → result Scheme;
  clientgo_AddToScheme : Scheme → result Scheme;
  Recognizes : Scheme → GVK → bool
}.

(** The kinds of Kubernetes' own API groups that the operator reads or deletes. *)
Definition core := mkGV "" "v1".
Definition apps := mkGV "apps" "v1".
Definition batch := mkGV "batch" "v1".
Definition rbac := mkGV "rbac.authorization.k8s.io" "v1".

Definition builtin_kinds : list GVK :=
  [(core, "Service"); (core, "ServiceAccount"); (core, "Secret"); (core, "Namespace");
   (apps, "Deployment"); (apps, "StatefulSet"); (apps, "ReplicaSet");
   (batch, "Job"); (batch, "CronJob"); (rbac, "ClusterRole"); (rbac, "ClusterRoleBinding")].

(** Documented behaviour: a builder adds every type registered with it under its group
    version, client-go adds Kubernetes' own, and nothing that is known is forgotten. *)
Class SchemeLaws `{SchemeLib} := {
  pending : Builder → list GVK;
  pending_new : ∀ gv, pending (new_Builder gv) = [];
  version_of : Builder → GroupVersion_t;
  version_new : ∀ gv, version_of (new_Builder gv) = gv;
  version_register : ∀ kinds b, version_of (Register kinds b) = version_of b;
  pending_register : ∀ kinds b,
    pending (Register kinds b) = pending b ++ ((λ k, (version_of b, k)) <$> kinds);
  builder_adds : ∀ b s s' g, Builder_AddToScheme b s = Ok s' →
    g ∈ pending b ∨ Recognizes s g = true → Recognizes s' g = true;
  clientgo_adds : ∀ s s' g, clientgo_AddToScheme s = Ok s' →
    g ∈ builtin_kinds ∨ Recognizes s g = true → Recognizes s' g = true
}.

(** ** The package variables and the [init] functions *)

Definition GroupVersion : GroupVersion_t := mkGV "pacto.trianalab.io" "v1alpha1".

Section init.
Context `{SchemeLib}.

(** The variables of [v1alpha1] and of [main]. *)
Record Vars := mkVars { v_SchemeBuilder : Builder; v_scheme : Scheme }.

Definition initial_SchemeBuilder : Builder := new_Builder GroupVersion.

Definition initial_vars : Vars := mkVars initial_SchemeBuilder NewScheme.

(** [AddToScheme]: a method value bound to the pointer [SchemeBuilder], so it adds what is
    registered when it is called. *)
Definition AddToScheme (vars : Vars) (scheme : Scheme) : result Scheme :=
  Builder_AddToScheme (v_SchemeBuilder vars) scheme.

Definition register (kinds : list string) : M Vars unit :=
  modify (λ vars, mkVars (Register kinds (v_SchemeBuilder vars)) (v_scheme vars)).

(** [init] of [pacto_types.go] and of [pactorevision_types.go]. *)
Definition init_pacto_types : M Vars unit := register ["Pacto"; "PactoList"].
Definition init_pactorevision_types : M Vars unit :=
  register ["PactoRevision"; "PactoRevisionList"].

(** [utilruntime.Must(add(scheme))] on the process' scheme. *)
Definition must_add (add : Vars → Scheme → result Scheme) : M Vars unit :=
  vars ← get_state;
  scheme ← must (add vars (v_scheme vars));
  put_state (mkVars (v_SchemeBuilder vars) scheme).

(** [init] of [cmd/main.go]. *)
Definition init_main : M Vars unit :=
  must_add (λ _, clientgo_AddToScheme) ≫= λ _, must_add AddToScheme.

(** Initialisation in the order of the language: the files of a package by name, a package
    after those it imports. *)
Definition program_init `{OTelSDK} : M Vars unit :=
  init_pacto_types ≫= λ _, init_pactorevision_types ≫= λ _,
  Metrics.init ≫= λ _, init_main.
End init.

(** ** Every kind the operator uses is known *)

(** The kinds of the operator's own group version. *)
Definition own_kinds : list GVK :=
  (λ k, (GroupVersion, k)) <$> ["Pacto"; "PactoList"; "PactoRevision"; "PactoRevisionList"].

Section laws.
Context `{SchemeLaws} `{OTelSDK}.

Lemma must_add_run add vars :
  must_add add vars =
    match add vars (v_scheme vars) with
    | Ok s => (Ret tt, mkVars (v_SchemeBuilder vars) s)
    | Err err => (Panic (err_text err), vars)
    end.
Proof. unfold must_add. rewrite M_bind_unfold. cbn. by destruct (add _ _). Qed.

Lemma registered_all :
  pending (Register ["PactoRevision"; "PactoRevisionList"]
    (Register ["Pacto"; "PactoList"] initial_SchemeBuilder)) = own_kinds.
Proof.
  unfold initial_SchemeBuilder.
  by rewrite !pending_register, !version_register, version_new, pending_new.
Qed.

(** Initialisation panics, with the text of the library's error, or leaves a scheme that
    knows every kind the operator reads or writes: none of the client's calls fails for an
    unregistered type. *)
Theorem program_init_registers :
  (∃ msg vars, program_init initial_vars = (Panic msg, vars)) ∨
  ∃ vars, program_init initial_vars = (Ret tt, vars) ∧
    ∀ g, g ∈ own_kinds ++ builtin_kinds → Recognizes (v_scheme vars) g = true.
Proof.
  unfold program_init, Metrics.init. destruct otelprom_New as [e|err]; [|left; eauto].
  change (_ initial_vars) with (init_main (mkVars
    (Register ["PactoRevision"; "PactoRevisionList"]
      (Register ["Pacto"; "PactoList"] initial_SchemeBuilder)) NewScheme)).
  unfold init_main. rewrite M_bind_unfold, must_add_run. cbn [v_scheme v_SchemeBuilder].
  destruct (clientgo_AddToScheme NewScheme) as [s1|err] eqn:Hclient; [|by eauto].
  rewrite must_add_run. unfold AddToScheme. cbn [v_scheme v_SchemeBuilder].
  destruct (Builder_AddToScheme _ s1) as [s2|err] eqn:Hbuild; [|by eauto].
  right. eexists. split; [done|]. intros g Hg.
  apply (builder_adds _ _ _ _ Hbuild). rewrite registered_all.
  apply elem_of_app in Hg as [?|Hg]; [by left|right].
  by apply (clientgo_adds _ _ _ Hclient); left.
Qed.
End laws.

(** ** An instance: sets of kinds, where a kind registered twice is an error *)

Definition set_register (known : list GVK) (kinds : list GVK) : result (list GVK) :=
  if existsb (λ g, bool_decide (g ∈ known)) kinds then Err (Errorf "double registration")
  else Ok (known ++ kinds).

Definition set_scheme : SchemeLib := {|
  Scheme := list GVK;
  Builder := GroupVersion_t * list string;
  NewScheme := [];
  new_Builder := λ gv, (gv, []);
  Register := λ kinds b, (b.1, b.2 ++ kinds);
  Builder_AddToScheme := λ b s, set_register s ((λ k, (b.1, k)) <$> b.2);
  clientgo_AddToScheme := λ s, set_register s builtin_kinds;
  Recognizes := λ s g, bool_decide (g ∈ s) |}.

Lemma set_register_adds known kinds known' g :
  set_register known kinds = Ok known' →
  g ∈ kinds ∨ bool_decide (g ∈ known) = true → bool_decide (g ∈ known') = true.
Proof.
  unfold set_register. destruct (existsb _ _); [done|]. intros [= <-] Hg.
  apply bool_decide_eq_true_2, elem_of_app. rewrite bool_decide_eq_true in Hg. tauto.
Qed.

#[export] Instance set_scheme_laws : @SchemeLaws set_scheme.
Proof.
  refine {| pending := λ b : @Builder set_scheme, (λ k, (b.1, k)) <$> b.2;
            version_of := λ b : @Builder set_scheme, b.1 |}; cbn; try done.
  - intros kinds b. by rewrite fmap_app.
  - intros b s s' g. apply set_register_adds.
  - intros s s' g. apply set_register_adds.
Qed.

(** The whole initialisation on that instance; and a metrics exporter that fails stops the
    process before anything is registered with its scheme. *)
Definition example_sdk (ok : bool) : OTelSDK := {|
  Exporter := unit; Int64Gauge := string;
  otelprom_New := if ok then Ok tt else Err (Errorf "no exporter");
  meter_Int64Gauge := λ _ name _, Ok name |}.

Example program_init_ex :
  (@program_init set_scheme (example_sdk true) (@initial_vars set_scheme)).1 = Ret tt ∧
  (let '(o, vars) := @program_init set_scheme (example_sdk false) (@initial_vars set_scheme) in
   o = Panic "no exporter" ∧ @v_scheme set_scheme vars = []).
Proof. by vm_compute. Qed.

End Registration.
