(* ===== verification/Main.v ===== *)
(** * Start-up

    [cmd/main.go]: from the command line and the environment to the options of the
    manager and its servers and to the configuration of the dashboard, with every way in
    which the process gives up. Parsing the command line is the flag package's business:
    the model starts from the flag values. *)

From S2P Require Import Prelude GoStrings GoMaps GoFmt Credentials DashConfig.
From S2P Require Import DashResources Dashboard.
From stdpp Require Import options.
#[local] Set Default Proof Using "Type*".

Module Main.
Import DashConfig.

(** ** The command line *)

Record Flags := mkFlags {
  metricsAddr : string;
  probeAddr : string;
  enableLeaderElection : bool;
  secureMetrics : bool;
  webhookCertPath : string; webhookCertName : string; webhookCertKey : string;
  metricsCertPath : string; metricsCertName : string; metricsCertKey : string;
  enableHTTP2 : bool;
  enableDashboard : bool;
  watchNamespace : string;
  dashboardOCISecret : string;
  dashboardOCISecrets : string;
  dashboardCPURequest : string; dashboardCPULimit : string;
  dashboardMemoryRequest : string; dashboardMemoryLimit : string;
  showVersion : bool }.

(** The values without any argument. *)
Definition default_flags : Flags :=
  mkFlags ":8080" ":8081" false false "" "tls.crt" "tls.key" "" "tls.crt" "tls.key"
    false false "" "" "" "" "" "" "" false.

(** What the linker sets ([-ldflags]). *)
Record BuildInfo := mkBuild {
  version : string; gitCommit : string; buildDate : string; dashboardImage : string }.

Definition default_build : BuildInfo := mkBuild "dev" "unknown" "unknown" "".

(** ** Servers *)

(** A TLS configuration is the list of its protocols; an option changes it. *)
Definition TLSOption : Type := list string → list string.

Definition disableHTTP2 : TLSOption := λ _, ["http/1.1"].

Definition tlsOpts (f : Flags) : list TLSOption :=
  if negb (enableHTTP2 f) then [] ++ [disableHTTP2] else [].

(** [webhook.Options]. *)
Record WebhookOptions := mkWebhook {
  wh_TLSOpts : list TLSOption; wh_CertDir : string; wh_CertName : string; wh_KeyName : string }.

Definition webhookServerOptions (f : Flags) : WebhookOptions :=
  if bool_decide (0 < len (webhookCertPath f))%nat
  then mkWebhook (tlsOpts f) (webhookCertPath f) (webhookCertName f) (webhookCertKey f)
  else mkWebhook (tlsOpts f) "" "" "".

(** [metricsserver.Options]; the filter is a flag. *)
Record MetricsOptions := mkMetricsOptions {
  me_BindAddress : string; me_SecureServing : bool; me_TLSOpts : list TLSOption;
  me_WithAuth : bool; me_CertDir : string; me_CertName : string; me_KeyName : string }.

Definition metricsServerOptions (f : Flags) : MetricsOptions :=
  let auth := secureMetrics f in
  if bool_decide (0 < len (metricsCertPath f))%nat
  then mkMetricsOptions (metricsAddr f) (secureMetrics f) (tlsOpts f) auth
         (metricsCertPath f) (metricsCertName f) (metricsCertKey f)
  else mkMetricsOptions (metricsAddr f) (secureMetrics f) (tlsOpts f) auth "" "" "".

(** [ctrl.Options]; [None] as cached namespaces means all. *)
Record ManagerOptions := mkManagerOptions {
  mo_Metrics : MetricsOptions; mo_Webhook : WebhookOptions;
  mo_HealthProbeBindAddress : string; mo_LeaderElection : bool; mo_LeaderElectionID : string;
  mo_DefaultNamespaces : option (list string) }.

Definition mgrOpts (f : Flags) : ManagerOptions :=
  mkManagerOptions (metricsServerOptions f) (webhookServerOptions f) (probeAddr f)
    (enableLeaderElection f) "a4917283.pacto.io"
    (if bool_decide (watchNamespace f ≠ "") then Some [watchNamespace f] else None).

(** ** The dashboard *)

(** The loop over the comma-separated list. *)
Definition parse_oci_secrets (text : string) : list string :=
  if bool_decide (text ≠ "") then
    foldl (λ parsedOCISecrets s,
        let trimmed := TrimSpace s in
        if bool_decide (trimmed ≠ "") then parsedOCISecrets ++ [trimmed] else parsedOCISecrets)
      [] (Split text ",")
  else [].

(** The outside of the process: environment variables, the lookup of a Deployment (its
    name and UID), and the library calls that may fail. *)
Record Environment := mkEnv {
  Getenv : string → string;
  Get_Deployment : string → string → result (string * string);
  NewManager : ManagerOptions → option error;
  SetupWithManager : option error;
  mgr_Add : option error;
  AddHealthzCheck : option error;
  AddReadyzCheck : option error;
  mgr_Start : option error }.

(** The owner of the dashboard's objects; a failed lookup is only logged. *)
Definition discover_owner (env : Environment) (dashboardNamespace : string)
    : option OwnerReference :=
  let operatorDeployName := Getenv env "OPERATOR_DEPLOYMENT_NAME" in
  if bool_decide (operatorDeployName ≠ "") then
    match Get_Deployment env dashboardNamespace operatorDeployName with
    | Err _ => None
    | Ok (name, uid) => Some (mkOwnerReference "apps/v1" "Deployment" name uid)
    end
  else None.

(** [dashCfg]. *)
Definition dashboard_config (f : Flags) (b : BuildInfo) (env : Environment) : Config :=
  mkConfig (enableDashboard f) (dashboardImage b) (Getenv env "POD_NAMESPACE")
    (watchNamespace f) (dashboardOCISecret f) (parse_oci_secrets (dashboardOCISecrets f))
    (mkResourcesConfig (dashboardCPURequest f) (dashboardCPULimit f)
       (dashboardMemoryRequest f) (dashboardMemoryLimit f))
    (discover_owner env (Getenv env "POD_NAMESPACE")).

(** How the process ends: with an exit code, before the manager runs; or with the manager
    having run with these options and this dashboard, and then an exit code. *)
Inductive ending :=
| Exit (code : Z)
| Ran (opts : ManagerOptions) (dashboard : Config) (code : Z).

Section main.
Context `{UnicodeTables} `{QuantityParser}.

(** [if err := call; err != nil { os.Exit(1) }]. *)
Definition or_exit (err : option error) (rest : ending) : ending :=
  match err with Some _ => Exit 1 | None => rest end.

(** [main]. *)
Definition main (f : Flags) (b : BuildInfo) (env : Environment) : ending :=
  if showVersion f then Exit 0
  else
    let opts := mgrOpts f in
    or_exit (NewManager env opts)
    (or_exit (SetupWithManager env)
    (if bool_decide (Getenv env "POD_NAMESPACE" = "") then Exit 1
     else if enableDashboard f && bool_decide (dashboardImage b = "") then Exit 1
     else
       let dashCfg := dashboard_config f b env in
       or_exit (Validate dashCfg)
       (or_exit (mgr_Add env)
       (or_exit (AddHealthzCheck env)
       (or_exit (AddReadyzCheck env)
       (Ran opts dashCfg (match mgr_Start env with Some _ => 1 | None => 0 end))))))).
End main.

(** ** Specification *)

(** The protocols a server negotiates, from those it would offer by itself. *)
Definition protocols (opts : list TLSOption) (offered : list string) : list string :=
  foldl (λ protos opt, opt protos) offered opts.

(** *** The list of secrets *)

Lemma Split_Join sep names :
  names ≠ [] → (∀ n, n ∈ names → has_byte sep n = false) →
  Split (Join names (String sep "")) sep = names.
Proof.
  induction names as [|n names IH]; [done|]. intros _ Hno.
  destruct names as [|n' names].
  - cbn [Join]. apply Split_none, Hno. by left.
  - change (Join (n :: n' :: names) (String sep "")) with
      (n +:+ String sep "" +:+ Join (n' :: names) (String sep "")).
    rewrite app_byte, Split_app by (apply Hno; by left).
    rewrite IH; [done|done|]. intros m Hm. apply Hno. by right.
Qed.

Lemma parse_oci_secrets_filter text :
  text ≠ "" → parse_oci_secrets text = filter (λ n, n ≠ "") (TrimSpace <$> Split text ",").
Proof.
  intros Hne. unfold parse_oci_secrets. rewrite bool_decide_eq_true_2 by done.
  generalize (Split text ","). intros l.
  assert (∀ acc, foldl (λ acc s, if bool_decide (TrimSpace s ≠ "") then acc ++ [TrimSpace s]
                                 else acc) acc l =
    acc ++ filter (λ n, n ≠ "") (TrimSpace <$> l)) as Hl; [|apply (Hl [])].
  induction l as [|s l IH]; intros acc; [by rewrite app_nil_r|].
  rewrite fmap_cons, filter_cons. cbn [foldl]. rewrite IH.
  case_bool_decide; case_decide; try done. by rewrite <- app_assoc.
Qed.

(** What a usable secret name is: not empty, no surrounding space, no comma. *)
Definition secret_name (n : string) : Prop :=
  n ≠ "" ∧ TrimSpace n = n ∧ has_byte "," n = false.

(** A list of secret names, each without comma or surrounding space, is
    recovered from its comma-separated text; and whatever the text, no empty name comes
    out of it. *)
Theorem parse_oci_secrets_roundtrip names text :
  (Forall secret_name names → parse_oci_secrets (Join names ",") = names) ∧
  "" ∉ parse_oci_secrets text.
Proof.
  split.
  - intros Hall. destruct names as [|n names]; [done|].
    assert (Join (n :: names) "," ≠ "") as Hne.
    { apply Forall_cons in Hall as [(Hn & _) _]. destruct n as [|c n]; [done|].
      by destruct names. }
    rewrite parse_oci_secrets_filter, Split_Join; [|done| |done].
    + assert (TrimSpace <$> n :: names = n :: names) as ->.
      { rewrite <- (list_fmap_id (n :: names)) at 2. apply list_fmap_ext.
        intros i m Hm%list_elem_of_lookup_2. rewrite Forall_forall in Hall.
        by destruct (Hall m Hm) as (_ & ? & _). }
      assert (∀ l, Forall secret_name l → filter (λ n, n ≠ "") l = l) as Hf; [|by apply Hf].
      clear. induction 1 as [|m l (Hm & _) _ IH]; [done|].
      by rewrite filter_cons, decide_True, IH by done.
    + intros m Hm. rewrite Forall_forall in Hall. by destruct (Hall m Hm) as (_ & _ & ?).
  - destruct (decide (text = "")) as [->|Hne]; [by intros ?%elem_of_nil|].
    rewrite parse_oci_secrets_filter by done. by intros [[] _]%list_elem_of_filter.
Qed.
(** *** Start-up *)

Section startup.
Context `{UnicodeTables} `{GoMaps} `{Credentials.DockerConfigCodec}.
Context `{!QuantityParser} `{!QuantityLaws} {W : Type} `{!Dashboard.DashClient W}
  `{!Dashboard.DashLaws W}.

(** The ways [main] gets the manager running. *)
Lemma main_runs f b env opts cfg code :
  main f b env = Ran opts cfg code →
  showVersion f = false ∧ opts = mgrOpts f ∧ cfg = dashboard_config f b env ∧
  Getenv env "POD_NAMESPACE" ≠ "" ∧ Validate cfg = None.
Proof.
  unfold main. destruct (showVersion f); [done|]. cbv zeta. unfold or_exit.
  destruct (NewManager _ _); [done|]. destruct (SetupWithManager _); [done|].
  case_bool_decide; [done|]. destruct (enableDashboard f && _); [done|].
  destruct (Validate _) eqn:Hv; [done|]. destruct (mgr_Add _); [done|].
  destruct (AddHealthzCheck _); [done|]. destruct (AddReadyzCheck _); [done|].
  by intros [= <- <- _].
Qed.

(** C17 (safety). A process that gets its manager running has a dashboard configuration that
    passed validation, in the operator's own namespace; whatever the state of the cluster
    and the answers of the API, its dashboard reconciler never panics. Both servers speak
    only HTTP/1.1 unless HTTP/2 was enabled, and the metrics endpoint checks its clients
    exactly when it is served securely. *)
Theorem startup_is_safe f b env opts cfg code :
  main f b env = Ran opts cfg code →
  Validate cfg = None ∧ Namespace cfg = Getenv env "POD_NAMESPACE" ∧ Namespace cfg ≠ "" ∧
  (∀ w : W, ∃ r w', Dashboard.Reconcile cfg w = (Ret r, w')) ∧
  (enableHTTP2 f = false → ∀ offered,
     protocols (wh_TLSOpts (mo_Webhook opts)) offered = ["http/1.1"] ∧
     protocols (me_TLSOpts (mo_Metrics opts)) offered = ["http/1.1"]) ∧
  me_WithAuth (mo_Metrics opts) = me_SecureServing (mo_Metrics opts).
Proof.
  intros (_ & -> & Hcfg & Hns & Hv)%main_runs. split; [done|].
  rewrite Hcfg at 1 2. split; [done|]. split; [done|]. split.
  - intros w. destruct (Enabled cfg) eqn:He.
    + assert (ResourcesConfig_Validate (Resources cfg) = None) as Hr.
      { revert Hv. unfold Validate. rewrite He. cbn [negb].
        by repeat (case_bool_decide || case_match). }
      destruct (Dashboard.Reconcile_enabled_run cfg w He Hr) as (r & w' & Hrun & _). eauto.
    + destruct (Dashboard.Reconcile_disabled cfg w He) as (r & w' & Hrun & _). eauto.
  - split; cbn; unfold webhookServerOptions, metricsServerOptions, tlsOpts.
    + intros ->. cbn [negb]. intros offered. by repeat case_bool_decide.
    + by case_bool_decide.
Qed.
End startup.

(** *** Witness: the in-memory cluster *)

Definition example_flags : Flags :=
  mkFlags ":8443" ":8081" true true "" "tls.crt" "tls.key" "" "tls.crt" "tls.key"
    false true "" "" "registry-creds, other" "100m" "" "" "" false.

Definition example_env : Environment :=
  mkEnv (λ name, if bool_decide (name = "POD_NAMESPACE") then "pacto-system" else "")
    (λ _ _, Err (Errorf "forbidden")) (λ _, None) None None None None None.

Definition example_build : BuildInfo :=
  mkBuild "1.0.0" "abc" "today" "ghcr.io/pacto/dashboard:1.2.0".

Example main_ex :
  @main latin1_tables example_quantities example_flags example_build example_env =
    Ran (mgrOpts example_flags) (dashboard_config example_flags example_build example_env) 0 ∧
  @main latin1_tables example_quantities example_flags default_build example_env = Exit 1 ∧
  OCISecrets (dashboard_config example_flags example_build example_env) =
    ["registry-creds"; "other"].
Proof. by vm_compute. Qed.

Lemma startup_is_safe_witness :
  ∃ r w', @Dashboard.Reconcile latin1_tables canonical_order Credentials.example_codec
    example_quantities Dashboard.dash_world Dashboard.dash_client
    (dashboard_config example_flags example_build example_env) ∅ = (Ret r, w').
Proof.
  apply (@startup_is_safe latin1_tables canonical_order Credentials.example_codec
    example_quantities example_quantity_laws Dashboard.dash_world Dashboard.dash_client
    Dashboard.dash_laws example_flags example_build example_env
    (mgrOpts example_flags) (dashboard_config example_flags example_build example_env) 0).
  vm_compute. reflexivity.
Defined.

End Main.
