(* ===== verification/DeepCopy.v ===== *)
(** * Deep copies

    [api/v1alpha1/zz_generated.deepcopy.go]: the copies the client library makes of the
    objects in its cache before it hands them to the reconciler, which changes them in place.
    Values live on a heap of pointers, slices and maps; the types of [*_types.go] are
    descriptors of such values. The theorem says that the generated functions fit the
    types: every copy is equal to the original and shares no memory with it. *)

From S2P Require Import Prelude GoStrings.
From stdpp Require Import options.
#[local] Set Default Proof Using "Type*".
#[local] Set Warnings "-register-all".

Module DeepCopy.

(** ** Go values on a heap *)

Inductive scalar := SInt (z : Z) | SString (s : string) | SBool (b : bool).

(** A value as a variable or a field holds it: a pointer, slice or map is a reference, nil
    or to a cell; a struct holds its fields. *)
Inductive gval :=
| VScalar (s : scalar)
| VRef (r : option positive)
| VStruct (fields : list (string * gval)).

(** What a reference refers to: the target of a pointer, the array of a slice, the entries
    of a map of strings. *)
Inductive cell :=
| CVal (v : gval)
| CSlice (vs : list gval)
| CMap (m : gmap string string).

Abbreviation heap := (gmap positive cell).

Definition alloc (c : cell) : M heap positive := λ h,
  let l := fresh (dom h) in (Ret l, <[l := c]> h).

Definition nil_dereference : string := "invalid memory address or nil pointer dereference".

(** A reference is followed to a cell of the expected kind. *)
Definition load {A} (f : cell → option A) (l : positive) : M heap A := λ h,
  match h !! l ≫= f with
  | Some a => (Ret a, h)
  | None => (Panic nil_dereference, h)
  end.

Definition as_val (c : cell) : option gval := match c with CVal v => Some v | _ => None end.
Definition as_slice (c : cell) : option (list gval) :=
  match c with CSlice vs => Some vs | _ => None end.
Definition as_map (c : cell) : option (gmap string string) :=
  match c with CMap m => Some m | _ => None end.

Fixpoint field (n : string) {A} (fields : list (string * A)) : option A :=
  match fields with
  | [] => None
  | (m, v) :: fields => if bool_decide (m = n) then Some v else field n fields
  end.

Fixpoint set_field (n : string) (v : gval) (fields : list (string * gval))
    : list (string * gval) :=
  match fields with
  | [] => []
  | (m, w) :: fields =>
      if bool_decide (m = n) then (m, v) :: fields else (m, w) :: set_field n v fields
  end.

Fixpoint mapM_heap (f : gval → M heap gval) (vs : list gval) : M heap (list gval) :=
  match vs with
  | [] => mret []
  | v :: vs => v' ← f v; vs' ← mapM_heap f vs; mret (v' :: vs')
  end.

(** ** The statements of the generated functions

    Each takes the value of a field of [in] and gives the one of [out]. Every assignment
    through a reference is guarded by [if in.F != nil]. New memory is filled before it gets
    its address: until the function returns nobody else sees it. *)

Definition unless_nil (f : positive → M heap gval) (v : gval) : M heap gval :=
  match v with
  | VRef None => mret (VRef None)
  | VRef (Some l) => f l
  | _ => panic "not a reference"
  end.

(** [out.F = in.F]. *)
Definition assign (v : gval) : M heap gval := mret v.

(** [*out = new(T); ( *in).DeepCopyInto( *out)], and [**out = **in]. *)
Definition dup_ptr_with (f : gval → M heap gval) : gval → M heap gval := unless_nil (λ l,
  v ← load as_val l; v' ← f v; l' ← alloc (CVal v'); mret (VRef (Some l'))).
Definition dup_ptr : gval → M heap gval := dup_ptr_with assign.

(** [*out = make([]T, len( *in))] with a loop of [DeepCopyInto], and with [copy]. *)
Definition dup_slice_with (f : gval → M heap gval) : gval → M heap gval := unless_nil (λ l,
  vs ← load as_slice l; vs' ← mapM_heap f vs; l' ← alloc (CSlice vs'); mret (VRef (Some l'))).
Definition dup_slice : gval → M heap gval := dup_slice_with assign.

(** [*out = make(map[string]string, len( *in))] with the loop over the entries. *)
Definition dup_map : gval → M heap gval := unless_nil (λ l,
  m ← load as_map l; l' ← alloc (CMap m); mret (VRef (Some l'))).

(** [*out = *in], then the steps for the fields, one after the other. *)
Fixpoint copy_steps (steps : list (string * (gval → M heap gval)))
    (inn out : list (string * gval)) : M heap gval :=
  match steps with
  | [] => mret (VStruct out)
  | (n, f) :: steps =>
      match field n inn with
      | Some v => v' ← f v; copy_steps steps inn (set_field n v' out)
      | None => panic "no such field"
      end
  end.

Definition copying (steps : list (string * (gval → M heap gval))) (v : gval) : M heap gval :=
  match v with
  | VStruct fields => copy_steps steps fields fields
  | _ => panic "not a struct"
  end.

(** [DeepCopy] of a type with a given [DeepCopyInto], on pointers: nil for nil, otherwise a
    [new] struct. [DeepCopyObject] makes an interface of it. *)
Definition DeepCopy : (gval → M heap gval) → gval → M heap gval := dup_ptr_with.

Definition DeepCopyObject (f : gval → M heap gval) (v : gval) : M heap gval :=
  c ← DeepCopy f v; mret (match c with VRef None => VRef None | c => c end).

(** ** Types *)

Inductive ty :=
| TyScalar
| TyPtr (t : ty)
| TySlice (t : ty)
| TyMap
| TyStruct (fields : list (string * ty)).

(** The types of [k8s.io/apimachinery/pkg/apis/meta/v1] the resources use, and the copy
    functions of that package. *)
Class MetaTypes := {
  TypeMeta_ty : ty; ObjectMeta_ty : ty; ListMeta_ty : ty; Condition_ty : ty; Time_ty : ty;
  ObjectMeta_DeepCopyInto : gval → M heap gval;
  ListMeta_DeepCopyInto : gval → M heap gval;
  Condition_DeepCopyInto : gval → M heap gval;
  Time_DeepCopy : positive → M heap gval
}.

(** ** The types of the resources *)

(** A type with its [DeepCopyInto] and [DeepCopy]. *)
Abbreviation generated_row := (ty * (gval → M heap gval) * (gval → M heap gval))%type.

Section resources.
Context `{MetaTypes}.

Definition ContractRef_ty : ty := TyStruct
  [("OCI", TyScalar); ("Inline", TyScalar); ("PullSecretRef", TyScalar)].
Definition WorkloadRef_ty : ty := TyStruct
  [("Name", TyScalar); ("Kind", TyScalar)].
Definition TargetRef_ty : ty := TyStruct
  [("ServiceName", TyScalar); ("WorkloadRef", TyPtr WorkloadRef_ty)].
Definition ConfigurationOverride_ty : ty := TyStruct
  [("Name", TyScalar); ("Values", TyMap)].
Definition ContractOverrides_ty : ty := TyStruct
  [("Configurations", TySlice ConfigurationOverride_ty)].
Definition PactoSpec_ty : ty := TyStruct
  [("ContractRef", ContractRef_ty); ("Target", TargetRef_ty);
  ("Overrides", TyPtr ContractOverrides_ty); ("CheckIntervalSeconds", TyScalar)].
Definition ResourceStatus_ty : ty := TyStruct
  [("Name", TyScalar); ("Kind", TyScalar); ("Exists", TyScalar)].
Definition PortStatus_ty : ty := TyStruct
  [("Expected", TySlice TyScalar); ("Observed", TySlice TyScalar);
  ("Missing", TySlice TyScalar); ("Unexpected", TySlice TyScalar)].
Definition CheckSummary_ty : ty := TyStruct
  [("Total", TyScalar); ("Passed", TyScalar); ("Failed", TyScalar)].
Definition ReadinessRevisionStatus_ty : ty := TyStruct
  [("Date", TyScalar); ("Version", TyScalar); ("Author", TyScalar); ("Description", TyScalar)].
Definition ReadinessCheckStatus_ty : ty := TyStruct
  [("ID", TyScalar); ("Type", TyScalar); ("Category", TyScalar); ("Status", TyScalar);
  ("Evidence", TyScalar); ("Description", TyScalar); ("Weight", TyScalar);
  ("EarnedWeight", TyScalar); ("Excluded", TyScalar)].
Definition ReadinessStatus_ty : ty := TyStruct
  [("Score", TyScalar); ("MinScore", TyScalar); ("Passing", TyScalar);
  ("TotalWeight", TyScalar); ("EarnedWeight", TyScalar); ("Expires", TyScalar);
  ("Expired", TyScalar); ("DaysRemaining", TyPtr TyScalar); ("DoneCount", TyScalar);
  ("PartialCount", TyScalar); ("NotDoneCount", TyScalar); ("DeferredCount", TyScalar);
  ("Revisions", TySlice ReadinessRevisionStatus_ty);
  ("Checks", TySlice ReadinessCheckStatus_ty)].
Definition ResourcesStatus_ty : ty := TyStruct
  [("Service", TyPtr ResourceStatus_ty); ("Workload", TyPtr ResourceStatus_ty)].
Definition OwnerContact_ty : ty := TyStruct
  [("Type", TyScalar); ("Value", TyScalar); ("Purpose", TyScalar)].
Definition OwnerInfo_ty : ty := TyStruct
  [("Team", TyScalar); ("DRI", TyScalar); ("Contacts", TySlice OwnerContact_ty)].
Definition ContractInfo_ty : ty := TyStruct
  [("ServiceName", TyScalar); ("Version", TyScalar); ("Owner", TyPtr OwnerInfo_ty);
  ("OwnerDisplay", TyScalar); ("ImageRef", TyScalar); ("ResolvedRef", TyScalar)].
Definition InterfaceInfo_ty : ty := TyStruct
  [("Name", TyScalar); ("Type", TyScalar); ("Port", TyPtr TyScalar); ("Visibility", TyScalar);
  ("HasContractFile", TyScalar)].
Definition SchemaProperty_ty : ty := TyStruct
  [("Key", TyScalar); ("Value", TyScalar); ("Type", TyScalar)].
Definition ConfigurationInfo_ty : ty := TyStruct
  [("Name", TyScalar); ("HasSchema", TyScalar); ("Ref", TyScalar);
  ("ValueKeys", TySlice TyScalar); ("SecretKeys", TySlice TyScalar);
  ("OverriddenKeys", TySlice TyScalar); ("Properties", TySlice SchemaProperty_ty)].
Definition DependencyInfo_ty : ty := TyStruct
  [("Name", TyScalar); ("Ref", TyScalar); ("Required", TyScalar); ("Compatibility", TyScalar)].
Definition PolicyInfo_ty : ty := TyStruct
  [("Name", TyScalar); ("HasSchema", TyScalar); ("Schema", TyScalar); ("Ref", TyScalar);
  ("Title", TyScalar); ("Description", TyScalar); ("Properties", TySlice SchemaProperty_ty)].
Definition RuntimeInfo_ty : ty := TyStruct
  [("Workload", TyScalar); ("StateType", TyScalar); ("PersistenceScope", TyScalar);
  ("PersistenceDurability", TyScalar); ("DataCriticality", TyScalar);
  ("UpgradeStrategy", TyScalar); ("GracefulShutdownSeconds", TyPtr TyScalar);
  ("HealthInterface", TyScalar); ("HealthPath", TyScalar); ("MetricsInterface", TyScalar);
  ("MetricsPath", TyScalar); ("HealthInitialDelaySeconds", TyPtr TyScalar)].
Definition ObservedRuntime_ty : ty := TyStruct
  [("WorkloadKind", TyScalar); ("DeploymentStrategy", TyScalar);
  ("PodManagementPolicy", TyScalar); ("TerminationGracePeriodSeconds", TyPtr TyScalar);
  ("ContainerImages", TySlice TyScalar); ("HasPVC", TyScalar); ("HasEmptyDir", TyScalar);
  ("HealthProbeInitialDelaySeconds", TyPtr TyScalar)].
Definition ScalingInfo_ty : ty := TyStruct
  [("Replicas", TyPtr TyScalar); ("Min", TyPtr TyScalar); ("Max", TyPtr TyScalar)].
Definition EndpointCheckResult_ty : ty := TyStruct
  [("URL", TyScalar); ("Reachable", TyScalar); ("StatusCode", TyScalar);
  ("LatencyMs", TyScalar); ("Error", TyScalar)].
Definition EndpointsStatus_ty : ty := TyStruct
  [("Health", TyPtr EndpointCheckResult_ty); ("Metrics", TyPtr EndpointCheckResult_ty)].
Definition ValidationIssue_ty : ty := TyStruct
  [("Code", TyScalar); ("Path", TyScalar); ("Message", TyScalar)].
Definition ValidationResult_ty : ty := TyStruct
  [("Valid", TyScalar); ("Errors", TySlice ValidationIssue_ty);
  ("Warnings", TySlice ValidationIssue_ty)].
Definition PactoStatus_ty : ty := TyStruct
  [("ContractStatus", TyScalar); ("ResolutionPolicy", TyScalar);
  ("Summary", TyPtr CheckSummary_ty); ("ContractVersion", TyScalar);
  ("Contract", TyPtr ContractInfo_ty); ("Validation", TyPtr ValidationResult_ty);
  ("Resources", TyPtr ResourcesStatus_ty); ("Ports", TyPtr PortStatus_ty);
  ("Endpoints", TyPtr EndpointsStatus_ty); ("Interfaces", TySlice InterfaceInfo_ty);
  ("Configurations", TySlice ConfigurationInfo_ty); ("Dependencies", TySlice DependencyInfo_ty);
  ("Policies", TySlice PolicyInfo_ty); ("Runtime", TyPtr RuntimeInfo_ty);
  ("ObservedRuntime", TyPtr ObservedRuntime_ty); ("Scaling", TyPtr ScalingInfo_ty);
  ("Readiness", TyPtr ReadinessStatus_ty); ("Metadata", TyMap);
  ("Conditions", TySlice Condition_ty); ("CurrentRevision", TyScalar);
  ("LastReconciledAt", TyPtr Time_ty); ("ObservedGeneration", TyScalar)].
Definition Pacto_ty : ty := TyStruct
  [("TypeMeta", TypeMeta_ty); ("ObjectMeta", ObjectMeta_ty); ("Spec", PactoSpec_ty);
  ("Status", PactoStatus_ty)].
Definition PactoList_ty : ty := TyStruct
  [("TypeMeta", TypeMeta_ty); ("ListMeta", ListMeta_ty); ("Items", TySlice Pacto_ty)].
Definition RevisionSource_ty : ty := TyStruct
  [("OCI", TyScalar); ("Digest", TyScalar); ("Inline", TyScalar)].
Definition PactoRevisionSpec_ty : ty := TyStruct
  [("Version", TyScalar); ("Source", RevisionSource_ty); ("PactoRef", TyScalar);
  ("ServiceName", TyScalar)].
Definition PactoRevisionStatus_ty : ty := TyStruct
  [("Resolved", TyScalar); ("ContractHash", TyScalar); ("CreatedAt", TyPtr Time_ty);
  ("Conditions", TySlice Condition_ty)].
Definition PactoRevision_ty : ty := TyStruct
  [("TypeMeta", TypeMeta_ty); ("ObjectMeta", ObjectMeta_ty); ("Spec", PactoRevisionSpec_ty);
  ("Status", PactoRevisionStatus_ty)].
Definition PactoRevisionList_ty : ty := TyStruct
  [("TypeMeta", TypeMeta_ty); ("ListMeta", ListMeta_ty); ("Items", TySlice PactoRevision_ty)].

(** ** The generated functions *)

Definition ContractRef_DeepCopyInto : gval → M heap gval := copying [].
Definition WorkloadRef_DeepCopyInto : gval → M heap gval := copying [].
Definition TargetRef_DeepCopyInto : gval → M heap gval := copying
  [("WorkloadRef", dup_ptr)].
Definition ConfigurationOverride_DeepCopyInto : gval → M heap gval := copying
  [("Values", dup_map)].
Definition ContractOverrides_DeepCopyInto : gval → M heap gval := copying
  [("Configurations", dup_slice_with ConfigurationOverride_DeepCopyInto)].
Definition PactoSpec_DeepCopyInto : gval → M heap gval := copying
  [("ContractRef", assign); ("Target", TargetRef_DeepCopyInto);
  ("Overrides", dup_ptr_with ContractOverrides_DeepCopyInto)].
Definition ResourceStatus_DeepCopyInto : gval → M heap gval := copying [].
Definition PortStatus_DeepCopyInto : gval → M heap gval := copying
  [("Expected", dup_slice); ("Observed", dup_slice); ("Missing", dup_slice);
  ("Unexpected", dup_slice)].
Definition CheckSummary_DeepCopyInto : gval → M heap gval := copying [].
Definition ReadinessRevisionStatus_DeepCopyInto : gval → M heap gval := copying [].
Definition ReadinessCheckStatus_DeepCopyInto : gval → M heap gval := copying [].
Definition ReadinessStatus_DeepCopyInto : gval → M heap gval := copying
  [("DaysRemaining", dup_ptr); ("Revisions", dup_slice); ("Checks", dup_slice)].
Definition ResourcesStatus_DeepCopyInto : gval → M heap gval := copying
  [("Service", dup_ptr); ("Workload", dup_ptr)].
Definition OwnerContact_DeepCopyInto : gval → M heap gval := copying [].
Definition OwnerInfo_DeepCopyInto : gval → M heap gval := copying
  [("Contacts", dup_slice)].
Definition ContractInfo_DeepCopyInto : gval → M heap gval := copying
  [("Owner", dup_ptr_with OwnerInfo_DeepCopyInto)].
Definition InterfaceInfo_DeepCopyInto : gval → M heap gval := copying
  [("Port", dup_ptr)].
Definition SchemaProperty_DeepCopyInto : gval → M heap gval := copying [].
Definition ConfigurationInfo_DeepCopyInto : gval → M heap gval := copying
  [("ValueKeys", dup_slice); ("SecretKeys", dup_slice); ("OverriddenKeys", dup_slice);
  ("Properties", dup_slice)].
Definition DependencyInfo_DeepCopyInto : gval → M heap gval := copying [].
Definition PolicyInfo_DeepCopyInto : gval → M heap gval := copying
  [("Properties", dup_slice)].
Definition RuntimeInfo_DeepCopyInto : gval → M heap gval := copying
  [("GracefulShutdownSeconds", dup_ptr); ("HealthInitialDelaySeconds", dup_ptr)].
Definition ObservedRuntime_DeepCopyInto : gval → M heap gval := copying
  [("TerminationGracePeriodSeconds", dup_ptr); ("ContainerImages", dup_slice);
  ("HealthProbeInitialDelaySeconds", dup_ptr)].
Definition ScalingInfo_DeepCopyInto : gval → M heap gval := copying
  [("Replicas", dup_ptr); ("Min", dup_ptr); ("Max", dup_ptr)].
Definition EndpointCheckResult_DeepCopyInto : gval → M heap gval := copying [].
Definition EndpointsStatus_DeepCopyInto : gval → M heap gval := copying
  [("Health", dup_ptr); ("Metrics", dup_ptr)].
Definition ValidationIssue_DeepCopyInto : gval → M heap gval := copying [].
Definition ValidationResult_DeepCopyInto : gval → M heap gval := copying
  [("Errors", dup_slice); ("Warnings", dup_slice)].
Definition PactoStatus_DeepCopyInto : gval → M heap gval := copying
  [("Summary", dup_ptr); ("Contract", dup_ptr_with ContractInfo_DeepCopyInto);
  ("Validation", dup_ptr_with ValidationResult_DeepCopyInto);
  ("Resources", dup_ptr_with ResourcesStatus_DeepCopyInto);
  ("Ports", dup_ptr_with PortStatus_DeepCopyInto);
  ("Endpoints", dup_ptr_with EndpointsStatus_DeepCopyInto);
  ("Interfaces", dup_slice_with InterfaceInfo_DeepCopyInto);
  ("Configurations", dup_slice_with ConfigurationInfo_DeepCopyInto);
  ("Dependencies", dup_slice); ("Policies", dup_slice_with PolicyInfo_DeepCopyInto);
  ("Runtime", dup_ptr_with RuntimeInfo_DeepCopyInto);
  ("ObservedRuntime", dup_ptr_with ObservedRuntime_DeepCopyInto);
  ("Scaling", dup_ptr_with ScalingInfo_DeepCopyInto);
  ("Readiness", dup_ptr_with ReadinessStatus_DeepCopyInto); ("Metadata", dup_map);
  ("Conditions", dup_slice_with Condition_DeepCopyInto); ("LastReconciledAt", unless_nil Time_DeepCopy)].
Definition Pacto_DeepCopyInto : gval → M heap gval := copying
  [("TypeMeta", assign); ("ObjectMeta", ObjectMeta_DeepCopyInto);
  ("Spec", PactoSpec_DeepCopyInto); ("Status", PactoStatus_DeepCopyInto)].
Definition PactoList_DeepCopyInto : gval → M heap gval := copying
  [("TypeMeta", assign); ("ListMeta", ListMeta_DeepCopyInto);
  ("Items", dup_slice_with Pacto_DeepCopyInto)].
Definition RevisionSource_DeepCopyInto : gval → M heap gval := copying [].
Definition PactoRevisionSpec_DeepCopyInto : gval → M heap gval := copying
  [("Source", assign)].
Definition PactoRevisionStatus_DeepCopyInto : gval → M heap gval := copying
  [("CreatedAt", unless_nil Time_DeepCopy); ("Conditions", dup_slice_with Condition_DeepCopyInto)].
Definition PactoRevision_DeepCopyInto : gval → M heap gval := copying
  [("TypeMeta", assign); ("ObjectMeta", ObjectMeta_DeepCopyInto); ("Spec", assign);
  ("Status", PactoRevisionStatus_DeepCopyInto)].
Definition PactoRevisionList_DeepCopyInto : gval → M heap gval := copying
  [("TypeMeta", assign); ("ListMeta", ListMeta_DeepCopyInto);
  ("Items", dup_slice_with PactoRevision_DeepCopyInto)].

Definition ContractRef_DeepCopy : gval → M heap gval := DeepCopy ContractRef_DeepCopyInto.
Definition WorkloadRef_DeepCopy : gval → M heap gval := DeepCopy WorkloadRef_DeepCopyInto.
Definition TargetRef_DeepCopy : gval → M heap gval := DeepCopy TargetRef_DeepCopyInto.
Definition ConfigurationOverride_DeepCopy : gval → M heap gval :=
  DeepCopy ConfigurationOverride_DeepCopyInto.
Definition ContractOverrides_DeepCopy : gval → M heap gval :=
  DeepCopy ContractOverrides_DeepCopyInto.
Definition PactoSpec_DeepCopy : gval → M heap gval := DeepCopy PactoSpec_DeepCopyInto.
Definition ResourceStatus_DeepCopy : gval → M heap gval := DeepCopy ResourceStatus_DeepCopyInto.
Definition PortStatus_DeepCopy : gval → M heap gval := DeepCopy PortStatus_DeepCopyInto.
Definition CheckSummary_DeepCopy : gval → M heap gval := DeepCopy CheckSummary_DeepCopyInto.
Definition ReadinessRevisionStatus_DeepCopy : gval → M heap gval :=
  DeepCopy ReadinessRevisionStatus_DeepCopyInto.
Definition ReadinessCheckStatus_DeepCopy : gval → M heap gval :=
  DeepCopy ReadinessCheckStatus_DeepCopyInto.
Definition ReadinessStatus_DeepCopy : gval → M heap gval := DeepCopy ReadinessStatus_DeepCopyInto.
Definition ResourcesStatus_DeepCopy : gval → M heap gval := DeepCopy ResourcesStatus_DeepCopyInto.
Definition OwnerContact_DeepCopy : gval → M heap gval := DeepCopy OwnerContact_DeepCopyInto.
Definition OwnerInfo_DeepCopy : gval → M heap gval := DeepCopy OwnerInfo_DeepCopyInto.
Definition ContractInfo_DeepCopy : gval → M heap gval := DeepCopy ContractInfo_DeepCopyInto.
Definition InterfaceInfo_DeepCopy : gval → M heap gval := DeepCopy InterfaceInfo_DeepCopyInto.
Definition SchemaProperty_DeepCopy : gval → M heap gval := DeepCopy SchemaProperty_DeepCopyInto.
Definition ConfigurationInfo_DeepCopy : gval → M heap gval :=
  DeepCopy ConfigurationInfo_DeepCopyInto.
Definition DependencyInfo_DeepCopy : gval → M heap gval := DeepCopy DependencyInfo_DeepCopyInto.
Definition PolicyInfo_DeepCopy : gval → M heap gval := DeepCopy PolicyInfo_DeepCopyInto.
Definition RuntimeInfo_DeepCopy : gval → M heap gval := DeepCopy RuntimeInfo_DeepCopyInto.
Definition ObservedRuntime_DeepCopy : gval → M heap gval := DeepCopy ObservedRuntime_DeepCopyInto.
Definition ScalingInfo_DeepCopy : gval → M heap gval := DeepCopy ScalingInfo_DeepCopyInto.
Definition EndpointCheckResult_DeepCopy : gval → M heap gval :=
  DeepCopy EndpointCheckResult_DeepCopyInto.
Definition EndpointsStatus_DeepCopy : gval → M heap gval := DeepCopy EndpointsStatus_DeepCopyInto.
Definition ValidationIssue_DeepCopy : gval → M heap gval := DeepCopy ValidationIssue_DeepCopyInto.
Definition ValidationResult_DeepCopy : gval → M heap gval :=
  DeepCopy ValidationResult_DeepCopyInto.
Definition PactoStatus_DeepCopy : gval → M heap gval := DeepCopy PactoStatus_DeepCopyInto.
Definition Pacto_DeepCopy : gval → M heap gval := DeepCopy Pacto_DeepCopyInto.
Definition PactoList_DeepCopy : gval → M heap gval := DeepCopy PactoList_DeepCopyInto.
Definition RevisionSource_DeepCopy : gval → M heap gval := DeepCopy RevisionSource_DeepCopyInto.
Definition PactoRevisionSpec_DeepCopy : gval → M heap gval :=
  DeepCopy PactoRevisionSpec_DeepCopyInto.
Definition PactoRevisionStatus_DeepCopy : gval → M heap gval :=
  DeepCopy PactoRevisionStatus_DeepCopyInto.
Definition PactoRevision_DeepCopy : gval → M heap gval := DeepCopy PactoRevision_DeepCopyInto.
Definition PactoRevisionList_DeepCopy : gval → M heap gval :=
  DeepCopy PactoRevisionList_DeepCopyInto.

Definition Pacto_DeepCopyObject : gval → M heap gval :=
  DeepCopyObject Pacto_DeepCopyInto.
Definition PactoList_DeepCopyObject : gval → M heap gval :=
  DeepCopyObject PactoList_DeepCopyInto.
Definition PactoRevision_DeepCopyObject : gval → M heap gval :=
  DeepCopyObject PactoRevision_DeepCopyInto.
Definition PactoRevisionList_DeepCopyObject : gval → M heap gval :=
  DeepCopyObject PactoRevisionList_DeepCopyInto.

(** All of them, with the types they are for. *)
Definition generated : list generated_row :=
  [(ContractRef_ty, ContractRef_DeepCopyInto, ContractRef_DeepCopy);
   (WorkloadRef_ty, WorkloadRef_DeepCopyInto, WorkloadRef_DeepCopy);
   (TargetRef_ty, TargetRef_DeepCopyInto, TargetRef_DeepCopy);
   (ConfigurationOverride_ty, ConfigurationOverride_DeepCopyInto, ConfigurationOverride_DeepCopy);
   (ContractOverrides_ty, ContractOverrides_DeepCopyInto, ContractOverrides_DeepCopy);
   (PactoSpec_ty, PactoSpec_DeepCopyInto, PactoSpec_DeepCopy);
   (ResourceStatus_ty, ResourceStatus_DeepCopyInto, ResourceStatus_DeepCopy);
   (PortStatus_ty, PortStatus_DeepCopyInto, PortStatus_DeepCopy);
   (CheckSummary_ty, CheckSummary_DeepCopyInto, CheckSummary_DeepCopy);
   (ReadinessRevisionStatus_ty, ReadinessRevisionStatus_DeepCopyInto, ReadinessRevisionStatus_DeepCopy);
   (ReadinessCheckStatus_ty, ReadinessCheckStatus_DeepCopyInto, ReadinessCheckStatus_DeepCopy);
   (ReadinessStatus_ty, ReadinessStatus_DeepCopyInto, ReadinessStatus_DeepCopy);
   (ResourcesStatus_ty, ResourcesStatus_DeepCopyInto, ResourcesStatus_DeepCopy);
   (OwnerContact_ty, OwnerContact_DeepCopyInto, OwnerContact_DeepCopy);
   (OwnerInfo_ty, OwnerInfo_DeepCopyInto, OwnerInfo_DeepCopy);
   (ContractInfo_ty, ContractInfo_DeepCopyInto, ContractInfo_DeepCopy);
   (InterfaceInfo_ty, InterfaceInfo_DeepCopyInto, InterfaceInfo_DeepCopy);
   (SchemaProperty_ty, SchemaProperty_DeepCopyInto, SchemaProperty_DeepCopy);
   (ConfigurationInfo_ty, ConfigurationInfo_DeepCopyInto, ConfigurationInfo_DeepCopy);
   (DependencyInfo_ty, DependencyInfo_DeepCopyInto, DependencyInfo_DeepCopy);
   (PolicyInfo_ty, PolicyInfo_DeepCopyInto, PolicyInfo_DeepCopy);
   (RuntimeInfo_ty, RuntimeInfo_DeepCopyInto, RuntimeInfo_DeepCopy);
   (ObservedRuntime_ty, ObservedRuntime_DeepCopyInto, ObservedRuntime_DeepCopy);
   (ScalingInfo_ty, ScalingInfo_DeepCopyInto, ScalingInfo_DeepCopy);
   (EndpointCheckResult_ty, EndpointCheckResult_DeepCopyInto, EndpointCheckResult_DeepCopy);
   (EndpointsStatus_ty, EndpointsStatus_DeepCopyInto, EndpointsStatus_DeepCopy);
   (ValidationIssue_ty, ValidationIssue_DeepCopyInto, ValidationIssue_DeepCopy);
   (ValidationResult_ty, ValidationResult_DeepCopyInto, ValidationResult_DeepCopy);
   (PactoStatus_ty, PactoStatus_DeepCopyInto, PactoStatus_DeepCopy);
   (Pacto_ty, Pacto_DeepCopyInto, Pacto_DeepCopy);
   (PactoList_ty, PactoList_DeepCopyInto, PactoList_DeepCopy);
   (RevisionSource_ty, RevisionSource_DeepCopyInto, RevisionSource_DeepCopy);
   (PactoRevisionSpec_ty, PactoRevisionSpec_DeepCopyInto, PactoRevisionSpec_DeepCopy);
   (PactoRevisionStatus_ty, PactoRevisionStatus_DeepCopyInto, PactoRevisionStatus_DeepCopy);
   (PactoRevision_ty, PactoRevision_DeepCopyInto, PactoRevision_DeepCopy);
   (PactoRevisionList_ty, PactoRevisionList_DeepCopyInto, PactoRevisionList_DeepCopy)].

Definition objects : list (ty * (gval → M heap gval)) :=
  [(Pacto_ty, Pacto_DeepCopyObject);
   (PactoList_ty, PactoList_DeepCopyObject);
   (PactoRevision_ty, PactoRevision_DeepCopyObject);
   (PactoRevisionList_ty, PactoRevisionList_DeepCopyObject)].
End resources.

(** ** What a value denotes *)

(** The data behind a value, without the memory it lies in. *)
Inductive tree :=
| XScalar (s : scalar)
| XNil
| XPtr (x : tree)
| XSlice (xs : list tree)
| XMap (m : gmap string string)
| XStruct (fields : list (string * tree)).

(** On the heap [h] the value [v] of type [t] denotes [x]. References may be shared. *)
Fixpoint denotes (t : ty) (h : heap) (v : gval) (x : tree) {struct t} : Prop :=
  match t with
  | TyScalar => ∃ s, v = VScalar s ∧ x = XScalar s
  | TyPtr t =>
      v = VRef None ∧ x = XNil ∨
      ∃ l w y, v = VRef (Some l) ∧ h !! l = Some (CVal w) ∧ x = XPtr y ∧ denotes t h w y
  | TySlice t =>
      v = VRef None ∧ x = XNil ∨
      ∃ l ws ys, v = VRef (Some l) ∧ h !! l = Some (CSlice ws) ∧ x = XSlice ys ∧
        Forall2 (denotes t h) ws ys
  | TyMap =>
      v = VRef None ∧ x = XNil ∨
      ∃ l m, v = VRef (Some l) ∧ h !! l = Some (CMap m) ∧ x = XMap m
  | TyStruct fields =>
      match v, x with
      | VStruct vs, XStruct xs =>
          (fix go (fs : list (string * ty)) vs xs {struct fs} : Prop :=
             match fs, vs, xs with
             | [], [], [] => True
             | (n, t) :: fs, (n1, w) :: vs, (n2, y) :: xs =>
                 (n1 = n ∧ n2 = n ∧ denotes t h w y) ∧ go fs vs xs
             | _, _, _ => False
             end) fields vs xs
      | _, _ => False
      end
  end.

(** No references: an assignment copies all of it. *)
Fixpoint flat (t : ty) : bool :=
  match t with
  | TyScalar => true
  | TyStruct fields =>
      (fix go (fs : list (string * ty)) : bool :=
         match fs with [] => true | (_, t) :: fs => flat t && go fs end) fields
  | _ => false
  end.

(** [f] makes deep copies at type [t]: it only adds cells, and its result denotes on the new
    cells alone what the original denotes. *)
Definition copies (t : ty) (f : gval → M heap gval) : Prop :=
  ∀ h v x, denotes t h v x →
    ∃ v' d, f v h = (Ret v', h ∪ d) ∧ d ##ₘ h ∧ denotes t d v' x.

(** The documented behaviour of the library's copy functions. *)
Class MetaLaws `{MetaTypes} := {
  TypeMeta_flat : flat TypeMeta_ty = true;
  ObjectMeta_copies : copies ObjectMeta_ty ObjectMeta_DeepCopyInto;
  ListMeta_copies : copies ListMeta_ty ListMeta_DeepCopyInto;
  Condition_copies : copies Condition_ty Condition_DeepCopyInto;
  Time_copies : copies (TyPtr Time_ty) (unless_nil Time_DeepCopy)
}.

(** ** Proofs *)

Lemma ty_forall_ind (P : ty → Prop) :
  P TyScalar → (∀ t, P t → P (TyPtr t)) → (∀ t, P t → P (TySlice t)) → P TyMap →
  (∀ fields, Forall (λ nt, P nt.2) fields → P (TyStruct fields)) → ∀ t, P t.
Proof.
  intros Hs Hp Hl Hm Hst. fix IH 1. intros [|t|t| |fields]; [done|by apply Hp|by apply Hl|done|].
  apply Hst. induction fields as [|[n t] fields IHf]; constructor; [apply IH|exact IHf].
Qed.

Abbreviation at_field h := (λ (nt : string * ty) (nv : string * gval) (nx : string * tree),
  (nv.1 = nt.1 ∧ nx.1 = nt.1 ∧ denotes nt.2 h nv.2 nx.2)).

Lemma denotes_struct fields h v x :
  denotes (TyStruct fields) h v x ↔
  ∃ vs xs, v = VStruct vs ∧ x = XStruct xs ∧ Forall3 (at_field h) fields vs xs.
Proof.
  cbn. split.
  - destruct v as [|?|vs], x as [| | | | |xs]; try done. intros Hgo. exists vs, xs.
    split_and!; [done..|]. revert vs xs Hgo.
    induction fields as [|[n t] fields IH]; intros [|[n1 w] vs] [|[n2 y] xs]; try done.
    + constructor.
    + intros [Hd Hgo]. constructor; [done|]. by apply IH.
  - intros (vs & xs & -> & -> & Hall). induction Hall as [|[n t] [n1 w] [n2 y] fs vs xs Hd _ IH];
      [done|]. by split.
Qed.

Lemma denotes_weaken t h h' v x : h ⊆ h' → denotes t h v x → denotes t h' v x.
Proof.
  intros Hsub. revert v x. induction t as [|t IH|t IH| |fields IH] using ty_forall_ind; intros v x.
  - done.
  - intros [?|(l & w & y & -> & Hl & -> & Hd)]; [by left|]. right.
    exists l, w, y. split_and!; [done|by eapply lookup_weaken|done|by apply IH].
  - intros [?|(l & ws & ys & -> & Hl & -> & Hd)]; [by left|]. right.
    exists l, ws, ys. split_and!; [done|by eapply lookup_weaken|done|].
    eapply Forall2_impl; [exact Hd|]. apply IH.
  - intros [?|(l & m & -> & Hl & ->)]; [by left|]. right.
    exists l, m. split_and!; [done|by eapply lookup_weaken|done].
  - rewrite !denotes_struct. intros (vs & xs & -> & -> & Hall). exists vs, xs.
    split_and!; [done..|]. induction Hall as [|[n t] [n1 w] [n2 y] fs vs xs Hd _ IHf];
      [constructor|].
    apply Forall_cons in IH as [IHt IH]. constructor; [|by apply IHf].
    destruct Hd as (? & ? & ?). split_and!; [done..|by apply IHt].
Qed.

Lemma denotes_flat t h h' v x : flat t = true → denotes t h v x → denotes t h' v x.
Proof.
  revert v x. induction t as [|t IH|t IH| |fields IH] using ty_forall_ind; intros v x Hf; try done.
  rewrite !denotes_struct. intros (vs & xs & -> & -> & Hall). exists vs, xs.
  split_and!; [done..|]. induction Hall as [|[n t] [n1 w] [n2 y] fs vs xs Hd _ IHf];
    [constructor|].
  cbn in Hf. apply andb_true_iff in Hf as [Hft Hf].
  apply Forall_cons in IH as [IHt IH]. constructor; [|by apply IHf].
  destruct Hd as (? & ? & ?). split_and!; [done..|by apply IHt].
Qed.

Lemma alloc_run c (h : heap) :
  ∃ l, h !! l = None ∧ alloc c h = (Ret l, h ∪ {[l := c]}).
Proof.
  exists (fresh (dom h)).
  assert (h !! fresh (dom h) = None) as Hl by apply not_elem_of_dom, is_fresh.
  split; [done|]. unfold alloc. cbv zeta. by rewrite insert_union_singleton_r.
Qed.

Lemma load_cell {A} (f : cell → option A) l a (h : heap) c :
  h !! l = Some c → f c = Some a → load f l h = (Ret a, h).
Proof. intros Hl Hf. unfold load. rewrite Hl. cbn. by rewrite Hf. Qed.

Lemma nothing_new (h : heap) : h ∪ ∅ = h ∧ (∅ : heap) ##ₘ h.
Proof. split; [apply map_union_empty|apply map_disjoint_empty_l]. Qed.

(** The last step of each [dup]: the filled cell [c] gets an address. *)
Lemma alloc_ref c (h d : heap) :
  d ##ₘ h →
  ∃ l d', (alloc c ≫= λ l, mret (VRef (Some l))) (h ∪ d) = (Ret (VRef (Some l)), h ∪ d') ∧
    d' ##ₘ h ∧ d ⊆ d' ∧ d' !! l = Some c.
Proof.
  intros Hd. destruct (alloc_run c (h ∪ d)) as (l & Hl & Hrun).
  apply lookup_union_None in Hl as [Hlh Hld].
  exists l, (d ∪ {[l := c]}). rewrite M_bind_unfold, Hrun. split_and!.
  - by rewrite map_union_assoc.
  - apply map_disjoint_union_l_2; [done|]. by apply map_disjoint_singleton_l_2.
  - apply map_union_subseteq_l.
  - rewrite lookup_union_r by done. apply lookup_singleton_eq.
Qed.

Lemma copies_assign t : flat t = true → copies t assign.
Proof.
  intros Hf h v x Hd. exists v, ∅. destruct (nothing_new h) as [-> ?].
  split_and!; [done..|]. by apply (denotes_flat t h).
Qed.

Lemma nil_run t f (h : heap) :
  denotes t ∅ (VRef None) XNil →
  ∃ v' d, unless_nil f (VRef None) h = (Ret v', h ∪ d) ∧ d ##ₘ h ∧ denotes t d v' XNil.
Proof.
  intros Hd. destruct (nothing_new h) as [E Hdis]. exists (VRef None), ∅.
  rewrite E. by split_and!.
Qed.

Lemma copies_ptr t f : copies t f → copies (TyPtr t) (dup_ptr_with f).
Proof.
  intros Hf h v x [[-> ->]|(l & w & y & -> & Hl & -> & Hd)].
  { apply nil_run. by left. }
  destruct (Hf h w y Hd) as (w' & d & Hrun & Hdis & Hd').
  destruct (alloc_ref (CVal w') h d Hdis) as (l' & d' & Hal & Hdis' & Hsub & Hl').
  exists (VRef (Some l')), d'. unfold dup_ptr_with. cbn [unless_nil].
  rewrite M_bind_unfold, (load_cell as_val l w h (CVal w) Hl eq_refl).
  rewrite M_bind_unfold, Hrun, Hal. split_and!; [done..|]. right.
  exists l', w', y. split_and!; [done..|]. by apply (denotes_weaken t d).
Qed.

Lemma mapM_heap_run t f h ws ys :
  copies t f → Forall2 (denotes t h) ws ys →
  ∃ ws' d, mapM_heap f ws h = (Ret ws', h ∪ d) ∧ d ##ₘ h ∧ Forall2 (denotes t d) ws' ys.
Proof.
  intros Hf Hall. revert h Hall. revert ys.
  induction ws as [|w ws IH]; intros ys h Hall.
  { inversion Hall; subst. exists [], ∅. destruct (nothing_new h) as [E ?].
    split_and!; [by rewrite E|done|constructor]. }
  apply Forall2_cons_inv_l in Hall as (y & ys' & Hw & Hall & ->).
  destruct (Hf h w y Hw) as (w' & d & Hrun & Hdis & Hd).
  destruct (IH ys' (h ∪ d)) as (ws' & d' & Hrun' & Hdis' & Hd').
  { eapply Forall2_impl; [exact Hall|]. intros a b. apply denotes_weaken, map_union_subseteq_l. }
  apply map_disjoint_union_r in Hdis' as [Hdh Hdd].
  exists (w' :: ws'), (d ∪ d'). cbn [mapM_heap].
  rewrite M_bind_unfold, Hrun, M_bind_unfold, Hrun'. split_and!.
  - by rewrite map_union_assoc.
  - by apply map_disjoint_union_l_2.
  - constructor.
    + eapply denotes_weaken, Hd. apply map_union_subseteq_l.
    + eapply Forall2_impl; [exact Hd'|]. intros a b.
      apply denotes_weaken, map_union_subseteq_r. by symmetry.
Qed.

Lemma copies_slice t f : copies t f → copies (TySlice t) (dup_slice_with f).
Proof.
  intros Hf h v x [[-> ->]|(l & ws & ys & -> & Hl & -> & Hd)].
  { apply nil_run. by left. }
  destruct (mapM_heap_run t f h ws ys Hf Hd) as (ws' & d & Hrun & Hdis & Hd').
  destruct (alloc_ref (CSlice ws') h d Hdis) as (l' & d' & Hal & Hdis' & Hsub & Hl').
  exists (VRef (Some l')), d'. unfold dup_slice_with. cbn [unless_nil].
  rewrite M_bind_unfold, (load_cell as_slice l ws h (CSlice ws) Hl eq_refl).
  rewrite M_bind_unfold, Hrun, Hal. split_and!; [done..|]. right.
  exists l', ws', ys. split_and!; [done..|].
  eapply Forall2_impl; [exact Hd'|]. intros a b. by apply denotes_weaken.
Qed.

Lemma copies_map : copies TyMap dup_map.
Proof.
  intros h v x [[-> ->]|(l & m & -> & Hl & ->)].
  { apply nil_run. by left. }
  destruct (nothing_new h) as [E Hdis].
  destruct (alloc_ref (CMap m) h ∅ Hdis) as (l' & d' & Hal & Hdis' & Hsub & Hl').
  rewrite E in Hal. exists (VRef (Some l')), d'. unfold dup_map. cbn [unless_nil].
  rewrite M_bind_unfold, (load_cell as_map l m h (CMap m) Hl eq_refl), Hal.
  split_and!; [done..|]. right. by exists l', m.
Qed.

(** *** Structs *)

Lemma field_None {A} n (fs : list (string * A)) : field n fs = None ↔ n ∉ fs.*1.
Proof.
  induction fs as [|[m a] fs IH]; cbn; [split; [intros _; apply not_elem_of_nil|done]|].
  rewrite not_elem_of_cons. case_bool_decide; [naive_solver|]. rewrite IH. naive_solver.
Qed.

Lemma field_elem {A} n a (fs : list (string * A)) : field n fs = Some a → (n, a) ∈ fs.
Proof.
  induction fs as [|[m b] fs IH]; cbn; [done|]. case_bool_decide as E.
  - intros [= ->]. subst. by left.
  - intros Hf. right. auto.
Qed.

Lemma field_Some {A} n a (fs : list (string * A)) :
  NoDup fs.*1 → field n fs = Some a ↔ (n, a) ∈ fs.
Proof.
  intros Hnd. split; [apply field_elem|].
  induction fs as [|[m b] fs IH]; [by intros ?%elem_of_nil|]. cbn in Hnd |- *.
  apply NoDup_cons in Hnd as [Hm Hnd]. rewrite elem_of_cons. intros [[= <- <-]|Hin].
  - by rewrite bool_decide_eq_true_2.
  - rewrite bool_decide_eq_false_2; [auto|]. intros ->. apply Hm.
    by apply (list_elem_of_fmap_2 fst) in Hin.
Qed.

Lemma set_field_names n v fs : (set_field n v fs).*1 = fs.*1.
Proof.
  induction fs as [|[m w] fs IH]; [done|]. cbn. case_bool_decide; cbn; by rewrite ?IH.
Qed.

Lemma field_set_eq n v fs : n ∈ fs.*1 → field n (set_field n v fs) = Some v.
Proof.
  induction fs as [|[m w] fs IH]; cbn; [by intros ?%elem_of_nil|].
  rewrite elem_of_cons. intros Hn. case_bool_decide as E; cbn.
  - by rewrite bool_decide_eq_true_2.
  - rewrite bool_decide_eq_false_2 by done. apply IH. by destruct Hn as [->|].
Qed.

Lemma field_set_ne n m v fs : n ≠ m → field n (set_field m v fs) = field n fs.
Proof.
  intros Hne. induction fs as [|[k w] fs IH]; [done|]. cbn. case_bool_decide as E; cbn.
  - subst. by rewrite !bool_decide_eq_false_2 by done.
  - by rewrite IH.
Qed.

(** Fields of a struct that denotes something. *)
Lemma fields_denote h fs vs xs :
  Forall3 (at_field h) fs vs xs →
  vs.*1 = fs.*1 ∧ xs.*1 = fs.*1 ∧
  ∀ n t, field n fs = Some t →
    ∃ w y, field n vs = Some w ∧ field n xs = Some y ∧ denotes t h w y.
Proof.
  induction 1 as [|[n t] [n1 w] [n2 y] fs vs xs (Hn1 & Hn2 & Hd) _ (Hvs & Hxs & IH)]; [done|].
  cbn in Hn1, Hn2, Hd. subst n1 n2. cbn. rewrite Hvs, Hxs. split_and!; [done..|].
  intros m u. case_bool_decide; [|apply IH]. intros [= <-]. by exists w, y.
Qed.

Lemma denote_fields h fs vs xs :
  NoDup fs.*1 → vs.*1 = fs.*1 → xs.*1 = fs.*1 →
  (∀ n t, field n fs = Some t →
     ∃ w y, field n vs = Some w ∧ field n xs = Some y ∧ denotes t h w y) →
  Forall3 (at_field h) fs vs xs.
Proof.
  revert vs xs. induction fs as [|[n t] fs IH]; intros [|[n1 w] vs] [|[n2 y] xs]; try done.
  { constructor. }
  cbn. rewrite NoDup_cons. intros [Hn Hnd] [= -> Hvs] [= -> Hxs] Hall. constructor.
  - specialize (Hall n t). rewrite bool_decide_eq_true_2 in Hall by done.
    destruct (Hall eq_refl) as (? & ? & [= <-] & [= <-] & Hd). by split_and!.
  - apply IH; [done..|]. intros m u Hm. specialize (Hall m u).
    assert (n ≠ m) as Hne.
    { intros ->. apply Hn, (list_elem_of_fmap_2 fst _ (m, u)), field_elem, Hm. }
    by rewrite !bool_decide_eq_false_2 in Hall; auto.
Qed.

(** Every step copies at the type of its field. *)
Definition step_fits (fs : list (string * ty)) (s : string * (gval → M heap gval)) : Prop :=
  match field s.1 fs with Some t => copies t s.2 | None => False end.

Lemma step_fits_intro fs n f t : field n fs = Some t → copies t f → step_fits fs (n, f).
Proof. intros Ht Hf. unfold step_fits. cbn. by rewrite Ht. Qed.

Lemma copy_steps_run fs steps h vs xs out :
  Forall3 (at_field h) fs vs xs → out.*1 = fs.*1 →
  NoDup steps.*1 → Forall (step_fits fs) steps →
  ∃ out' d, copy_steps steps vs out h = (Ret (VStruct out'), h ∪ d) ∧ d ##ₘ h ∧
    out'.*1 = fs.*1 ∧
    (∀ n, n ∉ steps.*1 → field n out' = field n out) ∧
    ∀ n t x, n ∈ steps.*1 → field n fs = Some t → field n xs = Some x →
      ∃ w, field n out' = Some w ∧ denotes t d w x.
Proof.
  revert h out. induction steps as [|[n f] steps IH]; intros h out Hall Hout Hnd Hfit.
  { exists out, ∅. destruct (nothing_new h) as [-> ?].
    split_and!; [done..|]. by intros n t x ?%elem_of_nil. }
  cbn in Hnd. apply NoDup_cons in Hnd as [Hn Hnd]. apply Forall_cons in Hfit as [Hf Hfit].
  destruct (fields_denote _ _ _ _ Hall) as (_ & _ & Hfields).
  unfold step_fits in Hf. cbn [fst snd] in Hf.
  destruct (field n fs) as [t|] eqn:Ht; [|done].
  destruct (Hfields n t Ht) as (w & y & Hw & Hy & Hd).
  destruct (Hf h w y Hd) as (w' & d & Hrun & Hdis & Hd').
  destruct (IH (h ∪ d) (set_field n w' out)) as (out' & d' & Hrun' & Hdis' & Hnames & Hold & Hnew);
    [|by rewrite set_field_names|done|done|].
  { eapply Forall3_impl; [exact Hall|]. intros a b c (? & ? & Hab). split_and!; [done..|].
    eapply denotes_weaken, Hab. apply map_union_subseteq_l. }
  apply map_disjoint_union_r in Hdis' as [Hdh Hdd].
  exists out', (d ∪ d'). cbn [copy_steps]. rewrite Hw, M_bind_unfold, Hrun, Hrun'.
  assert (d' ⊆ d ∪ d') as Hsub by by apply map_union_subseteq_r.
  split_and!; [by rewrite map_union_assoc|by apply map_disjoint_union_l_2|done|..].
  - intros m Hm. cbn in Hm. apply not_elem_of_cons in Hm as [Hne Hm].
    by rewrite Hold, field_set_ne.
  - intros m u x Hm Hu Hx. cbn in Hm. apply elem_of_cons in Hm as [->|Hm].
    + rewrite Ht in Hu. rewrite Hy in Hx. injection Hu as <-. injection Hx as <-.
      exists w'. rewrite Hold, field_set_eq; [|rewrite Hout|done].
      * split; [done|]. eapply denotes_weaken, Hd'. apply map_union_subseteq_l.
      * by apply (list_elem_of_fmap_2 fst _ (n, t)), field_elem.
    + destruct (Hnew m u x Hm Hu Hx) as (v & Hv & Hdv). exists v.
      split; [done|]. by apply (denotes_weaken u d').
Qed.

(** The fields without a step are flat. *)
Definition covers (fs : list (string * ty)) (names : list string) : bool :=
  forallb (λ nt, bool_decide (nt.1 ∈ names) || flat nt.2) fs.

Lemma copies_struct fs steps :
  bool_decide (NoDup fs.*1) = true → bool_decide (NoDup steps.*1) = true →
  covers fs steps.*1 = true → Forall (step_fits fs) steps →
  copies (TyStruct fs) (copying steps).
Proof.
  intros Hfs%bool_decide_eq_true Hsteps%bool_decide_eq_true Hcov Hfit h v x Hd.
  apply denotes_struct in Hd as (vs & xs & -> & -> & Hall). cbn [copying].
  destruct (fields_denote _ _ _ _ Hall) as (Hvs & Hxs & Hfields).
  destruct (copy_steps_run fs steps h vs xs vs Hall Hvs Hsteps Hfit)
    as (out & d & Hrun & Hdis & Hout & Hold & Hnew).
  exists (VStruct out), d. split_and!; [done..|]. apply denotes_struct.
  exists out, xs. split_and!; [done..|]. apply denote_fields; [done..|].
  intros n t Ht. destruct (Hfields n t Ht) as (w & y & Hw & Hy & Hd).
  destruct (decide (n ∈ steps.*1)) as [Hn|Hn].
  - destruct (Hnew n t y Hn Ht Hy) as (w' & Hw' & Hd'). by exists w', y.
  - exists w, y. rewrite Hold by done. split_and!; [done..|].
    apply (denotes_flat t h); [|done]. unfold covers in Hcov. rewrite forallb_elem in Hcov.
    specialize (Hcov _ (field_elem n t fs Ht)). cbn in Hcov.
    by rewrite bool_decide_eq_false_2 in Hcov.
Qed.

(** ** The theorem *)

(** Goes down a type and the function for it. *)
Ltac copies_go :=
  lazymatch goal with
  | |- copies ObjectMeta_ty _ => apply ObjectMeta_copies
  | |- copies ListMeta_ty _ => apply ListMeta_copies
  | |- copies Condition_ty _ => apply Condition_copies
  | |- copies (TyPtr Time_ty) _ => apply Time_copies
  | |- copies _ assign => apply copies_assign; first [reflexivity | apply TypeMeta_flat]
  | |- copies (TyPtr _) _ => apply copies_ptr; copies_go
  | |- copies (TySlice _) _ => apply copies_slice; copies_go
  | |- copies TyMap _ => apply copies_map
  | |- copies _ _ =>
      apply copies_struct; [reflexivity..|];
      repeat first
        [ apply Forall_nil_2
        | apply Forall_cons_2; [eapply step_fits_intro; [reflexivity|copies_go]|] ]
  end.

Section theorem.
Context `{MetaLaws}.

(** A function on pointers to values of type [t] that copies: it writes to no cell that
    existed; whatever is done to the copy afterwards the original stays, and whatever is
    done to the cells that existed before the copy stays, equal to the original. *)
Definition independent (t : ty) (f : gval → M heap gval) : Prop :=
  ∀ h p x, denotes (TyPtr t) h p x →
    ∃ p' h', f p h = (Ret p', h') ∧ h ⊆ h' ∧
      (∀ h2, (∀ l c, h !! l = Some c → h2 !! l = Some c) → denotes (TyPtr t) h2 p x) ∧
      (∀ h2, (∀ l, h !! l = None → h2 !! l = h' !! l) → denotes (TyPtr t) h2 p' x).

Lemma copies_independent t f : copies (TyPtr t) f → independent t f.
Proof.
  intros Hf h p x Hd. destruct (Hf h p x Hd) as (p' & d & Hrun & Hdis & Hd').
  exists p', (h ∪ d). split_and!; [done|apply map_union_subseteq_l|..].
  - intros h2 Hh2. apply (denotes_weaken _ h); [|done].
    apply map_subseteq_spec. intros l c. apply Hh2.
  - intros h2 Hh2. apply (denotes_weaken _ d); [|done].
    apply map_subseteq_spec. intros l c Hl.
    assert (h !! l = None) as Hn by by eapply map_disjoint_Some_l.
    by rewrite Hh2, lookup_union_r.
Qed.

Lemma DeepCopyObject_run f v h :
  DeepCopyObject f v h = DeepCopy f v h.
Proof.
  unfold DeepCopyObject. rewrite M_bind_unfold.
  destruct (DeepCopy f v h) as [[c|msg] h']; [|done]. by destruct c as [|[]|].
Qed.

Lemma generated_copy : Forall (λ row, copies row.1.1 row.1.2) generated.
Proof.
  unfold generated.
  repeat first [apply Forall_nil_2 | apply Forall_cons_2; [cbn [fst snd]; copies_go|]].
Qed.

Lemma generated_DeepCopy : Forall (λ row, row.2 = DeepCopy row.1.2) generated.
Proof. repeat constructor. Qed.

Lemma objects_DeepCopyObject :
  Forall (λ row, ∃ into, row.2 = DeepCopyObject into ∧ copies row.1 into) objects.
Proof.
  repeat first
    [ apply Forall_nil_2
    | apply Forall_cons_2; [eexists; split; [reflexivity|cbn [fst]; copies_go]|] ].
Qed.

(** C16 (safety). The generated copy functions fit the types: [DeepCopy] of each of the 36
    types, and [DeepCopyObject] of the four kinds, on any pointer to a value of the type,
    however its parts are shared, return an independent copy. A nil pointer gives nil. *)
Theorem copies_are_independent :
  Forall (λ row, independent row.1.1 row.2) generated ∧
  Forall (λ row, independent row.1 row.2) objects ∧
  Forall (λ row : generated_row, ∀ h, row.2 (VRef None) h = (Ret (VRef None), h)) generated.
Proof.
  pose proof generated_copy as Hcopy. pose proof generated_DeepCopy as Hdeep.
  pose proof objects_DeepCopyObject as Hobj. rewrite !Forall_forall in *. split_and!.
  - intros row Hrow. cbv beta. rewrite (Hdeep row Hrow).
    apply copies_independent, copies_ptr, (Hcopy row Hrow).
  - intros row Hrow. destruct (Hobj row Hrow) as (into & -> & Hinto).
    apply copies_independent. intros h v x Hd.
    destruct (copies_ptr _ _ Hinto h v x Hd) as (v' & d & Hrun & Hrest).
    exists v', d. by rewrite DeepCopyObject_run.
  - intros row Hrow. cbv beta. rewrite (Hdeep row Hrow). by intros h.
Qed.
End theorem.

(** *** Witness *)

Section examples.
(** A small version of the library's types. *)
Definition example_meta : MetaTypes := {|
  TypeMeta_ty := TyStruct [("Kind", TyScalar); ("APIVersion", TyScalar)];
  ObjectMeta_ty := TyStruct [("Name", TyScalar); ("Labels", TyMap)];
  ListMeta_ty := TyStruct [("ResourceVersion", TyScalar)];
  Condition_ty := TyStruct [("Type", TyScalar); ("Status", TyScalar)];
  Time_ty := TyScalar;
  ObjectMeta_DeepCopyInto := copying [("Labels", dup_map)];
  ListMeta_DeepCopyInto := copying [];
  Condition_DeepCopyInto := copying [];
  Time_DeepCopy := λ l,
    v ← load as_val l; v' ← assign v; l' ← alloc (CVal v'); mret (VRef (Some l')) |}.
#[local] Existing Instance example_meta.

#[local] Instance example_meta_laws : MetaLaws.
Proof.
  constructor.
  - reflexivity.
  - apply copies_struct; [reflexivity..|]. apply Forall_cons_2; [|apply Forall_nil_2].
    eapply step_fits_intro; [reflexivity|apply copies_map].
  - by apply copies_struct.
  - by apply copies_struct.
  - apply copies_ptr. by apply copies_assign.
Qed.

(** A target with its workload, on a heap; the workload is shared with another target. *)
Definition workload : gval :=
  VStruct [("Name", VScalar (SString "api")); ("Kind", VScalar (SString "Job"))].
Definition target : gval :=
  VStruct [("ServiceName", VScalar (SString "")); ("WorkloadRef", VRef (Some 1%positive))].
Definition example_heap : heap :=
  {[ 1%positive := CVal workload; 2%positive := CVal target; 3%positive := CVal target ]}.

Example target_ex :
  match TargetRef_DeepCopy (VRef (Some 2%positive)) example_heap with
  | (Ret (VRef (Some l)), h) => bool_decide (example_heap !! l = None) && (size h =? 5)%nat
  | _ => false
  end = true.
Proof. vm_compute. reflexivity. Qed.

Lemma copies_are_independent_witness :
  Forall (λ row, independent row.1.1 row.2) generated ∧
  Forall (λ row, independent row.1 row.2) objects ∧
  Forall (λ row : generated_row, ∀ h, row.2 (VRef None) h = (Ret (VRef None), h)) generated.
Proof. apply copies_are_independent. Defined.
End examples.

End DeepCopy.
